(** * MCP Server Builder: response interpretation and project scaffolding

    A shallow embedding of the decision logic of
      - src/generation/ResponseParser.ts  (extraction strategies, selector),
      - src/generation/Templates.ts       (TemplateRegistry.renderTemplate),
      - src/generation/CodeGenerator.ts   (validation and materialization),
      - src/commands/CreateServerCommand.ts (sanitizeName, ensureServerSuffix,
        slugify),
    together with the properties the specification states about them.

    JavaScript strings are modelled as lists of code units restricted to
    U+0000..U+00FF, one [ascii] per code unit.  On that alphabet the
    character classes of ECMAScript regular expressions, [String.trim] and
    [String.toLowerCase] are given exactly. *)

From Stdlib Require Import Ascii String List Bool Arith ZArith Lia.
From Stdlib Require Import DecimalString Permutation.
Import ListNotations.
Open Scope list_scope.
Open Scope bool_scope.

Set Implicit Arguments.
Set Warnings "-register-all".

(* ================================================================== *)
(** * Strings *)

Definition str := list ascii.

Definition lit (s : string) : str := list_ascii_of_string s.
Arguments lit s%_string.

Definition nl : ascii := "010"%char.
Definition dquote : ascii := "034"%char.

(** Test inputs are written with ['] for the double quote. *)
Definition jsq (s : string) : str :=
  map (fun c => if Ascii.eqb c "'"%char then dquote else c) (lit s).
Arguments jsq s%_string.

Definition code (c : ascii) : nat := nat_of_ascii c.

Definition in_range (lo hi : nat) (c : ascii) : bool :=
  (lo <=? code c) && (code c <=? hi).

(** ECMAScript [LineTerminator] below U+0100: LF, CR. *)
Definition is_line_terminator (c : ascii) : bool :=
  (code c =? 10) || (code c =? 13).

(** ECMAScript [WhiteSpace] and [LineTerminator] below U+0100 (the class
    [\s], also what [trim] strips): TAB, LF, VT, FF, CR, SP, NBSP. *)
Definition is_space (c : ascii) : bool :=
  in_range 9 13 c || (code c =? 32) || (code c =? 160).

Definition is_digit (c : ascii) : bool := in_range 48 57 c.
Definition is_lower (c : ascii) : bool := in_range 97 122 c.
Definition is_upper (c : ascii) : bool := in_range 65 90 c.

(** The class [\w]. *)
Definition is_word (c : ascii) : bool :=
  is_lower c || is_upper c || is_digit c || (code c =? 95).

(** [.] without the [s] flag. *)
Definition is_dot (c : ascii) : bool := negb (is_line_terminator c).

(** [[\s\S]]. *)
Definition is_any (c : ascii) : bool := true.

Definition is_char (a : ascii) (c : ascii) : bool := Ascii.eqb a c.
Arguments is_char : simpl never.

(** [toLowerCase] on one code unit below U+0100: A-Z and the Latin-1
    capitals U+00C0..U+00DE (without the multiplication sign U+00D7). *)
Definition lower_char (c : ascii) : ascii :=
  if is_upper c || (in_range 192 222 c && negb (code c =? 215))
  then ascii_of_nat (code c + 32) else c.

Definition toLowerCase (s : str) : str := map lower_char s.

Fixpoint trimStart (s : str) : str :=
  match s with
  | c :: t => if is_space c then trimStart t else s
  | [] => []
  end.

Definition trimEnd (s : str) : str := rev (trimStart (rev s)).

Definition trim (s : str) : str := trimEnd (trimStart s).

Fixpoint str_eqb (a b : str) : bool :=
  match a, b with
  | [], [] => true
  | x :: a', y :: b' => Ascii.eqb x y && str_eqb a' b'
  | _, _ => false
  end.

Fixpoint startsWith (p s : str) : bool :=
  match p, s with
  | [], _ => true
  | x :: p', y :: s' => Ascii.eqb x y && startsWith p' s'
  | _ :: _, [] => false
  end.

Definition endsWith (p s : str) : bool := startsWith (rev p) (rev s).

(** [s.indexOf(p)]: the first index at which [p] occurs, [None] for -1. *)
Fixpoint indexOf (p s : str) : option nat :=
  if startsWith p s then Some 0
  else match s with
       | [] => None
       | _ :: t => option_map S (indexOf p t)
       end.

Definition includes (p s : str) : bool :=
  match indexOf p s with Some _ => true | None => false end.

(** [s.lastIndexOf(p)]. *)
Fixpoint lastIndexOf (p s : str) : option nat :=
  match s with
  | [] => if startsWith p s then Some 0 else None
  | _ :: t =>
      match lastIndexOf p t with
      | Some i => Some (S i)
      | None => if startsWith p s then Some 0 else None
      end
  end.

(** [s.substring(a, b)] for [a <= b]. *)
Definition substring (a b : nat) (s : str) : str := firstn (b - a) (skipn a s).

(* ================================================================== *)
(** * Regular expressions

    The fragment of ECMAScript regular expressions the sources use:
    literals, character classes, quantified character classes (greedy and
    lazy, with bounds), sequence, alternation, optional and capturing
    groups, positive lookahead and the anchors, matched by backtracking
    with the priorities of the language. *)

Inductive re : Type :=
| Eps
| Chr (p : ascii -> bool)
| Rep (greedy : bool) (lo : nat) (hi : option nat) (p : ascii -> bool)
| Seq (a b : re)
| Alt (a b : re)
| Opt (a : re)
| Cap (i : nat) (a : re)
| Ahead (a : re)
| Bol (multiline : bool)
| Eol (multiline : bool).

Fixpoint Str (s : str) : re :=
  match s with
  | [] => Eps
  | c :: t => Seq (Chr (is_char c)) (Str t)
  end.

Definition Lit (s : string) : re := Str (lit s).
Arguments Lit s%_string.

Definition star (p : ascii -> bool) : re := Rep true 0 None p.
Definition plus (p : ascii -> bool) : re := Rep true 1 None p.
Definition lazy_star (p : ascii -> bool) : re := Rep false 0 None p.
Definition lazy_plus (p : ascii -> bool) : re := Rep false 1 None p.

Fixpoint seqs (l : list re) : re :=
  match l with
  | [] => Eps
  | [a] => a
  | a :: t => Seq a (seqs t)
  end.

Fixpoint alts (l : list re) : re :=
  match l with
  | [] => Eps
  | [a] => a
  | a :: t => Alt a (alts t)
  end.

(** A position of the matcher in the input: the code unit before it, its
    index, the rest of the input, and the captures made so far. *)
Record mstate : Type := MS {
  prev : option ascii;
  pos : nat;
  rest : str;
  caps : list (nat * str)
}.

Definition set_cap (i : nat) (v : str) (st : mstate) : mstate :=
  MS (prev st) (pos st) (rest st) ((i, v) :: caps st).

Definition with_caps (st : mstate) (cs : list (nat * str)) : mstate :=
  MS (prev st) (pos st) (rest st) cs.

Fixpoint get_cap (i : nat) (cs : list (nat * str)) : option str :=
  match cs with
  | [] => None
  | (j, v) :: t => if i =? j then Some v else get_cap i t
  end.

Definition at_bol (m : bool) (st : mstate) : bool :=
  match prev st with
  | None => true
  | Some c => m && is_line_terminator c
  end.

Definition at_eol (m : bool) (st : mstate) : bool :=
  match rest st with
  | [] => true
  | c :: _ => m && is_line_terminator c
  end.

Definition room (hi : option nat) : bool :=
  match hi with None => true | Some h => negb (h =? 0) end.

Definition less (hi : option nat) : option nat :=
  match hi with None => None | Some h => Some (pred h) end.

(** A quantified character class followed by the continuation [k]:
    greedy tries one more code unit first, lazy tries to stop first. *)
Fixpoint rep (g : bool) (p : ascii -> bool) (lo : nat) (hi : option nat)
    (k : mstate -> option mstate)
    (pv : option ascii) (ps : nat) (cs : list (nat * str)) (s : str)
    {struct s} : option mstate :=
  let stop (_ : unit) := if lo =? 0 then k (MS pv ps s cs) else None in
  let more (_ : unit) :=
    match s with
    | c :: t =>
        if p c && room hi
        then rep g p (pred lo) (less hi) k (Some c) (S ps) cs t
        else None
    | [] => None
    end in
  if g
  then match more tt with Some r => Some r | None => stop tt end
  else match stop tt with Some r => Some r | None => more tt end.

Fixpoint mt (r : re) (k : mstate -> option mstate) (st : mstate)
    {struct r} : option mstate :=
  match r with
  | Eps => k st
  | Chr p =>
      match rest st with
      | c :: t => if p c then k (MS (Some c) (S (pos st)) t (caps st)) else None
      | [] => None
      end
  | Rep g lo hi p => rep g p lo hi k (prev st) (pos st) (caps st) (rest st)
  | Seq a b => mt a (mt b k) st
  | Alt a b =>
      match mt a k st with
      | Some e => Some e
      | None => mt b k st
      end
  | Opt a =>
      match mt a k st with
      | Some e => Some e
      | None => k st
      end
  | Cap i a =>
      mt a (fun e => k (set_cap i (firstn (pos e - pos st) (rest st)) e)) st
  | Ahead a =>
      match mt a Some st with
      | Some e => k (with_caps st (caps e))
      | None => None
      end
  | Bol m => if at_bol m st then k st else None
  | Eol m => if at_eol m st then k st else None
  end.

(** One match: where it starts, its text, its captures and the position
    after it. *)
Record mres : Type := MR {
  m_start : nat;
  m_text : str;
  m_caps : list (nat * str);
  m_end : mstate
}.

Definition group (i : nat) (m : mres) : option str := get_cap i (m_caps m).

(** [RegExp.prototype.exec] from a position on: the leftmost position at
    which the pattern matches. *)
Fixpoint exec_from (r : re) (pv : option ascii) (ps : nat) (s : str)
    {struct s} : option mres :=
  match mt r Some (MS pv ps s []) with
  | Some e => Some (MR ps (firstn (pos e - ps) s) (caps e) e)
  | None =>
      match s with
      | [] => None
      | c :: t => exec_from r (Some c) (S ps) t
      end
  end.

Definition exec_at (r : re) (st : mstate) : option mres :=
  exec_from r (prev st) (pos st) (rest st).

Definition start_state (s : str) : mstate := MS None 0 s [].

(** [s.match(r)] for a pattern without the [g] flag. *)
Definition rmatch (r : re) (s : str) : option mres := exec_at r (start_state s).

(** Where the next search of a global pattern starts: after the match,
    one code unit further when the match was empty ([None] past the end). *)
Definition next_start (m : mres) : option mstate :=
  let e := m_end m in
  if pos e =? m_start m
  then match rest e with
       | [] => None
       | c :: t => Some (MS (Some c) (S (pos e)) t [])
       end
  else Some (with_caps e []).

(** Every match of a global pattern, left to right: [s.match(r)] for a
    pattern with the [g] flag, and the matches that a loop over
    [r.exec(s)] goes through when no match is empty. *)
Fixpoint matches_from (fuel : nat) (r : re) (st : mstate) : list mres :=
  match fuel with
  | 0 => []
  | S f =>
      match exec_at r st with
      | None => []
      | Some m =>
          m :: match next_start m with
               | None => []
               | Some st' => matches_from f r st'
               end
      end
  end.

Definition matchAll (r : re) (s : str) : list mres :=
  matches_from (S (length s)) r (start_state s).

(** [GetSubstitution] for a pattern without capture groups: [$$], [$&],
    [$`] and [$'] are expanded, every other code unit is literal. *)
Fixpoint GetSubstitution (matched before after : str) (repl : str) : str :=
  match repl with
  | [] => []
  | c :: t =>
      if Ascii.eqb c "$"%char then
        match t with
        | d :: t' =>
            if Ascii.eqb d "$"%char then "$"%char :: GetSubstitution matched before after t'
            else if Ascii.eqb d "&"%char then matched ++ GetSubstitution matched before after t'
            else if Ascii.eqb d "`"%char then before ++ GetSubstitution matched before after t'
            else if Ascii.eqb d "'"%char then after ++ GetSubstitution matched before after t'
            else c :: GetSubstitution matched before after t
        | [] => [c]
        end
      else c :: GetSubstitution matched before after t
  end.

(** [s.replace(r, repl)] for a global pattern [r] without capture groups.
    [done] is the input before the current position, reversed. *)
Fixpoint replace_from (fuel : nat) (r : re) (repl : str)
    (done : str) (st : mstate) : str :=
  match fuel with
  | 0 => rest st
  | S f =>
      match exec_at r st with
      | None => rest st
      | Some m =>
          let skipped := firstn (m_start m - pos st) (rest st) in
          let before := rev done ++ skipped in
          let out := skipped ++
                     GetSubstitution (m_text m) before (rest (m_end m)) repl in
          match m_text m, rest (m_end m) with
          | [], [] => out
          | [], c :: t =>
              out ++ c :: replace_from f r repl (c :: rev before)
                                       (MS (Some c) (S (pos (m_end m))) t [])
          | _ :: _, _ =>
              out ++ replace_from f r repl (rev (m_text m) ++ rev before)
                                  (with_caps (m_end m) [])
          end
      end
  end.

Definition replaceAll (r : re) (repl : str) (s : str) : str :=
  replace_from (S (length s)) r repl [] (start_state s).

(** [s.replace(p, repl)] for a string pattern [p]: the first occurrence. *)
Definition replaceFirst (p repl : str) (s : str) : str :=
  match indexOf p s with
  | None => s
  | Some i =>
      firstn i s ++
      GetSubstitution p (firstn i s) (skipn (i + length p) s) repl ++
      skipn (i + length p) s
  end.

(* ================================================================== *)
(** * JavaScript values *)

(** What [JSON.parse] returns.  A number keeps its lexeme. *)
Inductive json : Type :=
| JNull
| JBool (b : bool)
| JNum (lexeme : str)
| JStr (s : str)
| JArr (items : list json)
| JObj (fields : list (str * json)).

(** A JavaScript value of the kinds that occur here; [None] is
    [undefined]. *)
Definition jsval := option json.

Definition undefined : jsval := None.
Definition jstr (s : str) : jsval := Some (JStr s).

Inductive jstype : Type :=
| TUndefined | TObject | TBoolean | TNumber | TString.

Definition typeof (v : jsval) : jstype :=
  match v with
  | None => TUndefined
  | Some JNull => TObject
  | Some (JBool _) => TBoolean
  | Some (JNum _) => TNumber
  | Some (JStr _) => TString
  | Some (JArr _) => TObject
  | Some (JObj _) => TObject
  end.

Definition is_string (v : jsval) : bool :=
  match typeof v with TString => true | _ => false end.

Definition is_object (v : jsval) : bool :=
  match typeof v with TObject => true | _ => false end.

Definition is_undefined (v : jsval) : bool :=
  match v with None => true | Some _ => false end.

(** The digits of a number lexeme before the exponent, read as one
    integer [m], with the count of the digits behind the point taken off
    the scale; what is left is the exponent part. *)
Fixpoint significand (l : str) (m scale : Z) (fraction : bool)
    : Z * Z * str :=
  match l with
  | c :: t =>
      if is_digit c
      then significand t (10 * m + Z.of_nat (code c - 48))
             (if fraction then scale - 1 else scale) fraction
      else if is_char "." c then significand t m scale true
      else if is_char "-" c then significand t m scale fraction
      else (m, scale, l)
  | [] => (m, scale, [])
  end.

Fixpoint digits_Z (s : str) (acc : Z) : Z :=
  match s with
  | c :: t => digits_Z t (10 * acc + Z.of_nat (code c - 48))
  | [] => acc
  end.

(** The exponent part of a number lexeme: nothing, or the letter, a sign
    or none, and digits. *)
Definition exponent (l : str) : Z :=
  match l with
  | _ :: sign :: t =>
      if is_char "-" sign then (- digits_Z t 0)%Z
      else if is_char "+" sign then digits_Z t 0
      else digits_Z (sign :: t) 0
  | _ => 0%Z
  end.

(** The number of a lexeme is zero: its digits are all zero, or its
    value [m * 10 ^ e] is at most [2 ^ -1075], half of the least double
    above zero, and is rounded to zero. *)
Definition zero_lexeme (l : str) : bool :=
  let '(m, scale, r) := significand l 0 0 false in
  let e := (scale + exponent r)%Z in
  (m =? 0)%Z || ((e <? 0)%Z && (m * 2 ^ 1075 <=? 10 ^ (- e))%Z).

(** [ToBoolean]. *)
Definition truthy (v : jsval) : bool :=
  match v with
  | None => false
  | Some JNull => false
  | Some (JBool b) => b
  | Some (JNum l) => negb (zero_lexeme l)
  | Some (JStr s) => match s with [] => false | _ :: _ => true end
  | Some (JArr _) => true
  | Some (JObj _) => true
  end.

(** [a || b]. *)
Definition jor (a b : jsval) : jsval := if truthy a then a else b.

(** Lookup in the fields of a parsed object: a later duplicate wins. *)
Fixpoint lookup_last (name : str) (fs : list (str * json)) : jsval :=
  match fs with
  | [] => None
  | (k, v) :: t =>
      match lookup_last name t with
      | Some w => Some w
      | None => if str_eqb name k then Some v else None
      end
  end.

(** [data.name] for a parsed value [data]. *)
Definition prop (name : string) (data : jsval) : jsval :=
  match data with
  | Some (JObj fs) => lookup_last (lit name) fs
  | _ => None
  end.
Arguments prop name%_string data.

(** A [Record<string, string>] built by assignments [o[k] = v]: the newest
    binding first.  Assigning a string to [__proto__] creates no
    property. *)
Definition record := list (str * str).

Definition record_set (k v : str) (o : record) : record :=
  if str_eqb k (lit "__proto__") then o else (k, v) :: o.

Fixpoint record_get (k : str) (o : record) : option str :=
  match o with
  | [] => None
  | (k', v) :: t => if str_eqb k k' then Some v else record_get k t
  end.

(** [o.name] as a JavaScript value. *)
Definition field (name : string) (o : record) : jsval :=
  option_map JStr (record_get (lit name) o).
Arguments field name%_string o.

(** What a call produces: a value or a thrown [Error] with its message. *)
Inductive Result (A : Type) : Type :=
| Return (a : A)
| Throw (message : str).
Arguments Return {A} a.
Arguments Throw {A} message.

(* ================================================================== *)
(** * JSON.parse

    The JSON grammar of ECMA-404 on the modelled alphabet; [None] is the
    thrown [SyntaxError].  A [\u] escape above U+00FF denotes a code unit
    outside the alphabet and is not accepted. *)

Definition json_ws (c : ascii) : bool :=
  (code c =? 32) || (code c =? 9) || (code c =? 10) || (code c =? 13).

Fixpoint skip_ws (s : str) : str :=
  match s with
  | c :: t => if json_ws c then skip_ws t else s
  | [] => []
  end.

Definition hex_val (c : ascii) : option nat :=
  if is_digit c then Some (code c - 48)
  else if in_range 97 102 c then Some (code c - 87)
  else if in_range 65 70 c then Some (code c - 55)
  else None.

Definition unescape (c : ascii) : option ascii :=
  if is_char dquote c then Some dquote
  else if is_char "\" c then Some "\"%char
  else if is_char "/" c then Some "/"%char
  else if is_char "b" c then Some "008"%char
  else if is_char "f" c then Some "012"%char
  else if is_char "n" c then Some "010"%char
  else if is_char "r" c then Some "013"%char
  else if is_char "t" c then Some "009"%char
  else None.

(** The characters of a string literal after its opening quote.  The
    code units of the model are those below 256: an escape that names
    a code unit above 255 has no value here, and the literal is not
    read. *)
Fixpoint parse_chars (s : str) (acc : str) : option (str * str) :=
  match s with
  | [] => None
  | c :: t =>
      if is_char dquote c then Some (rev acc, t)
      else if code c <? 32 then None
      else if is_char "\" c then
        match t with
        | e :: t1 =>
            if is_char "u" e then
              match t1 with
              | h1 :: h2 :: h3 :: h4 :: t2 =>
                  match hex_val h1, hex_val h2, hex_val h3, hex_val h4 with
                  | Some 0, Some 0, Some a, Some b =>
                      parse_chars t2 (ascii_of_nat (16 * a + b) :: acc)
                  | _, _, _, _ => None
                  end
              | _ => None
              end
            else match unescape e with
                 | Some x => parse_chars t1 (x :: acc)
                 | None => None
                 end
        | [] => None
        end
      else parse_chars t (c :: acc)
  end.

Fixpoint take_digits (s : str) : str * str :=
  match s with
  | c :: t =>
      if is_digit c
      then let (d, r) := take_digits t in (c :: d, r)
      else ([], s)
  | [] => ([], [])
  end.

(** A number lexeme: an optional minus, an integer part without leading
    zero, an optional fraction and an optional exponent. *)
Definition parse_number (s : str) : option (str * str) :=
  let (sign, s1) :=
    match s with
    | c :: t => if is_char "-" c then ([c], t) else ([], s)
    | [] => ([], s)
    end in
  let (int, s2) := take_digits s1 in
  match int with
  | [] => None
  | d :: ds =>
      if is_char "0" d && negb (match ds with [] => true | _ => false end)
      then None
      else
        let frac :=
          match s2 with
          | c :: t =>
              if is_char "." c
              then let (f, r) := take_digits t in
                   match f with
                   | [] => None
                   | _ => Some (c :: f, r)
                   end
              else Some ([], s2)
          | [] => Some ([], s2)
          end in
        match frac with
        | None => None
        | Some (f, s3) =>
            let exp :=
              match s3 with
              | c :: t =>
                  if is_char "e" c || is_char "E" c
                  then
                    let (sg, t1) :=
                      match t with
                      | x :: t' =>
                          if is_char "+" x || is_char "-" x
                          then ([x], t') else ([], t)
                      | [] => ([], t)
                      end in
                    let (e, r) := take_digits t1 in
                    match e with
                    | [] => None
                    | _ => Some (c :: sg ++ e, r)
                    end
                  else Some ([], s3)
              | [] => Some ([], s3)
              end in
            match exp with
            | None => None
            | Some (e, s4) => Some (sign ++ int ++ f ++ e, s4)
            end
        end
  end.

Definition strip_prefix (p s : str) : option str :=
  if startsWith p s then Some (skipn (length p) s) else None.

(** A value, then the members of an object and the elements of an array
    after their opening bracket. *)
Fixpoint parse_value (fuel : nat) (s : str) : option (json * str) :=
  match fuel with
  | 0 => None
  | S f =>
      match skip_ws s with
      | [] => None
      | c :: t =>
          if is_char "{" c then
            match skip_ws t with
            | c1 :: t1 =>
                if is_char "}" c1 then Some (JObj [], t1)
                else match parse_members f (c1 :: t1) with
                     | Some (fs, r) => Some (JObj fs, r)
                     | None => None
                     end
            | [] => None
            end
          else if is_char "[" c then
            match skip_ws t with
            | c1 :: t1 =>
                if is_char "]" c1 then Some (JArr [], t1)
                else match parse_elements f (c1 :: t1) with
                     | Some (vs, r) => Some (JArr vs, r)
                     | None => None
                     end
            | [] => None
            end
          else if is_char dquote c then
            match parse_chars t [] with
            | Some (x, r) => Some (JStr x, r)
            | None => None
            end
          else if is_char "t" c then
            option_map (fun r => (JBool true, r)) (strip_prefix (lit "rue") t)
          else if is_char "f" c then
            option_map (fun r => (JBool false, r)) (strip_prefix (lit "alse") t)
          else if is_char "n" c then
            option_map (fun r => (JNull, r)) (strip_prefix (lit "ull") t)
          else
            match parse_number (c :: t) with
            | Some (l, r) => Some (JNum l, r)
            | None => None
            end
      end
  end
with parse_members (fuel : nat) (s : str) : option (list (str * json) * str) :=
  match fuel with
  | 0 => None
  | S f =>
      match skip_ws s with
      | c :: t =>
          if is_char dquote c then
            match parse_chars t [] with
            | Some (k, r) =>
                match skip_ws r with
                | c1 :: r1 =>
                    if is_char ":" c1 then
                      match parse_value f r1 with
                      | Some (v, r2) =>
                          match skip_ws r2 with
                          | c2 :: r3 =>
                              if is_char "," c2 then
                                match parse_members f r3 with
                                | Some (fs, r4) => Some ((k, v) :: fs, r4)
                                | None => None
                                end
                              else if is_char "}" c2 then Some ([(k, v)], r3)
                              else None
                          | [] => None
                          end
                      | None => None
                      end
                    else None
                | [] => None
                end
            | None => None
            end
          else None
      | [] => None
      end
  end
with parse_elements (fuel : nat) (s : str) : option (list json * str) :=
  match fuel with
  | 0 => None
  | S f =>
      match parse_value f s with
      | Some (v, r) =>
          match skip_ws r with
          | c :: r1 =>
              if is_char "," c then
                match parse_elements f r1 with
                | Some (vs, r2) => Some (v :: vs, r2)
                | None => None
                end
              else if is_char "]" c then Some ([v], r1)
              else None
          | [] => None
          end
      | None => None
      end
  end.

(** [JSON.parse(text)]: one value between optional white space. *)
Definition JSON_parse (text : str) : option json :=
  match parse_value (2 * length text + 2) text with
  | Some (v, r) => match skip_ws r with [] => Some v | _ :: _ => None end
  | None => None
  end.

(* ================================================================== *)
(** * src/generation/ResponseParser.ts *)

Record ParsedResponse : Type := {
  serverCode : jsval;
  packageJson : jsval;
  readme : jsval;
  installInstructions : jsval;
  usageExample : jsval;
  dependencies : jsval;
  devDependencies : jsval;
  scripts : jsval;
  additionalFiles : jsval
}.

Module BaseResponseParser.

  (** [/```json\s*([\s\S]*?)\s*```/] *)
Definition jsonFence : re :=
    seqs [Lit "```json"; star is_space; Cap 1 (lazy_star is_any);
          star is_space; Lit "```"].

  (** The loop of [findJsonObjects] from index [i] on; [startIdx] is
      [None] for -1. *)
Fixpoint findJsonObjects_loop (text : str) (todo : str) (i : nat)
      (braceCount : Z) (startIdx : option nat) : list str :=
    match todo with
    | [] => []
    | char :: t =>
        if is_char "{" char then
          findJsonObjects_loop text t (S i) (braceCount + 1)
            (if (braceCount =? 0)%Z then Some i else startIdx)
        else if is_char "}" char then
          let braceCount := (braceCount - 1)%Z in
          match (braceCount =? 0)%Z, startIdx with
          | true, Some start =>
              substring start (i + 1) text
                :: findJsonObjects_loop text t (S i) braceCount None
          | _, _ =>
              if (braceCount <? 0)%Z
              then findJsonObjects_loop text t (S i) 0%Z None
              else findJsonObjects_loop text t (S i) braceCount startIdx
          end
        else findJsonObjects_loop text t (S i) braceCount startIdx
    end.

Definition findJsonObjects (text : str) : list str :=
    findJsonObjects_loop text text 0 0%Z None.

Definition stringFields : list string :=
    ["serverCode"; "packageJson"; "readme"; "installInstructions";
     "usageExample"]%string.

Definition validateJsonStructure (data : jsval) : bool :=
    if negb (truthy data) || negb (is_object data) then false
    else
      let hasServerCode :=
        truthy (prop "serverCode" data)
        && is_string (prop "serverCode" data)
        && match prop "serverCode" data with
           | Some (JStr s) => 0 <? length (trim s)
           | _ => false
           end in
      let hasCodeInOtherFields :=
        truthy (jor (prop "packageJson" data)
               (jor (prop "readme" data)
               (jor (prop "installInstructions" data)
                    (prop "usageExample" data)))) in
      if negb hasServerCode && negb hasCodeInOtherFields then false
      else if existsb (fun f => negb (is_undefined (prop f data))
                                && negb (is_string (prop f data)))
                      stringFields then false
      else if negb (is_undefined (prop "dependencies" data))
              && negb (is_object (prop "dependencies" data)) then false
      else if negb (is_undefined (prop "devDependencies" data))
              && negb (is_object (prop "devDependencies" data)) then false
      else if negb (is_undefined (prop "scripts" data))
              && negb (is_object (prop "scripts" data)) then false
      else true.

  (** [JSON.parse] followed by the validity check, inside a [try]: [None]
      when either fails. *)
Definition parse_valid (text : str) : option json :=
    match JSON_parse text with
    | Some parsed =>
        if validateJsonStructure (Some parsed) then Some parsed else None
    | None => None
    end.

  (** The text handed to [JSON.parse] for the interior of a fence. *)
Definition cleanFence (interior : str) : str :=
    let jsonString := trim interior in
    match indexOf (lit "{") jsonString, lastIndexOf (lit "}") jsonString with
    | Some firstBrace, Some lastBrace =>
        if firstBrace <? lastBrace
        then substring firstBrace (lastBrace + 1) jsonString
        else jsonString
    | _, _ => jsonString
    end.

Definition fromFence (response : str) : option json :=
    match rmatch jsonFence response with
    | Some jsonMatch =>
        match group 1 jsonMatch with
        | Some interior => parse_valid (cleanFence interior)
        | None => None
        end
    | None => None
    end.

Fixpoint firstValid (jsonObjects : list str) : option json :=
    match jsonObjects with
    | [] => None
    | jsonObject :: more =>
        match parse_valid jsonObject with
        | Some parsed => Some parsed
        | None => firstValid more
        end
    end.

  (** [extractJson]; [None] is [null]. *)
Definition extractJson (response : str) : option json :=
    match trim response with
    | [] => None
    | _ :: _ =>
        match fromFence response with
        | Some parsed => Some parsed
        | None =>
            match firstValid (findJsonObjects response) with
            | Some parsed => Some parsed
            | None => parse_valid (trim response)
            end
        end
    end.

  (** [/```(\w+)?\s*([\s\S]*?)\s*```/g] *)
Definition codeBlockRegex : re :=
    seqs [Lit "```"; Opt (Cap 1 (plus is_word)); star is_space;
          Cap 2 (lazy_star is_any); star is_space; Lit "```"].

Definition group_or_empty (i : nat) (m : mres) : str :=
    match group i m with Some v => v | None => [] end.

Definition extractCodeBlocks (response : str) : record :=
    fold_left
      (fun codeBlocks m =>
         let language :=
           match group 1 m with
           | Some (c :: l) => c :: l
           | _ => lit "unknown"
           end in
         record_set language (group_or_empty 2 m) codeBlocks)
      (matchAll codeBlockRegex response) [].

  (** [/##\s+(.+?)\s*([\s\S]*?)(?=##\s+|$)/g] *)
Definition sectionRegex : re :=
    seqs [Lit "##"; plus is_space; Cap 1 (lazy_plus is_dot); star is_space;
          Cap 2 (lazy_star is_any);
          Ahead (Alt (Seq (Lit "##") (plus is_space)) (Eol false))].

  (** [name.toLowerCase().replace(/\s+/g, '_')] *)
Definition sectionName (name : str) : str :=
    replaceAll (plus is_space) (lit "_") (toLowerCase name).

Definition extractSections (response : str) : record :=
    fold_left
      (fun sections m =>
         record_set (sectionName (group_or_empty 1 m))
                    (trim (group_or_empty 2 m)) sections)
      (matchAll sectionRegex response) [].

Definition generateBasicReadme (serverName description : str) : str :=
    lit "# " ++ serverName ++ lit "

" ++ description ++ lit "

## Installation

```bash
npm install
```

## Usage

```bash
npm start
```

## Configuration

Add this server to your MCP client configuration.

## License

MIT".

Definition installTypescript : str := lit
"1. Install dependencies: `npm install`
2. Build the project: `npm run build`
3. Configure the server in your MCP client
4. Start the server: `npm start`".

Definition installJavascript : str := lit
"1. Install dependencies: `npm install`
2. Configure the server in your MCP client
3. Start the server: `npm start`".

Definition installPython : str := lit
"1. Install dependencies: `pip install -r requirements.txt`
2. Configure the server in your MCP client
3. Start the server: `python server.py`".

Definition generateBasicInstallInstructions (language : str) : str :=
    if str_eqb language (lit "typescript") then installTypescript
    else if str_eqb language (lit "javascript") then installJavascript
    else if str_eqb language (lit "python") then installPython
    else installTypescript.

Definition generateBasicUsageExample : str := lit
"// Example usage
const server = new MCPServer();
server.start();".

End BaseResponseParser.

(** The four strategies behind the interface [parse(response)]. *)
Inductive parser : Type :=
| JsonResponseParser
| MarkdownResponseParser
| TextResponseParser
| MixedResponseParser.

Module JsonResponseParser.
Import BaseResponseParser.

Definition fromJson (jsonData : jsval) : ParsedResponse :=
    {| serverCode := jor (prop "serverCode" jsonData) (jstr []);
       packageJson := prop "packageJson" jsonData;
       readme := prop "readme" jsonData;
       installInstructions := prop "installInstructions" jsonData;
       usageExample := prop "usageExample" jsonData;
       dependencies := prop "dependencies" jsonData;
       devDependencies := prop "devDependencies" jsonData;
       scripts := prop "scripts" jsonData;
       additionalFiles := prop "additionalFiles" jsonData |}.

Definition parse (response : str) : Result ParsedResponse :=
    match extractJson response with
    | None => Throw (lit "No valid JSON found in response")
    | Some jsonData => Return (fromJson (Some jsonData))
    end.

End JsonResponseParser.

Module MarkdownResponseParser.
Import BaseResponseParser.

  (** [/##\s+Server\s+Code\s*([\s\S]*?)(?=##|$)/] *)
Definition serverCodeSection : re :=
    seqs [Lit "##"; plus is_space; Lit "Server"; plus is_space; Lit "Code";
          star is_space; Cap 1 (lazy_star is_any);
          Ahead (Alt (Lit "##") (Eol false))].

  (** [/```(?:typescript|javascript|python)?\s*([\s\S]*?)\s*```/] *)
Definition languageBlock : re :=
    seqs [Lit "```";
          Opt (alts [Lit "typescript"; Lit "javascript"; Lit "python"]);
          star is_space; Cap 1 (lazy_star is_any); star is_space; Lit "```"].

Definition parse (response : str) : Result ParsedResponse :=
    let codeBlocks := extractCodeBlocks response in
    let sections := extractSections response in
    let serverCode :=
      match rmatch serverCodeSection response with
      | Some serverCodeMatch =>
          match rmatch languageBlock (group_or_empty 1 serverCodeMatch) with
          | Some codeBlockMatch => jstr (group_or_empty 1 codeBlockMatch)
          | None => jstr []
          end
      | None => jstr []
      end in
    let serverCode :=
      if negb (truthy serverCode) then
        if truthy (field "server_code" sections)
        then field "server_code" sections
        else if truthy (field "server" sections)
        then field "server" sections
        else if truthy (jor (field "typescript" codeBlocks)
                       (jor (field "javascript" codeBlocks)
                            (field "python" codeBlocks)))
        then jor (field "typescript" codeBlocks)
            (jor (field "javascript" codeBlocks)
            (jor (field "python" codeBlocks) (jstr [])))
        else if truthy (field "unknown" codeBlocks)
        then field "unknown" codeBlocks
        else serverCode
      else serverCode in
    let readme :=
      jor (field "readme" sections) (jor (field "read_me" sections) (jstr [])) in
    let readme :=
      if negb (truthy readme) && truthy (field "overview" sections)
      then field "overview" sections else readme in
    let installInstructions :=
      jor (field "installation" sections)
     (jor (field "setup" sections) (field "install" sections)) in
    let usageExample :=
      jor (field "usage" sections)
     (jor (field "example" sections) (field "how_to_use" sections)) in
    let additionalFiles :=
      if truthy (field "files" sections)
      then match field "files" sections with
           | Some (JStr files) => JSON_parse files
           | _ => undefined
           end
      else undefined in
    Return {| serverCode := serverCode;
              packageJson := undefined;
              readme := readme;
              installInstructions := installInstructions;
              usageExample := usageExample;
              dependencies := undefined;
              devDependencies := undefined;
              scripts := undefined;
              additionalFiles := additionalFiles |}.

End MarkdownResponseParser.

Module TextResponseParser.
Import BaseResponseParser.

Definition parse (response : str) : Result ParsedResponse :=
    let serverCode := trim response in
    Return {| serverCode := jstr serverCode;
              packageJson := undefined;
              readme := jstr (generateBasicReadme (lit "MCP Server")
                                (lit "A Model Context Protocol server"));
              installInstructions :=
                jstr (generateBasicInstallInstructions (lit "typescript"));
              usageExample := jstr generateBasicUsageExample;
              dependencies := undefined;
              devDependencies := undefined;
              scripts := undefined;
              additionalFiles := undefined |}.

End TextResponseParser.

Module MixedResponseParser.
Import BaseResponseParser.

  (** [/(?:import|const|function|class|def|export)\s+[\s\S]{50,}/] *)
Definition codeLike : re :=
    seqs [alts [Lit "import"; Lit "const"; Lit "function"; Lit "class";
                Lit "def"; Lit "export"];
          plus is_space; Rep true 50 None is_any].

Definition parse (response : str) : Result ParsedResponse :=
    let jsonData := extractJson response in
    let result :=
      match jsonData with
      | Some _ => JsonResponseParser.fromJson jsonData
      | None =>
          {| serverCode := jstr []; packageJson := undefined;
             readme := jstr []; installInstructions := jstr [];
             usageExample := jstr []; dependencies := undefined;
             devDependencies := undefined; scripts := undefined;
             additionalFiles := undefined |}
      end in
    let codeBlocks := extractCodeBlocks response in
    let languageCode :=
      jor (field "typescript" codeBlocks)
     (jor (field "javascript" codeBlocks) (field "python" codeBlocks)) in
    let serverCode1 :=
      if negb (truthy (serverCode result)) && truthy languageCode
      then jor languageCode (jstr [])
      else serverCode result in
    let sections := extractSections response in
    let readme1 :=
      if negb (truthy (readme result))
      then jor (field "readme" sections)
          (jor (field "read_me" sections)
          (jor (field "overview" sections) (jstr [])))
      else readme result in
    let install1 :=
      if negb (truthy (installInstructions result))
      then jor (field "installation" sections)
          (jor (field "setup" sections)
          (jor (field "install" sections) (jstr [])))
      else installInstructions result in
    let usage1 :=
      if negb (truthy (usageExample result))
      then jor (field "usage" sections)
          (jor (field "example" sections)
          (jor (field "how_to_use" sections) (jstr [])))
      else usageExample result in
    let serverCode2 :=
      if negb (truthy serverCode1) then
        match rmatch codeLike response with
        | Some codeMatch => jstr (m_text codeMatch)
        | None => jstr response
        end
      else serverCode1 in
    let readme2 :=
      if negb (truthy readme1)
      then jstr (generateBasicReadme (lit "MCP Server")
                   (lit "A Model Context Protocol server"))
      else readme1 in
    let install2 :=
      if negb (truthy install1)
      then jstr (generateBasicInstallInstructions (lit "typescript"))
      else install1 in
    let usage2 :=
      if negb (truthy usage1) then jstr generateBasicUsageExample
      else usage1 in
    Return {| serverCode := serverCode2;
              packageJson := packageJson result;
              readme := readme2;
              installInstructions := install2;
              usageExample := usage2;
              dependencies := dependencies result;
              devDependencies := devDependencies result;
              scripts := scripts result;
              additionalFiles := additionalFiles result |}.

End MixedResponseParser.

Module ResponseParserFactory.

  (** The method [parse] of a strategy. *)
Definition run (p : parser) (response : str) : Result ParsedResponse :=
    match p with
    | JsonResponseParser => JsonResponseParser.parse response
    | MarkdownResponseParser => MarkdownResponseParser.parse response
    | TextResponseParser => TextResponseParser.parse response
    | MixedResponseParser => MixedResponseParser.parse response
    end.

Definition getParser (type : str) : Result parser :=
    if str_eqb type (lit "json") then Return JsonResponseParser
    else if str_eqb type (lit "markdown") then Return MarkdownResponseParser
    else if str_eqb type (lit "text") then Return TextResponseParser
    else if str_eqb type (lit "mixed") then Return MixedResponseParser
    else Throw (lit "Unknown parser type: " ++ type).

  (** [/^\s*\{[\s\S]*\}\s*$/m] *)
Definition wholeObject : re :=
    seqs [Bol true; star is_space; Chr (is_char "{"); star is_any;
          Chr (is_char "}"); star is_space; Eol true].

Definition matches (r : re) (s : str) : bool :=
    match rmatch r s with Some _ => true | None => false end.

Definition autoDetectParser (response : str) : parser :=
    if includes (lit "```json") response || matches wholeObject response
    then JsonResponseParser
    else if includes (lit "##") response || includes (lit "```") response
    then MixedResponseParser
    else TextResponseParser.

Definition parse (response : str) : Result ParsedResponse :=
    run (autoDetectParser response) response.

End ResponseParserFactory.

(* ================================================================== *)
(** * src/generation/Templates.ts *)

Module TemplateRegistry.

Record Template : Type := {
  name : str;
  description : str;
  language : str;
  category : str;
  template : str;
  variables : list str
}.

  (** The map [templates], newest registration first. *)
Definition registry := list Template.

Definition addTemplate (t : Template) (templates : registry) : registry :=
    t :: templates.

Fixpoint getTemplate (templates : registry) (templateName : str)
      : option Template :=
    match templates with
    | [] => None
    | t :: more =>
        if str_eqb templateName (name t) then Some t
        else getTemplate more templateName
    end.

  (** [new RegExp(`{{\\s*${key}\\s*}}`, 'g')] for a key that is an
      identifier, as the keys of [TemplateVariables] are. *)
Definition variableRegex (key : str) : re :=
    seqs [Lit "{{"; star is_space; Str key; star is_space; Lit "}}"].

  (** [String(value || '')] for a value that is a string or undefined. *)
Definition valueString (value : option str) : str :=
    match value with Some v => v | None => [] end.

  (** The entries of the variables, in the order of [Object.entries]. *)
Definition substituteAll (body : str) (vars : list (str * option str)) : str :=
    fold_left
      (fun rendered kv =>
         replaceAll (variableRegex (fst kv)) (valueString (snd kv)) rendered)
      vars body.

  (** [/{{\s*[^}]+\s*}}/g] *)
Definition leftoverRegex : re :=
    seqs [Lit "{{"; star is_space; plus (fun c => negb (is_char "}" c));
          star is_space; Lit "}}"].

  (** [/{{\s*|\s*}}/g] *)
Definition bracesRegex : re :=
    Alt (Seq (Lit "{{") (star is_space)) (Seq (star is_space) (Lit "}}")).

Definition varNameOf (varMatch : str) : str :=
    replaceAll bracesRegex [] varMatch.

Definition optionalVariables : list str :=
    [lit "TOOLS"; lit "RESOURCES"; lit "PROMPTS"; lit "CUSTOM_CODE";
     lit "USAGE_EXAMPLE"].

Definition placeholder (varName : str) : str :=
    lit "/* TODO: Replace " ++ varName ++ lit " */".

Definition replaceLeftover (rendered varMatch : str) : str :=
    let varName := varNameOf varMatch in
    if existsb (str_eqb varName) optionalVariables
    then replaceFirst varMatch [] rendered
    else replaceFirst varMatch (placeholder varName) rendered.

Definition cleanLeftovers (rendered : str) : str :=
    fold_left replaceLeftover
      (map (@m_text) (matchAll leftoverRegex rendered)) rendered.

  (** [renderTemplate]; the calls of [console.warn] are left out. *)
Definition renderTemplate (templates : registry) (templateName : str)
      (vars : list (str * option str)) : Result str :=
    match getTemplate templates templateName with
    | None => Throw (lit "Template not found: " ++ templateName)
    | Some t => Return (cleanLeftovers (substituteAll (template t) vars))
    end.

Definition typescriptBasicBody : str := lit
"import { Server } from '@modelcontextprotocol/sdk/server/index.js';
import { StdioServerTransport } from '@modelcontextprotocol/sdk/server/stdio.js';
import {
  CallToolRequestSchema,
  ErrorCode,
  ListToolsRequestSchema,
  McpError,
} from '@modelcontextprotocol/sdk/types.js';

/**
 * {{DESCRIPTION}}
 */

{{SERVER_CODE}}

const server = new Server(
  {
    name: '{{SERVER_NAME}}',
    version: '1.0.0',
  },
  {
    capabilities: {
      tools: {},
    },
  }
);

// List available tools
server.setRequestHandler(ListToolsRequestSchema, async () => {
  return {
    tools: [
      {
        name: 'example_tool',
        description: 'An example tool that demonstrates the basic structure',
        inputSchema: {
          type: 'object',
          properties: {
            message: {
              type: 'string',
              description: 'A message to process',
            },
          },
          required: ['message'],
        },
      },
    ],
  };
});

// Handle tool calls
server.setRequestHandler(CallToolRequestSchema, async (request) => {
  const { name, arguments: args } = request.params;
  
  try {
    switch (name) {
      case 'example_tool':
        return {
          content: [
            {
              type: 'text',
              text: `Processed message: ${args.message}`,
            },
          ],
        };
      
      default:
        throw new McpError(ErrorCode.MethodNotFound, `Unknown tool: ${name}`);
    }
  } catch (error) {
    if (error instanceof McpError) {
      throw error;
    }
    throw new McpError(ErrorCode.InternalError, `Tool execution failed: ${error instanceof Error ? error.message : 'Unknown error'}`);
  }
});

async function main() {
  const transport = new StdioServerTransport();
  await server.connect(transport);
  console.error('{{SERVER_NAME}} MCP server running on stdio');
}

main().catch((error) => {
  console.error('Server failed to start:', error);
  process.exit(1);
});".

  (** [getTypeScriptBasicTemplate()] *)
Definition getTypeScriptBasicTemplate : Template :=
    {| name := lit "typescript-basic";
       description := lit "Basic TypeScript MCP server with minimal setup";
       language := lit "typescript";
       category := lit "basic";
       template := typescriptBasicBody;
       variables := [lit "SERVER_NAME"; lit "DESCRIPTION"; lit "SERVER_CODE"] |}.

  (** A text written with the mark for the double quote. *)
Definition quoted (mark : ascii) (s : string) : str :=
    map (fun c => if Ascii.eqb c mark then dquote else c) (lit s).
Arguments quoted mark%_char s%_string.

Definition typeScriptToolsBody : str := lit
"import { Server } from '@modelcontextprotocol/sdk/server/index.js';
import { StdioServerTransport } from '@modelcontextprotocol/sdk/server/stdio.js';
import {
  CallToolRequestSchema,
  ErrorCode,
  ListToolsRequestSchema,
  McpError,
} from '@modelcontextprotocol/sdk/types.js';

{{SERVER_CODE}}

const server = new Server(
  {
    name: '{{SERVER_NAME}}',
    version: '1.0.0',
  },
  {
    capabilities: {
      tools: {},
    },
  }
);

{{TOOLS}}

// List available tools
server.setRequestHandler(ListToolsRequestSchema, async () => {
  return {
    tools: tools.map(tool => ({
      name: tool.name,
      description: tool.description,
      inputSchema: tool.inputSchema,
    })),
  };
});

// Handle tool calls
server.setRequestHandler(CallToolRequestSchema, async (request) => {
  const { name, arguments: args } = request.params;
  
  try {
    const tool = tools.find(t => t.name === name);
    if (!tool) {
      throw new McpError(ErrorCode.MethodNotFound, `Unknown tool: ${name}`);
    }
    
    return await tool.handler(args);
  } catch (error) {
    if (error instanceof McpError) {
      throw error;
    }
    throw new McpError(ErrorCode.InternalError, `Tool execution failed: ${error instanceof Error ? error.message : 'Unknown error'}`);
  }
});

async function main() {
  const transport = new StdioServerTransport();
  await server.connect(transport);
  console.error('{{SERVER_NAME}} MCP server running on stdio');
}

main().catch((error) => {
  console.error('Server failed to start:', error);
  process.exit(1);
});".

  (** [getTypeScriptToolsTemplate()] *)
Definition getTypeScriptToolsTemplate : Template :=
    {| name := lit "typescript-tools";
       description := lit "TypeScript MCP server focused on providing tools";
       language := lit "typescript";
       category := lit "tools";
       template := typeScriptToolsBody;
       variables := [lit "SERVER_NAME"; lit "DESCRIPTION"; lit "SERVER_CODE"; lit "TOOLS"] |}.

Definition typeScriptResourcesBody : str := lit
"import { Server } from '@modelcontextprotocol/sdk/server/index.js';
import { StdioServerTransport } from '@modelcontextprotocol/sdk/server/stdio.js';
import {
  ListResourcesRequestSchema,
  ReadResourceRequestSchema,
  ErrorCode,
  McpError,
} from '@modelcontextprotocol/sdk/types.js';

{{SERVER_CODE}}

const server = new Server(
  {
    name: '{{SERVER_NAME}}',
    version: '1.0.0',
  },
  {
    capabilities: {
      resources: {},
    },
  }
);

{{RESOURCES}}

// List available resources
server.setRequestHandler(ListResourcesRequestSchema, async () => {
  return {
    resources: resources.map(resource => ({
      uri: resource.uri,
      name: resource.name,
      description: resource.description,
      mimeType: resource.mimeType,
    })),
  };
});

// Read resource content
server.setRequestHandler(ReadResourceRequestSchema, async (request) => {
  const { uri } = request.params;
  
  try {
    const resource = resources.find(r => r.uri === uri);
    if (!resource) {
      throw new McpError(ErrorCode.InvalidRequest, `Resource not found: ${uri}`);
    }
    
    return {
      contents: [
        {
          uri,
          mimeType: resource.mimeType,
          text: await resource.getContent(),
        },
      ],
    };
  } catch (error) {
    if (error instanceof McpError) {
      throw error;
    }
    throw new McpError(ErrorCode.InternalError, `Failed to read resource: ${error instanceof Error ? error.message : 'Unknown error'}`);
  }
});

async function main() {
  const transport = new StdioServerTransport();
  await server.connect(transport);
  console.error('{{SERVER_NAME}} MCP server running on stdio');
}

main().catch((error) => {
  console.error('Server failed to start:', error);
  process.exit(1);
});".

  (** [getTypeScriptResourcesTemplate()] *)
Definition getTypeScriptResourcesTemplate : Template :=
    {| name := lit "typescript-resources";
       description := lit "TypeScript MCP server focused on providing resources";
       language := lit "typescript";
       category := lit "resources";
       template := typeScriptResourcesBody;
       variables := [lit "SERVER_NAME"; lit "DESCRIPTION"; lit "SERVER_CODE"; lit "RESOURCES"] |}.

Definition typeScriptPromptsBody : str := lit
"import { Server } from '@modelcontextprotocol/sdk/server/index.js';
import { StdioServerTransport } from '@modelcontextprotocol/sdk/server/stdio.js';
import {
  ListPromptsRequestSchema,
  GetPromptRequestSchema,
  ErrorCode,
  McpError,
} from '@modelcontextprotocol/sdk/types.js';

{{SERVER_CODE}}

const server = new Server(
  {
    name: '{{SERVER_NAME}}',
    version: '1.0.0',
  },
  {
    capabilities: {
      prompts: {},
    },
  }
);

{{PROMPTS}}

// List available prompts
server.setRequestHandler(ListPromptsRequestSchema, async () => {
  return {
    prompts: prompts.map(prompt => ({
      name: prompt.name,
      description: prompt.description,
      arguments: prompt.arguments,
    })),
  };
});

// Get prompt content
server.setRequestHandler(GetPromptRequestSchema, async (request) => {
  const { name, arguments: args } = request.params;
  
  try {
    const prompt = prompts.find(p => p.name === name);
    if (!prompt) {
      throw new McpError(ErrorCode.InvalidRequest, `Prompt not found: ${name}`);
    }
    
    return await prompt.getContent(args);
  } catch (error) {
    if (error instanceof McpError) {
      throw error;
    }
    throw new McpError(ErrorCode.InternalError, `Failed to get prompt: ${error instanceof Error ? error.message : 'Unknown error'}`);
  }
});

async function main() {
  const transport = new StdioServerTransport();
  await server.connect(transport);
  console.error('{{SERVER_NAME}} MCP server running on stdio');
}

main().catch((error) => {
  console.error('Server failed to start:', error);
  process.exit(1);
});".

  (** [getTypeScriptPromptsTemplate()] *)
Definition getTypeScriptPromptsTemplate : Template :=
    {| name := lit "typescript-prompts";
       description := lit "TypeScript MCP server focused on providing prompts";
       language := lit "typescript";
       category := lit "prompts";
       template := typeScriptPromptsBody;
       variables := [lit "SERVER_NAME"; lit "DESCRIPTION"; lit "SERVER_CODE"; lit "PROMPTS"] |}.

Definition typeScriptAdvancedBody : str := lit
"import { Server } from '@modelcontextprotocol/sdk/server/index.js';
import { StdioServerTransport } from '@modelcontextprotocol/sdk/server/stdio.js';
import {
  CallToolRequestSchema,
  ListToolsRequestSchema,
  ListResourcesRequestSchema,
  ReadResourceRequestSchema,
  ListPromptsRequestSchema,
  GetPromptRequestSchema,
  ErrorCode,
  McpError,
} from '@modelcontextprotocol/sdk/types.js';

{{SERVER_CODE}}

const server = new Server(
  {
    name: '{{SERVER_NAME}}',
    version: '1.0.0',
  },
  {
    capabilities: {
      tools: {},
      resources: {},
      prompts: {},
    },
  }
);

{{TOOLS}}
{{RESOURCES}}
{{PROMPTS}}

// List available tools
server.setRequestHandler(ListToolsRequestSchema, async () => {
  return {
    tools: tools.map(tool => ({
      name: tool.name,
      description: tool.description,
      inputSchema: tool.inputSchema,
    })),
  };
});

// Handle tool calls
server.setRequestHandler(CallToolRequestSchema, async (request) => {
  const { name, arguments: args } = request.params;
  
  try {
    const tool = tools.find(t => t.name === name);
    if (!tool) {
      throw new McpError(ErrorCode.MethodNotFound, `Unknown tool: ${name}`);
    }
    
    return await tool.handler(args);
  } catch (error) {
    if (error instanceof McpError) {
      throw error;
    }
    throw new McpError(ErrorCode.InternalError, `Tool execution failed: ${error instanceof Error ? error.message : 'Unknown error'}`);
  }
});

// List available resources
server.setRequestHandler(ListResourcesRequestSchema, async () => {
  return {
    resources: resources.map(resource => ({
      uri: resource.uri,
      name: resource.name,
      description: resource.description,
      mimeType: resource.mimeType,
    })),
  };
});

// Read resource content
server.setRequestHandler(ReadResourceRequestSchema, async (request) => {
  const { uri } = request.params;
  
  try {
    const resource = resources.find(r => r.uri === uri);
    if (!resource) {
      throw new McpError(ErrorCode.InvalidRequest, `Resource not found: ${uri}`);
    }
    
    return {
      contents: [
        {
          uri,
          mimeType: resource.mimeType,
          text: await resource.getContent(),
        },
      ],
    };
  } catch (error) {
    if (error instanceof McpError) {
      throw error;
    }
    throw new McpError(ErrorCode.InternalError, `Failed to read resource: ${error instanceof Error ? error.message : 'Unknown error'}`);
  }
});

// List available prompts
server.setRequestHandler(ListPromptsRequestSchema, async () => {
  return {
    prompts: prompts.map(prompt => ({
      name: prompt.name,
      description: prompt.description,
      arguments: prompt.arguments,
    })),
  };
});

// Get prompt content
server.setRequestHandler(GetPromptRequestSchema, async (request) => {
  const { name, arguments: args } = request.params;
  
  try {
    const prompt = prompts.find(p => p.name === name);
    if (!prompt) {
      throw new McpError(ErrorCode.InvalidRequest, `Prompt not found: ${name}`);
    }
    
    return await prompt.getContent(args);
  } catch (error) {
    if (error instanceof McpError) {
      throw error;
    }
    throw new McpError(ErrorCode.InternalError, `Failed to get prompt: ${error instanceof Error ? error.message : 'Unknown error'}`);
  }
});

{{CUSTOM_CODE}}

async function main() {
  const transport = new StdioServerTransport();
  await server.connect(transport);
  console.error('{{SERVER_NAME}} MCP server running on stdio');
}

main().catch((error) => {
  console.error('Server failed to start:', error);
  process.exit(1);
});".

  (** [getTypeScriptAdvancedTemplate()] *)
Definition getTypeScriptAdvancedTemplate : Template :=
    {| name := lit "typescript-advanced";
       description := lit "Advanced TypeScript MCP server with tools, resources, and prompts";
       language := lit "typescript";
       category := lit "advanced";
       template := typeScriptAdvancedBody;
       variables := [lit "SERVER_NAME"; lit "DESCRIPTION"; lit "SERVER_CODE"; lit "TOOLS"; lit "RESOURCES"; lit "PROMPTS"; lit "CUSTOM_CODE"] |}.

Definition javaScriptBasicBody : str := lit
"import { Server } from '@modelcontextprotocol/sdk/server/index.js';
import { StdioServerTransport } from '@modelcontextprotocol/sdk/server/stdio.js';
import {
  CallToolRequestSchema,
  ErrorCode,
  ListToolsRequestSchema,
  McpError,
} from '@modelcontextprotocol/sdk/types.js';

{{SERVER_CODE}}

const server = new Server(
  {
    name: '{{SERVER_NAME}}',
    version: '1.0.0',
  },
  {
    capabilities: {
      tools: {},
    },
  }
);

// List available tools
server.setRequestHandler(ListToolsRequestSchema, async () => {
  return {
    tools: [
      {
        name: 'example_tool',
        description: 'An example tool that demonstrates the basic structure',
        inputSchema: {
          type: 'object',
          properties: {
            message: {
              type: 'string',
              description: 'A message to process',
            },
          },
          required: ['message'],
        },
      },
    ],
  };
});

// Handle tool calls
server.setRequestHandler(CallToolRequestSchema, async (request) => {
  const { name, arguments: args } = request.params;
  
  try {
    switch (name) {
      case 'example_tool':
        return {
          content: [
            {
              type: 'text',
              text: `Processed message: ${args.message}`,
            },
          ],
        };
      
      default:
        throw new McpError(ErrorCode.MethodNotFound, `Unknown tool: ${name}`);
    }
  } catch (error) {
    if (error instanceof McpError) {
      throw error;
    }
    throw new McpError(ErrorCode.InternalError, `Tool execution failed: ${error instanceof Error ? error.message : 'Unknown error'}`);
  }
});

async function main() {
  const transport = new StdioServerTransport();
  await server.connect(transport);
  console.error('{{SERVER_NAME}} MCP server running on stdio');
}

main().catch((error) => {
  console.error('Server failed to start:', error);
  process.exit(1);
});".

  (** [getJavaScriptBasicTemplate()] *)
Definition getJavaScriptBasicTemplate : Template :=
    {| name := lit "javascript-basic";
       description := lit "Basic JavaScript MCP server with minimal setup";
       language := lit "javascript";
       category := lit "basic";
       template := javaScriptBasicBody;
       variables := [lit "SERVER_NAME"; lit "DESCRIPTION"; lit "SERVER_CODE"] |}.

Definition javaScriptToolsBody : str := lit
"import { Server } from '@modelcontextprotocol/sdk/server/index.js';
import { StdioServerTransport } from '@modelcontextprotocol/sdk/server/stdio.js';
import {
  CallToolRequestSchema,
  ErrorCode,
  ListToolsRequestSchema,
  McpError,
} from '@modelcontextprotocol/sdk/types.js';

{{SERVER_CODE}}

const server = new Server(
  {
    name: '{{SERVER_NAME}}',
    version: '1.0.0',
  },
  {
    capabilities: {
      tools: {},
    },
  }
);

{{TOOLS}}

// List available tools
server.setRequestHandler(ListToolsRequestSchema, async () => {
  return {
    tools: tools.map(tool => ({
      name: tool.name,
      description: tool.description,
      inputSchema: tool.inputSchema,
    })),
  };
});

// Handle tool calls
server.setRequestHandler(CallToolRequestSchema, async (request) => {
  const { name, arguments: args } = request.params;
  
  try {
    const tool = tools.find(t => t.name === name);
    if (!tool) {
      throw new McpError(ErrorCode.MethodNotFound, `Unknown tool: ${name}`);
    }
    
    return await tool.handler(args);
  } catch (error) {
    if (error instanceof McpError) {
      throw error;
    }
    throw new McpError(ErrorCode.InternalError, `Tool execution failed: ${error instanceof Error ? error.message : 'Unknown error'}`);
  }
});

async function main() {
  const transport = new StdioServerTransport();
  await server.connect(transport);
  console.error('{{SERVER_NAME}} MCP server running on stdio');
}

main().catch((error) => {
  console.error('Server failed to start:', error);
  process.exit(1);
});".

  (** [getJavaScriptToolsTemplate()] *)
Definition getJavaScriptToolsTemplate : Template :=
    {| name := lit "javascript-tools";
       description := lit "JavaScript MCP server focused on providing tools";
       language := lit "javascript";
       category := lit "tools";
       template := javaScriptToolsBody;
       variables := [lit "SERVER_NAME"; lit "DESCRIPTION"; lit "SERVER_CODE"; lit "TOOLS"] |}.

Definition javaScriptResourcesBody : str := lit
"import { Server } from '@modelcontextprotocol/sdk/server/index.js';
import { StdioServerTransport } from '@modelcontextprotocol/sdk/server/stdio.js';
import {
  ListResourcesRequestSchema,
  ReadResourceRequestSchema,
  ErrorCode,
  McpError,
} from '@modelcontextprotocol/sdk/types.js';

{{SERVER_CODE}}

const server = new Server(
  {
    name: '{{SERVER_NAME}}',
    version: '1.0.0',
  },
  {
    capabilities: {
      resources: {},
    },
  }
);

{{RESOURCES}}

// List available resources
server.setRequestHandler(ListResourcesRequestSchema, async () => {
  return {
    resources: resources.map(resource => ({
      uri: resource.uri,
      name: resource.name,
      description: resource.description,
      mimeType: resource.mimeType,
    })),
  };
});

// Read resource content
server.setRequestHandler(ReadResourceRequestSchema, async (request) => {
  const { uri } = request.params;
  
  try {
    const resource = resources.find(r => r.uri === uri);
    if (!resource) {
      throw new McpError(ErrorCode.InvalidRequest, `Resource not found: ${uri}`);
    }
    
    return {
      contents: [
        {
          uri,
          mimeType: resource.mimeType,
          text: await resource.getContent(),
        },
      ],
    };
  } catch (error) {
    if (error instanceof McpError) {
      throw error;
    }
    throw new McpError(ErrorCode.InternalError, `Failed to read resource: ${error instanceof Error ? error.message : 'Unknown error'}`);
  }
});

async function main() {
  const transport = new StdioServerTransport();
  await server.connect(transport);
  console.error('{{SERVER_NAME}} MCP server running on stdio');
}

main().catch((error) => {
  console.error('Server failed to start:', error);
  process.exit(1);
});".

  (** [getJavaScriptResourcesTemplate()] *)
Definition getJavaScriptResourcesTemplate : Template :=
    {| name := lit "javascript-resources";
       description := lit "JavaScript MCP server focused on providing resources";
       language := lit "javascript";
       category := lit "resources";
       template := javaScriptResourcesBody;
       variables := [lit "SERVER_NAME"; lit "DESCRIPTION"; lit "SERVER_CODE"; lit "RESOURCES"] |}.

Definition javaScriptPromptsBody : str := lit
"import { Server } from '@modelcontextprotocol/sdk/server/index.js';
import { StdioServerTransport } from '@modelcontextprotocol/sdk/server/stdio.js';
import {
  ListPromptsRequestSchema,
  GetPromptRequestSchema,
  ErrorCode,
  McpError,
} from '@modelcontextprotocol/sdk/types.js';

{{SERVER_CODE}}

const server = new Server(
  {
    name: '{{SERVER_NAME}}',
    version: '1.0.0',
  },
  {
    capabilities: {
      prompts: {},
    },
  }
);

{{PROMPTS}}

// List available prompts
server.setRequestHandler(ListPromptsRequestSchema, async () => {
  return {
    prompts: prompts.map(prompt => ({
      name: prompt.name,
      description: prompt.description,
      arguments: prompt.arguments,
    })),
  };
});

// Get prompt content
server.setRequestHandler(GetPromptRequestSchema, async (request) => {
  const { name, arguments: args } = request.params;
  
  try {
    const prompt = prompts.find(p => p.name === name);
    if (!prompt) {
      throw new McpError(ErrorCode.InvalidRequest, `Prompt not found: ${name}`);
    }
    
    return await prompt.getContent(args);
  } catch (error) {
    if (error instanceof McpError) {
      throw error;
    }
    throw new McpError(ErrorCode.InternalError, `Failed to get prompt: ${error instanceof Error ? error.message : 'Unknown error'}`);
  }
});

async function main() {
  const transport = new StdioServerTransport();
  await server.connect(transport);
  console.error('{{SERVER_NAME}} MCP server running on stdio');
}

main().catch((error) => {
  console.error('Server failed to start:', error);
  process.exit(1);
});".

  (** [getJavaScriptPromptsTemplate()] *)
Definition getJavaScriptPromptsTemplate : Template :=
    {| name := lit "javascript-prompts";
       description := lit "JavaScript MCP server focused on providing prompts";
       language := lit "javascript";
       category := lit "prompts";
       template := javaScriptPromptsBody;
       variables := [lit "SERVER_NAME"; lit "DESCRIPTION"; lit "SERVER_CODE"; lit "PROMPTS"] |}.

Definition javaScriptAdvancedBody : str := lit
"import { Server } from '@modelcontextprotocol/sdk/server/index.js';
import { StdioServerTransport } from '@modelcontextprotocol/sdk/server/stdio.js';
import {
  CallToolRequestSchema,
  ListToolsRequestSchema,
  ListResourcesRequestSchema,
  ReadResourceRequestSchema,
  ListPromptsRequestSchema,
  GetPromptRequestSchema,
  ErrorCode,
  McpError,
} from '@modelcontextprotocol/sdk/types.js';

{{SERVER_CODE}}

const server = new Server(
  {
    name: '{{SERVER_NAME}}',
    version: '1.0.0',
  },
  {
    capabilities: {
      tools: {},
      resources: {},
      prompts: {},
    },
  }
);

{{TOOLS}}
{{RESOURCES}}
{{PROMPTS}}

// List available tools
server.setRequestHandler(ListToolsRequestSchema, async () => {
  return {
    tools: tools.map(tool => ({
      name: tool.name,
      description: tool.description,
      inputSchema: tool.inputSchema,
    })),
  };
});

// Handle tool calls
server.setRequestHandler(CallToolRequestSchema, async (request) => {
  const { name, arguments: args } = request.params;
  
  try {
    const tool = tools.find(t => t.name === name);
    if (!tool) {
      throw new McpError(ErrorCode.MethodNotFound, `Unknown tool: ${name}`);
    }
    
    return await tool.handler(args);
  } catch (error) {
    if (error instanceof McpError) {
      throw error;
    }
    throw new McpError(ErrorCode.InternalError, `Tool execution failed: ${error instanceof Error ? error.message : 'Unknown error'}`);
  }
});

// List available resources
server.setRequestHandler(ListResourcesRequestSchema, async () => {
  return {
    resources: resources.map(resource => ({
      uri: resource.uri,
      name: resource.name,
      description: resource.description,
      mimeType: resource.mimeType,
    })),
  };
});

// Read resource content
server.setRequestHandler(ReadResourceRequestSchema, async (request) => {
  const { uri } = request.params;
  
  try {
    const resource = resources.find(r => r.uri === uri);
    if (!resource) {
      throw new McpError(ErrorCode.InvalidRequest, `Resource not found: ${uri}`);
    }
    
    return {
      contents: [
        {
          uri,
          mimeType: resource.mimeType,
          text: await resource.getContent(),
        },
      ],
    };
  } catch (error) {
    if (error instanceof McpError) {
      throw error;
    }
    throw new McpError(ErrorCode.InternalError, `Failed to read resource: ${error instanceof Error ? error.message : 'Unknown error'}`);
  }
});

// List available prompts
server.setRequestHandler(ListPromptsRequestSchema, async () => {
  return {
    prompts: prompts.map(prompt => ({
      name: prompt.name,
      description: prompt.description,
      arguments: prompt.arguments,
    })),
  };
});

// Get prompt content
server.setRequestHandler(GetPromptRequestSchema, async (request) => {
  const { name, arguments: args } = request.params;
  
  try {
    const prompt = prompts.find(p => p.name === name);
    if (!prompt) {
      throw new McpError(ErrorCode.InvalidRequest, `Prompt not found: ${name}`);
    }
    
    return await prompt.getContent(args);
  } catch (error) {
    if (error instanceof McpError) {
      throw error;
    }
    throw new McpError(ErrorCode.InternalError, `Failed to get prompt: ${error instanceof Error ? error.message : 'Unknown error'}`);
  }
});

{{CUSTOM_CODE}}

async function main() {
  const transport = new StdioServerTransport();
  await server.connect(transport);
  console.error('{{SERVER_NAME}} MCP server running on stdio');
}

main().catch((error) => {
  console.error('Server failed to start:', error);
  process.exit(1);
});".

  (** [getJavaScriptAdvancedTemplate()] *)
Definition getJavaScriptAdvancedTemplate : Template :=
    {| name := lit "javascript-advanced";
       description := lit "Advanced JavaScript MCP server with tools, resources, and prompts";
       language := lit "javascript";
       category := lit "advanced";
       template := javaScriptAdvancedBody;
       variables := [lit "SERVER_NAME"; lit "DESCRIPTION"; lit "SERVER_CODE"; lit "TOOLS"; lit "RESOURCES"; lit "PROMPTS"; lit "CUSTOM_CODE"] |}.

Definition pythonBasicBody : str := quoted "~"
"#!/usr/bin/env python3
~~~
{{SERVER_NAME}} - {{DESCRIPTION}}
~~~

import asyncio
import json
import sys
from typing import Any, Dict, List

from mcp.server import Server
from mcp.server.stdio import stdio_server
from mcp.types import Tool, TextContent

{{SERVER_CODE}}

server = Server(~{{SERVER_NAME}}~)

@server.list_tools()
async def handle_list_tools() -> List[Tool]:
    ~~~List available tools.~~~
    return [
        Tool(
            name=~example_tool~,
            description=~An example tool that demonstrates the basic structure~,
            inputSchema={
                ~type~: ~object~,
                ~properties~: {
                    ~message~: {
                        ~type~: ~string~,
                        ~description~: ~A message to process~,
                    },
                },
                ~required~: [~message~],
            },
        )
    ]

@server.call_tool()
async def handle_call_tool(name: str, arguments: Dict[str, Any]) -> List[TextContent]:
    ~~~Handle tool calls.~~~
    try:
        if name == ~example_tool~:
            return [TextContent(type=~text~, text=f~Processed message: {arguments['message']}~)]
        
        raise ValueError(f~Unknown tool: {name}~)
    except Exception as e:
        raise ValueError(f~Tool execution failed: {str(e)}~)

async def main():
    ~~~Run the server.~~~
    async with stdio_server() as (read_stream, write_stream):
        await server.run(
            read_stream,
            write_stream,
            server.create_initialization_options()
        )

if __name__ == ~__main__~:
    asyncio.run(main())".

  (** [getPythonBasicTemplate()] *)
Definition getPythonBasicTemplate : Template :=
    {| name := lit "python-basic";
       description := lit "Basic Python MCP server with minimal setup";
       language := lit "python";
       category := lit "basic";
       template := pythonBasicBody;
       variables := [lit "SERVER_NAME"; lit "DESCRIPTION"; lit "SERVER_CODE"] |}.

Definition pythonToolsBody : str := jsq
"#!/usr/bin/env python3
'''
{{SERVER_NAME}} - {{DESCRIPTION}}
'''

import asyncio
import json
import sys
from typing import Any, Dict, List

from mcp.server import Server
from mcp.server.stdio import stdio_server
from mcp.types import Tool, TextContent

{{SERVER_CODE}}

server = Server('{{SERVER_NAME}}')

{{TOOLS}}

@server.list_tools()
async def handle_list_tools() -> List[Tool]:
    '''List available tools.'''
    return [
        Tool(
            name=tool['name'],
            description=tool['description'],
            inputSchema=tool['inputSchema']
        )
        for tool in tools
    ]

@server.call_tool()
async def handle_call_tool(name: str, arguments: Dict[str, Any]) -> List[TextContent]:
    '''Handle tool calls.'''
    try:
        tool = next((t for t in tools if t['name'] == name), None)
        if not tool:
            raise ValueError(f'Unknown tool: {name}')
        
        return await tool['handler'](arguments)
    except Exception as e:
        raise ValueError(f'Tool execution failed: {str(e)}')

async def main():
    '''Run the server.'''
    async with stdio_server() as (read_stream, write_stream):
        await server.run(
            read_stream,
            write_stream,
            server.create_initialization_options()
        )

if __name__ == '__main__':
    asyncio.run(main())".

  (** [getPythonToolsTemplate()] *)
Definition getPythonToolsTemplate : Template :=
    {| name := lit "python-tools";
       description := lit "Python MCP server focused on providing tools";
       language := lit "python";
       category := lit "tools";
       template := pythonToolsBody;
       variables := [lit "SERVER_NAME"; lit "DESCRIPTION"; lit "SERVER_CODE"; lit "TOOLS"] |}.

Definition pythonResourcesBody : str := jsq
"#!/usr/bin/env python3
'''
{{SERVER_NAME}} - {{DESCRIPTION}}
'''

import asyncio
import json
import sys
from typing import Any, Dict, List

from mcp.server import Server
from mcp.server.stdio import stdio_server
from mcp.types import Resource, TextContent

{{SERVER_CODE}}

server = Server('{{SERVER_NAME}}')

{{RESOURCES}}

@server.list_resources()
async def handle_list_resources() -> List[Resource]:
    '''List available resources.'''
    return [
        Resource(
            uri=resource['uri'],
            name=resource['name'],
            description=resource['description'],
            mimeType=resource['mimeType']
        )
        for resource in resources
    ]

@server.read_resource()
async def handle_read_resource(uri: str) -> List[TextContent]:
    '''Read resource content.'''
    try:
        resource = next((r for r in resources if r['uri'] == uri), None)
        if not resource:
            raise ValueError(f'Resource not found: {uri}')
        
        content = await resource['getContent']()
        return [TextContent(type='text', text=content, uri=uri)]
    except Exception as e:
        raise ValueError(f'Failed to read resource: {str(e)}')

async def main():
    '''Run the server.'''
    async with stdio_server() as (read_stream, write_stream):
        await server.run(
            read_stream,
            write_stream,
            server.create_initialization_options()
        )

if __name__ == '__main__':
    asyncio.run(main())".

  (** [getPythonResourcesTemplate()] *)
Definition getPythonResourcesTemplate : Template :=
    {| name := lit "python-resources";
       description := lit "Python MCP server focused on providing resources";
       language := lit "python";
       category := lit "resources";
       template := pythonResourcesBody;
       variables := [lit "SERVER_NAME"; lit "DESCRIPTION"; lit "SERVER_CODE"; lit "RESOURCES"] |}.

Definition pythonPromptsBody : str := jsq
"#!/usr/bin/env python3
'''
{{SERVER_NAME}} - {{DESCRIPTION}}
'''

import asyncio
import json
import sys
from typing import Any, Dict, List

from mcp.server import Server
from mcp.server.stdio import stdio_server
from mcp.types import Prompt, GetPromptResult

{{SERVER_CODE}}

server = Server('{{SERVER_NAME}}')

{{PROMPTS}}

@server.list_prompts()
async def handle_list_prompts() -> List[Prompt]:
    '''List available prompts.'''
    return [
        Prompt(
            name=prompt['name'],
            description=prompt['description'],
            arguments=prompt['arguments']
        )
        for prompt in prompts
    ]

@server.get_prompt()
async def handle_get_prompt(name: str, arguments: Dict[str, Any]) -> GetPromptResult:
    '''Get prompt content.'''
    try:
        prompt = next((p for p in prompts if p['name'] == name), None)
        if not prompt:
            raise ValueError(f'Prompt not found: {name}')
        
        return await prompt['getContent'](arguments)
    except Exception as e:
        raise ValueError(f'Failed to get prompt: {str(e)}')

async def main():
    '''Run the server.'''
    async with stdio_server() as (read_stream, write_stream):
        await server.run(
            read_stream,
            write_stream,
            server.create_initialization_options()
        )

if __name__ == '__main__':
    asyncio.run(main())".

  (** [getPythonPromptsTemplate()] *)
Definition getPythonPromptsTemplate : Template :=
    {| name := lit "python-prompts";
       description := lit "Python MCP server focused on providing prompts";
       language := lit "python";
       category := lit "prompts";
       template := pythonPromptsBody;
       variables := [lit "SERVER_NAME"; lit "DESCRIPTION"; lit "SERVER_CODE"; lit "PROMPTS"] |}.

Definition pythonAdvancedBody : str := jsq
"#!/usr/bin/env python3
'''
{{SERVER_NAME}} - {{DESCRIPTION}}
'''

import asyncio
import json
import sys
from typing import Any, Dict, List

from mcp.server import Server
from mcp.server.stdio import stdio_server
from mcp.types import Tool, Resource, Prompt, TextContent, GetPromptResult

{{SERVER_CODE}}

server = Server('{{SERVER_NAME}}')

{{TOOLS}}
{{RESOURCES}}
{{PROMPTS}}

@server.list_tools()
async def handle_list_tools() -> List[Tool]:
    '''List available tools.'''
    return [
        Tool(
            name=tool['name'],
            description=tool['description'],
            inputSchema=tool['inputSchema']
        )
        for tool in tools
    ]

@server.call_tool()
async def handle_call_tool(name: str, arguments: Dict[str, Any]) -> List[TextContent]:
    '''Handle tool calls.'''
    try:
        tool = next((t for t in tools if t['name'] == name), None)
        if not tool:
            raise ValueError(f'Unknown tool: {name}')
        
        return await tool['handler'](arguments)
    except Exception as e:
        raise ValueError(f'Tool execution failed: {str(e)}')

@server.list_resources()
async def handle_list_resources() -> List[Resource]:
    '''List available resources.'''
    return [
        Resource(
            uri=resource['uri'],
            name=resource['name'],
            description=resource['description'],
            mimeType=resource['mimeType']
        )
        for resource in resources
    ]

@server.read_resource()
async def handle_read_resource(uri: str) -> List[TextContent]:
    '''Read resource content.'''
    try:
        resource = next((r for r in resources if r['uri'] == uri), None)
        if not resource:
            raise ValueError(f'Resource not found: {uri}')
        
        content = await resource['getContent']()
        return [TextContent(type='text', text=content, uri=uri)]
    except Exception as e:
        raise ValueError(f'Failed to read resource: {str(e)}')

@server.list_prompts()
async def handle_list_prompts() -> List[Prompt]:
    '''List available prompts.'''
    return [
        Prompt(
            name=prompt['name'],
            description=prompt['description'],
            arguments=prompt['arguments']
        )
        for prompt in prompts
    ]

@server.get_prompt()
async def handle_get_prompt(name: str, arguments: Dict[str, Any]) -> GetPromptResult:
    '''Get prompt content.'''
    try:
        prompt = next((p for p in prompts if p['name'] == name), None)
        if not prompt:
            raise ValueError(f'Prompt not found: {name}')
        
        return await prompt['getContent'](arguments)
    except Exception as e:
        raise ValueError(f'Failed to get prompt: {str(e)}')

{{CUSTOM_CODE}}

async def main():
    '''Run the server.'''
    async with stdio_server() as (read_stream, write_stream):
        await server.run(
            read_stream,
            write_stream,
            server.create_initialization_options()
        )

if __name__ == '__main__':
    asyncio.run(main())".

  (** [getPythonAdvancedTemplate()] *)
Definition getPythonAdvancedTemplate : Template :=
    {| name := lit "python-advanced";
       description := lit "Advanced Python MCP server with tools, resources, and prompts";
       language := lit "python";
       category := lit "advanced";
       template := pythonAdvancedBody;
       variables := [lit "SERVER_NAME"; lit "DESCRIPTION"; lit "SERVER_CODE"; lit "TOOLS"; lit "RESOURCES"; lit "PROMPTS"; lit "CUSTOM_CODE"] |}.

  (** [initializeTemplates()]: the registry of [new TemplateRegistry()]. *)
Definition initializeTemplates : registry :=
    fold_left (fun templates t => addTemplate t templates)
      [getTypeScriptBasicTemplate;
       getTypeScriptToolsTemplate;
       getTypeScriptResourcesTemplate;
       getTypeScriptPromptsTemplate;
       getTypeScriptAdvancedTemplate;
       getJavaScriptBasicTemplate;
       getJavaScriptToolsTemplate;
       getJavaScriptResourcesTemplate;
       getJavaScriptPromptsTemplate;
       getJavaScriptAdvancedTemplate;
       getPythonBasicTemplate;
       getPythonToolsTemplate;
       getPythonResourcesTemplate;
       getPythonPromptsTemplate;
       getPythonAdvancedTemplate]
      [].

End TemplateRegistry.

(* ================================================================== *)
(** * src/generation/CodeGenerator.ts *)

Record GenerationOptions : Type := {
  description : str;
  language : str;
  transport : str;
  outputPath : str;
  serverName : str
}.

(** [files] lists the entries of the object in the order of
    [Object.entries]; a content is any JavaScript value. *)
Record ProjectStructure : Type := {
  directories : list str;
  files : list (str * jsval)
}.

(** The modules [fs] and [path] of the platform, as far as the generator
    calls them.  A call that throws gives the message of its error. *)
Record NodeFs : Type := {
  World : Type;
  path_join : str -> str -> str;
  path_dirname : str -> str;
  existsSync : str -> World -> bool;
  mkdirSync : str -> World -> Result unit * World;
  writeFileSync : str -> str -> World -> Result unit * World;
  accessSync : str -> World -> Result unit
}.

(** Computations on the file system that may throw. *)
Definition M (W A : Type) : Type := W -> Result A * W.

Definition ret {W A : Type} (a : A) : M W A := fun w => (Return a, w).

Definition throw {W A : Type} (message : str) : M W A :=
  fun w => (Throw message, w).

Definition bind {W A B : Type} (m : M W A) (k : A -> M W B) : M W B :=
  fun w =>
    match m w with
    | (Return a, w') => k a w'
    | (Throw message, w') => (Throw message, w')
    end.

(** [try { m } catch (error) { h error.message }] *)
Definition try_catch {W A : Type} (m : M W A) (h : str -> M W A) : M W A :=
  fun w =>
    match m w with
    | (Return a, w') => (Return a, w')
    | (Throw message, w') => h message w'
    end.

Declare Scope fs_scope.
Delimit Scope fs_scope with fs.
Notation "x <- m ;; k" := (bind m (fun x => k))
  (at level 61, m at next level, right associativity) : fs_scope.
Notation "m ;;; k" := (bind m (fun _ => k))
  (at level 61, right associativity) : fs_scope.

Definition decimal (n : nat) : str :=
  list_ascii_of_string (NilZero.string_of_uint (Nat.to_uint n)).

Fixpoint join (sep : str) (l : list str) : str :=
  match l with
  | [] => []
  | [a] => a
  | a :: t => a ++ sep ++ join sep t
  end.

Module CodeGenerator.
Section WithPlatform.

Variable fs : NodeFs.

  (** [this.fileGenerators.get(language)] with its [generateStructure]. *)
Variable fileGenerators :
    str -> option (GenerationOptions -> ParsedResponse -> Result ProjectStructure).

Local Abbreviation W := (World fs).
Local Open Scope fs_scope.

Definition parseResponse (response : str) : Result ParsedResponse :=
    ResponseParserFactory.parse response.

Definition generateProjectStructure (options : GenerationOptions)
      (parsedResponse : ParsedResponse) : Result ProjectStructure :=
    match fileGenerators (language options) with
    | None => Throw (lit "No file generator found for language: "
                       ++ language options)
    | Some generateStructure => generateStructure options parsedResponse
    end.

Definition createDirectory (basePath dir : str) : M W unit :=
    let fullPath := path_join fs basePath dir in
    try_catch
      (fun w => if negb (existsSync fs fullPath w)
                then mkdirSync fs fullPath w
                else (Return tt, w))
      (fun message =>
         throw (lit "Failed to create directory " ++ fullPath ++ lit ": "
                  ++ message)).

  (** [directories.forEach(...)]: a throw in the callback ends the loop. *)
Fixpoint createDirectories (basePath : str) (directories : list str)
      : M W unit :=
    match directories with
    | [] => ret tt
    | dir :: more =>
        createDirectory basePath dir ;;; createDirectories basePath more
    end.

  (** The body of the [try] for one entry of [files]. *)
Definition writeEntry (basePath filePath : str) (content : jsval)
      : M W unit :=
    let fullPath := path_join fs basePath filePath in
    let dir := path_dirname fs fullPath in
    (fun w => if negb (existsSync fs dir w)
              then mkdirSync fs dir w
              else (Return tt, w)) ;;;
    match content with
    | Some (JStr text) => writeFileSync fs fullPath text
    | _ => throw (lit "File content must be a string")
    end.

  (** The loop of [createFiles] with its two accumulators. *)
Fixpoint createFiles_loop (basePath : str) (entries : list (str * jsval))
      (createdFiles : list str) (failedFiles : list (str * str))
      : M W (list str * list (str * str)) :=
    match entries with
    | [] => ret (createdFiles, failedFiles)
    | (filePath, content) :: more =>
        ok <- try_catch
                (writeEntry basePath filePath content ;;; ret (@None str))
                (fun errorMessage => ret (Some errorMessage)) ;;
        match ok with
        | None =>
            createFiles_loop basePath more (createdFiles ++ [filePath])
                             failedFiles
        | Some errorMessage =>
            createFiles_loop basePath more createdFiles
                             (failedFiles ++ [(filePath, errorMessage)])
        end
    end.

Definition failureReport (failedFiles : list (str * str)) : str :=
    lit "Failed to create " ++ decimal (length failedFiles)
      ++ lit " file(s):" ++ [nl]
      ++ join [nl] (map (fun f => fst f ++ lit ": " ++ snd f) failedFiles).

Definition createFiles (basePath : str) (files : list (str * jsval))
      : M W unit :=
    r <- createFiles_loop basePath files [] [] ;;
    match snd r with
    | _ :: _ => throw (failureReport (snd r))
    | [] => ret tt
    end.

Definition postProcessFiles (outputPath language : str) : M W unit :=
    ret tt.

Definition validLanguages : list str :=
    [lit "typescript"; lit "javascript"; lit "python"].

Definition validTransports : list str := [lit "stdio"; lit "sse"].

Definition is_blank (s : str) : bool :=
    match trim s with [] => true | _ :: _ => false end.

Definition validateGenerationOptions (options : GenerationOptions)
      : M W unit :=
    if is_blank (description options)
    then throw (lit "Server description cannot be empty.")
    else if is_blank (outputPath options)
    then throw (lit "Output path cannot be empty.")
    else if is_blank (serverName options)
    then throw (lit "Server name cannot be empty.")
    else if negb (existsb (str_eqb (language options)) validLanguages)
    then throw (lit "Invalid language: " ++ language options
                  ++ lit ". Must be one of: " ++ join (lit ", ") validLanguages)
    else if negb (existsb (str_eqb (transport options)) validTransports)
    then throw (lit "Invalid transport: " ++ transport options
                  ++ lit ". Must be one of: " ++ join (lit ", ") validTransports)
    else
      fun w =>
        match accessSync fs (path_dirname fs (outputPath options)) w with
        | Return _ => (Return tt, w)
        | Throw _ =>
            (Throw (lit "Output directory is not writable: "
                      ++ path_dirname fs (outputPath options)), w)
        end.

Definition validateOpenAIResponse (response : str) : Result unit :=
    if is_blank response then Throw (lit "OpenAI response is empty.")
    else if length response <? 10
    then Throw (lit "OpenAI response is too short to contain valid code.")
    else
      let lowerResponse := toLowerCase response in
      if includes (lit "error") lowerResponse
         && includes (lit "failed") lowerResponse
      then Throw (lit "OpenAI response indicates an error occurred during generation.")
      else Return tt.

Definition isServerFile (file : str) : bool :=
    includes (lit "server.") file || includes (lit "index.") file.

  (** The tests on [structure.directories] and [structure.files] being an
      array and an object hold for every value of the record type. *)
Definition validateProjectStructure (structure : ProjectStructure)
      : Result unit :=
    let fileCount := length (files structure) in
    if fileCount =? 0
    then Throw (lit "Project structure must contain at least one file.")
    else
      let hasServerFile := existsb isServerFile (map fst (files structure)) in
      if negb hasServerFile
      then Throw (lit "Project structure must contain a main server file.")
      else Return tt.

Definition lift {A : Type} (r : Result A) : M W A := fun w => (r, w).

Definition generateProject (options : GenerationOptions)
      (openAIResponse : str) : M W unit :=
    try_catch
      (validateGenerationOptions options ;;;
       lift (validateOpenAIResponse openAIResponse) ;;;
       parsedResponse <- lift (parseResponse openAIResponse) ;;
       projectStructure <-
         lift (generateProjectStructure options parsedResponse) ;;
       lift (validateProjectStructure projectStructure) ;;;
       createDirectories (outputPath options) (directories projectStructure) ;;;
       createFiles (outputPath options) (files projectStructure) ;;;
       postProcessFiles (outputPath options) (language options))
      (fun message => throw (lit "Failed to generate project: " ++ message)).

End WithPlatform.
End CodeGenerator.

(* ================================================================== *)
(** * JSON.stringify

    [JSON.stringify] on an object whose properties hold strings or
    [undefined]: the members in the order of the properties, without
    white space; a property that holds [undefined] is left out. *)

Definition hex_digit (n : nat) : ascii :=
  if n <? 10 then ascii_of_nat (48 + n) else ascii_of_nat (87 + n).

(** One code unit inside a string literal, as [QuoteJSONString] writes
    it. *)
Definition quote_char (c : ascii) : str :=
  if is_char dquote c then ["\"%char; dquote]
  else if is_char "\" c then lit "\\"
  else if code c =? 8 then lit "\b"
  else if code c =? 12 then lit "\f"
  else if code c =? 10 then lit "\n"
  else if code c =? 13 then lit "\r"
  else if code c =? 9 then lit "\t"
  else if code c <? 32
  then lit "\u00" ++ [hex_digit (code c / 16); hex_digit (code c mod 16)]
  else [c].

Definition QuoteJSONString (s : str) : str :=
  dquote :: flat_map quote_char s ++ [dquote].

Definition SerializeJSONProperty (kv : str * option str) : list str :=
  match snd kv with
  | Some v => [QuoteJSONString (fst kv) ++ lit ":" ++ QuoteJSONString v]
  | None => []
  end.

Definition JSON_stringify (properties : list (str * option str)) : str :=
  lit "{" ++ join (lit ",") (flat_map SerializeJSONProperty properties)
    ++ lit "}".

(* ================================================================== *)
(** * Values of any kind in the file generators

    The fields of a parsed response hold whatever the response gave
    them.  The operations that the generators apply to them are those of
    the language, on every kind of value. *)

(** What the engine decides: the text of a number, and the messages of
    the two [TypeError]s that the generators can meet, for a call of
    what is no function and for an object that has no text. *)
Record Engine : Type := {
  numberToString : str -> str;
  notFunction : str;
  notPrimitive : str
}.

Definition rbind {A B : Type} (r : Result A) (k : A -> Result B) : Result B :=
  match r with
  | Return a => k a
  | Throw message => Throw message
  end.

(** [ToString]: an array joins the texts of its elements, [null] giving
    the empty text; an object with a property [toString] of its own, which
    is no function, cannot be converted. *)
Fixpoint ToString (engine : Engine) (v : json) : Result str :=
  match v with
  | JNull => Return (lit "null")
  | JBool b => Return (if b then lit "true" else lit "false")
  | JNum lexeme => Return (numberToString engine lexeme)
  | JStr s => Return s
  | JArr items =>
      (fix elements (l : list json) : Result str :=
         match l with
         | [] => Return []
         | x :: t =>
             rbind (match x with
                    | JNull => Return []
                    | _ => ToString engine x
                    end)
               (fun a =>
                  match t with
                  | [] => Return a
                  | _ :: _ =>
                      rbind (elements t) (fun b => Return (a ++ lit "," ++ b))
                  end)
         end) items
  | JObj fields =>
      match lookup_last (lit "toString") fields with
      | Some _ => Throw (notPrimitive engine)
      | None => Return (lit "[object Object]")
      end
  end.

(** The text of a value in a template literal. *)
Definition textOf (engine : Engine) (value : jsval) : Result str :=
  match value with
  | Some v => ToString engine v
  | None => Return (lit "undefined")
  end.

(** [value?.includes(needle)] *)
Definition optional_includes (engine : Engine) (value : jsval) (needle : str)
    : Result jsval :=
  match value with
  | None => Return undefined
  | Some JNull => Return undefined
  | Some (JStr s) => Return (Some (JBool (includes needle s)))
  | Some (JArr items) =>
      Return (Some (JBool (existsb (fun x => match x with
                                             | JStr s => str_eqb s needle
                                             | _ => false
                                             end) items)))
  | Some _ => Throw (notFunction engine)
  end.

(** The own properties of an object, in the order of their creation. *)
Definition object := list (str * jsval).

(** [CreateDataProperty]: a new property comes last, a property that
    exists keeps its place. *)
Fixpoint define (k : str) (v : jsval) (o : object) : object :=
  match o with
  | [] => [(k, v)]
  | (k', v') :: more =>
      if str_eqb k k' then (k, v) :: more else (k', v') :: define k v more
  end.

(** [o[k] = v] on an object that inherits from [Object.prototype]: an
    assignment to [__proto__] makes no property. *)
Definition assign_property (k : str) (v : jsval) (o : object) : object :=
  if str_eqb k (lit "__proto__") then o else define k v o.

Definition digits_value (k : str) : N :=
  fold_left (fun n c => (10 * n + N.of_nat (code c - 48))%N) k 0%N.

(** An array index: the canonical decimal text of an integer below
    2^32 - 1. *)
Definition array_index (k : str) : option N :=
  match k with
  | [] => None
  | c :: more =>
      if forallb is_digit k
         && (negb (is_char "0" c) || match more with [] => true | _ :: _ => false end)
         && (digits_value k <=? 4294967294)%N
      then Some (digits_value k)
      else None
  end.

Fixpoint insert_index (n : N) (e : str * jsval)
    (l : list (N * (str * jsval))) : list (N * (str * jsval)) :=
  match l with
  | [] => [(n, e)]
  | (m, e') :: more =>
      if (n <? m)%N then (n, e) :: l else (m, e') :: insert_index n e more
  end.

Definition indexed_entries (o : object) : list (N * (str * jsval)) :=
  fold_right (fun e l => match array_index (fst e) with
                         | Some n => insert_index n e l
                         | None => l
                         end) [] o.

Definition named_entries (o : object) : list (str * jsval) :=
  filter (fun e => match array_index (fst e) with
                   | Some _ => false
                   | None => true
                   end) o.

(** [Object.entries(o)]: the array indices in ascending order, then the
    other keys in the order of their creation. *)
Definition Object_entries (o : object) : list (str * jsval) :=
  map snd (indexed_entries o) ++ named_entries o.

(** The object that [JSON.parse] made of the fields of an object text. *)
Definition parsed_object (fields : list (str * json)) : object :=
  fold_left (fun o kv => define (fst kv) (Some (snd kv)) o) fields [].

Definition numbered {A : Type} (l : list A) : list (str * A) :=
  combine (map decimal (seq 0 (length l))) l.

(** The enumerable own properties of [ToObject(source)], in the order of
    its keys: of an object, an array, a string; a number and a boolean
    have none. *)
Definition enumerable_entries (source : json) : list (str * jsval) :=
  match source with
  | JObj fields => Object_entries (parsed_object fields)
  | JArr items => numbered (map (@Some json) items)
  | JStr s => numbered (map (fun c => jstr [c]) s)
  | _ => []
  end.

(** [Object.assign(target, source)] *)
Definition Object_assign (target : object) (source : json) : object :=
  fold_left (fun o kv => assign_property (fst kv) (snd kv) o)
    (enumerable_entries source) target.

(** [String(value || '')] for each variable, in turn. *)
Fixpoint valueTexts (engine : Engine) (vars : list (str * jsval))
    : Result (list (str * option str)) :=
  match vars with
  | [] => Return []
  | (key, value) :: more =>
      rbind (textOf engine (jor value (jstr []))) (fun text =>
      rbind (valueTexts engine more) (fun texts =>
      Return ((key, Some text) :: texts)))
  end.

(** [renderTemplate] on variables of any kind: after the test for the
    template, the conversion of a value may throw. *)
Definition renderTemplateValues (engine : Engine)
    (templates : TemplateRegistry.registry) (templateName : str)
    (vars : list (str * jsval)) : Result str :=
  match TemplateRegistry.getTemplate templates templateName with
  | None => Throw (lit "Template not found: " ++ templateName)
  | Some _ =>
      rbind (valueTexts engine vars) (fun texts =>
      TemplateRegistry.renderTemplate templates templateName texts)
  end.

(** An object literal of strings, arrays and objects. *)
Inductive literal : Type :=
| LStr (s : str)
| LArr (items : list literal)
| LObj (properties : list (str * literal)).

Definition gap : str := lit "  ".

(** [JSON.stringify(value, null, 2)] at the given indentation. *)
Fixpoint SerializeJSONValue (indent : str) (value : literal) : str :=
  match value with
  | LStr s => QuoteJSONString s
  | LArr items =>
      match items with
      | [] => lit "[]"
      | _ :: _ =>
          lit "[" ++ [nl] ++ (indent ++ gap)
            ++ join (lit "," ++ [nl] ++ (indent ++ gap))
                 (map (SerializeJSONValue (indent ++ gap)) items)
            ++ [nl] ++ indent ++ lit "]"
      end
  | LObj properties =>
      match properties with
      | [] => lit "{}"
      | _ :: _ =>
          lit "{" ++ [nl] ++ (indent ++ gap)
            ++ join (lit "," ++ [nl] ++ (indent ++ gap))
                 (map (fun kv => match kv with
                                 | (k, v) =>
                                     QuoteJSONString k ++ lit ": "
                                       ++ SerializeJSONValue (indent ++ gap) v
                                 end) properties)
            ++ [nl] ++ indent ++ lit "}"
      end
  end.

Definition JSON_stringify_pretty (value : literal) : str :=
  SerializeJSONValue [] value.

(** What the three generators share: the variables of the templates,
    the test for a kind of content, and the section of the readme for
    the usage example. *)
Definition templateVariables (options : GenerationOptions)
    (parsedResponse : ParsedResponse) : list (str * jsval) :=
  [(lit "SERVER_NAME", jstr (serverName options));
   (lit "DESCRIPTION", jstr (description options));
   (lit "TRANSPORT", jstr (transport options));
   (lit "SERVER_CODE", jor (serverCode parsedResponse) (jstr []));
   (lit "TOOLS", jor (prop "tools" (additionalFiles parsedResponse)) (jstr []));
   (lit "RESOURCES",
    jor (prop "resources" (additionalFiles parsedResponse)) (jstr []));
   (lit "PROMPTS", jor (prop "prompts" (additionalFiles parsedResponse)) (jstr []));
   (lit "CUSTOM_CODE",
    jor (prop "customCode" (additionalFiles parsedResponse)) (jstr []))].

  (** [parsedResponse.serverCode?.includes(kind) ||
      parsedResponse.additionalFiles?.kind] *)
Definition hasKind (engine : Engine) (kind : string)
    (parsedResponse : ParsedResponse) : Result jsval :=
  rbind (optional_includes engine (serverCode parsedResponse) (lit kind))
    (fun found => Return (jor found (prop kind (additionalFiles parsedResponse)))).
Arguments hasKind engine kind%_string parsedResponse.

  (** [selectTemplate] for the templates of a language. *)
Definition selectTemplateOf (engine : Engine) (language : str)
    (parsedResponse : ParsedResponse) : Result str :=
  rbind (hasKind engine "tools" parsedResponse) (fun hasTools =>
  rbind (hasKind engine "resources" parsedResponse) (fun hasResources =>
  rbind (hasKind engine "prompts" parsedResponse) (fun hasPrompts =>
  Return
    (if truthy hasTools && truthy hasResources && truthy hasPrompts
     then language ++ lit "-advanced"
     else if truthy hasTools then language ++ lit "-tools"
     else if truthy hasResources then language ++ lit "-resources"
     else if truthy hasPrompts then language ++ lit "-prompts"
     else language ++ lit "-basic")))).

  (** The usage example in a readme. *)
Definition usageSection (engine : Engine) (parsedResponse : ParsedResponse)
    : Result str :=
  if truthy (usageExample parsedResponse)
  then rbind (textOf engine (usageExample parsedResponse)) (fun text =>
       Return (lit "## Usage Example" ++ [nl; nl] ++ text ++ [nl]))
  else Return [].

  (** [Object.assign(files, parsedResponse.additionalFiles)] when there
      are additional files. *)
Definition withAdditionalFiles (files : object) (parsedResponse : ParsedResponse)
    : object :=
  match additionalFiles parsedResponse with
  | Some source =>
      if truthy (Some source) then Object_assign files source else files
  | None => files
  end.

Module TypeScriptFileGenerator.
Section WithRegistry.

Variable engine : Engine.
Variable templateRegistry : TemplateRegistry.registry.

Definition selectTemplate (options : GenerationOptions)
      (parsedResponse : ParsedResponse) : Result str :=
    selectTemplateOf engine (lit "typescript") parsedResponse.

Definition generatePackageJson (options : GenerationOptions) : str :=
    JSON_stringify_pretty
      (LObj [(lit "name", LStr (serverName options));
             (lit "version", LStr (lit "1.0.0"));
             (lit "description", LStr (description options));
             (lit "main", LStr (lit "dist/server.js"));
             (lit "type", LStr (lit "module"));
             (lit "scripts",
              LObj [(lit "build", LStr (lit "tsc"));
                    (lit "start", LStr (lit "node dist/server.js"));
                    (lit "dev", LStr (lit "tsc --watch"))]);
             (lit "dependencies",
              LObj [(lit "@modelcontextprotocol/sdk", LStr (lit "^0.5.0"))]);
             (lit "devDependencies",
              LObj [(lit "@types/node", LStr (lit "^20.0.0"));
                    (lit "typescript", LStr (lit "^5.0.0"))]);
             (lit "keywords",
              LArr [LStr (lit "mcp"); LStr (lit "server");
                    LStr (lit "model-context-protocol")]);
             (lit "author", LStr []);
             (lit "license", LStr (lit "MIT"))]).

Definition generateReadme (options : GenerationOptions)
      (parsedResponse : ParsedResponse) : Result str :=
    rbind (usageSection engine parsedResponse) (fun usage =>
    Return
      (lit "# "
      ++ serverName options
      ++ lit "

"
      ++ description options
      ++ jsq "

## Installation

```bash
npm install
npm run build
```

## Usage

```bash
npm start
```

## Configuration

Add this server to your MCP client configuration:

```json
{
  'mcpServers': {
    '"
      ++ serverName options
      ++ jsq "': {
      'command': 'node',
      'args': ['dist/server.js']
    }
  }
}
```

"
      ++ usage
      ++ lit "
## License

MIT")).

Definition generateTypeScriptConfig : str :=
    jsq "{
  'compilerOptions': {
    'target': 'ES2022',
    'module': 'ESNext',
    'moduleResolution': 'node',
    'outDir': './dist',
    'rootDir': './',
    'strict': true,
    'esModuleInterop': true,
    'skipLibCheck': true,
    'forceConsistentCasingInFileNames': true,
    'declaration': true,
    'declarationMap': true,
    'sourceMap': true
  },
  'include': ['**/*.ts'],
  'exclude': ['node_modules', 'dist']
}".

Definition generateBasicServerCode (options : GenerationOptions)
      (parsedResponse : ParsedResponse) : Result str :=
    rbind (textOf engine
             (jor (serverCode parsedResponse)
                  (jstr (lit "// Server implementation code goes here"))))
      (fun code =>
    Return
      (lit "import { Server } from '@modelcontextprotocol/sdk/server/index.js';
import { StdioServerTransport } from '@modelcontextprotocol/sdk/server/stdio.js';
import {
  CallToolRequestSchema,
  ErrorCode,
  ListToolsRequestSchema,
  McpError,
} from '@modelcontextprotocol/sdk/types.js';

/**
 * "
      ++ description options
      ++ lit "
 */

"
      ++ code
      ++ lit "

const server = new Server(
  {
    name: '"
      ++ serverName options
      ++ lit "',
    version: '1.0.0',
  },
  {
    capabilities: {
      tools: {},
    },
  }
);

// List available tools
server.setRequestHandler(ListToolsRequestSchema, async () => {
  return {
    tools: [
      {
        name: 'example_tool',
        description: 'An example tool that demonstrates the basic structure',
        inputSchema: {
          type: 'object',
          properties: {
            message: {
              type: 'string',
              description: 'A message to process',
            },
          },
          required: ['message'],
        },
      },
    ],
  };
});

// Handle tool calls
server.setRequestHandler(CallToolRequestSchema, async (request) => {
  const { name, arguments: args } = request.params;

  try {
    switch (name) {
      case 'example_tool':
        return {
          content: [
            {
              type: 'text',
              text: `Processed message: ${args.message}`,
            },
          ],
        };

      default:
        throw new McpError(ErrorCode.MethodNotFound, `Unknown tool: ${name}`);
    }
  } catch (error) {
    if (error instanceof McpError) {
      throw error;
    }
    throw new McpError(ErrorCode.InternalError, `Tool execution failed: ${error instanceof Error ? error.message : 'Unknown error'}`);
  }
});

async function main() {
  const transport = new StdioServerTransport();
  await server.connect(transport);
  console.error('"
      ++ serverName options
      ++ lit " MCP server running on stdio');
}

main().catch((error) => {
  console.error('Server failed to start:', error);
  process.exit(1);
});")).

Definition generateStructure (options : GenerationOptions)
      (parsedResponse : ParsedResponse) : Result ProjectStructure :=
    rbind (selectTemplate options parsedResponse) (fun templateName =>
    let variables := templateVariables options parsedResponse in
    rbind (match TemplateRegistry.getTemplate templateRegistry templateName with
           | Some _ =>
               renderTemplateValues engine templateRegistry templateName variables
           | None => generateBasicServerCode options parsedResponse
           end) (fun server =>
    let files := assign_property (lit "server.ts") (jstr server) [] in
    let files :=
      assign_property (lit "package.json") (jstr (generatePackageJson options))
        files in
    let files :=
      assign_property (lit "tsconfig.json") (jstr generateTypeScriptConfig)
        files in
    rbind (generateReadme options parsedResponse) (fun readme =>
    let files := assign_property (lit "README.md") (jstr readme) files in
    let files := withAdditionalFiles files parsedResponse in
    Return {| directories := [lit "src"; lit "dist"];
              files := Object_entries files |}))).

End WithRegistry.
End TypeScriptFileGenerator.

Module JavaScriptFileGenerator.
Section WithRegistry.

Variable engine : Engine.
Variable templateRegistry : TemplateRegistry.registry.

Definition selectTemplate (options : GenerationOptions)
      (parsedResponse : ParsedResponse) : Result str :=
    selectTemplateOf engine (lit "javascript") parsedResponse.

Definition generatePackageJson (options : GenerationOptions) : str :=
    JSON_stringify_pretty
      (LObj [(lit "name", LStr (serverName options));
             (lit "version", LStr (lit "1.0.0"));
             (lit "description", LStr (description options));
             (lit "main", LStr (lit "server.js"));
             (lit "type", LStr (lit "module"));
             (lit "scripts", LObj [(lit "start", LStr (lit "node server.js"))]);
             (lit "dependencies",
              LObj [(lit "@modelcontextprotocol/sdk", LStr (lit "^0.5.0"))]);
             (lit "keywords",
              LArr [LStr (lit "mcp"); LStr (lit "server");
                    LStr (lit "model-context-protocol")]);
             (lit "author", LStr []);
             (lit "license", LStr (lit "MIT"))]).

Definition generateReadme (options : GenerationOptions)
      (parsedResponse : ParsedResponse) : Result str :=
    rbind (usageSection engine parsedResponse) (fun usage =>
    Return
      (lit "# "
      ++ serverName options
      ++ lit "

"
      ++ description options
      ++ jsq "

## Installation

```bash
npm install
```

## Usage

```bash
npm start
```

## Configuration

Add this server to your MCP client configuration:

```json
{
  'mcpServers': {
    '"
      ++ serverName options
      ++ jsq "': {
      'command': 'node',
      'args': ['server.js']
    }
  }
}
```

"
      ++ usage
      ++ lit "
## License

MIT")).

Definition generateStructure (options : GenerationOptions)
      (parsedResponse : ParsedResponse) : Result ProjectStructure :=
    rbind (selectTemplate options parsedResponse) (fun templateName =>
    let variables := templateVariables options parsedResponse in
    rbind (renderTemplateValues engine templateRegistry templateName variables)
      (fun server =>
    let files := assign_property (lit "server.js") (jstr server) [] in
    let files :=
      assign_property (lit "package.json") (jstr (generatePackageJson options))
        files in
    rbind (generateReadme options parsedResponse) (fun readme =>
    let files := assign_property (lit "README.md") (jstr readme) files in
    let files := withAdditionalFiles files parsedResponse in
    Return {| directories := [lit "src"];
              files := Object_entries files |}))).

End WithRegistry.
End JavaScriptFileGenerator.

Module PythonFileGenerator.
Section WithRegistry.

Variable engine : Engine.
Variable templateRegistry : TemplateRegistry.registry.

Definition selectTemplate (options : GenerationOptions)
      (parsedResponse : ParsedResponse) : Result str :=
    selectTemplateOf engine (lit "python") parsedResponse.

Definition generateRequirements : str :=
    lit "mcp>=1.0.0
asyncio
aiohttp
pydantic".

Definition generateReadme (options : GenerationOptions)
      (parsedResponse : ParsedResponse) : Result str :=
    rbind (usageSection engine parsedResponse) (fun usage =>
    Return
      (lit "# "
      ++ serverName options
      ++ lit "

"
      ++ description options
      ++ jsq "

## Installation

```bash
pip install -r requirements.txt
```

## Usage

```bash
python server.py
```

## Configuration

Add this server to your MCP client configuration:

```json
{
  'mcpServers': {
    '"
      ++ serverName options
      ++ jsq "': {
      'command': 'python',
      'args': ['server.py']
    }
  }
}
```

"
      ++ usage
      ++ lit "
## License

MIT")).

Definition generatePythonGitignore : str :=
    lit "__pycache__/
*.py[cod]
*$py.class
*.so
.Python
build/
develop-eggs/
dist/
downloads/
eggs/
.eggs/
lib/
lib64/
parts/
sdist/
var/
wheels/
*.egg-info/
.installed.cfg
*.egg
MANIFEST
.env
.venv
env/
venv/
ENV/
env.bak/
venv.bak/
.pytest_cache/
.coverage
htmlcov/
.tox/
.cache
nosetests.xml
coverage.xml
*.cover
.hypothesis/
".

Definition generateStructure (options : GenerationOptions)
      (parsedResponse : ParsedResponse) : Result ProjectStructure :=
    rbind (selectTemplate options parsedResponse) (fun templateName =>
    let variables := templateVariables options parsedResponse in
    rbind (renderTemplateValues engine templateRegistry templateName variables)
      (fun server =>
    let files := assign_property (lit "server.py") (jstr server) [] in
    let files :=
      assign_property (lit "requirements.txt") (jstr generateRequirements)
        files in
    rbind (generateReadme options parsedResponse) (fun readme =>
    let files := assign_property (lit "README.md") (jstr readme) files in
    let files :=
      assign_property (lit ".gitignore") (jstr generatePythonGitignore) files in
    let files := withAdditionalFiles files parsedResponse in
    Return {| directories := [lit "src"];
              files := Object_entries files |}))).

End WithRegistry.
End PythonFileGenerator.

(** [initializeFileGenerators()]: the generators of [new CodeGenerator()],
    over the registry of its templates. *)
Definition initializeFileGenerators (engine : Engine)
    (templateRegistry : TemplateRegistry.registry) (language : str)
    : option (GenerationOptions -> ParsedResponse -> Result ProjectStructure) :=
  if str_eqb language (lit "typescript")
  then Some (TypeScriptFileGenerator.generateStructure engine templateRegistry)
  else if str_eqb language (lit "javascript")
  then Some (JavaScriptFileGenerator.generateStructure engine templateRegistry)
  else if str_eqb language (lit "python")
  then Some (PythonFileGenerator.generateStructure engine templateRegistry)
  else None.

(* ================================================================== *)
(** * src/types.ts *)

Record GenerationRequest : Type := {
  request_description : str;
  request_language : str;
  request_transport : str;
  request_serverName : option str
}.

(* ================================================================== *)
(** * src/services/OpenAIService.ts *)

Module OpenAIService.

  (** What the call [client.chat.completions.create] gives: the content
      of the first choice, [None] when a link of the optional chain is
      missing, or what it throws, with the message of an [Error]. *)
Inductive completion : Type :=
| Content (content : option str)
| Thrown (message : option str).

  (** The constructor: the key that the client is made with. *)
Definition constructor (apiKey : str) : Result str :=
    match trim apiKey with
    | [] => Throw (lit "OpenAI API key is required.")
    | c :: sanitizedKey => Return (c :: sanitizedKey)
    end.

  (** [generateServerSpecification]: the body of the [try] returns the
      trimmed content or throws, and the [catch] wraps what is thrown. *)
Definition generateServerSpecification (response : completion) : Result str :=
    let body : str + option str :=
      match response with
      | Content (Some (c :: content)) => inl (trim (c :: content))
      | Content _ => inr (Some (lit "Received empty response from OpenAI."))
      | Thrown error => inr error
      end in
    match body with
    | inl content => Return content
    | inr error =>
        let message :=
          match error with
          | Some message => message
          | None => lit "Unknown error"
          end in
        Throw (lit "OpenAI request failed: " ++ message)
    end.

End OpenAIService.

(* ================================================================== *)
(** * src/config/ConfigurationManager.ts *)

(** The manager that keeps the key in the secret storage.  The secret
    storage and the configuration of the editor are modelled as far as
    the manager calls them, on the key of the manager and the setting
    [openaiApiKey]; their calls return. *)
Record Editor : Type := {
  Store : Type;
  secrets_get : Store -> option str;
  secrets_store : str -> Store -> Store;
  secrets_delete : Store -> Store;
  config_get : Store -> option str;
  config_update : str -> Store -> Store
}.

Module ConfigurationManager.
Section WithEditor.

Variable editor : Editor.

  (** The static field [context] is set or not; the store of the
      editor. *)
Record State : Type := {
  context : bool;
  store : Store editor
}.

Definition initialize (s : State) : State :=
    {| context := true; store := store s |}.

Definition notInitialized : str :=
    lit "ConfigurationManager has not been initialized. Call initialize(context) during activation.".

Definition getOpenAIApiKey : M State str :=
    fun s =>
      if negb (context s) then (Throw notInitialized, s)
      else
        let kept :=
          match secrets_get editor (store s) with
          | Some secret =>
              match trim secret with
              | [] => None
              | _ :: _ => Some secret
              end
          | None => None
          end in
        match kept with
        | Some secret => (Return secret, s)
        | None =>
            let legacyValue :=
              trim (match config_get editor (store s) with
                    | Some (c :: value) => c :: value
                    | _ => []
                    end) in
            match legacyValue with
            | _ :: _ =>
                (Return legacyValue,
                 {| context := context s;
                    store := config_update editor []
                               (secrets_store editor legacyValue (store s)) |})
            | [] => (Return [], s)
            end
        end.

Definition setOpenAIApiKey (apiKey : str) : M State unit :=
    fun s =>
      match trim apiKey with
      | [] =>
          if negb (context s) then (Throw notInitialized, s)
          else (Return tt,
                {| context := context s;
                   store := secrets_delete editor (store s) |})
      | c :: value =>
          if negb (context s) then (Throw notInitialized, s)
          else (Return tt,
                {| context := context s;
                   store := secrets_store editor (c :: value) (store s) |})
      end.

  (** [promptForApiKey], with what the input box gives. *)
Definition promptForApiKey (showInputBox : option str) : M State (option str) :=
    match showInputBox with
    | Some (c :: apiKey) =>
        bind (setOpenAIApiKey (c :: apiKey))
          (fun _ => ret (Some (trim (c :: apiKey))))
    | Some [] => ret (Some [])
    | None => ret None
    end.

  (** [ensureApiKey], with the button that the user chooses and what
      the input box gives. *)
Definition ensureApiKey (showInformationMessage : option str)
      (showInputBox : option str) : M State (option str) :=
    bind getOpenAIApiKey (fun apiKey =>
    bind (match apiKey with
          | [] =>
              if match showInformationMessage with
                 | Some result => str_eqb result (lit "Set API Key")
                 | None => false
                 end
              then bind (promptForApiKey showInputBox)
                     (fun entered =>
                        ret (match entered with
                             | Some (c :: key) => c :: key
                             | _ => []
                             end))
              else ret apiKey
          | _ :: _ => ret apiKey
          end) (fun apiKey =>
    ret (match apiKey with
         | [] => None
         | c :: key => Some (c :: key)
         end))).

End WithEditor.
End ConfigurationManager.

(* ================================================================== *)
(** * src/commands/CreateServerCommand.ts *)

Module CreateServerCommand.

Definition is_hyphen (c : ascii) : bool := is_char "-" c.

  (** The class [[^a-z0-9-]]. *)
Definition not_slug (c : ascii) : bool :=
    negb (is_lower c || is_digit c || is_hyphen c).

  (** [/[^a-z0-9-]+/g] *)
Definition unsafeRun : re := plus not_slug.

  (** [/^-+|-+$/g] *)
Definition edgeHyphens : re :=
    Alt (Seq (Bol false) (plus is_hyphen)) (Seq (plus is_hyphen) (Eol false)).

  (** [/-{2,}/g] *)
Definition hyphenRun : re := Rep true 2 None is_hyphen.

Definition sanitizeName (value : str) : str :=
    replaceAll hyphenRun (lit "-")
      (replaceAll edgeHyphens (lit "")
         (replaceAll unsafeRun (lit "-") (toLowerCase value))).

Definition ensureServerSuffix (value : str) : str :=
    match value with
    | [] => value
    | _ :: _ =>
        if endsWith (lit "-server") value then value
        else value ++ lit "-server"
    end.

Definition slugify (value : str) : str :=
    let sanitized := sanitizeName value in
    match sanitized with
    | [] => lit "mcp-server"
    | _ :: _ => ensureServerSuffix sanitized
    end.

Section WithWindow.

  (** [vscode.window.showInputBox] with the initial value and the
      callback [validateInput]: what the user enters, [None] when the box
      is dismissed. *)
Variable showInputBox : str -> (str -> option str) -> option str.

  (** The callback [validateInput]: a message, or [None] for [null]. *)
Definition validateInput (value : str) : option str :=
    match trim value with
    | [] => Some (lit "Server name cannot be empty.")
    | _ :: _ =>
        match sanitizeName value with
        | [] => Some (lit "Use letters, numbers, or dashes only.")
        | _ :: _ => None
        end
    end.

Definition resolveServerName (description : str) (providedName : option str)
      : option str :=
    let provided :=
      match providedName with
      | Some name =>
          match trim name with
          | [] => None
          | _ :: _ =>
              match sanitizeName name with
              | [] => None
              | c :: sanitizedProvided =>
                  Some (ensureServerSuffix (c :: sanitizedProvided))
              end
          end
      | None => None
      end in
    match provided with
    | Some result => Some result
    | None =>
        let defaultName := slugify description in
        match showInputBox defaultName validateInput with
        | None => None
        | Some [] => None
        | Some (c :: serverName) =>
            match sanitizeName (c :: serverName) with
            | [] => None
            | d :: sanitized => Some (ensureServerSuffix (d :: sanitized))
            end
        end
    end.

End WithWindow.

Definition getEntryFileName (language : str) : str :=
    if str_eqb language (lit "javascript") then lit "server.js"
    else if str_eqb language (lit "python") then lit "server.py"
    else lit "server.ts".

Section WithPlatform.

Variable fs : NodeFs.

  (** The loop of [ensureUniqueDirectory]; [None] when the fuel runs
      out. *)
Fixpoint ensureUniqueDirectory_loop (fuel : nat) (basePath preferredName : str)
      (candidateName : str) (attempt : nat) (w : World fs)
      : option (str * str) :=
    match fuel with
    | 0 => None
    | S f =>
        if existsSync fs (path_join fs basePath candidateName) w
        then ensureUniqueDirectory_loop f basePath preferredName
               (preferredName ++ lit "-" ++ decimal attempt) (attempt + 1) w
        else Some (path_join fs basePath candidateName, candidateName)
    end.

  (** [ensureUniqueDirectory]: the full path and the server name. *)
Definition ensureUniqueDirectory (fuel : nat) (basePath preferredName : str)
      (w : World fs) : option (str * str) :=
    ensureUniqueDirectory_loop fuel basePath preferredName preferredName 1 w.

Definition ensureDirectoryExists (fullPath : str) : M (World fs) unit :=
    fun w => if negb (existsSync fs fullPath w)
             then mkdirSync fs fullPath w
             else (Return tt, w).

End WithPlatform.

Definition getInstallSection (language : str) : option str :=
    if str_eqb language (lit "javascript") || str_eqb language (lit "typescript")
    then Some (lit "```bash
npm install
npm run build
npm start
```")
    else if str_eqb language (lit "python")
    then Some (lit "```bash
python -m venv .venv
source .venv/bin/activate  # On Windows use .venv\Scripts\activate
pip install -r requirements.txt
python server.py
```")
    else None.

Definition getUsageExample (language serverName : str) : str :=
    if str_eqb language (lit "python")
    then jsq "Configure your MCP client with:

```json
{
  'mcpServers': {
    '" ++ serverName ++ jsq "': {
      'command': 'python',
      'args': ['server.py']
    }
  }
}
```"
    else jsq "Configure your MCP client with:

```json
{
  'mcpServers': {
    '" ++ serverName ++ jsq "': {
      'command': 'node',
      'args': ['server."
         ++ (if str_eqb language (lit "typescript") then lit "ts" else lit "js")
         ++ jsq "']
    }
  }
}
```".

  (** [text + value] for a value that is a string or [undefined]. *)
Definition concatenated (value : option str) : str :=
    match value with Some s => s | None => lit "undefined" end.

Definition fallbackReadme (options : GenerationOptions) : str :=
    lit "# " ++ serverName options ++ [nl; nl] ++ description options
      ++ [nl; nl] ++ lit "## Getting Started" ++ [nl; nl]
      ++ concatenated (getInstallSection (language options))
      ++ [nl; nl] ++ lit "## Usage" ++ [nl; nl]
      ++ getUsageExample (language options) (serverName options)
      ++ [nl; nl] ++ lit "## Next Steps" ++ [nl; nl]
      ++ lit "The generated server is a starting point. Update the tool handlers to connect your APIs or business logic.".

Definition buildFallbackResponse (options : GenerationOptions) : str :=
    JSON_stringify
      [(lit "serverCode", Some []);
       (lit "readme", Some (fallbackReadme options));
       (lit "installInstructions", getInstallSection (language options));
       (lit "usageExample",
        Some (getUsageExample (language options) (serverName options)))].

  (** The arguments of the command, each given or not. *)
Record CreateServerArguments : Type := {
  arg_description : option str;
  arg_language : option str;
  arg_transport : option str;
  arg_serverName : option str
}.

  (** [resolveGenerationRequest], with what the input box, [pickLanguage]
      and [pickTransport] give when they are asked. *)
Definition resolveGenerationRequest (initialArgs : option CreateServerArguments)
      (showInputBox pickLanguage pickTransport : option str)
      : option GenerationRequest :=
    let given (field : CreateServerArguments -> option str) : option str :=
      match initialArgs with
      | Some args => field args
      | None => None
      end in
    let description :=
      match given arg_description with
      | Some d => Some d
      | None => showInputBox
      end in
    match description with
    | Some (c :: d) =>
        match trim (c :: d) with
        | [] => None
        | _ :: _ =>
            let language :=
              match given arg_language with
              | Some l => Some l
              | None => pickLanguage
              end in
            match language with
            | Some (l :: language) =>
                let transport :=
                  match given arg_transport with
                  | Some t => Some t
                  | None => pickTransport
                  end in
                match transport with
                | Some (t :: transport) =>
                    Some {| request_description := trim (c :: d);
                            request_language := l :: language;
                            request_transport := t :: transport;
                            request_serverName := None |}
                | _ => None
                end
            | _ => None
            end
        end
    | _ => None
    end.

Section WithFolders.

Variable fs : NodeFs.

  (** [resolveTargetDirectory], with the workspace folders (the path of
      each), the item chosen in the quick pick ([true] for the workspace
      folder, [false] for another folder) and the paths picked in the
      open dialog; no result when the loop of [ensureUniqueDirectory]
      does not end within the fuel. *)
Definition resolveTargetDirectory (fuel : nat)
      (workspaceFolders : option (list str))
      (showQuickPick : option bool) (showOpenDialog : option (list str))
      (serverName : str) (w : World fs)
      : option (Result (option (str * str)) * World fs) :=
    let browsed :=
      match showOpenDialog with
      | Some (picked :: _) => Some picked
      | _ => None
      end in
    let basePath :=
      match workspaceFolders with
      | Some (primaryFolder :: _) =>
          match showQuickPick with
          | Some selection =>
              let target := if selection then primaryFolder else lit "browse" in
              if str_eqb target (lit "browse") then browsed else Some target
          | None => None
          end
      | _ => browsed
      end in
    match basePath with
    | Some basePath =>
        match ensureUniqueDirectory fs fuel basePath serverName w with
        | Some uniquePath =>
            Some (match ensureDirectoryExists fs (fst uniquePath) w with
                  | (Return _, w') => (Return (Some uniquePath), w')
                  | (Throw message, w') => (Throw message, w')
                  end)
        | None => None
        end
    | None => Some (Return None, w)
    end.

  (** The start of [execute], up to the options of the generation:
      [None] inside the result when a dialog is dismissed. *)
Definition generationOptions (fuel : nat)
      (initialArgs : option CreateServerArguments)
      (describe pickLanguage pickTransport : option str)
      (showInputBox : str -> (str -> option str) -> option str)
      (workspaceFolders : option (list str))
      (showQuickPick : option bool) (showOpenDialog : option (list str))
      (w : World fs)
      : option (Result (option GenerationOptions) * World fs) :=
    match resolveGenerationRequest initialArgs describe pickLanguage
            pickTransport with
    | Some request =>
        match resolveServerName showInputBox (request_description request)
                match initialArgs with
                | Some args => arg_serverName args
                | None => None
                end with
        | Some (c :: serverName) =>
            match resolveTargetDirectory fuel workspaceFolders showQuickPick
                    showOpenDialog (c :: serverName) w with
            | Some (Return (Some targetInfo), w') =>
                Some (Return
                        (Some {| description := request_description request;
                                 language := request_language request;
                                 transport := request_transport request;
                                 outputPath := fst targetInfo;
                                 serverName := snd targetInfo |}), w')
            | Some (Return None, w') => Some (Return None, w')
            | Some (Throw message, w') => Some (Throw message, w')
            | None => None
            end
        | _ => Some (Return None, w)
        end
    | None => Some (Return None, w)
    end.

End WithFolders.

  (** The response that [execute] gives to [generateProject] and the
      flag [usedFallback], from the key of [ensureApiKey], the button
      chosen in the warning and what the client of the service gives;
      [None] when the command is cancelled for want of a key. *)
Definition openAIResponse (apiKey : option str)
      (showWarningMessage : option str)
      (response : OpenAIService.completion) (options : GenerationOptions)
      : option (str * bool) :=
    let useFallbackOnly :=
      match apiKey with
      | Some (_ :: _) => Some false
      | _ =>
          match showWarningMessage with
          | Some fallbackSelection =>
              if str_eqb fallbackSelection (lit "Use Local Template")
              then Some true else None
          | None => None
          end
      end in
    match useFallbackOnly with
    | Some useFallbackOnly =>
        let first :=
          if negb useFallbackOnly then
            match OpenAIService.constructor
                    match apiKey with Some key => key | None => [] end with
            | Return _ =>
                match OpenAIService.generateServerSpecification response with
                | Return text => (text, false)
                | Throw _ => (buildFallbackResponse options, true)
                end
            | Throw _ => (buildFallbackResponse options, true)
            end
          else (buildFallbackResponse options, true) in
        Some match fst first with
             | [] => (buildFallbackResponse options, true)
             | _ :: _ => first
             end
    | None => None
    end.

End CreateServerCommand.

(* ================================================================== *)
(** * Notions used in the statements *)

(** ** Positions, runs and replacement *)

(** The code unit before the position reached by reading [w]. *)
Definition prev_after (pv : option ascii) (w : str) : option ascii :=
  fold_left (fun _ c => Some c) w pv.

(** The position reached from [st] by reading [w], when the input goes
    on with [s']. *)
Definition after (w s' : str) (st : mstate) : mstate :=
  MS (prev_after (prev st) w) (pos st + length w) s' (caps st).

(** The input [s] does not go on with a code unit of the class [p]. *)
Definition stops (p : ascii -> bool) (s : str) : Prop :=
  match s with [] => True | c :: _ => p c = false end.

Definition fits (hi : option nat) (n : nat) : Prop :=
  match hi with None => True | Some h => n <= h end.

(** A replacement text without [$] is inserted as it is. *)
Definition plain (repl : str) : Prop :=
  forallb (fun c => negb (Ascii.eqb c "$"%char)) repl = true.

(** Every run of a class becomes [r]: a code unit of the class is dropped
    when another one follows and becomes [r] when it ends its run. *)
Fixpoint squash (p : ascii -> bool) (r : str) (s : str) : str :=
  match s with
  | [] => []
  | c :: t =>
      if p c then
        match t with
        | d :: _ => if p d then squash p r t else r ++ squash p r t
        | [] => r
        end
      else c :: squash p r t
  end.

(** Every match of the pattern begins with a code unit of the class. *)
Inductive Starts : re -> (ascii -> bool) -> Prop :=
| Starts_Chr (q p : ascii -> bool) :
    (forall c, q c = true -> p c = true) -> Starts (Chr q) p
| Starts_Rep (g : bool) (lo : nat) (hi : option nat) (q p : ascii -> bool) :
    (forall c, q c = true -> p c = true) -> Starts (Rep g (S lo) hi q) p
| Starts_Seq (a b : re) (p : ascii -> bool) :
    Starts a p -> Starts (Seq a b) p
| Starts_Alt (a b : re) (p : ascii -> bool) :
    Starts a p -> Starts b p -> Starts (Alt a b) p
| Starts_Cap (i : nat) (a : re) (p : ascii -> bool) :
    Starts a p -> Starts (Cap i a) p.

(** ** Slugs *)

Section SlugNotions.

Import CreateServerCommand.

(** Hyphens at the start are dropped. *)
Fixpoint dropLeading (s : str) : str :=
  match s with
  | c :: t => if is_hyphen c then dropLeading t else s
  | [] => []
  end.

(** Hyphens at the end are dropped. *)
Fixpoint dropTrailing (s : str) : str :=
  match s with
  | [] => []
  | c :: t => if forallb is_hyphen (c :: t) then [] else c :: dropTrailing t
  end.

Definition slug_char (c : ascii) : bool := is_lower c || is_digit c || is_hyphen c.

(** No two hyphens in a row. *)
Fixpoint no_double (s : str) : bool :=
  match s with
  | a :: t => negb (is_hyphen a && match t with b :: _ => is_hyphen b | [] => false end)
              && no_double t
  | [] => true
  end.

Definition first_ok (s : str) : bool :=
  match s with c :: _ => negb (is_hyphen c) | [] => true end.

(** The last code unit is no hyphen. *)
Fixpoint last_ok (s : str) : bool :=
  match s with
  | [] => true
  | c :: t => match t with [] => negb (is_hyphen c) | _ :: _ => last_ok t end
  end.

End SlugNotions.

(** ** A file system for examples *)

(** A file system for running the generator on examples: a world holds
    the directories and files that exist; every call on a path of
    [denied] fails. *)
Record SimWorld : Type := {
  sim_dirs : list str;
  sim_files : list (str * str)
}.

Definition sim_has (p : str) (l : list str) : bool := existsb (str_eqb p) l.

Definition sim_join (a b : str) : str := a ++ lit "/" ++ b.

Fixpoint sim_dirname_rev (r : str) : str :=
  match r with
  | [] => []
  | c :: t => if is_char "/" c then t else sim_dirname_rev t
  end.

Definition sim_dirname (p : str) : str :=
  match rev (sim_dirname_rev (rev p)) with
  | [] => lit "."
  | d => d
  end.

Definition sim_denial (call p : str) : str :=
  lit "EACCES: permission denied, " ++ call ++ lit " '" ++ p ++ lit "'".

Definition SimFs (denied : list str) : NodeFs := {|
  World := SimWorld;
  path_join := sim_join;
  path_dirname := sim_dirname;
  existsSync := fun p w =>
    sim_has p (sim_dirs w) || sim_has p (map fst (sim_files w));
  mkdirSync := fun p w =>
    if sim_has p denied then (Throw (sim_denial (lit "mkdir") p), w)
    else (Return tt,
          {| sim_dirs := sim_dirs w ++ [p]; sim_files := sim_files w |});
  writeFileSync := fun p text w =>
    if sim_has p denied then (Throw (sim_denial (lit "open") p), w)
    else (Return tt,
          {| sim_dirs := sim_dirs w; sim_files := sim_files w ++ [(p, text)] |});
  accessSync := fun p w =>
    if sim_has p denied then Throw (sim_denial (lit "access") p)
    else Return tt
|}.

(** A world with the directory [/out] only. *)
Definition sim_start : SimWorld :=
  {| sim_dirs := [lit "/out"]; sim_files := [] |}.

Definition sim_options : GenerationOptions :=
  {| description := lit "A demo server";
     language := lit "typescript";
     transport := lit "stdio";
     outputPath := lit "/out/demo";
     serverName := lit "demo-server" |}.

(** A generator that returns the given structure. *)
Definition sim_generators (structure : ProjectStructure) (language : str)
    : option (GenerationOptions -> ParsedResponse -> Result ProjectStructure) :=
  Some (fun _ _ => Return structure).

(** A structure that holds a readme only. *)
Definition readmeOnly : ProjectStructure :=
  {| directories := [lit "src"];
     files := [(lit "README.md", jstr (lit "# demo"))] |}.

(** Three files, the second of which holds a number. *)
Definition threeFiles : list (str * jsval) :=
  [(lit "server.ts", jstr (lit "code")); (lit "data.json", Some (JNum (lit "1")));
   (lit "README.md", jstr (lit "text"))].

(** Two declared directories, the first of which cannot be created. *)
Definition twoDirectories : ProjectStructure :=
  {| directories := [lit "src"; lit "dist"];
     files := [(lit "server.ts", jstr (lit "code"))] |}.

(** ** Materialization *)

Section MaterializeNotions.

Variable fs : NodeFs.

Import CodeGenerator.
Local Open Scope fs_scope.

(** The calls of the platform that make a directory be there: none when
    the path exists, [mkdirSync] otherwise. *)
Definition ensured (p : str) (w : World fs) : Result unit * World fs :=
  if existsSync fs p w then (Return tt, w) else mkdirSync fs p w.

(** The calls of the platform that store one entry of the files: the
    directory of its path is ensured and then, when the content is a
    string, [writeFileSync] is called with the path and the content. *)
Definition stored (basePath : str) (entry : str * jsval) (w : World fs)
    : Result unit * World fs :=
  let fullPath := path_join fs basePath (fst entry) in
  match ensured (path_dirname fs fullPath) w with
  | (Return _, w1) =>
      match snd entry with
      | Some (JStr text) => writeFileSync fs fullPath text w1
      | _ => (Throw (lit "File content must be a string"), w1)
      end
  | (Throw message, w1) => (Throw message, w1)
  end.

(** Every entry is stored in turn, whatever happened to the ones before:
    the outcome of each ([None] when [writeFileSync] returned, the
    message of its error otherwise) and the world after the last one. *)
Fixpoint attemptAll (basePath : str) (entries : list (str * jsval))
    (w : World fs) : list (str * option str) * World fs :=
  match entries with
  | [] => ([], w)
  | entry :: more =>
      let (r, w1) := stored basePath entry w in
      let (l, w2) := attemptAll basePath more w1 in
      ((fst entry, match r with Return _ => None | Throw m => Some m end) :: l,
       w2)
  end.

(** The world after each directory of the list is ensured in turn; none
    when one of them cannot be made. *)
Fixpoint ensuredAll (basePath : str) (dirs : list str) (w : World fs)
    : option (World fs) :=
  match dirs with
  | [] => Some w
  | dir :: more =>
      match ensured (path_join fs basePath dir) w with
      | (Return _, w1) => ensuredAll basePath more w1
      | (Throw _, _) => None
      end
  end.

(** The world after each entry of the list is stored in turn; none when
    one of them is not written. *)
Fixpoint storedAll (basePath : str) (entries : list (str * jsval))
    (w : World fs) : option (World fs) :=
  match entries with
  | [] => Some w
  | entry :: more =>
      match stored basePath entry w with
      | (Return _, w1) => storedAll basePath more w1
      | (Throw _, _) => None
      end
  end.

Definition written (l : list (str * option str)) : list str :=
  map fst (filter (fun o => match snd o with None => true | Some _ => false end) l).

Fixpoint failures (l : list (str * option str)) : list (str * str) :=
  match l with
  | [] => []
  | (f, Some m) :: t => (f, m) :: failures t
  | (_, None) :: t => failures t
  end.

(** The platform calls that create things always succeed. *)
Definition reliable : Prop :=
  (forall p w, fst (mkdirSync fs p w) = Return tt) /\
  (forall p text w, fst (writeFileSync fs p text w) = Return tt).

Definition is_text (content : jsval) : bool :=
  match content with Some (JStr _) => true | _ => false end.

(** What is left of [generateProject] once a structure is assembled. *)
Definition materialize (options : GenerationOptions)
    (structure : ProjectStructure) : M (World fs) unit :=
  try_catch
    (lift fs (validateProjectStructure structure) ;;;
     createDirectories fs (outputPath options) (directories structure) ;;;
     createFiles fs (outputPath options) (files structure) ;;;
     postProcessFiles fs (outputPath options) (language options))
    (fun message => throw (lit "Failed to generate project: " ++ message)).

End MaterializeNotions.

(** ** Selector, section keys, brace scan, leftover markers *)

(** The start of a line: the start of the text or after a line
    terminator. *)
Definition line_start (pre : str) : Prop :=
  match prev_after None pre with
  | None => True
  | Some c => is_line_terminator c = true
  end.

(** The end of a line: the end of the text or before a line terminator. *)
Definition line_end (post : str) : Prop :=
  match post with
  | [] => True
  | c :: _ => is_line_terminator c = true
  end.

(** Some line starts, after white space, with an opening brace, and a
    later closing brace is followed by white space up to the end of a
    line. *)
Definition lineObject (s : str) : Prop :=
  exists pre ws1 mid ws2 post,
    s = pre ++ ws1 ++ lit "{" ++ mid ++ lit "}" ++ ws2 ++ post /\
    line_start pre /\ forallb is_space ws1 = true /\
    forallb is_space ws2 = true /\ line_end post.

(** The whole text is an opening brace and a later closing brace between
    white space. *)
Definition wholeTextObject (s : str) : Prop :=
  exists ws1 mid ws2,
    s = ws1 ++ lit "{" ++ mid ++ lit "}" ++ ws2 /\
    forallb is_space ws1 = true /\ forallb is_space ws2 = true.

Definition ordinary_key (k : str) : bool := negb (str_eqb k (lit "__proto__")).

Definition no_open (c : ascii) : bool := negb (is_char "{" c).

(** From depth [d] the braces of [s] first come back to depth zero at the
    last code unit of [s]. *)
Fixpoint closes (d : nat) (s : str) : bool :=
  match s with
  | [] => false
  | c :: t =>
      if is_char "{" c then closes (S d) t
      else if is_char "}" c then
        match d with
        | 0 => false
        | 1 => match t with [] => true | _ :: _ => false end
        | S d' => closes d' t
        end
      else closes d t
  end.

(** An opening brace whose matching closing brace, as the scan counts
    them, ends the text. *)
Definition balancedObject (j : str) : bool :=
  match j with
  | c :: t => is_char "{" c && closes 1 t
  | [] => false
  end.

(** Variables in which [TOOLS] is missing and the server code holds a
    marker inside the braces of another. *)
Definition nestedMarkerVariables : list (str * option str) :=
  [(lit "SERVER_NAME", Some (lit "demo"));
   (lit "DESCRIPTION", Some (lit "A demo server"));
   (lit "TRANSPORT", Some (lit "stdio"));
   (lit "SERVER_CODE", Some (lit "{{TOOLS}{{TOOLS}}}"))].

(** ** Well-formed text with markers *)

Section LeftoverNotions.

Import TemplateRegistry.

(** Every opening brace is followed by a code unit that is no opening
    brace: no marker begins in such a text or over its end. *)
Fixpoint inert (s : str) : bool :=
  match s with
  | [] => true
  | x :: t =>
      negb (is_char "{" x && match t with [] => true | y :: _ => is_char "{" y end)
      && inert t
  end.

(** A variable name without brace, dollar sign or white space. *)
Definition name_char (c : ascii) : bool :=
  negb (is_char "{" c || is_char "}" c || is_char "$" c || is_space c).

Definition good_name (n : str) : bool :=
  match n with [] => false | _ :: _ => forallb name_char n end.

Definition marker (n : str) : str := lit "{{" ++ n ++ lit "}}".

(** What a leftover marker is replaced with. *)
Definition resolution (n : str) : str :=
  if existsb (str_eqb n) optionalVariables then [] else placeholder n.

(** Markers, each followed by a piece of text. *)
Fixpoint withMarkers (parts : list (str * str)) : str :=
  match parts with
  | [] => []
  | (n, c) :: more => marker n ++ c ++ withMarkers more
  end.

Fixpoint withResolutions (parts : list (str * str)) : str :=
  match parts with
  | [] => []
  | (n, c) :: more => resolution n ++ c ++ withResolutions more
  end.

Definition good_part (part : str * str) : bool :=
  good_name (fst part) && inert (snd part).

(** The text before and after the first occurrence of [p]. *)
Definition around (p s : str) : str * str :=
  match indexOf p s with
  | Some i => (firstn i s, skipn (i + length p) s)
  | None => (s, [])
  end.

(** Variables in which [SERVER_CODE] is missing. *)
Definition variablesWithoutCode : list (str * option str) :=
  [(lit "SERVER_NAME", Some (lit "demo"));
   (lit "DESCRIPTION", Some (lit "A demo server"));
   (lit "TRANSPORT", Some (lit "stdio"))].

End LeftoverNotions.

(* ================================================================== *)
(** * Further notions *)

Section ParserNotions.

Import BaseResponseParser.

(** A piece of the text that begins with an opening brace and ends with
    the closing brace that balances it. *)
Definition piece (text c : str) : Prop :=
  balancedObject c = true /\ exists pre post, text = pre ++ c ++ post.

Definition string_or_absent (v : jsval) : bool := is_undefined v || is_string v.

Definition object_or_absent (v : jsval) : bool := is_undefined v || is_object v.

Definition filled (v : jsval) : bool :=
  match v with
  | Some (JStr s) => match trim s with [] => false | _ :: _ => true end
  | _ => false
  end.

(** What follows the header name in the pattern of sections. *)
Definition afterName : re :=
  seqs [star is_space; Cap 2 (lazy_star is_any);
        Ahead (Alt (Seq (Lit "##") (plus is_space)) (Eol false))].

Definition single_keys (o : record) : Prop :=
  forall k v, record_get k o = Some v -> length k = 1.

Definition basicReadme : str :=
  generateBasicReadme (lit "MCP Server") (lit "A Model Context Protocol server").

Definition text_filled (v : jsval) : bool := is_string v && truthy v.

End ParserNotions.

Section SubstitutionNotions.

Import TemplateRegistry.

(** A key of the variables: letters, digits and underscores. *)
Definition is_identifier (key : str) : bool :=
  match key with [] => false | _ :: _ => forallb is_word key end.

(** What one replacement makes of the markers: a marker of the key
    becomes the value, read as a replacement pattern with the text before
    and after the marker; every other marker stays. *)
Fixpoint substituted (key v : str) (before : str) (parts : list (str * str))
    : str :=
  match parts with
  | [] => []
  | (n, c) :: more =>
      (if str_eqb n key
       then GetSubstitution (marker n) before (c ++ withMarkers more) v
       else marker n)
      ++ c ++ substituted key v (before ++ marker n ++ c) more
  end.

(** The value bound to a name, by the first binding of the name. *)
Fixpoint bound (vars : list (str * option str)) (n : str) : option str :=
  match vars with
  | [] => None
  | (key, value) :: more =>
      if str_eqb n key then Some (valueString value) else bound more n
  end.

(** Every marker replaced at once: by the value bound to its name, or by
    what a leftover marker is replaced with. *)
Fixpoint withValues (vars : list (str * option str))
    (parts : list (str * str)) : str :=
  match parts with
  | [] => []
  | (n, c) :: more =>
      (match bound vars n with Some v => v | None => resolution n end)
      ++ c ++ withValues vars more
  end.

(** A binding whose key is an identifier and whose value holds no dollar
    sign and begins no marker. *)
Definition good_binding (kv : str * option str) : bool :=
  is_identifier (fst kv)
  && forallb (fun c => negb (Ascii.eqb c "$"%char)) (valueString (snd kv))
  && inert (valueString (snd kv)).

(** The markers of a text and the text between them: the text up to the
    first marker, then every marker with the text after it. *)
Fixpoint splitMarkers_name (s : str) (acc : str) : option (str * str) :=
  match s with
  | [] => None
  | c :: t =>
      if startsWith (lit "}}") s then Some (rev acc, skipn 2 s)
      else splitMarkers_name t (c :: acc)
  end.

Fixpoint splitMarkers (fuel : nat) (s : str) (acc : str)
    : str * list (str * str) :=
  match fuel with
  | 0 => (rev acc ++ s, [])
  | S f =>
      match s with
      | [] => (rev acc, [])
      | c :: t =>
          if startsWith (lit "{{") s then
            match splitMarkers_name (skipn 2 s) [] with
            | Some (n, after) =>
                let r := splitMarkers f after [] in
                (rev acc, (n, fst r) :: snd r)
            | None => (rev acc ++ s, [])
            end
          else splitMarkers f t (c :: acc)
      end
  end.

End SubstitutionNotions.

(** The names that [ensureUniqueDirectory] tries, in turn. *)
Definition candidate (preferredName : str) (k : nat) : str :=
  match k with
  | 0 => preferredName
  | S _ => preferredName ++ lit "-" ++ decimal k
  end.

Section UniqueNotions.

Variable fs : NodeFs.

(** Whether the path of the k-th name exists. *)
Definition taken (basePath preferredName : str) (w : World fs) (k : nat)
    : bool :=
  existsSync fs (path_join fs basePath (candidate preferredName k)) w.

End UniqueNotions.

(** A world in which the first two names are taken. *)
Definition sim_taken : SimWorld :=
  {| sim_dirs := [lit "/out"; lit "/out/demo-server"; lit "/out/demo-server-1"];
     sim_files := [] |}.

(** The entries that [JSON.stringify] writes, as [JSON.parse] reads them
    back. *)
Definition written_properties (properties : list (str * option str))
    : list (str * json) :=
  flat_map (fun kv => match snd kv with
                      | Some v => [(fst kv, JStr v)]
                      | None => []
                      end) properties.

(** One member, as [JSON.stringify] writes it. *)
Definition member (kv : str * str) : str :=
  QuoteJSONString (fst kv) ++ lit ":" ++ QuoteJSONString (snd kv).

(** The properties that hold a string. *)
Definition defined_properties (properties : list (str * option str))
    : list (str * str) :=
  flat_map (fun kv => match snd kv with
                      | Some v => [(fst kv, v)]
                      | None => []
                      end) properties.

(* notions *)

(** The fraction and the exponent of a number lexeme, as [parse_number]
    reads them. *)
Definition number_frac (s2 : str) : option (str * str) :=
  match s2 with
  | c :: t =>
      if is_char "." c
      then let (f, r) := take_digits t in
           match f with
           | [] => None
           | _ => Some (c :: f, r)
           end
      else Some ([], s2)
  | [] => Some ([], s2)
  end.

Definition number_exp (s3 : str) : option (str * str) :=
  match s3 with
  | c :: t =>
      if is_char "e" c || is_char "E" c
      then
        let (sg, t1) :=
          match t with
          | x :: t' =>
              if is_char "+" x || is_char "-" x
              then ([x], t') else ([], t)
          | [] => ([], t)
          end in
        let (e, r) := take_digits t1 in
        match e with
        | [] => None
        | _ => Some (c :: sg ++ e, r)
        end
      else Some ([], s3)
  | [] => Some ([], s3)
  end.

Definition number_body (sign s1 : str) : option (str * str) :=
  let (int, s2) := take_digits s1 in
  match int with
  | [] => None
  | d :: ds =>
      if is_char "0" d && negb (match ds with [] => true | _ => false end)
      then None
      else
        match number_frac s2 with
        | None => None
        | Some (f, s3) =>
            match number_exp s3 with
            | None => None
            | Some (e, s4) => Some (sign ++ int ++ f ++ e, s4)
            end
        end
  end.

Definition is_number (v : json) : bool :=
  match v with JNum _ => true | _ => false end.

(** A code unit after which a double quote would open the first key of
    an object: an opening brace or white space of JSON. *)
Definition opens_key (p : ascii) : bool := is_char "{" p || json_ws p.

(** No double quote of the text comes after such a code unit; [p] is the
    code unit before the text. *)
Fixpoint guarded (p : ascii) (s : str) : bool :=
  match s with
  | [] => true
  | c :: t => negb (is_char dquote c && opens_key p) && guarded c t
  end.

(** The text of a string, as [QuoteJSONString] writes it, ends with a
    code unit after which a double quote opens no first key. *)
Definition safe_end (s : str) : bool :=
  negb (opens_key (last (flat_map quote_char s) dquote)).

Definition safe_property (kv : str * option str) : bool :=
  safe_end (fst kv)
  && match snd kv with Some v => safe_end v | None => true end.

(** The properties of the object that [buildFallbackResponse] writes. *)
Definition fallbackProperties (options : GenerationOptions)
    : list (str * option str) :=
  [(lit "serverCode", Some []);
   (lit "readme", Some (CreateServerCommand.fallbackReadme options));
   (lit "installInstructions", CreateServerCommand.getInstallSection (language options));
   (lit "usageExample",
    Some (CreateServerCommand.getUsageExample (language options) (serverName options)))].

(** What the fallback response holds. *)
Definition fallbackRecord (options : GenerationOptions) : ParsedResponse :=
  {| serverCode := jstr [];
     packageJson := undefined;
     readme := jstr (CreateServerCommand.fallbackReadme options);
     installInstructions :=
       option_map JStr
         (CreateServerCommand.getInstallSection (language options));
     usageExample :=
       jstr (CreateServerCommand.getUsageExample
               (language options) (serverName options));
     dependencies := undefined;
     devDependencies := undefined;
     scripts := undefined;
     additionalFiles := undefined |}.

(** The variables of a server without response code. *)
Definition demoVariables : list (str * option str) :=
  [(lit "SERVER_NAME", Some (lit "demo-server"));
   (lit "DESCRIPTION", Some (lit "A demo server"));
   (lit "TRANSPORT", Some (lit "stdio"));
   (lit "SERVER_CODE", Some (lit "const answer = 42;"));
   (lit "TOOLS", None); (lit "RESOURCES", None); (lit "PROMPTS", None);
   (lit "CUSTOM_CODE", None)].

(** The text of the basic TypeScript template around its markers. *)
Definition basicParts : str * list (str * str) :=
  splitMarkers (S (length TemplateRegistry.typescriptBasicBody))
    TemplateRegistry.typescriptBasicBody [].

(** A template with one marker. *)
Definition priceTemplate : TemplateRegistry.Template :=
  {| TemplateRegistry.name := lit "price";
     TemplateRegistry.description := [];
     TemplateRegistry.language := lit "typescript";
     TemplateRegistry.category := lit "custom";
     TemplateRegistry.template := lit "const label = '{{LABEL}}';";
     TemplateRegistry.variables := [lit "LABEL"] |}.

(** Options whose description holds the words failed and error. *)
Definition logOptions : GenerationOptions :=
  {| description := lit "Shows Failed jobs and their error logs";
     language := lit "typescript";
     transport := lit "stdio";
     outputPath := lit "/out/logs";
     serverName := lit "logs-server" |}.

(** The text holds the piece. *)
Definition holds (piece s : str) : Prop := exists a b, s = a ++ piece ++ b.

(** An engine for examples: a number keeps its lexeme. *)
Definition sim_engine : Engine :=
  {| numberToString := fun lexeme => lexeme;
     notFunction := lit "value.includes is not a function";
     notPrimitive := lit "Cannot convert object to primitive value" |}.

(** A response whose additional files replace the server file by a
    number and add a file under an array index. *)
Definition oddRecord : ParsedResponse :=
  {| serverCode := jstr (lit "const answer = 42;");
     packageJson := undefined;
     readme := undefined;
     installInstructions := undefined;
     usageExample := undefined;
     dependencies := undefined;
     devDependencies := undefined;
     scripts := undefined;
     additionalFiles :=
       Some (JObj [(lit "notes.txt", JStr (lit "n"));
                   (lit "server.ts", JNum (lit "1"));
                   (lit "7", JStr (lit "seven"))]) |}.


(** The files of a project, by language, when the response adds none. *)
Definition generatedFiles (language : str) : list str :=
  if str_eqb language (lit "typescript")
  then [lit "server.ts"; lit "package.json"; lit "tsconfig.json"; lit "README.md"]
  else if str_eqb language (lit "javascript")
  then [lit "server.js"; lit "package.json"; lit "README.md"]
  else [lit "server.py"; lit "requirements.txt"; lit "README.md"; lit ".gitignore"].

(** A response of plain text and what the plain-text strategy makes of
    it. *)
Definition textResponse : str :=
  lit "Use the tools of the weather service.".

Definition textRecord : ParsedResponse :=
  {| serverCode := jstr textResponse;
     packageJson := undefined;
     readme := jstr basicReadme;
     installInstructions := jstr BaseResponseParser.installTypescript;
     usageExample := jstr BaseResponseParser.generateBasicUsageExample;
     dependencies := undefined;
     devDependencies := undefined;
     scripts := undefined;
     additionalFiles := undefined |}.

Section TemplateNotions.

Import TemplateRegistry.

(** The text of a template around its markers. *)
Definition markersOf (t : Template) : str * list (str * str) :=
  splitMarkers (S (length (template t))) (template t) [].

(** The template is found in the registry under its name, it is text
    that begins no marker around markers with plain names, and every
    marker names a variable that the template declares. *)
Definition wellformed_template (templates : registry) (t : Template) : bool :=
  match getTemplate templates (name t) with
  | Some found => str_eqb (template found) (template t)
  | None => false
  end
  && str_eqb (template t) (fst (markersOf t) ++ withMarkers (snd (markersOf t)))
  && inert (fst (markersOf t))
  && forallb good_part (snd (markersOf t))
  && forallb (fun part => existsb (str_eqb (fst part)) (variables t))
       (snd (markersOf t)).

End TemplateNotions.

(** The variables of a server with one tool. *)
Definition toolVariables : list (str * option str) :=
  [(lit "SERVER_NAME", Some (lit "weather-server"));
   (lit "DESCRIPTION", Some (lit "Weather tools"));
   (lit "TRANSPORT", Some (lit "stdio"));
   (lit "SERVER_CODE", Some (lit "import httpx"));
   (lit "TOOLS", Some (lit "# tools: forecast"));
   (lit "RESOURCES", Some []);
   (lit "PROMPTS", Some []);
   (lit "CUSTOM_CODE", Some [])].

(** The value of an object literal, as [JSON.parse] gives it. *)
Fixpoint json_of (value : literal) : json :=
  match value with
  | LStr s => JStr s
  | LArr items => JArr (map json_of items)
  | LObj properties =>
      JObj (map (fun kv => match kv with (k, v) => (k, json_of v) end) properties)
  end.

(** The number of values in an object literal. *)
Fixpoint literal_size (value : literal) : nat :=
  match value with
  | LStr s => 1
  | LArr items => S (list_sum (map literal_size items))
  | LObj properties =>
      S (list_sum (map (fun kv => match kv with (k, v) => literal_size v end)
                     properties))
  end.

(** One member of an object, as [JSON.stringify] writes it with a gap. *)
Definition pretty_member (indent : str) (kv : str * literal) : str :=
  match kv with
  | (k, v) => QuoteJSONString k ++ lit ": " ++ SerializeJSONValue indent v
  end.

(** The values for which reading inverts writing, at every indentation
    and with every text after them. *)
Definition inverts (v : literal) : Prop :=
  forall indent rest f,
    forallb json_ws indent = true ->
    length (SerializeJSONValue indent v) <= f ->
    parse_value f (SerializeJSONValue indent v ++ rest) = Some (json_of v, rest).

(** The value of a property of an object, if the object has it. *)
Fixpoint own_value (k : str) (o : object) : option jsval :=
  match o with
  | [] => None
  | (k', v) :: more => if str_eqb k k' then Some v else own_value k more
  end.

(** ** The key store and the start of the command *)

(** The calls of the editor do what their names say: a secret that is
    stored is the one read afterwards, a deleted one is absent, a setting
    that is updated is the one read afterwards, and the secrets and the
    settings do not touch each other. *)
Definition lawful (editor : Editor) : Prop :=
  (forall v s, secrets_get editor (secrets_store editor v s) = Some v) /\
  (forall s, secrets_get editor (secrets_delete editor s) = None) /\
  (forall v s, secrets_get editor (config_update editor v s)
               = secrets_get editor s) /\
  (forall v s, config_get editor (config_update editor v s) = Some v) /\
  (forall v s, config_get editor (secrets_store editor v s)
               = config_get editor s) /\
  (forall s, config_get editor (secrets_delete editor s)
             = config_get editor s).

(** The setting [openaiApiKey] as [getOpenAIApiKey] reads it. *)
Definition legacyValue (editor : Editor) (s : Store editor) : str :=
  trim match config_get editor s with
       | Some value => value
       | None => []
       end.

(** Whether [getOpenAIApiKey] finds a secret that it returns. *)
Definition no_secret (editor : Editor) (s : Store editor) : Prop :=
  match secrets_get editor s with
  | Some secret => trim secret = []
  | None => True
  end.

(** An editor for examples: the secret and the setting, each there or
    not. *)
Definition sim_editor : Editor := {|
  Store := option str * option str;
  secrets_get := fun s => fst s;
  secrets_store := fun v s => (Some v, snd s);
  secrets_delete := fun s => (None, snd s);
  config_get := fun s => snd s;
  config_update := fun v s => (fst s, Some v)
|}.

(** An initialized manager with a key in the settings only. *)
Definition sim_legacy : ConfigurationManager.State sim_editor :=
  @ConfigurationManager.Build_State sim_editor true
    (None, Some (lit " sk-old ")).

(** Arguments that give everything but the name. *)
Definition sim_arguments : CreateServerCommand.CreateServerArguments :=
  {| CreateServerCommand.arg_description := Some (lit "  Weather tools ");
     CreateServerCommand.arg_language := Some (lit "python");
     CreateServerCommand.arg_transport := None;
     CreateServerCommand.arg_serverName := None |}.

(** A world in which the first name is taken, and the options that the
    command resolves there. *)
Definition sim_named : SimWorld :=
  {| sim_dirs := [lit "/out"; lit "/out/weather-tools-server"];
     sim_files := [] |}.

Definition sim_weather : GenerationOptions :=
  {| description := lit "Weather tools";
     language := lit "python";
     transport := lit "stdio";
     outputPath := lit "/out/weather-tools-server-1";
     serverName := lit "weather-tools-server-1" |}.

(** The inside of an object whose readme holds a fence of its own. *)
Definition readmeWithFence : str :=
  jsq "'serverCode':'run()','readme':'Use:\n```bash\nnpm start\n```'".

(* ================================================================== *)
(** * Properties of the string operations *)

Lemma ascii_eqb_true (a b : ascii) : Ascii.eqb a b = true <-> a = b.
Proof. apply Ascii.eqb_eq. Qed.

Lemma is_char_true (a c : ascii) : is_char a c = true <-> c = a.
Proof. unfold is_char. rewrite Ascii.eqb_eq. split; congruence. Qed.

Lemma is_char_refl (a : ascii) : is_char a a = true.
Proof. apply is_char_true. reflexivity. Qed.

Lemma str_eqb_eq (a b : str) : str_eqb a b = true <-> a = b.
Proof.
  revert b. induction a as [|x a IH]; intros [|y b]; simpl; split;
    try congruence; try reflexivity.
  - intros H. apply andb_true_iff in H. destruct H as [H1 H2].
    apply Ascii.eqb_eq in H1. apply IH in H2. congruence.
  - intros H. injection H as -> ->. rewrite Ascii.eqb_refl. simpl.
    apply IH. reflexivity.
Qed.

Lemma str_eqb_refl (a : str) : str_eqb a a = true.
Proof. apply str_eqb_eq. reflexivity. Qed.

Lemma startsWith_app (p s : str) : startsWith p (p ++ s) = true.
Proof.
  induction p as [|x p IH]; simpl; [reflexivity|].
  rewrite Ascii.eqb_refl. exact IH.
Qed.

Lemma startsWith_split (p s : str) :
  startsWith p s = true -> s = p ++ skipn (length p) s.
Proof.
  revert s. induction p as [|x p IH]; intros s H; [reflexivity|].
  destruct s as [|y s]; simpl in H; [discriminate|].
  apply andb_true_iff in H. destruct H as [H1 H2].
  apply Ascii.eqb_eq in H1. subst y. simpl. f_equal. apply IH. exact H2.
Qed.

Lemma startsWith_iff (p s : str) :
  startsWith p s = true <-> exists t, s = p ++ t.
Proof.
  split.
  - intros H. eexists. apply startsWith_split. exact H.
  - intros [t ->]. apply startsWith_app.
Qed.

(** [includes p s] holds exactly when [p] occurs in [s]. *)
Lemma includes_iff (p s : str) :
  includes p s = true <-> exists a b, s = a ++ p ++ b.
Proof.
  unfold includes. induction s as [|c s IH].
  - simpl. destruct (startsWith p []) eqn:E.
    + split; [|reflexivity]. intros _. apply startsWith_iff in E.
      destruct E as [t E]. exists [], t. exact E.
    + split; [discriminate|]. intros (a & b & H).
      destruct a; [|discriminate]. simpl in H.
      assert (startsWith p [] = true) by (apply startsWith_iff; eauto).
      congruence.
  - simpl. destruct (startsWith p (c :: s)) eqn:E.
    + split; [|reflexivity]. intros _. apply startsWith_iff in E.
      destruct E as [t E]. exists [], t. exact E.
    + destruct (indexOf p s) as [i|]; simpl.
      * split; [|reflexivity]. intros _.
        destruct IH as [IH _]. destruct (IH eq_refl) as (a & b & ->).
        exists (c :: a), b. reflexivity.
      * split; [discriminate|]. intros (a & b & H).
        destruct a as [|x a].
        -- assert (startsWith p (c :: s) = true)
             by (apply startsWith_iff; eauto).
           congruence.
        -- injection H as -> ->. destruct IH as [_ IH].
           discriminate IH. eauto.
Qed.

Lemma includes_false_app (p a b : str) :
  includes p (a ++ b) = false -> includes p a = false /\ includes p b = false.
Proof.
  intros H. split.
  - destruct (includes p a) eqn:E; [|reflexivity].
    apply includes_iff in E. destruct E as (x & y & ->).
    assert (includes p ((x ++ p ++ y) ++ b) = true).
    { apply includes_iff. exists x, (y ++ b). now rewrite <- !app_assoc. }
    congruence.
  - destruct (includes p b) eqn:E; [|reflexivity].
    apply includes_iff in E. destruct E as (x & y & ->).
    assert (includes p (a ++ x ++ p ++ y) = true).
    { apply includes_iff. exists (a ++ x), y. now rewrite <- !app_assoc. }
    congruence.
Qed.

Lemma trimStart_spaces (w s : str) :
  forallb is_space w = true -> trimStart (w ++ s) = trimStart s.
Proof.
  induction w as [|c w IH]; intros H; [reflexivity|].
  simpl in H. apply andb_true_iff in H. destruct H as [H1 H2].
  simpl. rewrite H1. apply IH. exact H2.
Qed.

Lemma trimStart_all_spaces (w : str) :
  forallb is_space w = true -> trimStart w = [].
Proof.
  intros H. rewrite <- (app_nil_r w). rewrite trimStart_spaces by exact H.
  reflexivity.
Qed.

Lemma trimStart_nil_iff (s : str) :
  trimStart s = [] <-> forallb is_space s = true.
Proof.
  split; [|apply trimStart_all_spaces].
  induction s as [|c s IH]; intros H; [reflexivity|].
  simpl in *. destruct (is_space c); [auto|discriminate].
Qed.

Lemma trimStart_stop (c : ascii) (s : str) :
  is_space c = false -> trimStart (c :: s) = c :: s.
Proof. intros H. simpl. rewrite H. reflexivity. Qed.

Lemma trimStart_head (s : str) (c : ascii) (t : str) :
  trimStart s = c :: t -> is_space c = false.
Proof.
  induction s as [|x s IH]; simpl; [discriminate|].
  destruct (is_space x) eqn:E; [exact IH|].
  intros H. injection H as <- _. exact E.
Qed.

Lemma forallb_rev (p : ascii -> bool) (l : str) :
  forallb p (rev l) = forallb p l.
Proof.
  induction l as [|x l IH]; [reflexivity|].
  simpl. rewrite forallb_app, IH. simpl. rewrite andb_true_r.
  apply andb_comm.
Qed.

(** [trim] gives the empty string exactly on blank input. *)
Lemma trim_nil_iff (s : str) : trim s = [] <-> forallb is_space s = true.
Proof.
  unfold trim, trimEnd. split.
  - intros H. apply trimStart_nil_iff.
    destruct (trimStart s) as [|c t] eqn:E; [reflexivity|].
    assert (Hr : trimStart (rev (c :: t)) = []).
    { destruct (trimStart (rev (c :: t))); [reflexivity|].
      apply (f_equal (@length ascii)) in H. rewrite length_rev in H.
      discriminate H. }
    apply trimStart_nil_iff in Hr. rewrite forallb_rev in Hr.
    simpl in Hr. apply trimStart_head in E. rewrite E in Hr. discriminate.
  - intros H. apply trimStart_nil_iff in H. rewrite H. reflexivity.
Qed.

Lemma trim_core (a b : str) (x y : ascii) (m : str) :
  forallb is_space a = true -> forallb is_space b = true ->
  is_space x = false -> is_space y = false ->
  trim (a ++ (x :: m ++ [y]) ++ b) = x :: m ++ [y].
Proof.
  intros Ha Hb Hx Hy. unfold trim, trimEnd.
  rewrite trimStart_spaces by exact Ha.
  assert (E1 : trimStart ((x :: m ++ [y]) ++ b) = (x :: m ++ [y]) ++ b)
    by (simpl; rewrite Hx; reflexivity).
  rewrite E1, rev_app_distr.
  rewrite trimStart_spaces by (rewrite forallb_rev; exact Hb).
  assert (E2 : rev (x :: m ++ [y]) = y :: rev (x :: m)).
  { change (x :: m ++ [y]) with ((x :: m) ++ [y]).
    rewrite rev_app_distr. reflexivity. }
  rewrite E2. rewrite trimStart_stop by exact Hy.
  rewrite <- E2. apply rev_involutive.
Qed.

(* ================================================================== *)
(** * Properties of the matcher *)

Lemma prev_after_cons (pv : option ascii) (c : ascii) (w : str) :
  prev_after pv (c :: w) = prev_after (Some c) w.
Proof. reflexivity. Qed.

Lemma prev_after_app (pv : option ascii) (a b : str) :
  prev_after pv (a ++ b) = prev_after (prev_after pv a) b.
Proof. unfold prev_after. apply fold_left_app. Qed.

Lemma prev_after_last (pv : option ascii) (a : str) (c : ascii) :
  prev_after pv (a ++ [c]) = Some c.
Proof. rewrite prev_after_app. reflexivity. Qed.

Lemma prev_after_some (pv : option ascii) (c : ascii) (w : str) :
  exists d, prev_after pv (c :: w) = Some d.
Proof.
  revert pv c. induction w as [|x w IH]; intros pv c.
  - exists c. reflexivity.
  - rewrite prev_after_cons. apply IH.
Qed.

Section Rep.

Variables (g : bool) (p : ascii -> bool) (k : mstate -> option mstate)
          (cs : list (nat * str)).

(** A quantified class fails when the continuation fails after every
    admissible number of code units. *)
Lemma rep_none (s : str) : forall lo hi pv ps,
  (forall w s', s = w ++ s' -> forallb p w = true -> lo <= length w ->
                fits hi (length w) ->
                k (MS (prev_after pv w) (ps + length w) s' cs) = None) ->
  rep g p lo hi k pv ps cs s = None.
Proof.
  induction s as [|c t IH]; intros lo hi pv ps H.
  - assert (Hstop : (if lo =? 0 then k (MS pv ps [] cs) else None) = None).
    { destruct (Nat.eqb_spec lo 0) as [->|]; [|reflexivity].
      specialize (H [] [] eq_refl eq_refl (Nat.le_0_l _)).
      simpl in H. rewrite Nat.add_0_r in H. apply H.
      destruct hi; simpl; lia. }
    simpl. rewrite Hstop. destruct g; reflexivity.
  - assert (Hstop : (if lo =? 0 then k (MS pv ps (c :: t) cs) else None) = None).
    { destruct (Nat.eqb_spec lo 0) as [->|]; [|reflexivity].
      specialize (H [] (c :: t) eq_refl eq_refl (Nat.le_0_l _)).
      simpl in H. rewrite Nat.add_0_r in H. apply H.
      destruct hi; simpl; lia. }
    assert (Hmore : (if p c && room hi
                     then rep g p (pred lo) (less hi) k (Some c) (S ps) cs t
                     else None) = None).
    { destruct (p c) eqn:Ec; [|reflexivity].
      destruct (room hi) eqn:Er; [|reflexivity]. simpl.
      apply IH. intros w s' -> Hw Hlo Hhi.
      specialize (H (c :: w) s' eq_refl).
      simpl in H. rewrite Ec, Hw in H.
      replace (ps + S (length w)) with (S ps + length w) in H by lia.
      apply H; [reflexivity|lia|].
      destruct hi as [h|]; simpl in *; [|exact I].
      destruct h; [discriminate|]. simpl in Hhi. lia. }
    simpl. rewrite Hstop, Hmore. destruct g; reflexivity.
Qed.

(** A quantified class succeeds only through the continuation, after an
    admissible number of code units of the class. *)
Lemma rep_some (s : str) : forall lo hi pv ps e,
  rep g p lo hi k pv ps cs s = Some e ->
  exists w s', s = w ++ s' /\ forallb p w = true /\ lo <= length w /\
               fits hi (length w) /\
               k (MS (prev_after pv w) (ps + length w) s' cs) = Some e.
Proof.
  induction s as [|c t IH]; intros lo hi pv ps e H.
  - assert (Hs : (if lo =? 0 then k (MS pv ps [] cs) else None) = Some e).
    { simpl in H. destruct g; [exact H|].
      destruct (if lo =? 0 then _ else None); [exact H|discriminate H]. }
    destruct (Nat.eqb_spec lo 0) as [->|]; [|discriminate].
    exists [], []. simpl. rewrite Nat.add_0_r.
    repeat split; auto. destruct hi; simpl; lia.
  - simpl in H.
    assert (Hcases :
      (if lo =? 0 then k (MS pv ps (c :: t) cs) else None) = Some e \/
      (if p c && room hi
       then rep g p (pred lo) (less hi) k (Some c) (S ps) cs t
       else None) = Some e).
    { destruct g.
      - destruct (if p c && room hi then _ else None) eqn:E1.
        + right. exact H.
        + left. exact H.
      - destruct (if lo =? 0 then _ else None) eqn:E1.
        + left. exact H.
        + right. exact H. }
    clear H. destruct Hcases as [H|H].
    + destruct (Nat.eqb_spec lo 0) as [->|]; [|discriminate].
      exists [], (c :: t). simpl. rewrite Nat.add_0_r.
      repeat split; auto. destruct hi; simpl; lia.
    + destruct (p c) eqn:Ec; [|discriminate].
      destruct (room hi) eqn:Er; [|discriminate]. simpl in H.
      apply IH in H. destruct H as (w & s' & -> & Hw & Hlo & Hhi & Hk).
      exists (c :: w), s'. simpl. rewrite Ec, Hw.
      replace (ps + S (length w)) with (S ps + length w) by lia.
      repeat split; auto; [lia|].
      destruct hi as [h|]; simpl in *; [|exact I].
      destruct h; [discriminate|]. simpl in Hhi. lia.
Qed.

End Rep.

(** A greedy class takes its whole run when the continuation accepts
    there. *)
Lemma rep_greedy_run (p : ascii -> bool) (k : mstate -> option mstate)
    (cs : list (nat * str)) (w s' : str) : forall lo pv ps e,
  forallb p w = true -> stops p s' -> lo <= length w ->
  k (MS (prev_after pv w) (ps + length w) s' cs) = Some e ->
  rep true p lo None k pv ps cs (w ++ s') = Some e.
Proof.
  induction w as [|c w IH]; intros lo pv ps e Hw Hs Hlo Hk.
  - simpl in *. rewrite Nat.add_0_r in Hk.
    assert (lo = 0) by lia. subst lo.
    destruct s' as [|c t]; simpl; rewrite Hk.
    + reflexivity.
    + simpl in Hs. rewrite Hs. reflexivity.
  - simpl in Hw. apply andb_true_iff in Hw. destruct Hw as [Hc Hw].
    simpl. rewrite Hc. simpl.
    rewrite (IH (pred lo) (Some c) (S ps) e Hw Hs); [reflexivity|simpl in Hlo; lia|].
    simpl in Hk. replace (S ps + length w) with (ps + S (length w)) by lia.
    exact Hk.
Qed.

(** A lazy class stops at the first admissible point at which the
    continuation accepts. *)
Lemma rep_lazy_first (p : ascii -> bool) (k : mstate -> option mstate)
    (cs : list (nat * str)) (w s' : str) : forall lo pv ps e,
  forallb p w = true -> lo <= length w ->
  (forall w1 w2, w = w1 ++ w2 -> w2 <> [] -> lo <= length w1 ->
     k (MS (prev_after pv w1) (ps + length w1) (w2 ++ s') cs) = None) ->
  k (MS (prev_after pv w) (ps + length w) s' cs) = Some e ->
  rep false p lo None k pv ps cs (w ++ s') = Some e.
Proof.
  induction w as [|c w IH]; intros lo pv ps e Hw Hlo Hfail Hk.
  - simpl in *. rewrite Nat.add_0_r in Hk.
    assert (lo = 0) by lia. subst lo.
    destruct s' as [|c t]; simpl; rewrite Hk; reflexivity.
  - simpl in Hw. apply andb_true_iff in Hw. destruct Hw as [Hc Hw].
    assert (Hstop : (if lo =? 0 then k (MS pv ps ((c :: w) ++ s') cs) else None)
                    = None).
    { destruct (Nat.eqb_spec lo 0) as [->|]; [|reflexivity].
      specialize (Hfail [] (c :: w) eq_refl).
      simpl in Hfail. rewrite Nat.add_0_r in Hfail. apply Hfail; [discriminate|lia]. }
    simpl in *. rewrite Hstop, Hc. simpl.
    apply IH; auto; [lia| |].
    + intros w1 w2 -> Hne Hlo1.
      specialize (Hfail (c :: w1) w2 eq_refl Hne). simpl in Hfail.
      replace (S ps + length w1) with (ps + S (length w1)) by lia.
      apply Hfail. lia.
    + replace (S ps + length w) with (ps + S (length w)) by lia. exact Hk.
Qed.

Lemma mt_Rep g lo hi p k pv ps s cs :
  mt (Rep g lo hi p) k (MS pv ps s cs) = rep g p lo hi k pv ps cs s.
Proof. reflexivity. Qed.

Lemma mt_Seq a b k st : mt (Seq a b) k st = mt a (mt b k) st.
Proof. reflexivity. Qed.

Lemma mt_Alt a b k st :
  mt (Alt a b) k st =
  match mt a k st with Some e => Some e | None => mt b k st end.
Proof. reflexivity. Qed.

Lemma mt_Bol m k st : mt (Bol m) k st = if at_bol m st then k st else None.
Proof. reflexivity. Qed.

Lemma mt_Eol m k st : mt (Eol m) k st = if at_eol m st then k st else None.
Proof. reflexivity. Qed.

Lemma mt_Chr p k pv ps c t cs :
  mt (Chr p) k (MS pv ps (c :: t) cs) =
  if p c then k (MS (Some c) (S ps) t cs) else None.
Proof. reflexivity. Qed.

(** A literal reads exactly its text. *)
Lemma mt_Str (l : str) (k : mstate -> option mstate) : forall st,
  mt (Str l) k st =
  if startsWith l (rest st)
  then k (after l (skipn (length l) (rest st)) st)
  else None.
Proof.
  induction l as [|c l IH]; intros [pv ps s cs].
  - simpl. unfold after. simpl. rewrite Nat.add_0_r. reflexivity.
  - destruct s as [|x s]; [reflexivity|].
    change (mt (Str (c :: l)) k (MS pv ps (x :: s) cs))
      with (if is_char c x then mt (Str l) k (MS (Some x) (S ps) s cs) else None).
    simpl startsWith. unfold is_char.
    destruct (Ascii.eqb_spec c x) as [->|]; [|reflexivity].
    simpl andb. rewrite IH. simpl rest.
    destruct (startsWith l s); [|reflexivity].
    unfold after. simpl. rewrite Nat.add_succ_r. reflexivity.
Qed.

Lemma mt_Str_app (l s' : str) (k : mstate -> option mstate) pv ps cs :
  mt (Str l) k (MS pv ps (l ++ s') cs) =
  k (MS (prev_after pv l) (ps + length l) s' cs).
Proof.
  rewrite mt_Str. simpl rest. rewrite startsWith_app.
  unfold after. simpl. rewrite skipn_app, skipn_all, Nat.sub_diag.
  reflexivity.
Qed.

(** What does not change between the positions of one match. *)
Lemma exec_from_start (r : re) (s : str) : forall pv ps m,
  exec_from r pv ps s = Some m -> ps <= m_start m.
Proof.
  induction s as [|c t IH]; intros pv ps m H; simpl in H.
  - destruct (mt r Some (MS pv ps [] [])); [|discriminate].
    injection H as <-. simpl. lia.
  - destruct (mt r Some (MS pv ps (c :: t) [])).
    + injection H as <-. simpl. lia.
    + apply IH in H. lia.
Qed.

Lemma exec_from_skip (r : re) (c : ascii) (t : str) pv ps :
  mt r Some (MS pv ps (c :: t) []) = None ->
  exec_from r pv ps (c :: t) = exec_from r (Some c) (S ps) t.
Proof. intros H. simpl. rewrite H. reflexivity. Qed.

Lemma exec_from_here (r : re) (s : str) pv ps e :
  mt r Some (MS pv ps s []) = Some e ->
  exec_from r pv ps s = Some (MR ps (firstn (pos e - ps) s) (caps e) e).
Proof. intros H. destruct s; simpl; rewrite H; reflexivity. Qed.

(* ================================================================== *)
(** * Properties of global replacement *)

Lemma GetSubstitution_plain (m b a repl : str) :
  plain repl -> GetSubstitution m b a repl = repl.
Proof.
  unfold plain. induction repl as [|c t IH]; intros H; [reflexivity|].
  simpl in H. apply andb_true_iff in H. destruct H as [Hc Ht].
  simpl. destruct (Ascii.eqb c "$"); [discriminate|].
  rewrite IH by exact Ht. reflexivity.
Qed.

(** No match at the current code unit: it is copied. *)
Lemma replace_from_skip (r : re) (repl done : str) (f : nat)
    pv ps (c : ascii) (t : str) cs :
  mt r Some (MS pv ps (c :: t) []) = None ->
  replace_from (S f) r repl done (MS pv ps (c :: t) cs) =
  c :: replace_from (S f) r repl (c :: done) (MS (Some c) (S ps) t []).
Proof.
  intros H. simpl replace_from. unfold exec_at. simpl prev. simpl pos.
  simpl rest. rewrite exec_from_skip by exact H.
  destruct (exec_from r (Some c) (S ps) t) as [m|] eqn:E; [|reflexivity].
  assert (Hle : S ps <= m_start m) by (eapply exec_from_start; exact E).
  replace (m_start m - ps) with (S (m_start m - S ps)) by lia.
  simpl firstn. simpl rev.
  replace (rev done ++ c :: firstn (m_start m - S ps) t)
    with ((rev done ++ [c]) ++ firstn (m_start m - S ps) t)
    by (rewrite <- app_assoc; reflexivity).
  destruct (m_text m); destruct (rest (m_end m)); reflexivity.
Qed.

(** A non-empty match at the current position: it is replaced and the
    search goes on after it. *)
Lemma replace_from_hit (r : re) (repl done : str) (f : nat)
    pv ps (s : str) cs e (x : ascii) (w : str) :
  mt r Some (MS pv ps s []) = Some e ->
  firstn (pos e - ps) s = x :: w ->
  replace_from (S f) r repl done (MS pv ps s cs) =
  GetSubstitution (x :: w) (rev done) (rest e) repl
    ++ replace_from f r repl (rev (x :: w) ++ done) (with_caps e []).
Proof.
  intros H Hw. simpl replace_from. unfold exec_at. simpl prev. simpl pos.
  simpl rest. rewrite (@exec_from_here r s pv ps e H). simpl m_start. simpl m_text.
  simpl m_end. rewrite Nat.sub_diag. simpl firstn. rewrite Hw.
  rewrite app_nil_r, rev_involutive. reflexivity.
Qed.

Lemma replace_from_nil (r : re) (repl done : str) (f : nat) pv ps cs :
  mt r Some (MS pv ps [] []) = None ->
  replace_from f r repl done (MS pv ps [] cs) = [].
Proof.
  intros H. destruct f; [reflexivity|]. simpl. unfold exec_at. simpl.
  rewrite H. reflexivity.
Qed.

Arguments replace_from : simpl never.

(** The longest prefix of code units of a class. *)
Lemma run_split (p : ascii -> bool) (s : str) :
  exists w s', s = w ++ s' /\ forallb p w = true /\ stops p s'.
Proof.
  induction s as [|c t IH].
  - exists [], []. repeat split.
  - destruct (p c) eqn:E.
    + destruct IH as (w & s' & -> & Hw & Hs).
      exists (c :: w), s'. simpl. rewrite E, Hw. repeat split. exact Hs.
    + exists [], (c :: t). repeat split. exact E.
Qed.

Lemma firstn_after (w s' : str) (ps : nat) :
  firstn (ps + length w - ps) (w ++ s') = w.
Proof.
  replace (ps + length w - ps) with (length w + 0) by lia.
  rewrite firstn_app_2. simpl. apply app_nil_r.
Qed.

Lemma squash_run (p : ascii -> bool) (r : str) (c : ascii) (w s' : str) :
  forallb p (c :: w) = true -> stops p s' ->
  squash p r ((c :: w) ++ s') = r ++ squash p r s'.
Proof.
  revert c. induction w as [|d w IH]; intros c Hw Hs.
  - simpl in Hw. rewrite andb_true_r in Hw. simpl. rewrite Hw.
    destruct s' as [|x s']; [simpl; now rewrite app_nil_r|].
    simpl in Hs. rewrite Hs. reflexivity.
  - simpl in Hw. apply andb_true_iff in Hw. destruct Hw as [Hc Hw].
    assert (Hd : p d = true) by (apply andb_true_iff in Hw; tauto).
    change (squash p r ((c :: d :: w) ++ s'))
      with (if p c then if p d then squash p r ((d :: w) ++ s')
                        else r ++ squash p r ((d :: w) ++ s')
            else c :: squash p r ((d :: w) ++ s')).
    rewrite Hc, Hd. apply IH; assumption.
Qed.

Lemma squash_keep (p : ascii -> bool) (r : str) (c : ascii) (t : str) :
  p c = false -> squash p r (c :: t) = c :: squash p r t.
Proof. intros H. simpl. rewrite H. reflexivity. Qed.

Section ReplaceRuns.

Variables (p : ascii -> bool) (r : str).
Hypothesis r_plain : plain r.

Lemma plus_fails_here pv ps (c : ascii) (t : str) lo :
  0 < lo -> p c = false ->
  mt (Rep true lo None p) Some (MS pv ps (c :: t) []) = None.
Proof.
  intros Hlo Hc. simpl. rewrite Hc. simpl.
  destruct lo; [lia|]. reflexivity.
Qed.

Lemma plus_takes_run pv ps (w s' : str) lo :
  forallb p w = true -> stops p s' -> lo <= length w ->
  mt (Rep true lo None p) Some (MS pv ps (w ++ s') []) =
  Some (MS (prev_after pv w) (ps + length w) s' []).
Proof.
  intros Hw Hs Hlo. rewrite mt_Rep. apply rep_greedy_run; auto.
Qed.

(** [s.replace(/p+/g, r)] *)
Lemma replace_from_plus (n : nat) : forall s f done pv ps cs,
  length s <= n -> length s < f ->
  replace_from f (plus p) r done (MS pv ps s cs) = squash p r s.
Proof.
  induction n as [|n IH]; intros s f done pv ps cs Hn Hf.
  - destruct s; [|simpl in Hn; lia]. apply replace_from_nil. reflexivity.
  - destruct s as [|c t]; [apply replace_from_nil; reflexivity|].
    destruct f as [|f]; [lia|]. simpl in Hn, Hf.
    destruct (p c) eqn:Ec.
    + destruct (run_split p t) as (w & s' & -> & Hw & Hs).
      assert (Hcw : forallb p (c :: w) = true) by (simpl; now rewrite Ec).
      unfold plus. change (c :: w ++ s') with ((c :: w) ++ s').
      rewrite (@replace_from_hit _ r done f pv ps _ cs _ c w
                 (@plus_takes_run pv ps (c :: w) s' 1 Hcw Hs
                    (le_n_S _ _ (Nat.le_0_l _)))).
      * rewrite GetSubstitution_plain by exact r_plain.
        rewrite squash_run by assumption. f_equal.
        apply IH; simpl; rewrite length_app in *; lia.
      * simpl pos. apply (firstn_after (c :: w) s' ps).
    + rewrite replace_from_skip by (apply plus_fails_here; [lia|exact Ec]).
      rewrite squash_keep by exact Ec. f_equal. apply IH; lia.
Qed.

Lemma replaceAll_plus (s : str) : replaceAll (plus p) r s = squash p r s.
Proof. apply (replace_from_plus (n := length s)); simpl; lia. Qed.

End ReplaceRuns.

(* ================================================================== *)
(** * sanitizeName, ensureServerSuffix, slugify *)

Section Sanitize.

Import CreateServerCommand.

Lemma is_hyphen_eq (c : ascii) : is_hyphen c = true -> c = "-"%char.
Proof. apply is_char_true. Qed.

Lemma hyphenRun_single pv ps (c : ascii) (s' : str) :
  stops is_hyphen s' ->
  mt hyphenRun Some (MS pv ps (c :: s') []) = None.
Proof.
  intros Hs. unfold hyphenRun. rewrite mt_Rep. apply rep_none.
  intros w t E Hw Hlo _. exfalso.
  destruct w as [|x [|y w]]; simpl in Hlo; try lia.
  injection E as -> ->. simpl in Hs, Hw.
  apply andb_true_iff in Hw. destruct Hw as [_ Hw].
  apply andb_true_iff in Hw. destruct Hw as [Hw _]. congruence.
Qed.

(** [s.replace(/-{2,}/g, '-')] *)
Lemma replace_from_hyphenRun (n : nat) : forall s f done pv ps cs,
  length s <= n -> length s < f ->
  replace_from f hyphenRun (lit "-") done (MS pv ps s cs)
  = squash is_hyphen (lit "-") s.
Proof.
  induction n as [|n IH]; intros s f done pv ps cs Hn Hf.
  - destruct s; [|simpl in Hn; lia]. apply replace_from_nil. reflexivity.
  - destruct s as [|c t]; [apply replace_from_nil; reflexivity|].
    destruct f as [|f]; [lia|]. simpl in Hn, Hf.
    destruct (is_hyphen c) eqn:Ec.
    + destruct (run_split is_hyphen t) as (w & s' & -> & Hw & Hs).
      assert (Hcw : forallb is_hyphen (c :: w) = true) by (simpl; now rewrite Ec).
      destruct w as [|d w].
      * simpl app.
        rewrite replace_from_skip by (apply hyphenRun_single; exact Hs).
        change (c :: s') with ((c :: []) ++ s').
        rewrite squash_run by assumption.
        apply is_hyphen_eq in Ec. subst c. simpl. f_equal.
        apply IH; simpl in *; lia.
      * change (c :: (d :: w) ++ s') with ((c :: d :: w) ++ s').
        unfold hyphenRun.
        rewrite (@replace_from_hit _ (lit "-") done f pv ps _ cs _ c (d :: w)
                   (@plus_takes_run is_hyphen pv ps (c :: d :: w) s' 2 Hcw Hs
                      (le_n_S _ _ (le_n_S _ _ (Nat.le_0_l _))))).
        -- rewrite GetSubstitution_plain by reflexivity.
           rewrite squash_run by assumption. f_equal.
           apply IH; simpl; rewrite length_app in *; simpl in *; lia.
        -- simpl pos. apply (firstn_after (c :: d :: w) s' ps).
    + rewrite replace_from_skip
        by (apply (@plus_fails_here is_hyphen); [lia|exact Ec]).
      rewrite squash_keep by exact Ec. f_equal. apply IH; lia.
Qed.

Lemma edge_fails pv ps (c : ascii) (t : str) :
  (pv <> None \/ is_hyphen c = false) ->
  forallb is_hyphen (c :: t) = false ->
  mt edgeHyphens Some (MS pv ps (c :: t) []) = None.
Proof.
  intros Hpv Hall. unfold edgeHyphens. rewrite mt_Alt.
  assert (H1 : mt (Seq (Bol false) (plus is_hyphen)) Some (MS pv ps (c :: t) [])
               = None).
  { rewrite mt_Seq, mt_Bol. destruct Hpv as [Hpv|Hc].
    - destruct pv; [reflexivity|congruence].
    - unfold plus. rewrite (@plus_fails_here is_hyphen) by (auto; lia).
      destruct (at_bol _ _); reflexivity. }
  rewrite H1, mt_Seq. unfold plus. rewrite mt_Rep. apply rep_none.
  intros w s' E Hw _ _.
  destruct s' as [|x s']; [|reflexivity].
  rewrite app_nil_r in E. subst w. congruence.
Qed.

Lemma edge_takes_end pv ps (c : ascii) (t : str) :
  pv <> None -> forallb is_hyphen (c :: t) = true ->
  mt edgeHyphens Some (MS pv ps (c :: t) []) =
  Some (MS (prev_after pv (c :: t)) (ps + length (c :: t)) [] []).
Proof.
  intros Hpv Hall. unfold edgeHyphens. rewrite mt_Alt.
  assert (H1 : mt (Seq (Bol false) (plus is_hyphen)) Some (MS pv ps (c :: t) [])
               = None)
    by (rewrite mt_Seq, mt_Bol; destruct pv; [reflexivity|congruence]).
  rewrite H1, mt_Seq. unfold plus. rewrite mt_Rep.
  rewrite <- (app_nil_r (c :: t)) at 1.
  apply rep_greedy_run; auto; simpl; try lia.
Qed.

Lemma edge_nil pv ps : mt edgeHyphens Some (MS pv ps [] []) = None.
Proof. destruct pv; reflexivity. Qed.

(** After the first code unit only the hyphens at the end match. *)
Lemma replace_from_edge_inner (n : nat) : forall s f done pv ps cs,
  pv <> None -> length s <= n -> length s < f ->
  replace_from f edgeHyphens (lit "") done (MS pv ps s cs) = dropTrailing s.
Proof.
  induction n as [|n IH]; intros s f done pv ps cs Hpv Hn Hf.
  - destruct s; [|simpl in Hn; lia]. apply replace_from_nil, edge_nil.
  - destruct s as [|c t]; [apply replace_from_nil, edge_nil|].
    destruct f as [|f]; [lia|]. simpl in Hn, Hf.
    destruct (forallb is_hyphen (c :: t)) eqn:Eall.
    + rewrite (@replace_from_hit _ (lit "") done f pv ps _ cs _ c t
                 (@edge_takes_end pv ps c t Hpv Eall)).
      * simpl dropTrailing. simpl in Eall. rewrite Eall.
        simpl GetSubstitution. simpl app.
        apply replace_from_nil, edge_nil.
      * simpl pos. replace (ps + _ - ps) with (length (c :: t)) by (simpl; lia).
        apply firstn_all.
    + rewrite replace_from_skip by (apply edge_fails; auto).
      simpl dropTrailing. simpl in Eall. rewrite Eall. f_equal.
      apply IH; [discriminate|lia|lia].
Qed.

(** [s.replace(/^-+|-+$/g, '')] *)
Lemma replaceAll_edge (s : str) :
  replaceAll edgeHyphens (lit "") s = dropTrailing (dropLeading s).
Proof.
  unfold replaceAll, start_state.
  destruct s as [|c t]; [reflexivity|].
  destruct (is_hyphen c) eqn:Ec.
  - destruct (run_split is_hyphen t) as (w & s' & -> & Hw & Hs).
    assert (Hcw : forallb is_hyphen (c :: w) = true) by (simpl; now rewrite Ec).
    assert (Hm : mt edgeHyphens Some (MS None 0 ((c :: w) ++ s') []) =
                 Some (MS (prev_after None (c :: w)) (0 + length (c :: w)) s' [])).
    { unfold edgeHyphens. rewrite mt_Alt, mt_Seq, mt_Bol.
      simpl at_bol. cbv iota. unfold plus.
      rewrite (@plus_takes_run is_hyphen None 0 (c :: w) s' 1 Hcw Hs)
        by (simpl; lia).
      reflexivity. }
    change (c :: w ++ s') with ((c :: w) ++ s').
    rewrite (@replace_from_hit _ (lit "") [] _ None 0 _ [] _ c w Hm).
    + simpl GetSubstitution. simpl app at 1.
      assert (Hd : dropLeading ((c :: w) ++ s') = dropLeading s').
      { clear -Hcw. induction (c :: w) as [|x l IH]; [reflexivity|].
        simpl in Hcw. apply andb_true_iff in Hcw. destruct Hcw as [Hx Hl].
        simpl. rewrite Hx. apply IH. exact Hl. }
      rewrite Hd.
      assert (Hs' : dropLeading s' = s').
      { destruct s' as [|x s']; [reflexivity|]. simpl in *. now rewrite Hs. }
      rewrite Hs'.
      destruct (prev_after_some None c w) as [d Hd'].
      unfold with_caps. cbn [prev pos rest caps].
      apply (@replace_from_edge_inner (length s')).
      * change (prev_after (Some c) w) with (prev_after None (c :: w)).
        rewrite Hd'. discriminate.
      * lia.
      * rewrite length_app. simpl. lia.
    + simpl pos. apply (firstn_after (c :: w) s' 0).
  - assert (Hall : forallb is_hyphen (c :: t) = false) by (simpl; now rewrite Ec).
    rewrite replace_from_skip by (apply edge_fails; auto).
    simpl dropLeading. rewrite Ec. simpl dropTrailing. simpl in Hall.
    rewrite Hall. f_equal.
    apply (@replace_from_edge_inner (length t)); [discriminate|lia|simpl; lia].
Qed.

(** The three replacements of [sanitizeName] in closed form. *)
Lemma sanitizeName_eq (value : str) :
  sanitizeName value =
  squash is_hyphen (lit "-")
    (dropTrailing (dropLeading
       (squash not_slug (lit "-") (toLowerCase value)))).
Proof.
  unfold sanitizeName.
  unfold unsafeRun. rewrite replaceAll_plus by reflexivity.
  rewrite replaceAll_edge.
  unfold replaceAll, start_state.
  apply (@replace_from_hyphenRun (length (dropTrailing (dropLeading
           (squash not_slug (lit "-") (toLowerCase value)))))); simpl; lia.
Qed.

End Sanitize.

Section SlugProperties.

Import CreateServerCommand.

Lemma squash_within (p Q : ascii -> bool) (r s : str) :
  forallb Q r = true -> forallb Q s = true -> forallb Q (squash p r s) = true.
Proof.
  intros Hr. induction s as [|c t IH]; intros Hs; [reflexivity|].
  simpl in Hs. apply andb_true_iff in Hs. destruct Hs as [Hc Ht].
  simpl. destruct (p c).
  - destruct t as [|d t']; [exact Hr|].
    destruct (p d); [apply IH; exact Ht|].
    rewrite forallb_app, Hr. apply IH. exact Ht.
  - simpl. rewrite Hc. apply IH. exact Ht.
Qed.

Lemma squash_outside (p Q : ascii -> bool) (r s : str) :
  (forall c, p c = false -> Q c = true) -> forallb Q r = true ->
  forallb Q (squash p r s) = true.
Proof.
  intros HQ Hr. induction s as [|c t IH]; [reflexivity|].
  simpl. destruct (p c) eqn:Ec.
  - destruct t as [|d t']; [exact Hr|].
    destruct (p d); [exact IH|]. rewrite forallb_app, Hr. exact IH.
  - simpl. rewrite (HQ c Ec). exact IH.
Qed.

Lemma squash_none (p : ascii -> bool) (r s : str) :
  forallb (fun c => negb (p c)) s = true -> squash p r s = s.
Proof.
  induction s as [|c t IH]; intros H; [reflexivity|].
  simpl in H. apply andb_true_iff in H. destruct H as [Hc Ht].
  simpl. destruct (p c); [discriminate|]. f_equal. apply IH. exact Ht.
Qed.

Lemma squash_nonempty (p : ascii -> bool) (x : ascii) (r : str) (s : str) :
  s <> [] -> squash p (x :: r) s <> [].
Proof.
  induction s as [|c t IH]; intros H; [congruence|].
  simpl. destruct (p c); [|discriminate].
  destruct t as [|d t']; [discriminate|].
  destruct (p d); [apply IH; discriminate|discriminate].
Qed.

Lemma dropLeading_within (Q : ascii -> bool) (s : str) :
  forallb Q s = true -> forallb Q (dropLeading s) = true.
Proof.
  induction s as [|c t IH]; intros H; [reflexivity|].
  simpl. destruct (is_hyphen c); [|exact H].
  simpl in H. apply andb_true_iff in H. apply IH. tauto.
Qed.

Lemma dropTrailing_within (Q : ascii -> bool) (s : str) :
  forallb Q s = true -> forallb Q (dropTrailing s) = true.
Proof.
  induction s as [|c t IH]; intros H; [reflexivity|].
  simpl in H. apply andb_true_iff in H. destruct H as [Hc Ht].
  simpl. destruct (is_hyphen c && forallb is_hyphen t); [reflexivity|].
  simpl. rewrite Hc. apply IH. exact Ht.
Qed.

Lemma dropLeading_first (s : str) : first_ok (dropLeading s) = true.
Proof.
  induction s as [|c t IH]; [reflexivity|].
  simpl. destruct (is_hyphen c) eqn:E; [exact IH|]. simpl. now rewrite E.
Qed.

Lemma dropTrailing_first (s : str) :
  first_ok s = true -> first_ok (dropTrailing s) = true.
Proof.
  destruct s as [|c t]; [reflexivity|]. simpl. intros H.
  destruct (is_hyphen c && forallb is_hyphen t); [reflexivity|]. exact H.
Qed.

Lemma dropTrailing_nil (s : str) :
  dropTrailing s = [] -> forallb is_hyphen s = true.
Proof.
  destruct s as [|c t]; [reflexivity|]. simpl.
  destruct (is_hyphen c && forallb is_hyphen t); [reflexivity|discriminate].
Qed.

Lemma dropTrailing_last (s : str) : last_ok (dropTrailing s) = true.
Proof.
  induction s as [|c t IH]; [reflexivity|].
  simpl. destruct (is_hyphen c && forallb is_hyphen t) eqn:E; [reflexivity|].
  simpl. destruct (dropTrailing t) eqn:Et; [|exact IH].
  apply dropTrailing_nil in Et. rewrite Et, andb_true_r in E. now rewrite E.
Qed.

Lemma dropLeading_id (s : str) : first_ok s = true -> dropLeading s = s.
Proof.
  destruct s as [|c t]; [reflexivity|]. simpl.
  destruct (is_hyphen c); [discriminate|reflexivity].
Qed.

Lemma dropTrailing_id (s : str) : last_ok s = true -> dropTrailing s = s.
Proof.
  induction s as [|c t IH]; [reflexivity|]. intros H.
  simpl in H. destruct t as [|d t'].
  - simpl. destruct (is_hyphen c); [discriminate|reflexivity].
  - assert (Hn : forallb is_hyphen (d :: t') = false).
    { clear -H. revert d H. induction t' as [|e t'' IH]; intros d H.
      - simpl in *. destruct (is_hyphen d); [discriminate|reflexivity].
      - change (forallb is_hyphen (d :: e :: t''))
          with (is_hyphen d && forallb is_hyphen (e :: t'')).
        rewrite (IH e H). apply andb_false_r. }
    change (dropTrailing (c :: d :: t'))
      with (if is_hyphen c && forallb is_hyphen (d :: t') then []
            else c :: dropTrailing (d :: t')).
    rewrite Hn, andb_false_r. f_equal. apply IH. exact H.
Qed.

Lemma squash_hyphen_first (s : str) :
  first_ok s = true -> first_ok (squash is_hyphen (lit "-") s) = true.
Proof.
  destruct s as [|c t]; [reflexivity|]. simpl.
  destruct (is_hyphen c) eqn:E; [discriminate|]. simpl. now rewrite E.
Qed.

Lemma last_ok_cons (c : ascii) (s : str) :
  s <> [] -> last_ok (c :: s) = last_ok s.
Proof. destruct s; [congruence|reflexivity]. Qed.

Lemma squash_hyphen_last (s : str) :
  last_ok s = true -> last_ok (squash is_hyphen (lit "-") s) = true.
Proof.
  induction s as [|c t IH]; [reflexivity|]. intros H.
  destruct t as [|d t'].
  - simpl in *. destruct (is_hyphen c) eqn:E; [discriminate|].
    simpl. now rewrite E.
  - assert (Hne : squash is_hyphen (lit "-") (d :: t') <> [])
      by (apply squash_nonempty; discriminate).
    specialize (IH H).
    change (squash is_hyphen (lit "-") (c :: d :: t'))
      with (if is_hyphen c
            then if is_hyphen d then squash is_hyphen (lit "-") (d :: t')
                 else lit "-" ++ squash is_hyphen (lit "-") (d :: t')
            else c :: squash is_hyphen (lit "-") (d :: t')).
    destruct (is_hyphen c); [destruct (is_hyphen d)|]; auto.
    + change (lit "-" ++ ?x) with ("-"%char :: x).
      rewrite last_ok_cons by exact Hne. exact IH.
    + rewrite last_ok_cons by exact Hne. exact IH.
Qed.

Lemma squash_hyphen_no_double (s : str) :
  no_double (squash is_hyphen (lit "-") s) = true.
Proof.
  induction s as [|c t IH]; [reflexivity|].
  simpl. destruct (is_hyphen c) eqn:Ec.
  - destruct t as [|d t']; [reflexivity|].
    destruct (is_hyphen d) eqn:Ed; [exact IH|].
    change (lit "-" ++ ?x) with ("-"%char :: x).
    simpl in IH |- *. rewrite Ed in IH |- *. simpl in IH |- *.
    rewrite Ed. simpl. rewrite Ed in IH. exact IH.
  - simpl. rewrite Ec. exact IH.
Qed.

Lemma squash_hyphen_id (s : str) :
  no_double s = true -> squash is_hyphen (lit "-") s = s.
Proof.
  induction s as [|c t IH]; [reflexivity|]. intros H.
  simpl in H. apply andb_true_iff in H. destruct H as [H1 H2].
  specialize (IH H2).
  destruct (is_hyphen c) eqn:Ec.
  - destruct t as [|d t'].
    + simpl. rewrite Ec. apply is_hyphen_eq in Ec. now subst.
    + simpl in H1. destruct (is_hyphen d) eqn:Ed; [discriminate|].
      change (squash is_hyphen (lit "-") (c :: d :: t'))
        with (if is_hyphen c
              then if is_hyphen d then squash is_hyphen (lit "-") (d :: t')
                   else lit "-" ++ squash is_hyphen (lit "-") (d :: t')
              else c :: squash is_hyphen (lit "-") (d :: t')).
      rewrite Ec, Ed, IH. apply is_hyphen_eq in Ec. now subst.
  - rewrite squash_keep by exact Ec. now rewrite IH.
Qed.

Lemma lower_slug (c : ascii) : slug_char c = true -> lower_char c = c.
Proof.
  destruct c as [b0 b1 b2 b3 b4 b5 b6 b7].
  destruct b0, b1, b2, b3, b4, b5, b6, b7; intros H;
    first [reflexivity | vm_compute in H; discriminate H].
Qed.

Lemma toLowerCase_slug (s : str) :
  forallb slug_char s = true -> toLowerCase s = s.
Proof.
  induction s as [|c t IH]; intros H; [reflexivity|].
  simpl in H. apply andb_true_iff in H. destruct H as [Hc Ht].
  simpl. rewrite lower_slug by exact Hc. f_equal. apply IH. exact Ht.
Qed.

Lemma includes_cons (p : str) (c : ascii) (s : str) :
  includes p (c :: s) = startsWith p (c :: s) || includes p s.
Proof.
  unfold includes. simpl indexOf.
  destruct (startsWith p (c :: s)); [reflexivity|].
  destruct (indexOf p s); reflexivity.
Qed.

Lemma no_double_includes (s : str) :
  includes (lit "--") s = negb (no_double s).
Proof.
  induction s as [|c t IH]; [reflexivity|].
  rewrite includes_cons, IH.
  change (lit "--") with ["-"%char; "-"%char].
  cbn [startsWith no_double]. unfold is_hyphen, is_char.
  destruct (Ascii.eqb "-" c); cbn [andb orb negb]; [|reflexivity].
  destruct t as [|d t']; [reflexivity|].
  destruct (Ascii.eqb "-" d); reflexivity.
Qed.

Lemma first_ok_startsWith (s : str) :
  startsWith (lit "-") s = negb (first_ok s).
Proof.
  destruct s as [|c t]; [reflexivity|].
  change (lit "-") with ["-"%char].
  cbn [startsWith first_ok]. unfold is_hyphen, is_char.
  destruct (Ascii.eqb "-" c); reflexivity.
Qed.

Lemma last_ok_endsWith (s : str) :
  endsWith (lit "-") s = negb (last_ok s).
Proof.
  unfold endsWith. change (rev (lit "-")) with ["-"%char].
  induction s as [|c t IH]; [reflexivity|].
  destruct t as [|d t'].
  - cbn [rev app startsWith last_ok]. unfold is_hyphen, is_char.
    destruct (Ascii.eqb "-" c); reflexivity.
  - rewrite last_ok_cons by discriminate. rewrite <- IH.
    change (rev (c :: d :: t')) with (rev (d :: t') ++ [c]).
    destruct (rev (d :: t')) eqn:E.
    + apply (f_equal (@length ascii)) in E. rewrite length_rev in E.
      discriminate E.
    + reflexivity.
Qed.

(** What [sanitizeName] returns: only slug characters, no hyphen at either
    end, no two hyphens in a row. *)
Lemma sanitizeName_shape (value : str) :
  forallb slug_char (sanitizeName value) = true /\
  first_ok (sanitizeName value) = true /\
  last_ok (sanitizeName value) = true /\
  no_double (sanitizeName value) = true.
Proof.
  rewrite sanitizeName_eq. repeat split.
  - apply squash_within; [reflexivity|].
    apply dropTrailing_within, dropLeading_within.
    apply squash_outside; [|reflexivity].
    intros c H. unfold not_slug in H. unfold slug_char.
    now destruct (is_lower c || is_digit c || is_hyphen c).
  - apply squash_hyphen_first, dropTrailing_first, dropLeading_first.
  - apply squash_hyphen_last, dropTrailing_last.
  - apply squash_hyphen_no_double.
Qed.

Lemma sanitizeName_fixed (t : str) :
  forallb slug_char t = true -> first_ok t = true -> last_ok t = true ->
  no_double t = true -> sanitizeName t = t.
Proof.
  intros H1 H2 H3 H4. rewrite sanitizeName_eq.
  rewrite toLowerCase_slug by exact H1.
  rewrite (@squash_none not_slug).
  - rewrite (dropLeading_id t H2). rewrite (dropTrailing_id t H3).
    apply squash_hyphen_id. exact H4.
  - rewrite <- H1. clear. induction t as [|c t IH]; [reflexivity|].
    simpl. rewrite IH. unfold not_slug, slug_char.
    rewrite negb_involutive. reflexivity.
Qed.

Lemma endsWith_app (p s : str) : endsWith p (s ++ p) = true.
Proof. unfold endsWith. rewrite rev_app_distr. apply startsWith_app. Qed.

End SlugProperties.

(** C9. The slug of "Weather Tools!" is "weather-tools"; ensuring the
    server suffix leaves "weather-server" as it is and turns
    "weather-tools" into "weather-tools-server" (so [slugify] of the
    first input gives "weather-tools-server"). *)
Theorem C9_slug_examples :
  CreateServerCommand.sanitizeName (lit "Weather Tools!") = lit "weather-tools" /\
  CreateServerCommand.ensureServerSuffix (lit "weather-server")
    = lit "weather-server" /\
  CreateServerCommand.ensureServerSuffix (lit "weather-tools")
    = lit "weather-tools-server" /\
  CreateServerCommand.slugify (lit "Weather Tools!")
    = lit "weather-tools-server".
Proof. vm_compute. repeat split. Qed.

(** C10. For every input, [sanitizeName] returns only characters of
    [a-z0-9-], with no hyphen at the start or at the end and no two
    hyphens in a row, and it is idempotent; [ensureServerSuffix] is
    idempotent and its result ends with "-server" for a non-empty
    input. *)
Theorem C10_sanitize_idempotent (s : str) :
  let t := CreateServerCommand.sanitizeName s in
  forallb (fun c => is_lower c || is_digit c || is_char "-" c) t = true /\
  startsWith (lit "-") t = false /\
  endsWith (lit "-") t = false /\
  includes (lit "--") t = false /\
  CreateServerCommand.sanitizeName t = t /\
  CreateServerCommand.ensureServerSuffix
    (CreateServerCommand.ensureServerSuffix s)
    = CreateServerCommand.ensureServerSuffix s /\
  (s <> [] ->
   endsWith (lit "-server") (CreateServerCommand.ensureServerSuffix s) = true).
Proof.
  intros t. destruct (sanitizeName_shape s) as (H1 & H2 & H3 & H4).
  fold t in H1, H2, H3, H4. repeat split.
  - exact H1.
  - rewrite first_ok_startsWith, H2. reflexivity.
  - rewrite last_ok_endsWith, H3. reflexivity.
  - rewrite no_double_includes, H4. reflexivity.
  - apply sanitizeName_fixed; assumption.
  - unfold CreateServerCommand.ensureServerSuffix.
    destruct s as [|c s']; [reflexivity|].
    destruct (endsWith (lit "-server") (c :: s')) eqn:E.
    + rewrite E. reflexivity.
    + destruct ((c :: s') ++ lit "-server") eqn:E2.
      * destruct s'; discriminate E2.
      * rewrite <- E2, endsWith_app. reflexivity.
  - intros Hne. unfold CreateServerCommand.ensureServerSuffix.
    destruct s as [|c s']; [congruence|].
    destruct (endsWith (lit "-server") (c :: s')) eqn:E; [exact E|].
    apply endsWith_app.
Qed.

Lemma C10_sanitize_idempotent_witness :
  lit "Weather Tools!" <> [] /\
  endsWith (lit "-server")
    (CreateServerCommand.ensureServerSuffix (lit "Weather Tools!")) = true.
Proof.
  split; [discriminate|].
  apply (C10_sanitize_idempotent (lit "Weather Tools!")). discriminate.
Defined.

(* ================================================================== *)
(** * Materialization *)

Section Materialize.

Variable fs : NodeFs.

Import CodeGenerator.

(** The body of the [try] for one entry makes the calls of [stored]. *)
Lemma writeEntry_stored (basePath filePath : str) (content : jsval) w :
  writeEntry fs basePath filePath content w
  = stored fs basePath (filePath, content) w.
Proof.
  unfold writeEntry, stored, ensured, bind, throw. cbn [fst snd].
  destruct (existsSync fs (path_dirname fs (path_join fs basePath filePath)) w);
    cbn [negb].
  - destruct content as [[| | | text | |]|]; reflexivity.
  - destruct (mkdirSync fs (path_dirname fs (path_join fs basePath filePath)) w)
      as [[[]|m] w1]; [|reflexivity].
    destruct content as [[| | | text | |]|]; reflexivity.
Qed.

Lemma createFiles_loop_attempts (basePath : str) (entries : list (str * jsval)) :
  forall created failed w,
  createFiles_loop fs basePath entries created failed w =
  (Return (created ++ written (fst (attemptAll fs basePath entries w)),
           failed ++ failures (fst (attemptAll fs basePath entries w))),
   snd (attemptAll fs basePath entries w)).
Proof.
  induction entries as [|[filePath content] more IH]; intros created failed w.
  - simpl. unfold ret, written. simpl. now rewrite !app_nil_r.
  - cbn [createFiles_loop attemptAll]. unfold bind, try_catch, ret.
    rewrite writeEntry_stored.
    destruct (stored fs basePath (filePath, content) w) as [[[]|m] w1].
    + rewrite IH.
      destruct (attemptAll fs basePath more w1) as [l w2]. unfold written. simpl.
      rewrite <- app_assoc. reflexivity.
    + rewrite IH.
      destruct (attemptAll fs basePath more w1) as [l w2]. unfold written. simpl.
      rewrite <- app_assoc. reflexivity.
Qed.

(** [createFiles] raises one error after the last entry, naming the
    entries that failed, and none when every entry was written. *)
Lemma createFiles_attempts (basePath : str) (entries : list (str * jsval)) w :
  createFiles fs basePath entries w =
  (match failures (fst (attemptAll fs basePath entries w)) with
   | [] => Return tt
   | f :: l => Throw (failureReport (f :: l))
   end,
   snd (attemptAll fs basePath entries w)).
Proof.
  unfold createFiles, bind. rewrite createFiles_loop_attempts. simpl.
  destruct (failures (fst (attemptAll fs basePath entries w))); reflexivity.
Qed.

Lemma ensured_reliable (p : str) w :
  reliable fs -> fst (ensured fs p w) = Return tt.
Proof.
  intros [Hm _]. unfold ensured. destruct (existsSync fs p w); [reflexivity|].
  apply Hm.
Qed.

Lemma stored_text (basePath : str) (entry : str * jsval) w :
  reliable fs -> is_text (snd entry) = true ->
  fst (stored fs basePath entry w) = Return tt.
Proof.
  intros Hr Hc. unfold stored.
  pose proof (ensured_reliable
                (path_dirname fs (path_join fs basePath (fst entry))) w Hr) as He.
  destruct (ensured fs _ w) as [[[]|m] w1]; simpl in He; [|discriminate].
  destruct (snd entry) as [[| | | text | |]|]; try discriminate.
  apply Hr.
Qed.

Lemma stored_other (basePath : str) (entry : str * jsval) w :
  reliable fs -> is_text (snd entry) = false ->
  stored fs basePath entry w
  = (Throw (lit "File content must be a string"),
     snd (ensured fs (path_dirname fs (path_join fs basePath (fst entry))) w)).
Proof.
  intros Hr Hc. unfold stored.
  pose proof (ensured_reliable
                (path_dirname fs (path_join fs basePath (fst entry))) w Hr) as He.
  destruct (ensured fs _ w) as [[[]|m] w1]; simpl in He; [|discriminate].
  destruct (snd entry) as [[| | | text | |]|]; try reflexivity; discriminate.
Qed.

Lemma attemptAll_texts (basePath : str) (entries : list (str * jsval)) :
  reliable fs -> forallb (fun e => is_text (snd e)) entries = true ->
  forall w, fst (attemptAll fs basePath entries w)
            = map (fun e => (fst e, None)) entries.
Proof.
  intros Hr. induction entries as [|e more IH]; intros H w; [reflexivity|].
  simpl in H. apply andb_true_iff in H. destruct H as [Hc Hm].
  simpl. pose proof (stored_text basePath e w Hr Hc) as E.
  destruct (stored fs basePath e w) as [r w1]. simpl in E. subst r.
  specialize (IH Hm w1). destruct (attemptAll fs basePath more w1) as [l w2].
  simpl in *. now rewrite IH.
Qed.

(** On a platform that does not fail, entries that hold texts are all
    written. *)
Lemma storedAll_texts (basePath : str) (entries : list (str * jsval)) :
  reliable fs -> forallb (fun e => is_text (snd e)) entries = true ->
  forall w, storedAll fs basePath entries w
            = Some (snd (attemptAll fs basePath entries w)).
Proof.
  intros Hr. induction entries as [|e more IH]; intros H w; [reflexivity|].
  simpl in H. apply andb_true_iff in H. destruct H as [Hc Hm].
  simpl. pose proof (stored_text basePath e w Hr Hc) as E.
  destruct (stored fs basePath e w) as [r w1]. simpl in E. subst r.
  rewrite (IH Hm w1). destruct (attemptAll fs basePath more w1) as [l w2].
  reflexivity.
Qed.

(** Entries that were all written, and the world that this left. *)
Lemma attemptAll_clean (basePath : str) (entries : list (str * jsval)) :
  forall w,
  failures (fst (attemptAll fs basePath entries w)) = [] ->
  forallb (fun entry => is_text (snd entry)) entries = true /\
  fst (attemptAll fs basePath entries w)
  = map (fun entry => (fst entry, None)) entries /\
  storedAll fs basePath entries w
  = Some (snd (attemptAll fs basePath entries w)).
Proof.
  induction entries as [|e more IH]; intros w H; [repeat split|].
  cbn [attemptAll storedAll] in *.
  assert (Ht : fst (stored fs basePath e w) = Return tt ->
               is_text (snd e) = true).
  { unfold stored. destruct (ensured fs _ w) as [[[]|m] w1];
      [|discriminate].
    destruct (snd e) as [[| | | text | |]|]; try discriminate. reflexivity. }
  destruct (stored fs basePath e w) as [r w1].
  specialize (IH w1). destruct (attemptAll fs basePath more w1) as [l w2].
  cbn [fst snd failures] in *. destruct r as [[]|m]; [|discriminate].
  destruct (IH H) as (H1 & H2 & H3). cbn [forallb map fst snd].
  rewrite (Ht eq_refl), H1, H2. repeat split. exact H3.
Qed.

Lemma attemptAll_app (basePath : str) (a b : list (str * jsval)) w :
  attemptAll fs basePath (a ++ b) w =
  (fst (attemptAll fs basePath a w)
     ++ fst (attemptAll fs basePath b (snd (attemptAll fs basePath a w))),
   snd (attemptAll fs basePath b (snd (attemptAll fs basePath a w)))).
Proof.
  revert w. induction a as [|e a IH]; intros w.
  - simpl. destruct (attemptAll fs basePath b w); reflexivity.
  - simpl. destruct (stored fs basePath e w) as [r w1].
    rewrite (IH w1).
    destruct (attemptAll fs basePath a w1) as [la wa]. reflexivity.
Qed.

Lemma written_all (entries : list (str * jsval)) :
  written (map (fun e => (fst e, @None str)) entries) = map fst entries.
Proof. unfold written. induction entries as [|e l IH]; simpl; congruence. Qed.

Lemma failures_all (entries : list (str * jsval)) :
  failures (map (fun e => (fst e, @None str)) entries) = [].
Proof. induction entries as [|e l IH]; simpl; congruence. Qed.

Lemma written_app (a b : list (str * option str)) :
  written (a ++ b) = written a ++ written b.
Proof. unfold written. now rewrite filter_app, map_app. Qed.

Lemma failures_app (a b : list (str * option str)) :
  failures (a ++ b) = failures a ++ failures b.
Proof.
  induction a as [|[f [m|]] a IH]; simpl; [reflexivity| |]; now rewrite IH.
Qed.

(** One declared directory: the calls of [ensured], and the message of
    [createDirectories] around the one of the platform. *)
Lemma createDirectory_ensured (basePath dir : str) w :
  createDirectory fs basePath dir w =
  match ensured fs (path_join fs basePath dir) w with
  | (Return _, w1) => (Return tt, w1)
  | (Throw message, w1) =>
      (Throw (lit "Failed to create directory " ++ path_join fs basePath dir
                ++ lit ": " ++ message), w1)
  end.
Proof.
  unfold createDirectory, ensured, try_catch, throw.
  destruct (existsSync fs (path_join fs basePath dir) w); cbn [negb];
    [reflexivity|].
  destruct (mkdirSync fs (path_join fs basePath dir) w) as [[[]|m] w1];
    reflexivity.
Qed.

(** [createDirectories] returns exactly when every declared directory
    could be ensured, in turn. *)
Lemma createDirectories_ensuredAll (basePath : str) (dirs : list str) :
  forall w w1,
  createDirectories fs basePath dirs w = (Return tt, w1) <->
  ensuredAll fs basePath dirs w = Some w1.
Proof.
  induction dirs as [|dir more IH]; intros w w1.
  - simpl. unfold ret. split; intros H; injection H as <-; reflexivity.
  - cbn [createDirectories ensuredAll]. unfold bind.
    rewrite createDirectory_ensured.
    destruct (ensured fs (path_join fs basePath dir) w) as [[[]|m] w0].
    + apply IH.
    + split; discriminate.
Qed.

(** A declared directory that cannot be created ends
    [createDirectories]: the directories after it are not tried. *)
Lemma createDirectories_abort (basePath : str) (pre : list str) (dir : str)
    (more : list str) (message : str) : forall w w0 w1,
  ensuredAll fs basePath pre w = Some w0 ->
  ensured fs (path_join fs basePath dir) w0 = (Throw message, w1) ->
  createDirectories fs basePath (pre ++ dir :: more) w =
  (Throw (lit "Failed to create directory " ++ path_join fs basePath dir
            ++ lit ": " ++ message), w1).
Proof.
  induction pre as [|d pre IH]; intros w w0 w1 Hpre Hdir.
  - simpl in Hpre. injection Hpre as <-.
    cbn [app createDirectories]. unfold bind.
    rewrite createDirectory_ensured, Hdir. reflexivity.
  - cbn [app createDirectories ensuredAll] in *. unfold bind.
    rewrite createDirectory_ensured.
    destruct (ensured fs (path_join fs basePath d) w) as [[[]|m] w2];
      [|discriminate].
    apply (IH w2 w0 w1 Hpre Hdir).
Qed.

End Materialize.

Section Generate.

Variable fs : NodeFs.
Variable fileGenerators :
  str -> option (GenerationOptions -> ParsedResponse -> Result ProjectStructure).

Import CodeGenerator.
Local Open Scope fs_scope.

(** Checking the options does not change the file system. *)
Lemma validateGenerationOptions_pure (options : GenerationOptions) w :
  snd (validateGenerationOptions fs options w) = w.
Proof.
  unfold validateGenerationOptions, throw.
  repeat match goal with |- context [if ?b then _ else _] => destruct b end;
    reflexivity.
Qed.

Lemma generateProject_assembled (options : GenerationOptions)
    (response : str) (parsed : ParsedResponse) (structure : ProjectStructure) w :
  fst (validateGenerationOptions fs options w) = Return tt ->
  validateOpenAIResponse response = Return tt ->
  parseResponse response = Return parsed ->
  generateProjectStructure fileGenerators options parsed = Return structure ->
  generateProject fs fileGenerators options response w
  = materialize fs options structure w.
Proof.
  intros H1 H2 H3 H4. unfold generateProject, materialize, try_catch, bind.
  pose proof (validateGenerationOptions_pure options w) as Hw.
  destruct (validateGenerationOptions fs options w) as [r w0].
  simpl in H1, Hw. subst r w0.
  unfold lift at 1. rewrite H2. unfold lift at 1. rewrite H3.
  unfold lift at 1. rewrite H4. reflexivity.
Qed.

Lemma validateProjectStructure_iff (structure : ProjectStructure) :
  validateProjectStructure structure = Return tt <->
  files structure <> [] /\
  existsb isServerFile (map fst (files structure)) = true.
Proof.
  unfold validateProjectStructure.
  destruct (files structure) as [|e l]; simpl length.
  - simpl. split; [discriminate|]. intros [H _]. congruence.
  - change (S (length l) =? 0) with false. cbv iota.
    destruct (existsb isServerFile (map fst (e :: l))); simpl.
    + split; [|reflexivity]. intros _. split; [discriminate|reflexivity].
    + split; [discriminate|]. intros [_ H]. discriminate.
Qed.

End Generate.

(** C8. A structure without files, or without a file whose path contains
    "server." or "index.", makes [generateProject] raise the validation
    error with the file system as it was; a structure that has such a
    file passes the validation. *)
Theorem C8_structure_checked_first (fs : NodeFs)
    (fileGenerators :
       str -> option (GenerationOptions -> ParsedResponse
                      -> Result ProjectStructure))
    (options : GenerationOptions) (response : str)
    (parsed : ParsedResponse) (structure : ProjectStructure) (w : World fs) :
  fst (CodeGenerator.validateGenerationOptions fs options w) = Return tt ->
  CodeGenerator.validateOpenAIResponse response = Return tt ->
  CodeGenerator.parseResponse response = Return parsed ->
  CodeGenerator.generateProjectStructure fileGenerators options parsed
    = Return structure ->
  ((files structure = [] \/
    existsb CodeGenerator.isServerFile (map fst (files structure)) = false) ->
   exists message,
     CodeGenerator.validateProjectStructure structure = Throw message /\
     CodeGenerator.generateProject fs fileGenerators options response w
     = (Throw (lit "Failed to generate project: " ++ message), w)) /\
  ((files structure <> [] /\
    existsb CodeGenerator.isServerFile (map fst (files structure)) = true) ->
   CodeGenerator.validateProjectStructure structure = Return tt).
Proof.
  intros H1 H2 H3 H4. split.
  - intros Hbad.
    rewrite (@generateProject_assembled fs fileGenerators options response
               parsed structure w H1 H2 H3 H4).
    unfold materialize, try_catch, bind, CodeGenerator.lift.
    destruct (CodeGenerator.validateProjectStructure structure) as [[]|message] eqn:E.
    + apply validateProjectStructure_iff in E. destruct E as [Hne Hex].
      destruct Hbad; congruence.
    + exists message. split; reflexivity.
  - apply validateProjectStructure_iff.
Qed.

Lemma C8_structure_checked_first_witness :
  snd (CodeGenerator.generateProject (SimFs []) (sim_generators readmeOnly)
         sim_options (lit "Plain words, no code.") sim_start)
  = sim_start.
Proof.
  assert (Hp : exists parsed,
            CodeGenerator.parseResponse (lit "Plain words, no code.")
            = Return parsed)
    by (eexists; vm_compute; reflexivity).
  destruct Hp as [parsed Hp].
  destruct (@C8_structure_checked_first (SimFs []) (sim_generators readmeOnly)
              sim_options (lit "Plain words, no code.") parsed readmeOnly
              sim_start)
    as [H _].
  - vm_compute. reflexivity.
  - vm_compute. reflexivity.
  - exact Hp.
  - reflexivity.
  - destruct H as (message & _ & E).
    + right. vm_compute. reflexivity.
    + rewrite E. reflexivity.
Defined.

(** C2 (amended). [createFiles] stores every entry in turn, whatever
    happened to the earlier ones, and raises one error after the last,
    naming the entries that failed.  With a platform that does not fail
    and exactly one entry without string content, [writeFileSync] is
    called for all the others, in their order, and the error names that
    entry alone.  A declared directory that cannot be created, whatever
    its place in the list, ends [createDirectories] at once: the
    directories after it are not tried, and [generateProject] raises
    with the file system as the failed [mkdirSync] left it, so that no
    file is written. *)
Theorem C2_files_collected (fs : NodeFs) (basePath : str) :
  (forall entries w,
     CodeGenerator.createFiles fs basePath entries w =
     (match failures (fst (attemptAll fs basePath entries w)) with
      | [] => Return tt
      | f :: l => Throw (CodeGenerator.failureReport (f :: l))
      end,
      snd (attemptAll fs basePath entries w))) /\
  (forall pre k content post w,
     reliable fs ->
     forallb (fun e => is_text (snd e)) (pre ++ post) = true ->
     is_text content = false ->
     fst (CodeGenerator.createFiles_loop fs basePath
            (pre ++ (k, content) :: post) [] [] w)
     = Return (map fst pre ++ map fst post,
               [(k, lit "File content must be a string")]) /\
     fst (CodeGenerator.createFiles fs basePath
            (pre ++ (k, content) :: post) w)
     = Throw (lit "Failed to create 1 file(s):" ++ [nl] ++ k
                ++ lit ": File content must be a string") /\
     exists w1 w2,
       storedAll fs basePath pre w = Some w1 /\
       storedAll fs basePath post
         (snd (ensured fs (path_dirname fs (path_join fs basePath k)) w1))
       = Some w2 /\
       snd (CodeGenerator.createFiles fs basePath
              (pre ++ (k, content) :: post) w) = w2) /\
  (forall pre dir more message w w0 w1,
     ensuredAll fs basePath pre w = Some w0 ->
     ensured fs (path_join fs basePath dir) w0 = (Throw message, w1) ->
     CodeGenerator.createDirectories fs basePath (pre ++ dir :: more) w =
     (Throw (lit "Failed to create directory " ++ path_join fs basePath dir
               ++ lit ": " ++ message), w1)) /\
  (forall fileGenerators options response parsed structure
          pre dir more message w w0 w1,
     fst (CodeGenerator.validateGenerationOptions fs options w) = Return tt ->
     CodeGenerator.validateOpenAIResponse response = Return tt ->
     CodeGenerator.parseResponse response = Return parsed ->
     CodeGenerator.generateProjectStructure fileGenerators options parsed
       = Return structure ->
     CodeGenerator.validateProjectStructure structure = Return tt ->
     directories structure = pre ++ dir :: more ->
     ensuredAll fs (outputPath options) pre w = Some w0 ->
     ensured fs (path_join fs (outputPath options) dir) w0
       = (Throw message, w1) ->
     CodeGenerator.generateProject fs fileGenerators options response w =
     (Throw (lit "Failed to generate project: "
               ++ lit "Failed to create directory "
               ++ path_join fs (outputPath options) dir
               ++ lit ": " ++ message), w1)).
Proof.
  split; [|split; [|split]].
  - intros entries w. apply createFiles_attempts.
  - intros pre k content post w Hr Htext Hk.
    rewrite forallb_app in Htext. apply andb_true_iff in Htext.
    destruct Htext as [Hpre Hpost].
    pose proof (stored_other basePath (k, content)
                  (snd (attemptAll fs basePath pre w)) Hr Hk) as Ek.
    cbn [fst snd] in Ek.
    assert (E : attemptAll fs basePath (pre ++ (k, content) :: post) w
                = (map (fun e => (fst e, None)) pre
                     ++ (k, Some (lit "File content must be a string"))
                     :: map (fun e => (fst e, None)) post,
                   snd (attemptAll fs basePath post
                          (snd (ensured fs
                                  (path_dirname fs (path_join fs basePath k))
                                  (snd (attemptAll fs basePath pre w))))))).
    { rewrite attemptAll_app, (attemptAll_texts basePath pre Hr Hpre).
      cbn [attemptAll]. rewrite Ek.
      pose proof (attemptAll_texts basePath post Hr Hpost
                    (snd (ensured fs
                            (path_dirname fs (path_join fs basePath k))
                            (snd (attemptAll fs basePath pre w))))) as Ep.
      destruct (attemptAll fs basePath post _) as [l w2]. cbn [fst snd] in *.
      rewrite Ep. reflexivity. }
    split; [|split].
    + rewrite createFiles_loop_attempts. rewrite E. cbn [fst snd].
      rewrite written_app, failures_app, written_all, failures_all.
      simpl. unfold written at 1. simpl.
      fold (written (map (fun e : str * jsval => (fst e, @None str)) post)).
      rewrite written_all, failures_all. reflexivity.
    + rewrite createFiles_attempts. rewrite E. cbn [fst snd].
      rewrite failures_app, failures_all. simpl. rewrite failures_all.
      reflexivity.
    + exists (snd (attemptAll fs basePath pre w)). eexists.
      split; [apply storedAll_texts; assumption|].
      split; [apply storedAll_texts; assumption|].
      rewrite createFiles_attempts, E. reflexivity.
  - intros pre dir more message w w0 w1. apply createDirectories_abort.
  - intros fileGenerators options response parsed structure pre dir more
      message w w0 w1 H1 H2 H3 H4 Hv Hd Hpre Hdir.
    rewrite (@generateProject_assembled fs fileGenerators options response
               parsed structure w H1 H2 H3 H4).
    unfold materialize, try_catch, bind, CodeGenerator.lift. rewrite Hv, Hd.
    rewrite (@createDirectories_abort fs (outputPath options) pre dir more
               message w w0 w1 Hpre Hdir).
    reflexivity.
Qed.

Lemma SimFs_reliable : reliable (SimFs []).
Proof. split; intros; reflexivity. Qed.

Lemma C2_files_collected_witness :
  fst (CodeGenerator.createFiles_loop (SimFs []) (lit "/out") threeFiles [] []
         sim_start)
  = Return ([lit "server.ts"; lit "README.md"],
            [(lit "data.json", lit "File content must be a string")]) /\
  sim_files (snd (CodeGenerator.createFiles (SimFs []) (lit "/out") threeFiles
                    sim_start))
  = [(lit "/out/server.ts", lit "code"); (lit "/out/README.md", lit "text")].
Proof.
  destruct (proj1 (proj2 (C2_files_collected (SimFs []) (lit "/out")))
              [(lit "server.ts", jstr (lit "code"))] (lit "data.json")
              (Some (JNum (lit "1"))) [(lit "README.md", jstr (lit "text"))]
              sim_start SimFs_reliable eq_refl eq_refl)
    as (Hloop & _ & w1 & w2 & H1 & H2 & Hw).
  split; [exact Hloop|].
  change ([(lit "server.ts", jstr (lit "code"))]
            ++ (lit "data.json", Some (JNum (lit "1")))
            :: [(lit "README.md", jstr (lit "text"))])
    with threeFiles in Hw.
  rewrite Hw. vm_compute in H1. injection H1 as <-.
  vm_compute in H2. injection H2 as <-. reflexivity.
Defined.

(** C2, as stated, fails: when the first declared directory cannot be
    created, the second one is not tried and no file is written. *)
Lemma C2_directory_failure_aborts :
  let run := CodeGenerator.generateProject (SimFs [lit "/out/demo/src"])
               (sim_generators twoDirectories) sim_options
               (lit "Plain words, no code.") sim_start in
  fst run = Throw (lit "Failed to generate project: Failed to create directory /out/demo/src: EACCES: permission denied, mkdir '/out/demo/src'") /\
  snd run = sim_start.
Proof. vm_compute. split; reflexivity. Qed.

(* ================================================================== *)
(** * Blank input *)

Lemma Starts_fails (r : re) (p : ascii -> bool) :
  Starts r p -> forall k st, stops p (rest st) -> mt r k st = None.
Proof.
  induction 1 as [q p Hq|g lo hi q p Hq|a b p Ha IHa|a b p Ha IHa Hb IHb
                 |i a p Ha IHa]; intros k [pv ps s cs] Hs; simpl in Hs.
  - destruct s as [|c t]; [reflexivity|]. rewrite mt_Chr.
    destruct (q c) eqn:E; [|reflexivity]. apply Hq in E. simpl in Hs. congruence.
  - rewrite mt_Rep. apply rep_none. intros w s' -> Hw Hlo _. exfalso.
    destruct w as [|c w]; [simpl in Hlo; lia|].
    simpl in Hw, Hs. apply andb_true_iff in Hw. destruct Hw as [Hc _].
    apply Hq in Hc. congruence.
  - rewrite mt_Seq. apply IHa. exact Hs.
  - rewrite mt_Alt, IHa by exact Hs. apply IHb. exact Hs.
  - simpl. apply IHa. exact Hs.
Qed.

Lemma stops_absent (p : ascii -> bool) (s : str) :
  forallb (fun c => negb (p c)) s = true -> stops p s.
Proof.
  destruct s as [|c t]; [exact (fun _ => I)|]. simpl. intros H.
  apply andb_true_iff in H. destruct H as [H _].
  now destruct (p c).
Qed.

(** The pattern occurs nowhere in an input without the class. *)
Lemma exec_from_absent (r : re) (p : ascii -> bool) (s : str) :
  Starts r p -> forallb (fun c => negb (p c)) s = true ->
  forall pv ps, exec_from r pv ps s = None.
Proof.
  intros Hr. induction s as [|c t IH]; intros H pv ps.
  - simpl. rewrite (Starts_fails Hr); [reflexivity|exact I].
  - simpl. rewrite (Starts_fails Hr) by (apply stops_absent; exact H).
    apply IH. simpl in H. apply andb_true_iff in H. tauto.
Qed.

Lemma rmatch_absent (r : re) (p : ascii -> bool) (s : str) :
  Starts r p -> forallb (fun c => negb (p c)) s = true -> rmatch r s = None.
Proof. intros Hr H. apply (@exec_from_absent r p s Hr H). Qed.

Lemma matchAll_absent (r : re) (p : ascii -> bool) (s : str) :
  Starts r p -> forallb (fun c => negb (p c)) s = true -> matchAll r s = [].
Proof.
  intros Hr H. unfold matchAll. simpl. unfold exec_at. simpl.
  rewrite (@exec_from_absent r p s Hr H). reflexivity.
Qed.

Lemma Starts_Str (c : ascii) (l : str) (p : ascii -> bool) :
  p c = true -> Starts (Str (c :: l)) p.
Proof.
  intros H. simpl. apply Starts_Seq, Starts_Chr. intros x Hx.
  apply is_char_true in Hx. now subst.
Qed.

Lemma forallb_impl (P Q : ascii -> bool) (s : str) :
  (forall c, P c = true -> Q c = true) ->
  forallb P s = true -> forallb Q s = true.
Proof.
  intros HPQ. induction s as [|c t IH]; [reflexivity|]. simpl. intros H.
  apply andb_true_iff in H. destruct H as [Hc Ht].
  rewrite (HPQ c Hc). apply IH. exact Ht.
Qed.

Lemma space_not_backtick (c : ascii) :
  is_space c = true -> negb (is_char "`" c) = true.
Proof.
  destruct c as [b0 b1 b2 b3 b4 b5 b6 b7].
  destruct b0, b1, b2, b3, b4, b5, b6, b7; intros H;
    first [reflexivity | vm_compute in H; discriminate H].
Qed.

Lemma space_not_hash (c : ascii) :
  is_space c = true -> negb (is_char "#" c) = true.
Proof.
  destruct c as [b0 b1 b2 b3 b4 b5 b6 b7].
  destruct b0, b1, b2, b3, b4, b5, b6, b7; intros H;
    first [reflexivity | vm_compute in H; discriminate H].
Qed.

Lemma space_not_lower (c : ascii) :
  is_space c = true -> negb (is_lower c) = true.
Proof.
  destruct c as [b0 b1 b2 b3 b4 b5 b6 b7].
  destruct b0, b1, b2, b3, b4, b5, b6, b7; intros H;
    first [reflexivity | vm_compute in H; discriminate H].
Qed.

Section Blank.

Import BaseResponseParser.

Variable s : str.
Hypothesis blank : forallb is_space s = true.

Lemma blank_extractJson : extractJson s = None.
Proof.
  unfold extractJson. apply trim_nil_iff in blank. now rewrite blank.
Qed.

Lemma blank_codeBlocks : extractCodeBlocks s = [].
Proof.
  unfold extractCodeBlocks.
  rewrite (@matchAll_absent codeBlockRegex (is_char "`") s); [reflexivity| |].
  - apply Starts_Seq. apply (@Starts_Str "`" _ (is_char "`")). reflexivity.
  - exact (@forallb_impl _ _ s space_not_backtick blank).
Qed.

Lemma blank_sections : extractSections s = [].
Proof.
  unfold extractSections.
  rewrite (@matchAll_absent sectionRegex (is_char "#") s); [reflexivity| |].
  - apply Starts_Seq. apply (@Starts_Str "#" _ (is_char "#")). reflexivity.
  - exact (@forallb_impl _ _ s space_not_hash blank).
Qed.

Lemma blank_serverCodeSection :
  rmatch MarkdownResponseParser.serverCodeSection s = None.
Proof.
  apply (@rmatch_absent _ (is_char "#")).
  - apply Starts_Seq. apply (@Starts_Str "#" _ (is_char "#")). reflexivity.
  - exact (@forallb_impl _ _ s space_not_hash blank).
Qed.

Lemma blank_codeLike : rmatch MixedResponseParser.codeLike s = None.
Proof.
  apply (@rmatch_absent _ is_lower).
  - apply Starts_Seq.
    repeat (first [apply (@Starts_Str _ _ is_lower); reflexivity
                  | apply Starts_Alt]).
  - exact (@forallb_impl _ _ s space_not_lower blank).
Qed.

End Blank.

(** C1, as stated, fails: the plain-text, the markdown and the mixed
    strategy each return a record on a blank input. *)
Lemma C1_blank_is_parsed :
  (exists r, ResponseParserFactory.run TextResponseParser (lit "  ") = Return r) /\
  (exists r, ResponseParserFactory.run MarkdownResponseParser (lit "  ") = Return r) /\
  (exists r, ResponseParserFactory.run MixedResponseParser (lit "  ") = Return r).
Proof. repeat split; eexists; vm_compute; reflexivity. Qed.

(** C1 (amended). On a blank input the structured strategy throws; the
    plain-text and the markdown strategy return a record with empty
    server code and the mixed strategy one whose server code is the
    input itself.  The plain-text strategy returns on every input, with
    the trimmed input as server code.  Blank input is refused before
    parsing, by [validateOpenAIResponse]. *)
Theorem C1_blank_input (s : str) :
  forallb is_space s = true ->
  ResponseParserFactory.run JsonResponseParser s
    = Throw (lit "No valid JSON found in response") /\
  (exists r, ResponseParserFactory.run TextResponseParser s = Return r /\
             serverCode r = jstr []) /\
  (exists r, ResponseParserFactory.run MarkdownResponseParser s = Return r /\
             serverCode r = jstr []) /\
  (exists r, ResponseParserFactory.run MixedResponseParser s = Return r /\
             serverCode r = jstr s) /\
  (forall x, exists r,
     ResponseParserFactory.run TextResponseParser x = Return r /\
     serverCode r = jstr (trim x)) /\
  CodeGenerator.validateOpenAIResponse s = Throw (lit "OpenAI response is empty.").
Proof.
  intros blank. repeat split.
  - simpl. unfold JsonResponseParser.parse.
    now rewrite (@blank_extractJson s blank).
  - eexists. split; [reflexivity|]. simpl.
    apply trim_nil_iff in blank. now rewrite blank.
  - eexists. split; [reflexivity|].
    cbn [ResponseParserFactory.run MarkdownResponseParser.parse serverCode].
    rewrite (@blank_serverCodeSection s blank), (@blank_codeBlocks s blank),
      (@blank_sections s blank). reflexivity.
  - eexists. split; [reflexivity|].
    cbn [ResponseParserFactory.run MixedResponseParser.parse serverCode].
    rewrite (@blank_extractJson s blank), (@blank_codeBlocks s blank),
      (@blank_codeLike s blank). reflexivity.
  - intros x. eexists. split; reflexivity.
  - unfold CodeGenerator.validateOpenAIResponse, CodeGenerator.is_blank.
    apply trim_nil_iff in blank. now rewrite blank.
Qed.

Lemma C1_blank_input_witness :
  ResponseParserFactory.run JsonResponseParser (lit "  ")
  = Throw (lit "No valid JSON found in response").
Proof. apply (C1_blank_input (lit "  ")). reflexivity. Defined.

(* ================================================================== *)
(** * The strategy selector *)

(** A quantified class succeeds as soon as the continuation accepts after
    some admissible number of code units. *)
Lemma rep_complete (g : bool) (p : ascii -> bool)
    (k : mstate -> option mstate) (cs : list (nat * str)) (w s' : str) :
  forall lo hi pv ps,
  forallb p w = true -> lo <= length w -> fits hi (length w) ->
  k (MS (prev_after pv w) (ps + length w) s' cs) <> None ->
  rep g p lo hi k pv ps cs (w ++ s') <> None.
Proof.
  induction w as [|c w IH]; intros lo hi pv ps Hw Hlo Hhi Hk.
  - simpl in Hlo, Hk. rewrite Nat.add_0_r in Hk.
    assert (lo = 0) by lia. subst lo.
    destruct (k (MS pv ps s' cs)) as [e|] eqn:E; [|congruence].
    destruct s' as [|c t]; simpl; rewrite E.
    + destruct g; discriminate.
    + destruct g; [|discriminate].
      destruct (if p c && room hi then _ else None); discriminate.
  - simpl in Hw. apply andb_true_iff in Hw. destruct Hw as [Hc Hw].
    assert (Hroom : room hi = true).
    { destruct hi as [[|h]|]; simpl in *; try reflexivity; lia. }
    assert (Hmore : rep g p (pred lo) (less hi) k (Some c) (S ps) cs (w ++ s')
                    <> None).
    { apply IH; auto.
      - simpl in Hlo. lia.
      - destruct hi as [h|]; simpl in *; [lia|exact I].
      - replace (S ps + length w) with (ps + length (c :: w)) by (simpl; lia).
        exact Hk. }
    simpl. rewrite Hc, Hroom. simpl.
    destruct (rep g p (pred lo) (less hi) k (Some c) (S ps) cs (w ++ s'));
      [|congruence].
    destruct g; [discriminate|].
    destruct (if lo =? 0 then _ else None); discriminate.
Qed.

(** Where a search that succeeds found its match. *)
Lemma exec_from_some (r : re) (s : str) : forall pv ps m,
  exec_from r pv ps s = Some m ->
  exists pre s1, s = pre ++ s1 /\
    mt r Some (MS (prev_after pv pre) (ps + length pre) s1 []) = Some (m_end m).
Proof.
  induction s as [|c t IH]; intros pv ps m H; simpl in H.
  - destruct (mt r Some (MS pv ps [] [])) as [e|] eqn:E; [|discriminate].
    injection H as <-. exists [], []. simpl. rewrite Nat.add_0_r. auto.
  - destruct (mt r Some (MS pv ps (c :: t) [])) as [e|] eqn:E.
    + injection H as <-. exists [], (c :: t). simpl. rewrite Nat.add_0_r. auto.
    + apply IH in H. destruct H as (pre & s1 & -> & H).
      exists (c :: pre), s1. simpl.
      replace (ps + S (length pre)) with (S ps + length pre) by lia. auto.
Qed.

(** A search succeeds when the pattern matches at some position. *)
Lemma exec_from_complete (r : re) (pre s1 : str) : forall pv ps,
  mt r Some (MS (prev_after pv pre) (ps + length pre) s1 []) <> None ->
  exec_from r pv ps (pre ++ s1) <> None.
Proof.
  induction pre as [|c pre IH]; intros pv ps H.
  - simpl in H. rewrite Nat.add_0_r in H. simpl.
    destruct s1; simpl; destruct (mt r Some _); congruence.
  - simpl. destruct (mt r Some (MS pv ps (c :: pre ++ s1) [])); [discriminate|].
    apply IH. simpl in H.
    replace (S ps + length pre) with (ps + S (length pre)) by lia. exact H.
Qed.

Lemma forallb_any (w : str) : forallb is_any w = true.
Proof. induction w; simpl; auto. Qed.

Lemma wholeObject_at (pre ws1 mid ws2 post : str) :
  line_start pre -> forallb is_space ws1 = true ->
  forallb is_space ws2 = true -> line_end post ->
  mt ResponseParserFactory.wholeObject Some
     (MS (prev_after None pre) (0 + length pre)
         (ws1 ++ lit "{" ++ mid ++ lit "}" ++ ws2 ++ post) []) <> None.
Proof.
  intros Hpre H1 H2 Hpost. unfold ResponseParserFactory.wholeObject.
  cbn [seqs]. rewrite mt_Seq, mt_Bol.
  assert (Hb : at_bol true (MS (prev_after None pre) (0 + length pre)
                 (ws1 ++ lit "{" ++ mid ++ lit "}" ++ ws2 ++ post) []) = true).
  { unfold at_bol, line_start in *. simpl prev.
    destruct (prev_after None pre); [exact Hpre|reflexivity]. }
  rewrite Hb, mt_Seq. unfold star. rewrite mt_Rep.
  apply rep_complete; [exact H1|lia|exact I|].
  change (lit "{" ++ mid ++ lit "}" ++ ws2 ++ post)
    with ("{"%char :: mid ++ "}"%char :: ws2 ++ post).
  rewrite mt_Seq, mt_Chr. rewrite is_char_refl.
  rewrite mt_Seq, mt_Rep.
  apply rep_complete; [apply forallb_any|lia|exact I|].
  rewrite mt_Seq, mt_Chr, is_char_refl, mt_Seq, mt_Rep.
  apply rep_complete; [exact H2|lia|exact I|].
  rewrite mt_Eol.
  assert (He : forall pv ps, at_eol true (MS pv ps post []) = true).
  { intros. unfold at_eol, line_end in *. simpl rest.
    destruct post; [reflexivity|]. now rewrite Hpost. }
  rewrite He. discriminate.
Qed.

(** The pattern of the selector matches exactly the texts with an object
    between the limits of lines. *)
Lemma wholeObject_iff (s : str) :
  ResponseParserFactory.matches ResponseParserFactory.wholeObject s = true
  <-> lineObject s.
Proof.
  unfold ResponseParserFactory.matches, rmatch, exec_at, start_state.
  simpl prev. simpl pos. simpl rest. split.
  - destruct (exec_from _ None 0 s) as [m|] eqn:E; [|discriminate]. intros _.
    apply exec_from_some in E. destruct E as (pre & s1 & -> & E).
    unfold ResponseParserFactory.wholeObject in E. cbn [seqs] in E.
    rewrite mt_Seq, mt_Bol in E.
    destruct (at_bol true _) eqn:Hb; [|discriminate].
    rewrite mt_Seq in E. unfold star in E. rewrite mt_Rep in E.
    apply rep_some in E. destruct E as (ws1 & s2 & -> & H1 & _ & _ & E).
    destruct s2 as [|c s3]; [discriminate E|].
    rewrite mt_Seq, mt_Chr in E.
    destruct (is_char "{" c) eqn:Ec; [|discriminate].
    apply is_char_true in Ec. subst c.
    rewrite mt_Seq, mt_Rep in E.
    apply rep_some in E. destruct E as (mid & s4 & -> & _ & _ & _ & E).
    destruct s4 as [|c s5]; [discriminate E|].
    rewrite mt_Seq, mt_Chr in E.
    destruct (is_char "}" c) eqn:Ec; [|discriminate].
    apply is_char_true in Ec. subst c.
    rewrite mt_Seq, mt_Rep in E.
    apply rep_some in E. destruct E as (ws2 & post & -> & H2 & _ & _ & E).
    rewrite mt_Eol in E. destruct (at_eol true _) eqn:He; [|discriminate].
    exists pre, ws1, mid, ws2, post. repeat split; auto.
    + unfold line_start. unfold at_bol in Hb. simpl prev in Hb.
      destruct (prev_after None pre); [exact Hb|exact I].
    + unfold line_end. unfold at_eol in He. simpl rest in He.
      destruct post; [exact I|exact He].
  - intros (pre & ws1 & mid & ws2 & post & -> & Hpre & H1 & H2 & Hpost).
    pose proof (@exec_from_complete ResponseParserFactory.wholeObject pre _
                  None 0 (@wholeObject_at pre ws1 mid ws2 post Hpre H1 H2 Hpost)) as H.
    destruct (exec_from _ None 0 _); [reflexivity|congruence].
Qed.

(** C3, as stated, fails: a text whose second line is an object is given
    to the structured strategy, although it holds no json fence and is
    not an object between white space as a whole. *)
Lemma C3_line_object_selected :
  let text := lit "hello
{}
world" in
  ResponseParserFactory.autoDetectParser text = JsonResponseParser /\
  includes (lit "```json") text = false /\
  ~ wholeTextObject text.
Proof.
  repeat split; try (vm_compute; reflexivity).
  intros (ws1 & mid & ws2 & E & H1 & _).
  destruct ws1 as [|c ws1].
  - discriminate E.
  - injection E as <- _. discriminate H1.
Qed.

(** C3 (amended). The selector returns the structured strategy exactly
    when the text contains a json fence or an object between the limits
    of lines (the pattern has the multiline flag); otherwise the mixed
    strategy exactly when the text contains "##" or a fence; otherwise
    the plain-text strategy.  It never returns the markdown strategy. *)
Theorem C3_selector (s : str) :
  let json := includes (lit "```json") s = true \/ lineObject s in
  let marked := includes (lit "##") s = true \/ includes (lit "```") s = true in
  (ResponseParserFactory.autoDetectParser s = JsonResponseParser <-> json) /\
  (ResponseParserFactory.autoDetectParser s = MixedResponseParser
   <-> ~ json /\ marked) /\
  (ResponseParserFactory.autoDetectParser s = TextResponseParser
   <-> ~ json /\ ~ marked) /\
  ResponseParserFactory.autoDetectParser s <> MarkdownResponseParser.
Proof.
  intros json marked. unfold ResponseParserFactory.autoDetectParser.
  pose proof (wholeObject_iff s) as Hw.
  assert (Hj : includes (lit "```json") s
               || ResponseParserFactory.matches
                    ResponseParserFactory.wholeObject s = true <-> json).
  { unfold json. rewrite orb_true_iff, Hw. reflexivity. }
  assert (Hm : includes (lit "##") s || includes (lit "```") s = true
               <-> marked).
  { unfold marked. rewrite orb_true_iff. reflexivity. }
  destruct (includes (lit "```json") s
            || ResponseParserFactory.matches
                 ResponseParserFactory.wholeObject s) eqn:Ej.
  - assert (J : json) by (apply Hj; reflexivity).
    repeat split; try discriminate; try tauto.
  - assert (J : ~ json) by (intros J; apply Hj in J; discriminate).
    destruct (includes (lit "##") s || includes (lit "```") s) eqn:Em.
    + assert (K : marked) by (apply Hm; reflexivity).
      repeat split; try discriminate; try tauto.
    + assert (K : ~ marked) by (intros K; apply Hm in K; discriminate).
      repeat split; try discriminate; try tauto.
Qed.

(* ================================================================== *)
(** * Section keys *)

Lemma extractSections_keys_from (ms : list mres) : forall acc,
  map fst
    (fold_left
       (fun sections m =>
          record_set (BaseResponseParser.sectionName
                        (BaseResponseParser.group_or_empty 1 m))
                     (trim (BaseResponseParser.group_or_empty 2 m)) sections)
       ms acc)
  = rev (filter ordinary_key
           (map (fun m => BaseResponseParser.sectionName
                            (BaseResponseParser.group_or_empty 1 m)) ms))
    ++ map fst acc.
Proof.
  induction ms as [|m ms IH]; intros acc; [reflexivity|].
  simpl fold_left. rewrite IH. simpl map. simpl filter.
  unfold record_set, ordinary_key.
  destruct (str_eqb _ (lit "__proto__")); simpl; [reflexivity|].
  rewrite <- app_assoc. reflexivity.
Qed.

(** C4, as stated, fails: the section under the header "Server Code" is
    not stored under "server-code"; the name is normalised with an
    underscore. *)
Lemma C4_no_hyphen_key :
  record_get (lit "server-code")
    (BaseResponseParser.extractSections (lit "## Server Code
const x = 1;")) = None /\
  BaseResponseParser.sectionName (lit "Server Code") = lit "server_code".
Proof. vm_compute. split; reflexivity. Qed.

(** C4 (amended). The key of a section is the text captured as its
    header name, in lower case, with every run of white space replaced by
    one underscore; "Server Code" gives "server_code". *)
Theorem C4_section_keys (response name : str) :
  BaseResponseParser.sectionName name
    = squash is_space (lit "_") (toLowerCase name) /\
  BaseResponseParser.sectionName (lit "Server Code") = lit "server_code" /\
  map fst (BaseResponseParser.extractSections response)
  = rev (filter ordinary_key
           (map (fun m => BaseResponseParser.sectionName
                            (BaseResponseParser.group_or_empty 1 m))
                (matchAll BaseResponseParser.sectionRegex response))).
Proof.
  split; [|split].
  - unfold BaseResponseParser.sectionName. apply replaceAll_plus. reflexivity.
  - vm_compute. reflexivity.
  - unfold BaseResponseParser.extractSections.
    rewrite extractSections_keys_from. apply app_nil_r.
Qed.

(* ================================================================== *)
(** * The brace scan *)

Section BraceScan.

Import BaseResponseParser.

Variable text : str.

(** Before the first opening brace the scan stays at depth zero. *)
Lemma scan_noise (pre todo : str) : forall i,
  forallb no_open pre = true ->
  findJsonObjects_loop text (pre ++ todo) i 0%Z None
  = findJsonObjects_loop text todo (i + length pre) 0%Z None.
Proof.
  induction pre as [|c pre IH]; intros i H.
  - simpl. now rewrite Nat.add_0_r.
  - simpl in H. apply andb_true_iff in H. destruct H as [Hc Hpre].
    unfold no_open in Hc. simpl app. simpl findJsonObjects_loop.
    destruct (is_char "{" c); [discriminate|].
    destruct (is_char "}" c); simpl; rewrite IH by exact Hpre;
      f_equal; lia.
Qed.

(** Inside an object the scan keeps the start index until the depth is
    back at zero, where it records the substring. *)
Lemma scan_object (body todo : str) (start : nat) : forall d i,
  closes d body = true -> 1 <= d ->
  findJsonObjects_loop text (body ++ todo) i (Z.of_nat d) (Some start)
  = substring start (i + length body) text
    :: findJsonObjects_loop text todo (i + length body) 0%Z None.
Proof.
  induction body as [|c body IH]; intros d i H Hd; [discriminate|].
  simpl in H. simpl app. simpl findJsonObjects_loop.
  destruct (is_char "{" c).
  - assert (E : (Z.of_nat d =? 0)%Z = false) by (apply Z.eqb_neq; lia).
    rewrite E. replace (Z.of_nat d + 1)%Z with (Z.of_nat (S d)) by lia.
    rewrite IH by (auto; lia). simpl length.
    replace (i + S (length body)) with (S i + length body) by lia.
    reflexivity.
  - destruct (is_char "}" c).
    + destruct d as [|[|d']]; [lia| |].
      * destruct body; [|discriminate]. simpl.
        replace (S i) with (i + 1) by lia. reflexivity.
      * replace (Z.of_nat (S (S d')) - 1)%Z with (Z.of_nat (S d')) by lia.
        assert (E : (Z.of_nat (S d') =? 0)%Z = false) by (apply Z.eqb_neq; lia).
        assert (E' : (Z.of_nat (S d') <? 0)%Z = false) by (apply Z.ltb_ge; lia).
        rewrite E, E'. rewrite IH by (auto; lia). simpl length.
        replace (i + S (length body)) with (S i + length body) by lia.
        reflexivity.
    + rewrite IH by auto. simpl length.
      replace (i + S (length body)) with (S i + length body) by lia.
      reflexivity.
Qed.

End BraceScan.

Lemma substring_middle (a j b : str) :
  substring (length a) (length a + length j) (a ++ j ++ b) = j.
Proof.
  unfold substring. rewrite skipn_app, skipn_all, Nat.sub_diag. simpl.
  replace (length a + length j - length a) with (length j + 0) by lia.
  rewrite firstn_app_2. simpl. apply app_nil_r.
Qed.

(** After stray closing braces, the first candidate of the scan is the
    balanced object. *)
Lemma findJsonObjects_first (pre j post : str) :
  forallb no_open pre = true -> balancedObject j = true ->
  exists more,
    BaseResponseParser.findJsonObjects (pre ++ j ++ post) = j :: more.
Proof.
  intros Hpre Hj. unfold BaseResponseParser.findJsonObjects.
  rewrite scan_noise by exact Hpre.
  destruct j as [|c body]; [discriminate|]. simpl in Hj.
  apply andb_true_iff in Hj. destruct Hj as [Hc Hb].
  change ((c :: body) ++ post) with (c :: (body ++ post)).
  cbn [BaseResponseParser.findJsonObjects_loop].
  rewrite Hc. change (0 =? 0)%Z with true. cbv iota.
  change (0 + 1)%Z with (Z.of_nat 1).
  rewrite scan_object by (auto; lia).
  eexists. f_equal.
  replace (S (0 + length pre) + length body)
    with (length pre + length (c :: body)) by (simpl; lia).
  apply (substring_middle pre (c :: body) post).
Qed.

(** A pattern that begins with a literal matches only where the literal
    occurs. *)
Lemma rmatch_literal (l : str) (r : re) (s : str) :
  includes l s = false -> rmatch (Seq (Str l) r) s = None.
Proof.
  intros H. unfold rmatch, exec_at, start_state. simpl prev. simpl pos.
  simpl rest. destruct (exec_from _ None 0 s) as [m|] eqn:E; [|reflexivity].
  apply exec_from_some in E. destruct E as (pre & s1 & -> & E).
  rewrite mt_Seq, mt_Str in E. simpl rest in E.
  destruct (startsWith l s1) eqn:Es; [|discriminate].
  apply startsWith_iff in Es. destruct Es as [t ->].
  assert (includes l (pre ++ l ++ t) = true) by (apply includes_iff; eauto).
  congruence.
Qed.

Lemma trim_not_blank (s : str) (c : ascii) :
  In c s -> is_space c = false -> trim s <> [].
Proof.
  intros Hin Hc H. apply trim_nil_iff in H. rewrite forallb_forall in H.
  specialize (H c Hin). congruence.
Qed.

(** C5, as stated, fails: a stray opening brace before the object hides
    it from the scan, whose only candidate is then not valid JSON. *)
Lemma C5_stray_opening_brace :
  let j := jsq "{'serverCode':'x'}" in
  let text := lit "{ " ++ j ++ lit " }}" in
  BaseResponseParser.parse_valid j
    = Some (JObj [(lit "serverCode", JStr (lit "x"))]) /\
  includes (lit "```json") text = false /\
  BaseResponseParser.findJsonObjects text = [lit "{ " ++ j ++ lit " }"] /\
  JsonResponseParser.parse text = Throw (lit "No valid JSON found in response").
Proof. vm_compute. repeat split; reflexivity. Qed.

(** C5 (amended). In a text without a json fence, an object that parses
    and passes the validity check, whose braces are balanced as the scan
    counts them and which is preceded by no opening brace (stray closing
    braces may precede it, any braces may follow), is the first
    candidate of the scan and is what the structured strategy
    returns; among candidates, the first that parses and passes the
    validity check is taken. *)
Theorem C5_brace_scan (pre j post : str) (v : json) :
  includes (lit "```json") (pre ++ j ++ post) = false ->
  forallb no_open pre = true ->
  balancedObject j = true ->
  BaseResponseParser.parse_valid j = Some v ->
  (exists more,
     BaseResponseParser.findJsonObjects (pre ++ j ++ post) = j :: more) /\
  (forall rejected more,
     forallb (fun c => match BaseResponseParser.parse_valid c with
                       | None => true
                       | Some _ => false
                       end) rejected = true ->
     BaseResponseParser.firstValid (rejected ++ j :: more) = Some v) /\
  BaseResponseParser.extractJson (pre ++ j ++ post) = Some v /\
  JsonResponseParser.parse (pre ++ j ++ post)
  = Return (JsonResponseParser.fromJson (Some v)).
Proof.
  intros Hfence Hpre Hj Hv.
  assert (Hfirst : forall rejected more,
            forallb (fun c => match BaseResponseParser.parse_valid c with
                              | None => true
                              | Some _ => false
                              end) rejected = true ->
            BaseResponseParser.firstValid (rejected ++ j :: more) = Some v).
  { intros rejected more. induction rejected as [|c l IH]; intros H.
    - simpl. now rewrite Hv.
    - simpl in H. apply andb_true_iff in H. destruct H as [Hc Hl].
      simpl. destruct (BaseResponseParser.parse_valid c); [discriminate|].
      apply IH. exact Hl. }
  destruct (@findJsonObjects_first pre j post Hpre Hj) as [more Hmore].
  assert (He : BaseResponseParser.extractJson (pre ++ j ++ post) = Some v).
  { unfold BaseResponseParser.extractJson.
    destruct (trim (pre ++ j ++ post)) eqn:Et.
    - exfalso. destruct j as [|c body]; [discriminate|].
      simpl in Hj. apply andb_true_iff in Hj. destruct Hj as [Hc _].
      apply is_char_true in Hc. subst c.
      apply (@trim_not_blank (pre ++ ("{"%char :: body) ++ post) "{"%char);
        [|reflexivity|exact Et].
      apply in_or_app. right. left. reflexivity.
    - unfold BaseResponseParser.fromFence, BaseResponseParser.jsonFence.
      cbn [seqs]. unfold Lit.
      rewrite rmatch_literal by exact Hfence.
      rewrite Hmore. simpl. rewrite Hv. reflexivity. }
  split; [eauto|]. split; [exact Hfirst|]. split; [exact He|].
  unfold JsonResponseParser.parse. rewrite He. reflexivity.
Qed.

Lemma C5_brace_scan_witness :
  JsonResponseParser.parse
    (lit "}} noise } " ++ jsq "{'serverCode':'x','scripts':{'a':'b'}}" ++ lit " { {")
  = Return (JsonResponseParser.fromJson
              (Some (JObj [(lit "serverCode", JStr (lit "x"));
                           (lit "scripts", JObj [(lit "a", JStr (lit "b"))])]))).
Proof.
  apply (@C5_brace_scan (lit "}} noise } ")
           (jsq "{'serverCode':'x','scripts':{'a':'b'}}") (lit " { {")).
  - vm_compute. reflexivity.
  - vm_compute. reflexivity.
  - vm_compute. reflexivity.
  - vm_compute. reflexivity.
Defined.

(* ================================================================== *)
(** * The json fence *)

Lemma mt_Cap i a k st :
  mt (Cap i a) k st =
  mt a (fun e => k (set_cap i (firstn (pos e - pos st) (rest st)) e)) st.
Proof. reflexivity. Qed.

(** A search passes over a prefix without the first class of the
    pattern. *)
Lemma exec_from_skip_prefix (r : re) (p : ascii -> bool) (pre s1 : str) :
  Starts r p -> forallb (fun c => negb (p c)) pre = true ->
  forall pv ps,
  exec_from r pv ps (pre ++ s1)
  = exec_from r (prev_after pv pre) (ps + length pre) s1.
Proof.
  intros Hr. induction pre as [|c pre IH]; intros H pv ps.
  - simpl. now rewrite Nat.add_0_r.
  - simpl app. rewrite exec_from_skip.
    + simpl in H. apply andb_true_iff in H. destruct H as [_ H].
      rewrite IH by exact H. simpl. f_equal. lia.
    + apply (Starts_fails Hr). simpl. simpl in H.
      apply andb_true_iff in H. destruct H as [H _]. now destruct (p c).
Qed.

Lemma suffix_last (w1 w2 body : str) (y : ascii) :
  w1 ++ w2 = body ++ [y] -> w2 <> [] ->
  exists w2', w2 = w2' ++ [y] /\ body = w1 ++ w2'.
Proof.
  intros E Hne. destruct (exists_last Hne) as (w2' & z & ->).
  rewrite app_assoc in E. apply app_inj_tail in E. destruct E as [E ->].
  exists w2'. auto.
Qed.

Lemma blank_prefix (u v a b : str) (c : ascii) :
  u ++ v = a ++ c :: b -> forallb is_space u = true -> is_space c = false ->
  exists a2, a = u ++ a2 /\ v = a2 ++ c :: b.
Proof.
  revert a. induction u as [|x u IH]; intros a E Hu Hc.
  - exists a. auto.
  - simpl in Hu. apply andb_true_iff in Hu. destruct Hu as [Hx Hu].
    destruct a as [|y a]; simpl in E; injection E as -> E.
    + congruence.
    + destruct (IH a E Hu Hc) as (a2 & -> & ->). exists a2. auto.
Qed.

(** No closing fence begins inside the object: behind white space, a
    fence would lie in the object or run over its closing brace. *)
Lemma fence_not_inside (w1 w2 body T u v : str) :
  w1 ++ w2 = body ++ lit "}" -> w2 <> [] ->
  includes (lit "```") (body ++ lit "}") = false ->
  w2 ++ T = u ++ v -> forallb is_space u = true ->
  startsWith (lit "```") v = false.
Proof.
  intros EJ Hne Hno E Hu.
  destruct (@suffix_last w1 w2 body "}"%char EJ Hne) as (w2' & -> & ->).
  rewrite <- app_assoc in E. symmetry in E.
  destruct (@blank_prefix u v w2' T "}"%char E Hu eq_refl) as (a2 & -> & ->).
  destruct (startsWith (lit "```") (a2 ++ "}"%char :: T)) eqn:Es; [|reflexivity].
  exfalso. apply startsWith_iff in Es. destruct Es as [t Et].
  destruct a2 as [|c1 [|c2 [|c3 a3]]]; try discriminate Et.
  injection Et as -> -> -> _.
  match type of Hno with
  | includes ?p ?x = false => assert (H : includes p x = true)
  end.
  { apply includes_iff. exists (w1 ++ u), (a3 ++ lit "}").
    rewrite <- !app_assoc. reflexivity. }
  congruence.
Qed.

Lemma is_space_brace_open : is_space "{" = false.
Proof. reflexivity. Qed.

Section Fence.

Import BaseResponseParser.

Variables (ws1 body ws2 post : str).
Hypothesis blank1 : forallb is_space ws1 = true.
Hypothesis blank2 : forallb is_space ws2 = true.
Hypothesis no_fence : includes (lit "```") (lit "{" ++ body ++ lit "}") = false.

Local Abbreviation object := (lit "{" ++ body ++ lit "}").

(** At the opening fence the pattern matches up to the closing fence and
    captures the object. *)
Lemma jsonFence_at pv ps :
  exists e,
    mt jsonFence Some
       (MS pv ps (lit "```json" ++ ws1 ++ object ++ ws2 ++ lit "```" ++ post) [])
    = Some e /\ caps e = [(1, object)].
Proof.
  eexists. split.
  - unfold jsonFence. cbn [seqs]. unfold Lit.
    rewrite mt_Seq, mt_Str_app, mt_Seq. unfold star. rewrite mt_Rep.
    apply rep_greedy_run; [exact blank1|exact is_space_brace_open|apply Nat.le_0_l|].
    rewrite mt_Seq, mt_Cap. unfold lazy_star. rewrite mt_Rep.
    cbn [pos rest].
    apply rep_lazy_first; [apply forallb_any|apply Nat.le_0_l| |].
    + intros w1 w2 EJ Hne _. unfold set_cap. cbn [prev pos rest caps].
      rewrite mt_Seq, mt_Rep. apply rep_none.
      intros u v E Hu _ _. rewrite mt_Str. cbn [rest].
      change ("{"%char :: body ++ lit "}") with ((lit "{" ++ body) ++ lit "}") in EJ.
      rewrite (@fence_not_inside w1 w2 (lit "{" ++ body)
                 (ws2 ++ lit "```" ++ post) u v); auto.
    + unfold set_cap. cbn [prev pos rest caps].
      rewrite mt_Seq, mt_Rep.
      apply rep_greedy_run; [exact blank2|reflexivity|apply Nat.le_0_l|].
      rewrite mt_Str_app. reflexivity.
  - cbn [caps]. rewrite firstn_after. reflexivity.
Qed.

Lemma lastIndexOf_last (a : str) (c : ascii) :
  lastIndexOf [c] (a ++ [c]) = Some (length a).
Proof.
  induction a as [|x a IH].
  - simpl. rewrite Ascii.eqb_refl. reflexivity.
  - simpl app. cbn [lastIndexOf]. rewrite IH. reflexivity.
Qed.

(** The interior of the fence is handed to [JSON.parse] as it is. *)
Lemma cleanFence_object : cleanFence object = object.
Proof.
  unfold cleanFence.
  assert (Et : trim object = object).
  { pose proof (@trim_core [] [] "{" "}" body eq_refl eq_refl eq_refl eq_refl) as H.
    simpl app in H. rewrite app_nil_r in H. exact H. }
  rewrite Et.
  assert (E1 : indexOf (lit "{") object = Some 0) by reflexivity.
  assert (E2 : lastIndexOf (lit "}") object = Some (length (lit "{" ++ body))).
  { change object with ((lit "{" ++ body) ++ ["}"%char]).
    apply lastIndexOf_last. }
  rewrite E1, E2. simpl length. cbn [Nat.ltb Nat.leb].
  unfold substring. simpl skipn. rewrite Nat.sub_0_r.
  apply firstn_all2. simpl. rewrite length_app. simpl. lia.
Qed.

End Fence.

(** C7, as stated, fails: an object that parses and passes the validity
    check, but holds a fence and a closing brace in a string, is not
    recovered from its json fence. *)
Lemma C7_fence_in_string :
  let j := jsq "{'serverCode':'}```'}" in
  let text := lit "```json
" ++ j ++ lit "
```" in
  BaseResponseParser.parse_valid j
    = Some (JObj [(lit "serverCode", JStr (lit "}```"))]) /\
  JsonResponseParser.parse text = Throw (lit "No valid JSON found in response").
Proof. vm_compute. split; reflexivity. Qed.

(** An object without a fence inside it, which parses and passes the
    validity check and stands between white space in a json fence (no
    backtick before the fence), is what the fence gives. *)
Lemma extractJson_fenced (pre ws1 body ws2 post : str) (v : json) :
  forallb (fun c => negb (is_char "`" c)) pre = true ->
  forallb is_space ws1 = true ->
  forallb is_space ws2 = true ->
  includes (lit "```") (lit "{" ++ body ++ lit "}") = false ->
  BaseResponseParser.parse_valid (lit "{" ++ body ++ lit "}") = Some v ->
  BaseResponseParser.extractJson
    (pre ++ lit "```json" ++ ws1 ++ (lit "{" ++ body ++ lit "}")
         ++ ws2 ++ lit "```" ++ post) = Some v.
Proof.
  intros Hpre H1 H2 Hno Hv.
  unfold BaseResponseParser.extractJson.
  destruct (trim _) eqn:Et.
  - exfalso. revert Et. apply (@trim_not_blank _ "`"%char); [|reflexivity].
    apply in_or_app. right. left. reflexivity.
  - unfold BaseResponseParser.fromFence, rmatch, exec_at, start_state.
    cbn [prev pos rest].
    rewrite (@exec_from_skip_prefix BaseResponseParser.jsonFence
               (is_char "`") pre _
               (Starts_Seq _ (@Starts_Str "`"%char _ (is_char "`") eq_refl))
               Hpre).
    destruct (@jsonFence_at ws1 body ws2 post H1 H2 Hno
                (prev_after None pre) (0 + length pre)) as (e & Hm & Hc).
    rewrite (@exec_from_here _ _ _ _ e Hm).
    unfold group. cbn [m_caps]. rewrite Hc. cbn [get_cap Nat.eqb].
    rewrite cleanFence_object, Hv. reflexivity.
Qed.

(* ================================================================== *)
(** * Leftover markers *)

(** C6. Rendering the registered template "typescript-basic" with the
    optional variable [TOOLS] missing returns, but the literal marker of
    [TOOLS] is still in the output: removing the one marker that the scan
    finds joins the text around it into a new one. *)
Theorem C6_marker_survives :
  existsb (str_eqb (lit "TOOLS")) TemplateRegistry.optionalVariables = true /\
  existsb (str_eqb (lit "TOOLS")) (map fst nestedMarkerVariables) = false /\
  map (@m_text)
      (matchAll TemplateRegistry.leftoverRegex (lit "{{TOOLS}{{TOOLS}}}"))
    = [lit "{{TOOLS}}"] /\
  TemplateRegistry.cleanLeftovers (lit "{{TOOLS}{{TOOLS}}}") = lit "{{TOOLS}}" /\
  exists out,
    TemplateRegistry.renderTemplate
      [TemplateRegistry.getTypeScriptBasicTemplate] (lit "typescript-basic")
      nestedMarkerVariables = Return out /\
    includes (lit "{{TOOLS}}") out = true.
Proof.
  repeat split; try (vm_compute; reflexivity).
  eexists. split; [reflexivity|]. vm_compute. reflexivity.
Qed.

(** ** Well-formed text: every leftover marker is resolved *)

Unset Implicit Arguments.

Section Leftovers.

Import TemplateRegistry.

Lemma inert_tail (x : ascii) (t : str) : inert (x :: t) = true -> inert t = true.
Proof. simpl. intros H. apply andb_true_iff in H. tauto. Qed.

(** No marker begins inside an inert text, whatever follows it. *)
Lemma inert_no_start (x : ascii) (b t : str) :
  inert (x :: b) = true -> startsWith (lit "{{") ((x :: b) ++ t) = false.
Proof.
  intros H. simpl in H. apply andb_true_iff in H. destruct H as [H _].
  change (lit "{{") with ["{"%char; "{"%char]. simpl app.
  cbn [startsWith]. fold (is_char "{" x).
  destruct (is_char "{" x); [|reflexivity]. simpl in H.
  destruct b as [|y b]; [discriminate|]. simpl app.
  cbn [startsWith]. fold (is_char "{" y).
  destruct (is_char "{" y); [discriminate|reflexivity].
Qed.

Lemma inert_app (a b : str) :
  inert a = true -> inert b = true -> inert (a ++ b) = true.
Proof.
  induction a as [|x a IH]; intros Ha Hb; [exact Hb|].
  pose proof (inert_tail _ _ Ha) as Ht. specialize (IH Ht Hb).
  simpl in Ha. apply andb_true_iff in Ha. destruct Ha as [Hx _].
  simpl app. cbn [inert]. rewrite IH, andb_true_r.
  destruct (is_char "{" x); [|reflexivity]. simpl in Hx |- *.
  destruct a as [|y a]; [discriminate|]. exact Hx.
Qed.

Lemma no_brace_inert (s : str) :
  forallb (fun c => negb (is_char "{" c)) s = true -> inert s = true.
Proof.
  induction s as [|x t IH]; intros H; [reflexivity|].
  simpl in H. apply andb_true_iff in H. destruct H as [Hx Ht].
  cbn [inert]. rewrite (IH Ht), andb_true_r.
  destruct (is_char "{" x); [discriminate|reflexivity].
Qed.

Lemma inert_includes (s : str) : inert s = true -> includes (lit "{{") s = false.
Proof.
  induction s as [|x t IH]; intros H; [reflexivity|].
  rewrite includes_cons, (IH (inert_tail _ _ H)), orb_false_r.
  rewrite <- (app_nil_r (x :: t)). apply (inert_no_start x t [] H).
Qed.

Lemma name_char_parts (c : ascii) :
  name_char c = true ->
  is_char "{" c = false /\ is_char "}" c = false /\
  negb (Ascii.eqb c "$") = true /\ is_space c = false.
Proof.
  unfold name_char. intros H. apply negb_true_iff in H.
  apply orb_false_iff in H. destruct H as [H Hs].
  apply orb_false_iff in H. destruct H as [H Hd].
  apply orb_false_iff in H. destruct H as [Ho Hc].
  repeat split; auto. unfold is_char in Hd.
  rewrite Ascii.eqb_sym in Hd. now rewrite Hd.
Qed.

Lemma good_name_forall (n : str) :
  good_name n = true -> n <> [] /\ forallb name_char n = true.
Proof. destruct n; [discriminate|]. intros H. split; [discriminate|exact H]. Qed.

Lemma name_no_brace (n : str) :
  forallb name_char n = true ->
  forallb (fun c => negb (is_char "{" c)) n = true.
Proof.
  apply forallb_impl. intros c H. apply name_char_parts in H.
  destruct H as (H & _). now rewrite H.
Qed.

Lemma name_no_close (n : str) :
  forallb name_char n = true ->
  forallb (fun c => negb (is_char "}" c)) n = true.
Proof.
  apply forallb_impl. intros c H. apply name_char_parts in H.
  destruct H as (_ & H & _). now rewrite H.
Qed.

Lemma name_plain (n : str) : forallb name_char n = true -> plain n.
Proof.
  unfold plain. apply forallb_impl. intros c H. apply name_char_parts in H.
  tauto.
Qed.

Lemma plain_app (a b : str) : plain a -> plain b -> plain (a ++ b).
Proof. unfold plain. intros Ha Hb. now rewrite forallb_app, Ha, Hb. Qed.

Lemma resolution_plain (n : str) :
  forallb name_char n = true -> plain (resolution n).
Proof.
  intros H. unfold resolution, placeholder.
  destruct (existsb _ _); [reflexivity|].
  repeat apply plain_app; try reflexivity. apply name_plain. exact H.
Qed.

Lemma resolution_inert (n : str) :
  forallb name_char n = true -> inert (resolution n) = true.
Proof.
  intros H. unfold resolution, placeholder.
  destruct (existsb _ _); [reflexivity|].
  apply no_brace_inert. rewrite !forallb_app, (name_no_brace _ H). reflexivity.
Qed.

(** The pattern of leftovers matches a marker exactly. *)
Lemma leftover_at_marker (n t : str) pv ps :
  good_name n = true ->
  mt leftoverRegex Some (MS pv ps (marker n ++ t) []) =
  Some (MS (Some "}"%char) (ps + length (marker n)) t []).
Proof.
  intros Hn. apply good_name_forall in Hn. destruct Hn as [Hne Hn].
  destruct n as [|x n]; [congruence|]. clear Hne.
  pose proof Hn as Hx. simpl in Hx. apply andb_true_iff in Hx.
  destruct Hx as [Hx _]. apply name_char_parts in Hx.
  destruct Hx as (_ & _ & _ & Hsp).
  unfold leftoverRegex, marker. cbn [seqs]. unfold Lit.
  rewrite <- !app_assoc.
  rewrite mt_Seq, mt_Str_app, mt_Seq. unfold star, plus. rewrite mt_Rep.
  apply (@rep_greedy_run is_space _ [] [] ((x :: n) ++ lit "}}" ++ t));
    [reflexivity|exact Hsp|apply Nat.le_0_l|].
  rewrite mt_Seq, mt_Rep. cbn [length prev_after fold_left].
  apply rep_greedy_run;
    [exact (name_no_close _ Hn)|reflexivity|simpl; lia|].
  rewrite mt_Seq, mt_Rep.
  apply (@rep_greedy_run is_space _ [] [] (lit "}}" ++ t));
    [reflexivity|reflexivity|apply Nat.le_0_l|].
  rewrite mt_Str_app. f_equal. f_equal.
  rewrite !length_app. simpl. lia.
Qed.

Lemma leftover_needs_braces pv ps (s : str) :
  startsWith (lit "{{") s = false ->
  mt leftoverRegex Some (MS pv ps s []) = None.
Proof.
  intros H. unfold leftoverRegex. cbn [seqs]. unfold Lit.
  rewrite mt_Seq, mt_Str. cbn [rest]. now rewrite H.
Qed.

(** A search passes over an inert text. *)
Lemma exec_from_inert (c t : str) : forall pv ps,
  inert c = true ->
  exec_from leftoverRegex pv ps (c ++ t)
  = exec_from leftoverRegex (prev_after pv c) (ps + length c) t.
Proof.
  induction c as [|x c IH]; intros pv ps H.
  - simpl. now rewrite Nat.add_0_r.
  - change ((x :: c) ++ t) with (x :: (c ++ t)).
    rewrite exec_from_skip.
    + rewrite IH by exact (inert_tail _ _ H). simpl. f_equal. lia.
    + apply leftover_needs_braces. apply (inert_no_start x c t H).
Qed.

Lemma exec_from_nothing pv ps : exec_from leftoverRegex pv ps [] = None.
Proof. reflexivity. Qed.

(** The leftovers of a well-formed text are its markers, in order. *)
Lemma leftovers_found (parts : list (str * str)) : forall fuel c0 pv ps,
  length parts < fuel -> inert c0 = true ->
  forallb good_part parts = true ->
  map (@m_text)
      (matches_from fuel leftoverRegex (MS pv ps (c0 ++ withMarkers parts) []))
  = map (fun part => marker (fst part)) parts.
Proof.
  induction parts as [|[n c] more IH]; intros fuel c0 pv ps Hf Hc0 Hparts;
    (destruct fuel as [|fuel]; [simpl in Hf; lia|]).
  - simpl withMarkers. cbn [matches_from]. unfold exec_at. cbn [prev pos rest].
    rewrite exec_from_inert by exact Hc0. rewrite exec_from_nothing. reflexivity.
  - simpl in Hparts. apply andb_true_iff in Hparts.
    destruct Hparts as [Hp Hmore]. unfold good_part in Hp. simpl in Hp.
    apply andb_true_iff in Hp. destruct Hp as [Hn Hc].
    cbn [withMarkers matches_from]. unfold exec_at. cbn [prev pos rest].
    rewrite exec_from_inert by exact Hc0.
    rewrite (@exec_from_here _ _ _ _ _ (leftover_at_marker _ _ _ _ Hn)).
    cbn [map m_text fst pos]. rewrite firstn_after. f_equal.
    unfold next_start. cbn [m_end m_start pos].
    assert (Hlen : (ps + length c0 + length (marker n) =? ps + length c0)
                   = false).
    { apply Nat.eqb_neq. unfold marker. rewrite !length_app. simpl. lia. }
    rewrite Hlen. unfold with_caps. cbn [prev pos rest].
    apply IH; [simpl in Hf; lia|exact Hc|exact Hmore].
Qed.

Lemma braces_skip_name (x : ascii) (t : str) pv ps :
  name_char x = true -> mt bracesRegex Some (MS pv ps (x :: t) []) = None.
Proof.
  intros H. apply name_char_parts in H. destruct H as (Ho & Hc & _ & Hs).
  unfold bracesRegex, Lit. rewrite mt_Alt, mt_Seq, mt_Str. cbn [rest].
  change (lit "{{") with ["{"%char; "{"%char]. cbn [startsWith].
  fold (is_char "{" x). rewrite Ho. cbn [andb].
  rewrite mt_Seq. unfold star. rewrite mt_Rep. apply rep_none.
  intros w s' E Hw _ _. destruct w as [|y w].
  - simpl in E. subst s'. rewrite mt_Str. cbn [rest].
    change (lit "}}") with ["}"%char; "}"%char]. cbn [startsWith].
    fold (is_char "}" x). now rewrite Hc.
  - injection E as <- _. simpl in Hw. now rewrite Hs in Hw.
Qed.

Lemma braces_over_name (n : str) : forall f done pv ps,
  forallb name_char n = true -> 0 < f ->
  replace_from f bracesRegex [] done (MS pv ps (n ++ lit "}}") []) = n.
Proof.
  induction n as [|x n IH]; intros f done pv ps Hn Hf;
    (destruct f as [|f]; [lia|]).
  - change ([] ++ lit "}}") with (lit "}}").
    assert (Hm : mt bracesRegex Some (MS pv ps (lit "}}") [])
                 = Some (MS (Some "}"%char) (S (S ps)) [] [])) by reflexivity.
    rewrite (@replace_from_hit _ [] done f pv ps _ [] _ "}"%char ["}"%char] Hm).
    + simpl GetSubstitution. simpl app. apply replace_from_nil. reflexivity.
    + cbn [pos]. replace (S (S ps) - ps) with 2 by lia. reflexivity.
  - simpl in Hn. apply andb_true_iff in Hn. destruct Hn as [Hx Hn].
    simpl app. rewrite replace_from_skip by (apply braces_skip_name; exact Hx).
    f_equal. apply IH; [exact Hn|lia].
Qed.

(** The name between the braces of a marker. *)
Lemma varNameOf_marker (n : str) : good_name n = true -> varNameOf (marker n) = n.
Proof.
  intros Hn. apply good_name_forall in Hn. destruct Hn as [Hne Hn].
  destruct n as [|x n]; [congruence|].
  pose proof Hn as Hx. simpl in Hx. apply andb_true_iff in Hx.
  destruct Hx as [Hx _]. apply name_char_parts in Hx.
  destruct Hx as (_ & _ & _ & Hsp).
  unfold varNameOf, replaceAll, start_state, marker.
  assert (Hm : mt bracesRegex Some
                 (MS None 0 (lit "{{" ++ (x :: n) ++ lit "}}") [])
               = Some (MS (Some "{"%char) (0 + 2) ((x :: n) ++ lit "}}") [])).
  { unfold bracesRegex, Lit. rewrite mt_Alt, mt_Seq, mt_Str_app.
    unfold star. rewrite mt_Rep.
    rewrite (@rep_greedy_run is_space _ [] [] ((x :: n) ++ lit "}}") 0
               (prev_after None (lit "{{")) (0 + length (lit "{{"))
               (MS (Some "{"%char) (0 + 2) ((x :: n) ++ lit "}}") []));
      try reflexivity. exact Hsp. }
  rewrite (@replace_from_hit _ [] [] _ None 0 _ [] _ "{"%char ["{"%char] Hm).
  - cbn [GetSubstitution]. rewrite app_nil_l.
    unfold with_caps. cbn [prev pos rest].
    apply braces_over_name; [exact Hn|]. simpl. lia.
  - reflexivity.
Qed.

Lemma indexOf_here (p s : str) : startsWith p s = true -> indexOf p s = Some 0.
Proof. intros H. destruct s; simpl; rewrite H; reflexivity. Qed.

(** The first occurrence of a marker after an inert text. *)
Lemma indexOf_marker (p : str) (n t : str) :
  inert p = true -> indexOf (marker n) (p ++ marker n ++ t) = Some (length p).
Proof.
  induction p as [|x p IH]; intros H.
  - change ([] ++ marker n ++ t) with (marker n ++ t).
    apply indexOf_here, startsWith_app.
  - change ((x :: p) ++ marker n ++ t) with (x :: (p ++ marker n ++ t)).
    cbn [indexOf].
    assert (Hs : startsWith (marker n) (x :: p ++ marker n ++ t) = false).
    { destruct (startsWith (marker n) (x :: p ++ marker n ++ t)) eqn:Es;
        [|reflexivity].
      apply startsWith_iff in Es. destruct Es as [u Eu].
      assert (Hb : startsWith (lit "{{") (x :: p ++ marker n ++ t) = true).
      { rewrite Eu. unfold marker. rewrite <- !app_assoc.
        apply startsWith_app. }
      pose proof (inert_no_start x p (marker n ++ t) H) as Hb'.
      change ((x :: p) ++ marker n ++ t) with (x :: p ++ marker n ++ t) in Hb'.
      congruence. }
    rewrite Hs, IH by exact (inert_tail _ _ H). reflexivity.
Qed.

Lemma replaceFirst_marker (p n t repl : str) :
  inert p = true -> plain repl ->
  replaceFirst (marker n) repl (p ++ marker n ++ t) = p ++ repl ++ t.
Proof.
  intros Hp Hr. unfold replaceFirst. rewrite indexOf_marker by exact Hp.
  rewrite GetSubstitution_plain by exact Hr.
  rewrite firstn_app, firstn_all, Nat.sub_diag. simpl firstn.
  rewrite app_nil_r. f_equal. f_equal.
  rewrite skipn_app, skipn_all2 by lia.
  replace (length p + length (marker n) - length p) with (length (marker n)) by lia.
  simpl app. rewrite skipn_app, skipn_all, Nat.sub_diag. reflexivity.
Qed.

Lemma replaceLeftover_marker (p n t : str) :
  inert p = true -> good_name n = true ->
  replaceLeftover (p ++ marker n ++ t) (marker n) = p ++ resolution n ++ t.
Proof.
  intros Hp Hn. unfold replaceLeftover. rewrite varNameOf_marker by exact Hn.
  apply good_name_forall in Hn. destruct Hn as [_ Hn].
  pose proof (resolution_plain _ Hn) as Hr. unfold resolution in *.
  destruct (existsb (str_eqb n) optionalVariables);
    apply replaceFirst_marker; assumption.
Qed.

(** One replacement after the other resolves every marker. *)
Lemma leftovers_resolved (parts : list (str * str)) : forall p,
  inert p = true -> forallb good_part parts = true ->
  fold_left replaceLeftover (map (fun part => marker (fst part)) parts)
            (p ++ withMarkers parts)
  = p ++ withResolutions parts.
Proof.
  induction parts as [|[n c] more IH]; intros p Hp Hparts; [reflexivity|].
  simpl in Hparts. apply andb_true_iff in Hparts.
  destruct Hparts as [Hpart Hmore]. unfold good_part in Hpart. simpl in Hpart.
  apply andb_true_iff in Hpart. destruct Hpart as [Hn Hc].
  cbn [map fold_left withMarkers withResolutions fst].
  rewrite replaceLeftover_marker by assumption.
  replace (p ++ resolution n ++ c ++ withMarkers more)
    with ((p ++ resolution n ++ c) ++ withMarkers more)
    by (now rewrite <- !app_assoc).
  rewrite IH; [now rewrite <- !app_assoc| |exact Hmore].
  apply good_name_forall in Hn. destruct Hn as [_ Hn].
  repeat apply inert_app; auto. apply resolution_inert. exact Hn.
Qed.

Lemma withResolutions_inert (parts : list (str * str)) :
  forallb good_part parts = true -> inert (withResolutions parts) = true.
Proof.
  induction parts as [|[n c] more IH]; intros H; [reflexivity|].
  simpl in H. apply andb_true_iff in H. destruct H as [Hpart Hmore].
  unfold good_part in Hpart. simpl in Hpart.
  apply andb_true_iff in Hpart. destruct Hpart as [Hn Hc].
  apply good_name_forall in Hn. destruct Hn as [_ Hn].
  simpl. repeat apply inert_app; auto. apply resolution_inert. exact Hn.
Qed.

(** When the text after the substitutions is inert but for markers with
    plain names, rendering removes every marker of a known optional
    variable, puts the placeholder comment for every other one, and
    leaves no double opening brace. *)
Lemma renderTemplate_wellformed (templates : registry) (templateName : str)
    (t : Template) (vars : list (str * option str))
    (c0 : str) (parts : list (str * str)) :
  getTemplate templates templateName = Some t ->
  substituteAll (template t) vars = c0 ++ withMarkers parts ->
  inert c0 = true -> forallb good_part parts = true ->
  renderTemplate templates templateName vars
    = Return (c0 ++ withResolutions parts) /\
  includes (lit "{{") (c0 ++ withResolutions parts) = false.
Proof.
  intros Ht Hs Hc0 Hparts. split.
  - unfold renderTemplate. rewrite Ht, Hs. f_equal.
    unfold cleanLeftovers, matchAll, start_state.
    rewrite leftovers_found; auto.
    + apply leftovers_resolved; assumption.
    + rewrite length_app.
      assert (length parts <= length (withMarkers parts)).
      { clear. induction parts as [|[n c] more IH]; simpl; [lia|].
        rewrite !length_app. simpl. lia. }
      lia.
  - apply inert_includes, inert_app; [exact Hc0|].
    apply withResolutions_inert. exact Hparts.
Qed.

End Leftovers.

(** Rendering the registered template "typescript-basic" without
    [SERVER_CODE] puts the placeholder comment in its place and leaves no
    marker. *)
Lemma typescriptBasic_without_code :
  exists out,
    TemplateRegistry.renderTemplate
      [TemplateRegistry.getTypeScriptBasicTemplate] (lit "typescript-basic")
      variablesWithoutCode = Return out /\
    includes (lit "/* TODO: Replace SERVER_CODE */") out = true /\
    includes (lit "{{") out = false.
Proof.
  pose (text := TemplateRegistry.substituteAll
                  TemplateRegistry.typescriptBasicBody variablesWithoutCode).
  pose (c0 := fst (around (marker (lit "SERVER_CODE")) text)).
  pose (c1 := snd (around (marker (lit "SERVER_CODE")) text)).
  destruct (renderTemplate_wellformed
              [TemplateRegistry.getTypeScriptBasicTemplate]
              (lit "typescript-basic")
              TemplateRegistry.getTypeScriptBasicTemplate
              variablesWithoutCode c0 [(lit "SERVER_CODE", c1)])
    as [Hr Hn]; try (vm_compute; reflexivity).
  eexists. split; [exact Hr|]. split; [|exact Hn].
  vm_compute. reflexivity.
Qed.

(* ================================================================== *)
(** * Candidates of the brace scan *)

Section ScanCandidates.

Import BaseResponseParser.

Variable text : str.

Lemma scan_candidates (todo : str) :
  (forall done c, text = done ++ todo ->
     In c (findJsonObjects_loop text todo (length done) 0%Z None) -> piece text c) /\
  (forall pre m d c, text = pre ++ "{"%char :: m ++ todo -> 1 <= d ->
     (forall x, closes 1 (m ++ x) = closes d x) ->
     In c (findJsonObjects_loop text todo (length pre + S (length m))
             (Z.of_nat d) (Some (length pre))) -> piece text c).
Proof.
  induction todo as [|ch t IH]; [split; intros; contradiction|].
  destruct IH as [IHa IHb]. split.
  - intros done c Ht Hin. simpl in Hin.
    destruct (is_char "{" ch) eqn:Eo.
    + apply is_char_true in Eo. subst ch. change (0 =? 0)%Z with true in Hin.
      cbv iota in Hin. change (0 + 1)%Z with (Z.of_nat 1) in Hin.
      apply (IHb done [] 1 c); [exact Ht|lia|reflexivity|].
      replace (length done + S (length (@nil ascii))) with (S (length done))
        by (simpl; lia).
      exact Hin.
    + destruct (is_char "}" ch) eqn:Ec.
      * simpl in Hin. apply (IHa (done ++ [ch]) c).
        -- rewrite <- app_assoc. exact Ht.
        -- rewrite length_app. simpl.
           replace (length done + 1) with (S (length done)) by lia. exact Hin.
      * apply (IHa (done ++ [ch]) c).
        -- rewrite <- app_assoc. exact Ht.
        -- rewrite length_app. simpl.
           replace (length done + 1) with (S (length done)) by lia. exact Hin.
  - intros pre m d c Ht Hd Hinv Hin. simpl in Hin.
    assert (Hnext : forall ch', text = pre ++ "{"%char :: (m ++ [ch']) ++ t ->
              S (length pre + S (length m))
              = length pre + S (length (m ++ [ch']))).
    { intros. rewrite length_app. simpl. lia. }
    assert (Ht' : text = pre ++ "{"%char :: (m ++ [ch]) ++ t).
    { rewrite <- app_assoc. exact Ht. }
    destruct (is_char "{" ch) eqn:Eo.
    + apply is_char_true in Eo. subst ch.
      assert (E : (Z.of_nat d =? 0)%Z = false) by (apply Z.eqb_neq; lia).
      rewrite E in Hin. replace (Z.of_nat d + 1)%Z with (Z.of_nat (S d)) in Hin by lia.
      rewrite (Hnext _ Ht') in Hin.
      apply (IHb pre (m ++ ["{"%char]) (S d) c); [exact Ht'|lia| |exact Hin].
      intros x. rewrite <- app_assoc. rewrite Hinv. reflexivity.
    + destruct (is_char "}" ch) eqn:Ec.
      * apply is_char_true in Ec. subst ch.
        destruct d as [|[|d']]; [lia| |].
        -- simpl in Hin. destruct Hin as [Hc|Hin].
           ++ subst c.
              assert (Hs : substring (length pre) (length pre + S (length m) + 1) text
                           = "{"%char :: m ++ ["}"%char]).
              { rewrite Ht.
                replace (pre ++ "{"%char :: m ++ "}"%char :: t)
                  with (pre ++ ("{"%char :: m ++ ["}"%char]) ++ t)
                  by (simpl; rewrite <- app_assoc; reflexivity).
                replace (length pre + S (length m) + 1)
                  with (length pre + length ("{"%char :: m ++ ["}"%char]))
                  by (simpl; rewrite length_app; simpl; lia).
                apply substring_middle. }
              rewrite Hs. split.
              ** simpl. rewrite Hinv. reflexivity.
              ** exists pre, t. rewrite Ht. simpl. rewrite <- app_assoc. reflexivity.
           ++ apply (IHa (pre ++ "{"%char :: m ++ ["}"%char]) c).
              ** rewrite Ht. rewrite <- app_assoc. simpl. rewrite <- app_assoc.
                 reflexivity.
              ** rewrite length_app. simpl. rewrite length_app. simpl.
                 replace (length pre + S (length m + 1))
                   with (S (length pre + S (length m))) by lia.
                 exact Hin.
        -- replace (Z.of_nat (S (S d')) - 1)%Z with (Z.of_nat (S d')) in Hin by lia.
           assert (E : (Z.of_nat (S d') =? 0)%Z = false) by (apply Z.eqb_neq; lia).
           assert (E' : (Z.of_nat (S d') <? 0)%Z = false) by (apply Z.ltb_ge; lia).
           rewrite E, E' in Hin. rewrite (Hnext _ Ht') in Hin.
           apply (IHb pre (m ++ ["}"%char]) (S d') c); [exact Ht'|lia| |exact Hin].
           intros x. rewrite <- app_assoc. rewrite Hinv. reflexivity.
      * rewrite (Hnext _ Ht') in Hin.
        apply (IHb pre (m ++ [ch]) d c); [exact Ht'|exact Hd| |exact Hin].
        intros x. rewrite <- app_assoc. rewrite Hinv. simpl.
        rewrite Eo, Ec. reflexivity.
Qed.

End ScanCandidates.

Lemma findJsonObjects_pieces (text c : str) :
  In c (BaseResponseParser.findJsonObjects text) -> piece text c.
Proof.
  intros H. apply (proj1 (scan_candidates text text) [] c); auto.
Qed.

(** X1. Every candidate of the brace scan is a piece of the text that
    begins with an opening brace and ends with the closing brace that
    balances it. *)
Theorem X1_scan_candidates (text c : str) :
  In c (BaseResponseParser.findJsonObjects text) ->
  balancedObject c = true /\ exists pre post, text = pre ++ c ++ post.
Proof. apply findJsonObjects_pieces. Qed.

Lemma X1_scan_candidates_witness :
  balancedObject (jsq "{'a':{'b':1}}") = true /\
  exists pre post, jsq "see } {'a':{'b':1}} and {" = pre ++ jsq "{'a':{'b':1}}" ++ post.
Proof.
  apply (X1_scan_candidates (jsq "see } {'a':{'b':1}} and {") (jsq "{'a':{'b':1}}")).
  vm_compute. left. reflexivity.
Defined.

(* ================================================================== *)
(** * What the structured strategy returns *)

Section Validated.

Import BaseResponseParser.

Lemma parse_valid_valid (t : str) (v : json) :
  parse_valid t = Some v -> validateJsonStructure (Some v) = true.
Proof.
  unfold parse_valid. destruct (JSON_parse t) as [p|]; [|discriminate].
  destruct (validateJsonStructure (Some p)) eqn:E; [|discriminate].
  intros H. injection H as <-. exact E.
Qed.

Lemma firstValid_valid (l : list str) (v : json) :
  firstValid l = Some v -> validateJsonStructure (Some v) = true.
Proof.
  induction l as [|c l IH]; [discriminate|]. simpl.
  destruct (parse_valid c) eqn:E.
  - intros H. injection H as <-. eapply parse_valid_valid. exact E.
  - exact IH.
Qed.

Lemma extractJson_valid (response : str) (v : json) :
  extractJson response = Some v -> validateJsonStructure (Some v) = true.
Proof.
  unfold extractJson. destruct (trim response); [discriminate|].
  unfold fromFence.
  destruct (match rmatch jsonFence response with
            | Some jsonMatch =>
                match group 1 jsonMatch with
                | Some interior => parse_valid (cleanFence interior)
                | None => None
                end
            | None => None
            end) as [p|] eqn:E1.
  - intros H. injection H as <-.
    destruct (rmatch jsonFence response); [|discriminate].
    destruct (group 1 m); [|discriminate]. eapply parse_valid_valid. exact E1.
  - destruct (firstValid (findJsonObjects response)) eqn:E2.
    + intros H. injection H as <-. eapply firstValid_valid. exact E2.
    + apply parse_valid_valid.
Qed.

Lemma valid_shape (data : jsval) :
  validateJsonStructure data = true ->
  forallb (fun f => string_or_absent (prop f data)) stringFields = true /\
  object_or_absent (prop "dependencies" data) = true /\
  object_or_absent (prop "devDependencies" data) = true /\
  object_or_absent (prop "scripts" data) = true /\
  (filled (prop "serverCode" data) = true \/
   truthy (prop "packageJson" data) = true \/
   truthy (prop "readme" data) = true \/
   truthy (prop "installInstructions" data) = true \/
   truthy (prop "usageExample" data) = true).
Proof.
  unfold validateJsonStructure.
  destruct (negb (truthy data) || negb (is_object data)); [discriminate|].
  match goal with
  | |- (if negb ?a && negb ?b then _ else _) = true -> _ =>
      destruct a eqn:Ea; destruct b eqn:Eb; simpl negb; simpl andb; cbv iota;
        try discriminate
  end.
  all: destruct (existsb _ stringFields) eqn:Es; [discriminate|].
  all: destruct (negb (is_undefined (prop "dependencies" data))
                 && negb (is_object (prop "dependencies" data))) eqn:E1;
         [discriminate|].
  all: destruct (negb (is_undefined (prop "devDependencies" data))
                 && negb (is_object (prop "devDependencies" data))) eqn:E2;
         [discriminate|].
  all: destruct (negb (is_undefined (prop "scripts" data))
                 && negb (is_object (prop "scripts" data))) eqn:E3;
         [discriminate|].
  all: intros _.
  all: assert (Hs : forallb (fun f => string_or_absent (prop f data)) stringFields
                    = true)
         by (clear - Es; unfold string_or_absent;
             induction stringFields as [|f l IH]; [reflexivity|];
             simpl in *; apply orb_false_iff in Es; destruct Es as [Ef El];
             rewrite (IH El), andb_true_r;
             destruct (is_undefined (prop f data));
             destruct (is_string (prop f data)); simpl in *; congruence).
  all: assert (H1 : object_or_absent (prop "dependencies" data) = true)
         by (unfold object_or_absent;
             destruct (is_undefined (prop "dependencies" data));
             destruct (is_object (prop "dependencies" data));
             simpl in *; congruence).
  all: assert (H2 : object_or_absent (prop "devDependencies" data) = true)
         by (unfold object_or_absent;
             destruct (is_undefined (prop "devDependencies" data));
             destruct (is_object (prop "devDependencies" data));
             simpl in *; congruence).
  all: assert (H3 : object_or_absent (prop "scripts" data) = true)
         by (unfold object_or_absent;
             destruct (is_undefined (prop "scripts" data));
             destruct (is_object (prop "scripts" data));
             simpl in *; congruence).
  all: repeat (split; [assumption|]).
  - left. unfold filled.
    destruct (prop "serverCode" data) as [[|b0|l0|s|items0|fs0]|]; simpl in Ea;
      rewrite ?andb_false_r in Ea; try discriminate.
    apply andb_true_iff in Ea. destruct Ea as [_ Ea].
    destruct (trim s); [discriminate|reflexivity].
  - left. unfold filled.
    destruct (prop "serverCode" data) as [[|b0|l0|s|items0|fs0]|]; simpl in Ea;
      rewrite ?andb_false_r in Ea; try discriminate.
    apply andb_true_iff in Ea. destruct Ea as [_ Ea].
    destruct (trim s); [discriminate|reflexivity].
  - right. unfold jor in Eb.
    destruct (truthy (prop "packageJson" data)) eqn:T1; [auto|].
    destruct (truthy (prop "readme" data)) eqn:T2; [auto|].
    destruct (truthy (prop "installInstructions" data)) eqn:T3; [auto|].
    auto.
Qed.

End Validated.

Lemma structured_shape (response : str) (p : ParsedResponse) :
  JsonResponseParser.parse response = Return p ->
  is_string (serverCode p) = true /\
  string_or_absent (packageJson p) = true /\
  string_or_absent (readme p) = true /\
  string_or_absent (installInstructions p) = true /\
  string_or_absent (usageExample p) = true /\
  object_or_absent (dependencies p) = true /\
  object_or_absent (devDependencies p) = true /\
  object_or_absent (scripts p) = true /\
  (filled (serverCode p) = true \/ truthy (packageJson p) = true \/
   truthy (readme p) = true \/ truthy (installInstructions p) = true \/
   truthy (usageExample p) = true).
Proof.
  unfold JsonResponseParser.parse.
  destruct (BaseResponseParser.extractJson response) as [v|] eqn:E; [|discriminate].
  intros H. injection H as <-.
  apply extractJson_valid, valid_shape in E.
  destruct E as (Hs & H1 & H2 & H3 & Hc).
  unfold BaseResponseParser.stringFields in Hs. cbn [forallb] in Hs.
  repeat rewrite andb_true_iff in Hs.
  destruct Hs as (S1 & S2 & S3 & S4 & S5 & _).
  unfold JsonResponseParser.fromJson.
  cbn [serverCode packageJson readme installInstructions usageExample
       dependencies devDependencies scripts].
  repeat split; try assumption.
  - unfold jor. unfold string_or_absent in S1.
    destruct (prop "serverCode" (Some v)) as [[|b0|l0|s|items0|fs0]|];
      try discriminate; try reflexivity.
    destruct (truthy (Some (JStr s))); reflexivity.
  - destruct Hc as [Hc|Hc]; [left|right; exact Hc].
    unfold filled in *. unfold jor.
    destruct (prop "serverCode" (Some v)) as [[|b0|l0|s|items0|fs0]|];
      try discriminate.
    destruct s as [|c s]; [discriminate|]. exact Hc.
Qed.

(** X2. What the structured strategy returns has a string as server code,
    strings or nothing in the other text fields, objects or nothing as
    dependencies and scripts, and some content. *)
Theorem X2_structured_record (response : str) (p : ParsedResponse) :
  JsonResponseParser.parse response = Return p ->
  is_string (serverCode p) = true /\
  string_or_absent (packageJson p) = true /\
  string_or_absent (readme p) = true /\
  string_or_absent (installInstructions p) = true /\
  string_or_absent (usageExample p) = true /\
  object_or_absent (dependencies p) = true /\
  object_or_absent (devDependencies p) = true /\
  object_or_absent (scripts p) = true /\
  (filled (serverCode p) = true \/ truthy (packageJson p) = true \/
   truthy (readme p) = true \/ truthy (installInstructions p) = true \/
   truthy (usageExample p) = true).
Proof. apply structured_shape. Qed.

Lemma X2_structured_record_witness :
  is_string (jstr (lit "x")) = true /\ string_or_absent (jstr (lit "R")) = true.
Proof.
  pose (p := JsonResponseParser.fromJson
               (Some (JObj [(lit "serverCode", JStr (lit "x"));
                            (lit "readme", JStr (lit "R"))]))).
  assert (H : JsonResponseParser.parse (jsq "{'serverCode':'x','readme':'R'}")
              = Return p) by (vm_compute; reflexivity).
  destruct (X2_structured_record _ p H) as (H1 & _ & H3 & _).
  split; [exact H1|exact H3].
Defined.

(* ================================================================== *)
(** * Section keys *)

(** A lazy class stops at the first admissible point at which the
    continuation accepts: it accepts at no earlier one. *)
Lemma rep_lazy_min (p : ascii -> bool) (k : mstate -> option mstate)
    (cs : list (nat * str)) (s : str) : forall lo pv ps e,
  rep false p lo None k pv ps cs s = Some e ->
  exists w s', s = w ++ s' /\ forallb p w = true /\ lo <= length w /\
    k (MS (prev_after pv w) (ps + length w) s' cs) = Some e /\
    (forall w1 w2, w = w1 ++ w2 -> w2 <> [] -> lo <= length w1 ->
       k (MS (prev_after pv w1) (ps + length w1) (w2 ++ s') cs) = None).
Proof.
  induction s as [|c t IH]; intros lo pv ps e H.
  - simpl in H.
    destruct (Nat.eqb_spec lo 0) as [->|].
    + exists [], []. simpl. rewrite Nat.add_0_r.
      destruct (k (MS pv ps [] cs)) eqn:E; [|discriminate].
      repeat split; auto.
      intros w1 w2 Hw Hne. destruct w1; destruct w2; simpl in Hw; congruence.
    + discriminate.
  - simpl in H.
    destruct (if lo =? 0 then k (MS pv ps (c :: t) cs) else None) eqn:Estop.
    + destruct (Nat.eqb_spec lo 0) as [->|]; [|discriminate].
      injection H as <-. exists [], (c :: t). simpl. rewrite Nat.add_0_r.
      repeat split; auto.
      intros w1 w2 Hw Hne. destruct w1; destruct w2; simpl in Hw; congruence.
    + destruct (p c) eqn:Ec; [|discriminate]. simpl in H.
      apply IH in H. destruct H as (w & s' & -> & Hw & Hlo & Hk & Hmin).
      exists (c :: w), s'. simpl. rewrite Ec, Hw.
      replace (ps + S (length w)) with (S ps + length w) by lia.
      repeat split; auto; [lia|].
      intros w1 w2 Hsplit Hne Hlo1.
      destruct w1 as [|x w1].
      * simpl in *. rewrite Nat.add_0_r.
        assert (lo = 0) by lia. subst lo. simpl in Estop.
        rewrite <- Hsplit. exact Estop.
      * simpl in Hsplit. injection Hsplit as -> ->.
        simpl. replace (ps + S (length w1)) with (S ps + length w1) by lia.
        apply Hmin; auto. simpl in Hlo1. lia.
Qed.

Lemma exec_from_caps (r : re) (s : str) : forall pv ps m,
  exec_from r pv ps s = Some m -> m_caps m = caps (m_end m).
Proof.
  induction s as [|c t IH]; intros pv ps m H; simpl in H.
  - destruct (mt r Some (MS pv ps [] [])); [|discriminate].
    injection H as <-. reflexivity.
  - destruct (mt r Some (MS pv ps (c :: t) [])).
    + injection H as <-. reflexivity.
    + eapply IH. exact H.
Qed.

Lemma matches_from_each (P : mres -> Prop) (r : re) :
  (forall st m, exec_at r st = Some m -> P m) ->
  forall fuel st m, In m (matches_from fuel r st) -> P m.
Proof.
  intros HP. induction fuel as [|f IH]; intros st m Hin; [contradiction|].
  simpl in Hin. destruct (exec_at r st) as [m0|] eqn:E; [|contradiction].
  destruct Hin as [<-|Hin].
  - eapply HP. exact E.
  - destruct (next_start m0); [|contradiction]. eapply IH. exact Hin.
Qed.

Section SectionKeys.

Import BaseResponseParser.

Lemma lookahead_caps (k : mstate -> option mstate) st :
  mt (Ahead (Alt (Seq (Lit "##") (plus is_space)) (Eol false))) k st
  = match mt (Alt (Seq (Lit "##") (plus is_space)) (Eol false)) Some st with
    | Some _ => k st
    | None => None
    end.
Proof.
  cbn [mt]. fold (Lit "##").
  destruct st as [pv ps s cs].
  destruct (mt (Lit "##") (mt (plus is_space) Some) (MS pv ps s cs)) as [e|] eqn:E.
  - unfold Lit in E. rewrite mt_Str in E. simpl rest in E.
    destruct (startsWith (lit "##") s); [|discriminate].
    unfold after in E. simpl in E. unfold plus in E.
    match type of E with
    | rep _ _ _ _ _ ?a ?b ?c ?d = _ => apply rep_some in E
    end.
    destruct E as (w & s' & _ & _ & _ & _ & E). injection E as <-.
    unfold with_caps. reflexivity.
  - unfold at_eol. simpl rest. destruct s as [|c t]; [reflexivity|].
    simpl. reflexivity.
Qed.

(** What follows the header name matches at every position, and leaves
    the capture of the name as it is. *)
Lemma afterName_total st :
  exists e, mt afterName Some st = Some e /\
            get_cap 1 (caps e) = get_cap 1 (caps st).
Proof.
  destruct st as [pv ps s cs].
  destruct (mt afterName Some (MS pv ps s cs)) as [e|] eqn:E.
  - exists e. split; [reflexivity|].
    unfold afterName in E. cbn [seqs] in E. rewrite mt_Seq in E.
    unfold star in E. rewrite mt_Rep in E. apply rep_some in E.
    destruct E as (w & s' & _ & _ & _ & _ & E).
    rewrite mt_Seq, mt_Cap in E. unfold lazy_star in E. rewrite mt_Rep in E.
    apply rep_some in E. destruct E as (w2 & s2 & _ & _ & _ & _ & E).
    rewrite lookahead_caps in E.
    destruct (mt (Alt _ _) Some _); [|discriminate].
    injection E as <-. reflexivity.
  - exfalso. revert E. unfold afterName. cbn [seqs]. rewrite mt_Seq.
    unfold star. rewrite mt_Rep.
    apply (@rep_complete true is_space _ cs [] s 0 None pv ps);
      [reflexivity|simpl; lia|exact I|].
    simpl prev_after. simpl length. rewrite Nat.add_0_r.
    rewrite mt_Seq, mt_Cap. unfold lazy_star. rewrite mt_Rep.
    rewrite <- (app_nil_r s) at 1.
    apply rep_complete; [apply forallb_any|lia|exact I|].
    rewrite lookahead_caps. rewrite mt_Alt.
    destruct (mt (Seq (Lit "##") (plus is_space)) Some _); discriminate.
Qed.

End SectionKeys.

Section SectionKeys2.

Import BaseResponseParser.

(** The name captured by the pattern of sections is one code unit. *)
Lemma sectionRegex_name st e :
  mt sectionRegex Some st = Some e ->
  exists c, get_cap 1 (caps e) = Some [c].
Proof.
  destruct st as [pv ps s cs]. unfold sectionRegex. cbn [seqs].
  fold afterName.
  change (seqs [star is_space; Cap 2 (lazy_star is_any);
                Ahead (Alt (Seq (Lit "##") (plus is_space)) (Eol false))])
    with afterName.
  intros E. rewrite mt_Seq in E. unfold Lit in E at 1. rewrite mt_Str in E.
  simpl rest in E. destruct (startsWith (lit "##") s); [|discriminate].
  unfold after in E. simpl prev in E. simpl pos in E. simpl caps in E.
  rewrite mt_Seq in E. unfold plus in E at 1. rewrite mt_Rep in E.
  apply rep_some in E. destruct E as (w0 & s0 & _ & _ & _ & _ & E).
  rewrite mt_Seq, mt_Cap in E. unfold lazy_plus in E. rewrite mt_Rep in E.
  apply rep_lazy_min in E.
  destruct E as (w & s' & Hs & Hw & Hlo & Hk & Hmin).
  destruct w as [|c w]; [simpl in Hlo; lia|].
  destruct w as [|d w].
  - exists c. cbv beta in Hk.
    match type of Hk with
    | mt ?r Some ?st = _ =>
        change r with afterName in Hk;
        destruct (afterName_total st) as (e' & He' & Hc')
    end.
    rewrite He' in Hk. injection Hk as <-. rewrite Hc'.
    rewrite Hs. cbn [set_cap caps get_cap pos rest prev length Nat.eqb].
    match goal with
    | |- context [firstn ?n _] => replace n with 1 by lia
    end.
    reflexivity.
  - exfalso. specialize (Hmin [c] (d :: w) eq_refl). cbv beta in Hmin.
    match type of Hmin with
    | _ -> _ -> mt ?r Some ?st = _ =>
        change r with afterName in Hmin;
        destruct (afterName_total st) as (e' & He' & _)
    end.
    rewrite He' in Hmin. discriminate Hmin; [discriminate|simpl; lia].
Qed.

End SectionKeys2.

Section SectionKeys3.

Import BaseResponseParser.

Lemma exec_at_name st m :
  exec_at sectionRegex st = Some m -> exists c, group 1 m = Some [c].
Proof.
  unfold exec_at. intros H. unfold group.
  rewrite (exec_from_caps _ _ _ _ _ H).
  apply exec_from_some in H. destruct H as (pre & s1 & _ & H).
  eapply sectionRegex_name. exact H.
Qed.

Lemma sectionName_single (c : ascii) : length (sectionName [c]) = 1.
Proof.
  unfold sectionName. rewrite replaceAll_plus by reflexivity.
  simpl. destruct (is_space (lower_char c)); reflexivity.
Qed.

Lemma extractSections_single_from (ms : list mres) : forall acc,
  (forall m, In m ms -> exists c, group 1 m = Some [c]) ->
  single_keys acc ->
  single_keys
    (fold_left
       (fun sections m =>
          record_set (sectionName (group_or_empty 1 m))
                     (trim (group_or_empty 2 m)) sections)
       ms acc).
Proof.
  induction ms as [|m ms IH]; intros acc Hms Hacc; [exact Hacc|].
  simpl fold_left. apply IH.
  - intros m' Hin. apply Hms. right. exact Hin.
  - destruct (Hms m (or_introl eq_refl)) as [c Hc].
    unfold group_or_empty at 1. rewrite Hc.
    unfold record_set.
    destruct (str_eqb (sectionName [c]) (lit "__proto__")); [exact Hacc|].
    intros k v. simpl.
    destruct (str_eqb k (sectionName [c])) eqn:E.
    + apply str_eqb_eq in E. subst k. intros _. apply sectionName_single.
    + apply Hacc.
Qed.

Lemma extractSections_single (response : str) :
  single_keys (extractSections response).
Proof.
  unfold extractSections. apply extractSections_single_from.
  - unfold matchAll. intros m Hin.
    eapply (matches_from_each (fun m => exists c, group 1 m = Some [c])).
    + intros st m0. apply exec_at_name.
    + exact Hin.
  - intros k v H. discriminate H.
Qed.

Lemma no_long_section (response : str) (name : string) :
  length (lit name) <> 1 -> field name (extractSections response) = None.
Proof.
  intros H. unfold field.
  destruct (record_get (lit name) (extractSections response)) eqn:E;
    [|reflexivity].
  apply extractSections_single in E. contradiction.
Qed.

End SectionKeys3.

(** X3. The section extractor files every section under a key of exactly
    one code unit, the first of the header in lower case: the text under
    "## Readme" is found under "r", together with the rest of the
    header. *)
Theorem X3_section_keys_single (response k v : str) :
  record_get k (BaseResponseParser.extractSections response) = Some v ->
  length k = 1.
Proof. apply extractSections_single. Qed.

Lemma X3_section_keys_single_witness :
  length (lit "r") = 1.
Proof.
  apply (X3_section_keys_single (lit "## Readme
Hello") (lit "r") (lit "eadme
Hello")).
  vm_compute. reflexivity.
Defined.

(** X4. Whatever sections the response has, the markdown strategy returns
    an empty readme and no install instructions, usage example or
    additional files: the names it looks up are longer than one code
    unit. *)
Theorem X4_markdown_sections_unused (response : str) :
  exists p, MarkdownResponseParser.parse response = Return p /\
    readme p = jstr [] /\ installInstructions p = undefined /\
    usageExample p = undefined /\ additionalFiles p = undefined /\
    packageJson p = undefined.
Proof.
  unfold MarkdownResponseParser.parse.
  rewrite !no_long_section by (vm_compute; discriminate).
  eexists. split; [reflexivity|]. simpl. repeat split.
Qed.

(* ================================================================== *)
(** * The mixed strategy *)

Lemma exec_from_text (r : re) (s : str) : forall pv ps m,
  exec_from r pv ps s = Some m ->
  exists pre s1, s = pre ++ s1 /\ m_start m = ps + length pre /\
    m_text m = firstn (pos (m_end m) - m_start m) s1 /\
    mt r Some (MS (prev_after pv pre) (m_start m) s1 []) = Some (m_end m).
Proof.
  induction s as [|c t IH]; intros pv ps m H; simpl in H.
  - destruct (mt r Some (MS pv ps [] [])) as [e|] eqn:E; [|discriminate].
    injection H as <-. exists [], []. simpl. rewrite Nat.add_0_r. auto.
  - destruct (mt r Some (MS pv ps (c :: t) [])) as [e|] eqn:E.
    + injection H as <-. exists [], (c :: t). simpl. rewrite Nat.add_0_r. auto.
    + apply IH in H. destruct H as (pre & s1 & -> & Hs & Ht & H).
      exists (c :: pre), s1. simpl.
      replace (ps + S (length pre)) with (S ps + length pre) by lia. auto.
Qed.

Section Mixed.

Import BaseResponseParser MixedResponseParser.

Lemma mt_Str_some (l : str) (k : mstate -> option mstate) st e :
  mt (Str l) k st = Some e ->
  exists t, rest st = l ++ t /\
            k (MS (prev_after (prev st) l) (pos st + length l) t (caps st)) = Some e.
Proof.
  rewrite mt_Str. destruct (startsWith l (rest st)) eqn:E; [|discriminate].
  apply startsWith_iff in E. destruct E as [t Ht]. intros H.
  exists t. split; [exact Ht|]. unfold after in H. rewrite Ht in H.
  rewrite skipn_app, skipn_all, Nat.sub_diag in H. exact H.
Qed.

(** A match of the pattern of code-like text is not empty. *)
Lemma codeLike_text (response : str) (m : mres) :
  rmatch codeLike response = Some m -> m_text m <> [].
Proof.
  unfold rmatch, exec_at, start_state. simpl. intros H.
  apply exec_from_text in H. destruct H as (pre & s1 & _ & Hs & Ht & H).
  rewrite Ht. clear Ht.
  assert (Hk : forall l k st e, mt (Str l) k st = Some e -> l <> [] ->
                 (forall st' e', k st' = Some e' -> pos st' <= pos e') ->
                 rest st <> [] /\ pos st < pos e).
  { intros l k st e Hm Hl Hmono. apply mt_Str_some in Hm.
    destruct Hm as (t & Hr & Hm). apply Hmono in Hm. simpl in Hm.
    split.
    - rewrite Hr. destruct l; [congruence|discriminate].
    - destruct l; [congruence|]. simpl in Hm. lia. }
  assert (Htail : forall st' e',
            mt (Seq (plus is_space) (Rep true 50 None is_any)) Some st' = Some e' ->
            pos st' <= pos e').
  { intros [pv' ps' s' cs'] e' Hm. rewrite mt_Seq in Hm. unfold plus in Hm.
    rewrite mt_Rep in Hm. apply rep_some in Hm.
    destruct Hm as (w & s2 & _ & _ & _ & _ & Hm).
    rewrite mt_Rep in Hm. apply rep_some in Hm.
    destruct Hm as (w2 & s3 & _ & _ & _ & _ & Hm). injection Hm as <-.
    simpl. lia. }
  unfold codeLike in H. cbn [seqs alts] in H. rewrite mt_Seq in H.
  assert (Hpos : s1 <> [] /\ m_start m < pos (m_end m)).
  { repeat (rewrite mt_Alt in H;
            match type of H with
            | match ?x with _ => _ end = _ =>
                destruct x eqn:E;
                [ injection H as <-;
                  apply (Hk _ _ _ _ E); [discriminate|exact Htail]
                | clear E ]
            end).
    apply (Hk _ _ _ _ H); [discriminate|exact Htail]. }
  destruct Hpos as [Hne Hlt].
  destruct s1 as [|c s1]; [congruence|].
  destruct (pos (m_end m) - m_start m) eqn:En; [lia|]. discriminate.
Qed.

Lemma field_string (name : string) (o : record) :
  string_or_absent (field name o) = true.
Proof. unfold field. destruct (record_get _ o); reflexivity. Qed.

Lemma jor_text (a b : jsval) :
  string_or_absent a = true -> is_string b = true -> is_string (jor a b) = true.
Proof.
  unfold jor. destruct a as [[|b0|l0|s|items0|fs0]|]; try discriminate; intros _ Hb.
  - destruct (truthy (Some (JStr s))); [reflexivity|exact Hb].
  - exact Hb.
Qed.

Lemma fill_text (v d : jsval) :
  string_or_absent v = true -> text_filled d = true ->
  text_filled (if negb (truthy (if negb (truthy v) then jstr [] else v))
               then d else (if negb (truthy v) then jstr [] else v)) = true.
Proof.
  intros Hv Hd. destruct (truthy v) eqn:T; simpl.
  - rewrite T. simpl. unfold text_filled. rewrite T.
    destruct v as [[|b0|l0|s|items0|fs0]|]; try discriminate. reflexivity.
  - exact Hd.
Qed.

End Mixed.

Lemma mixed_shape (response : str) :
  exists p, MixedResponseParser.parse response = Return p /\
    is_string (serverCode p) = true /\
    (response <> [] -> truthy (serverCode p) = true) /\
    text_filled (readme p) = true /\
    text_filled (installInstructions p) = true /\
    text_filled (usageExample p) = true /\
    (BaseResponseParser.extractJson response = None ->
     readme p = jstr basicReadme /\
     installInstructions p = jstr BaseResponseParser.installTypescript /\
     usageExample p = jstr BaseResponseParser.generateBasicUsageExample).
Proof.
  unfold MixedResponseParser.parse.
  rewrite !no_long_section by (vm_compute; discriminate).
  eexists. split; [reflexivity|].
  cbn [serverCode readme installInstructions usageExample].
  change (jor None (jor None (jor None (jstr [])))) with (jstr []).
  set (codeBlocks := BaseResponseParser.extractCodeBlocks response).
  set (languageCode := jor (field "typescript" codeBlocks)
                          (jor (field "javascript" codeBlocks)
                               (field "python" codeBlocks))).
  assert (Hlang : string_or_absent languageCode = true).
  { unfold languageCode, jor.
    destruct (truthy (field "typescript" codeBlocks)); [apply field_string|].
    destruct (truthy (field "javascript" codeBlocks)); apply field_string. }
  destruct (BaseResponseParser.extractJson response) as [v|] eqn:E.
  - apply extractJson_valid, valid_shape in E.
    destruct E as (Hs & _).
    unfold BaseResponseParser.stringFields in Hs. cbn [forallb] in Hs.
    repeat rewrite andb_true_iff in Hs.
    destruct Hs as (S1 & S2 & S3 & S4 & S5 & _).
    unfold JsonResponseParser.fromJson.
    cbn [serverCode readme installInstructions usageExample].
    set (code := jor (prop "serverCode" (Some v)) (jstr [])).
    assert (Hcode : is_string code = true) by (apply jor_text; auto).
    set (code1 := if negb (truthy code) && truthy languageCode
                  then jor languageCode (jstr []) else code).
    assert (Hcode1 : is_string code1 = true).
    { unfold code1. destruct (negb (truthy code) && truthy languageCode);
        [apply jor_text; auto|exact Hcode]. }
    repeat split.
    + destruct (truthy code1); simpl; [exact Hcode1|].
      destruct (rmatch MixedResponseParser.codeLike response); reflexivity.
    + intros Hne. destruct (truthy code1) eqn:T; simpl; [exact T|].
      destruct (rmatch MixedResponseParser.codeLike response) as [m|] eqn:Em.
      * apply codeLike_text in Em. simpl. destruct (m_text m); congruence.
      * simpl. destruct response; congruence.
    + apply fill_text; [exact S3|reflexivity].
    + apply fill_text; [exact S4|reflexivity].
    + apply fill_text; [exact S5|reflexivity].
    + discriminate.
    + discriminate.
    + discriminate.
  - cbn [serverCode readme installInstructions usageExample].
    change (truthy (jstr [])) with false. cbn [negb andb].
    set (code1 := if truthy languageCode
                  then jor languageCode (jstr []) else jstr []).
    assert (Hcode1 : is_string code1 = true).
    { unfold code1. destruct (truthy languageCode);
        [apply jor_text; auto|reflexivity]. }
    repeat split.
    + destruct (truthy code1); simpl; [exact Hcode1|].
      destruct (rmatch MixedResponseParser.codeLike response); reflexivity.
    + intros Hne. destruct (truthy code1) eqn:T; simpl; [exact T|].
      destruct (rmatch MixedResponseParser.codeLike response) as [m|] eqn:Em.
      * apply codeLike_text in Em. simpl. destruct (m_text m); congruence.
      * simpl. destruct response; congruence.
Qed.

(** X5. For every response the mixed strategy returns a record whose
    readme, install instructions and usage example are non-empty strings
    and whose server code is a string, non-empty when the response is.
    Without a valid JSON object in the response the three texts are the
    built-in ones, whatever sections the response has. *)
Theorem X5_mixed_complete (response : str) :
  exists p, MixedResponseParser.parse response = Return p /\
    is_string (serverCode p) = true /\
    (response <> [] -> truthy (serverCode p) = true) /\
    text_filled (readme p) = true /\
    text_filled (installInstructions p) = true /\
    text_filled (usageExample p) = true /\
    (BaseResponseParser.extractJson response = None ->
     readme p = jstr basicReadme /\
     installInstructions p = jstr BaseResponseParser.installTypescript /\
     usageExample p = jstr BaseResponseParser.generateBasicUsageExample).
Proof. apply mixed_shape. Qed.

Lemma X5_mixed_complete_witness :
  exists p, MixedResponseParser.parse (lit "## Readme
Hello") = Return p /\ readme p = jstr basicReadme.
Proof.
  destruct (X5_mixed_complete (lit "## Readme
Hello")) as (p & Hp & _ & _ & _ & _ & _ & H).
  exists p. split; [exact Hp|]. apply H. vm_compute. reflexivity.
Defined.

Section Substitution.

Import TemplateRegistry.

Variables (key v : str).
Hypothesis key_ok : is_identifier key = true.

Lemma key_chars : key <> [] /\ forallb is_word key = true.
Proof.
  unfold is_identifier in key_ok. destruct key; [discriminate|].
  split; [discriminate|exact key_ok].
Qed.

Lemma word_not_space (c : ascii) : is_word c = true -> is_space c = false.
Proof.
  destruct c as [[] [] [] [] [] [] [] []]; vm_compute; congruence.
Qed.

Lemma word_not_close (c : ascii) : is_word c = true -> is_char "}" c = false.
Proof.
  destruct c as [[] [] [] [] [] [] [] []]; vm_compute; congruence.
Qed.

Lemma var_needs_braces pv ps (s : str) :
  startsWith (lit "{{") s = false ->
  mt (variableRegex key) Some (MS pv ps s []) = None.
Proof.
  intros H. unfold variableRegex. cbn [seqs]. unfold Lit.
  rewrite mt_Seq, mt_Str. cbn [rest]. now rewrite H.
Qed.

(** The pattern of a key matches the marker of the key exactly. *)
Lemma var_at_marker (t : str) pv ps :
  mt (variableRegex key) Some (MS pv ps (marker key ++ t) []) =
  Some (MS (Some "}"%char) (ps + length (marker key)) t []).
Proof.
  destruct key_chars as [Hne Hw].
  destruct key as [|x n] eqn:Ek; [congruence|]. rewrite <- Ek in *.
  assert (Hx : is_space x = false).
  { apply word_not_space. rewrite Ek in Hw. simpl in Hw.
    apply andb_true_iff in Hw. tauto. }
  unfold variableRegex, marker. cbn [seqs]. unfold Lit.
  rewrite <- !app_assoc.
  rewrite mt_Seq, mt_Str_app, mt_Seq. unfold star. rewrite mt_Rep.
  apply (@rep_greedy_run is_space _ [] [] (key ++ lit "}}" ++ t));
    [reflexivity|rewrite Ek; exact Hx|apply Nat.le_0_l|].
  rewrite mt_Seq. cbn [length prev_after fold_left].
  rewrite mt_Str_app, mt_Seq, mt_Rep.
  apply (@rep_greedy_run is_space _ [] [] (lit "}}" ++ t));
    [reflexivity|reflexivity|apply Nat.le_0_l|].
  rewrite mt_Str_app. f_equal. f_equal.
  rewrite !length_app. simpl. lia.
Qed.

(** It matches the marker of no other name. *)
Lemma var_not_at (n t : str) pv ps :
  good_name n = true -> n <> key ->
  mt (variableRegex key) Some (MS pv ps (marker n ++ t) []) = None.
Proof.
  intros Hn Hneq. apply good_name_forall in Hn. destruct Hn as [Hne Hn].
  destruct key_chars as [Hkne Hkw].
  unfold variableRegex, marker. cbn [seqs]. unfold Lit.
  rewrite <- !app_assoc.
  rewrite mt_Seq, mt_Str_app, mt_Seq. unfold star. rewrite mt_Rep.
  apply rep_none. intros w s' E Hw _ _.
  destruct w as [|y w].
  2:{ exfalso. destruct n as [|x n]; [congruence|].
      simpl in E. injection E as -> _. simpl in Hn, Hw.
      apply andb_true_iff in Hn. destruct Hn as [Hx _].
      apply name_char_parts in Hx. destruct Hx as (_ & _ & _ & Hs).
      rewrite Hs in Hw. discriminate. }
  change ([] ++ s') with s' in E. subst s'. rewrite mt_Seq, mt_Str. cbn [rest].
  destruct (startsWith key (n ++ lit "}}" ++ t)) eqn:Es; [|reflexivity].
  apply startsWith_iff in Es. destruct Es as [u Eu].
  unfold after. cbn [prev pos caps]. rewrite Eu.
  rewrite skipn_app, skipn_all, Nat.sub_diag. simpl skipn. rewrite app_nil_l.
  rewrite mt_Seq, mt_Rep.
  symmetry in Eu. apply app_eq_app in Eu.
  destruct Eu as [l [[E1 E2]|[E1 E2]]].
  - (* the key goes on after the name: with a closing brace *)
    exfalso. destruct l as [|x l].
    + rewrite app_nil_r in E1. congruence.
    + simpl in E2. injection E2 as Ex _.
      rewrite E1, forallb_app in Hkw. apply andb_true_iff in Hkw.
      destruct Hkw as [_ Hkw]. simpl in Hkw. apply andb_true_iff in Hkw.
      destruct Hkw as [Hx _]. apply word_not_close in Hx.
      rewrite <- Ex in Hx. discriminate.
  - (* the name goes on after the key *)
    destruct l as [|x l].
    + rewrite app_nil_r in E1. congruence.
    + rewrite E1, forallb_app in Hn. apply andb_true_iff in Hn.
      destruct Hn as [_ Hn]. simpl in Hn. apply andb_true_iff in Hn.
      destruct Hn as [Hx _]. apply name_char_parts in Hx.
      destruct Hx as (_ & Hc & _ & Hs).
      apply rep_none. intros w2 s2 E Hw2 _ _. rewrite E2 in E.
      destruct w2 as [|y w2].
      * simpl in E. subst s2. rewrite mt_Str. cbn [rest].
        change (lit "}}") with ["}"%char; "}"%char]. simpl app.
        cbn [startsWith]. fold (is_char "}" x). now rewrite Hc.
      * simpl in E. injection E as -> _. simpl in Hw2.
        rewrite Hs in Hw2. discriminate.
Qed.

(** A replacement copies an inert text. *)
Lemma replace_inert (c : str) : forall f done pv ps t,
  inert c = true ->
  replace_from (S f) (variableRegex key) v done (MS pv ps (c ++ t) []) =
  c ++ replace_from (S f) (variableRegex key) v (rev c ++ done)
         (MS (prev_after pv c) (ps + length c) t []).
Proof.
  induction c as [|x c IH]; intros f done pv ps t H.
  - simpl. now rewrite Nat.add_0_r.
  - change ((x :: c) ++ t) with (x :: (c ++ t)).
    rewrite replace_from_skip
      by (apply var_needs_braces; apply (inert_no_start x c t H)).
    rewrite IH by exact (inert_tail _ _ H).
    simpl. rewrite <- app_assoc. simpl.
    replace (S (ps + length c)) with (ps + S (length c)) by lia. reflexivity.
Qed.

Lemma marker_tail_inert (n c : str) :
  good_name n = true -> inert c = true ->
  inert ("{"%char :: n ++ lit "}}" ++ c) = true.
Proof.
  intros Hn Hc. apply good_name_forall in Hn. destruct Hn as [Hne Hn].
  change ("{"%char :: n ++ lit "}}" ++ c) with (["{"%char] ++ n ++ lit "}}" ++ c).
  destruct n as [|x n]; [congruence|].
  pose proof (name_no_brace _ Hn) as Hb.
  assert (H1 : inert ("{"%char :: x :: n) = true).
  { cbn [inert]. simpl in Hb. apply andb_true_iff in Hb. destruct Hb as [Hx Hb].
    apply negb_true_iff in Hx. rewrite Hx. simpl.
    fold (inert n). pose proof (no_brace_inert _ Hb) as Hi.
    assert (Hxn : inert (x :: n) = true).
    { apply no_brace_inert. simpl. rewrite Hx. exact Hb. }
    cbn [inert] in Hxn. rewrite Hx in Hxn. simpl in Hxn. exact Hxn. }
  change (["{"%char] ++ (x :: n) ++ lit "}}" ++ c)
    with (("{"%char :: x :: n) ++ lit "}}" ++ c).
  repeat apply inert_app; auto.
Qed.

Lemma withMarkers_length (parts : list (str * str)) :
  length parts <= length (withMarkers parts).
Proof.
  induction parts as [|[n c] more IH]; simpl; [lia|].
  rewrite !length_app. simpl. lia.
Qed.

(** One replacement over a well-formed text. *)
Lemma replace_variable (parts : list (str * str)) : forall f c0 done pv ps,
  length parts < f -> inert c0 = true -> forallb good_part parts = true ->
  replace_from f (variableRegex key) v done
    (MS pv ps (c0 ++ withMarkers parts) [])
  = c0 ++ substituted key v (rev done ++ c0) parts.
Proof.
  induction parts as [|[n c] more IH]; intros f c0 done pv ps Hf Hc0 Hparts;
    (destruct f as [|f]; [simpl in Hf; lia|]).
  - cbn [withMarkers substituted]. rewrite replace_inert by exact Hc0.
    rewrite replace_from_nil by (apply var_needs_braces; reflexivity).
    reflexivity.
  - simpl in Hparts. apply andb_true_iff in Hparts.
    destruct Hparts as [Hp Hmore]. unfold good_part in Hp. simpl in Hp.
    apply andb_true_iff in Hp. destruct Hp as [Hn Hc].
    cbn [withMarkers substituted]. rewrite replace_inert by exact Hc0.
    f_equal.
    destruct (str_eqb n key) eqn:E.
    + apply str_eqb_eq in E. subst n.
      rewrite (@replace_from_hit _ v (rev c0 ++ done) f _ _ _ [] _
                 "{"%char ("{"%char :: key ++ lit "}}")
                 (var_at_marker _ _ _)).
      * cbn [rest]. rewrite rev_app_distr, rev_involutive.
        change ("{"%char :: "{"%char :: key ++ lit "}}") with (marker key).
        f_equal. unfold with_caps. cbn [prev pos rest].
        rewrite IH; [|simpl in Hf; lia|exact Hc|exact Hmore].
        f_equal. f_equal.
        rewrite !rev_app_distr, !rev_involutive, <- !app_assoc. reflexivity.
      * cbn [pos]. apply firstn_after.
    + assert (Hneq : n <> key).
      { intros ->. rewrite str_eqb_refl in E. discriminate. }
      unfold marker at 1. change (lit "{{") with ["{"%char; "{"%char].
      rewrite <- !app_assoc. simpl app.
      rewrite replace_from_skip.
      2:{ pose proof (var_not_at n (c ++ withMarkers more)
                        (prev_after pv c0) (ps + length c0) Hn Hneq) as H.
          unfold marker in H. rewrite <- !app_assoc in H. exact H. }
      f_equal.
      assert (Happ : "{"%char :: n ++ "}"%char :: "}"%char :: c ++ withMarkers more
                     = ("{"%char :: n ++ lit "}}" ++ c) ++ withMarkers more).
      { simpl. rewrite <- !app_assoc. reflexivity. }
      rewrite Happ.
      rewrite IH; [|simpl in Hf; lia|apply marker_tail_inert; assumption|exact Hmore].
      assert (Hb : rev ("{"%char :: rev c0 ++ done) ++ "{"%char :: n ++ lit "}}" ++ c
                   = rev done ++ c0 ++ "{"%char :: "{"%char
                       :: (n ++ ["}"%char; "}"%char]) ++ c).
      { simpl. rewrite !rev_app_distr, !rev_involutive.
        rewrite <- !app_assoc. reflexivity. }
      rewrite Hb. simpl. rewrite <- !app_assoc. reflexivity.
Qed.

End Substitution.

Section RenderAll.

Import TemplateRegistry.

Lemma withValues_nil (parts : list (str * str)) :
  withValues [] parts = withResolutions parts.
Proof.
  induction parts as [|[n c] more IH]; [reflexivity|].
  simpl. now rewrite IH.
Qed.

Lemma cleanLeftovers_wellformed (c0 : str) (parts : list (str * str)) :
  inert c0 = true -> forallb good_part parts = true ->
  cleanLeftovers (c0 ++ withMarkers parts) = c0 ++ withResolutions parts.
Proof.
  intros Hc0 Hparts. unfold cleanLeftovers, matchAll, start_state.
  rewrite leftovers_found; auto.
  - apply leftovers_resolved; assumption.
  - rewrite length_app. pose proof (withMarkers_length parts). lia.
Qed.

(** What one replacement leaves is again a well-formed text, in which
    the markers of the key are resolved. *)
Lemma step_shape (key : str) (value : option str) (parts : list (str * str)) :
  plain (valueString value) -> inert (valueString value) = true ->
  forall c0 before, inert c0 = true -> forallb good_part parts = true ->
  exists c0' parts',
    c0 ++ substituted key (valueString value) before parts
      = c0' ++ withMarkers parts' /\
    inert c0' = true /\ forallb good_part parts' = true /\
    forall vars', c0' ++ withValues vars' parts'
                  = c0 ++ withValues ((key, value) :: vars') parts.
Proof.
  intros Hp Hi. induction parts as [|[n c] more IH]; intros c0 before Hc0 Hparts.
  - exists c0, []. repeat split; auto.
  - simpl in Hparts. apply andb_true_iff in Hparts.
    destruct Hparts as [Hpart Hmore]. unfold good_part in Hpart. simpl in Hpart.
    apply andb_true_iff in Hpart. destruct Hpart as [Hn Hc].
    cbn [substituted withValues bound].
    destruct (str_eqb n key) eqn:E.
    + rewrite GetSubstitution_plain by exact Hp.
      destruct (IH (c0 ++ valueString value ++ c) (before ++ marker n ++ c))
        as (c0' & parts' & H1 & H2 & H3 & H4);
        [repeat apply inert_app; assumption|exact Hmore|].
      exists c0', parts'. repeat split; auto.
      * rewrite <- H1, <- !app_assoc. reflexivity.
      * intros vars'. rewrite H4, <- !app_assoc. reflexivity.
    + destruct (IH c (before ++ marker n ++ c))
        as (c1 & parts1 & H1 & H2 & H3 & H4); [exact Hc|exact Hmore|].
      exists c0, ((n, c1) :: parts1). repeat split; auto.
      * cbn [withMarkers]. rewrite <- H1. reflexivity.
      * simpl. unfold good_part at 1. simpl. rewrite Hn, H2, H3. reflexivity.
      * intros vars'. cbn [withValues]. rewrite H4. reflexivity.
Qed.

Lemma substituteAll_cons (body key : str) (value : option str)
    (vars : list (str * option str)) :
  substituteAll body ((key, value) :: vars)
  = substituteAll (replaceAll (variableRegex key) (valueString value) body) vars.
Proof. reflexivity. Qed.

Lemma render_all (vars : list (str * option str)) : forall c0 parts,
  inert c0 = true -> forallb good_part parts = true ->
  forallb good_binding vars = true ->
  cleanLeftovers (substituteAll (c0 ++ withMarkers parts) vars)
  = c0 ++ withValues vars parts.
Proof.
  induction vars as [|[key value] vars IH]; intros c0 parts Hc0 Hparts Hvars.
  - unfold substituteAll. simpl fold_left. rewrite withValues_nil.
    apply cleanLeftovers_wellformed; assumption.
  - simpl in Hvars. apply andb_true_iff in Hvars. destruct Hvars as [Hb Hvars].
    unfold good_binding in Hb. simpl in Hb.
    apply andb_true_iff in Hb. destruct Hb as [Hb Hi].
    apply andb_true_iff in Hb. destruct Hb as [Hk Hp].
    rewrite substituteAll_cons.
    unfold replaceAll, start_state.
    rewrite (replace_variable key (valueString value) Hk parts);
      [|pose proof (withMarkers_length parts); rewrite length_app; lia
       |exact Hc0|exact Hparts].
    destruct (step_shape key value parts Hp Hi c0 (rev [] ++ c0) Hc0 Hparts)
      as (c0' & parts' & H1 & H2 & H3 & H4).
    rewrite H1. rewrite IH by assumption. apply H4.
Qed.

Lemma withValues_inert (vars : list (str * option str))
    (parts : list (str * str)) :
  forallb good_binding vars = true -> forallb good_part parts = true ->
  inert (withValues vars parts) = true.
Proof.
  intros Hvars. induction parts as [|[n c] more IH]; intros H; [reflexivity|].
  simpl in H. apply andb_true_iff in H. destruct H as [Hpart Hmore].
  unfold good_part in Hpart. simpl in Hpart.
  apply andb_true_iff in Hpart. destruct Hpart as [Hn Hc].
  apply good_name_forall in Hn. destruct Hn as [_ Hn].
  cbn [withValues]. repeat apply inert_app; auto.
  destruct (bound vars n) as [v|] eqn:E; [|apply resolution_inert; exact Hn].
  clear - Hvars E. induction vars as [|[key value] vars IH]; [discriminate|].
  simpl in Hvars. apply andb_true_iff in Hvars. destruct Hvars as [Hb Hvars].
  simpl in E. destruct (str_eqb n key).
  - injection E as <-. unfold good_binding in Hb. simpl in Hb.
    apply andb_true_iff in Hb. tauto.
  - apply IH; assumption.
Qed.

End RenderAll.

(** X6. On a template that is inert text around markers with plain
    names, with identifiers as keys and values that hold no dollar sign
    and begin no marker, rendering replaces every marker at once: by the
    value bound to its name, by nothing for an unbound optional variable,
    by the placeholder comment for any other unbound name.  No double
    opening brace is left. *)
Theorem X6_render_substitutes (templates : TemplateRegistry.registry)
    (templateName : str) (t : TemplateRegistry.Template)
    (vars : list (str * option str)) (c0 : str) (parts : list (str * str)) :
  TemplateRegistry.getTemplate templates templateName = Some t ->
  TemplateRegistry.template t = c0 ++ withMarkers parts ->
  inert c0 = true -> forallb good_part parts = true ->
  forallb good_binding vars = true ->
  TemplateRegistry.renderTemplate templates templateName vars
    = Return (c0 ++ withValues vars parts) /\
  includes (lit "{{") (c0 ++ withValues vars parts) = false.
Proof.
  intros Ht Hb Hc0 Hparts Hvars. split.
  - unfold TemplateRegistry.renderTemplate. rewrite Ht, Hb.
    rewrite render_all by assumption. reflexivity.
  - apply inert_includes, inert_app; [exact Hc0|].
    apply withValues_inert; assumption.
Qed.

Section SlugMore.

Import CreateServerCommand.

Lemma last_ok_app (a b : str) : b <> [] -> last_ok (a ++ b) = last_ok b.
Proof.
  intros Hb. induction a as [|x a IH]; [reflexivity|].
  simpl app. rewrite last_ok_cons; [exact IH|].
  destruct a; simpl; [exact Hb|discriminate].
Qed.

Lemma no_double_app (a b : str) :
  no_double a = true -> last_ok a = true -> no_double b = true ->
  no_double (a ++ b) = true.
Proof.
  induction a as [|x a IH]; intros Ha Hl Hb; [exact Hb|].
  destruct a as [|y a].
  - simpl in Hl. simpl app. cbn [no_double]. rewrite Hb.
    apply negb_true_iff in Hl. rewrite Hl. reflexivity.
  - change (no_double (x :: y :: a))
      with (negb (is_hyphen x && is_hyphen y) && no_double (y :: a)) in Ha.
    apply andb_true_iff in Ha. destruct Ha as [Hxy Ha].
    change (no_double ((x :: y :: a) ++ b))
      with (negb (is_hyphen x && is_hyphen y) && no_double ((y :: a) ++ b)).
    rewrite Hxy, IH; auto.
Qed.

(** A non-empty slug with the server suffix is a slug. *)
Lemma suffixed_fixed (t : str) :
  t <> [] -> forallb slug_char t = true -> first_ok t = true ->
  last_ok t = true -> no_double t = true ->
  sanitizeName (ensureServerSuffix t) = ensureServerSuffix t.
Proof.
  intros Hne H1 H2 H3 H4. unfold ensureServerSuffix.
  destruct t as [|c t]; [congruence|].
  destruct (endsWith (lit "-server") (c :: t)).
  - apply sanitizeName_fixed; assumption.
  - apply sanitizeName_fixed.
    + rewrite forallb_app, H1. reflexivity.
    + exact H2.
    + rewrite last_ok_app by discriminate. reflexivity.
    + apply no_double_app; auto.
Qed.

Lemma suffixed_ends (t : str) :
  t <> [] -> endsWith (lit "-server") (ensureServerSuffix t) = true.
Proof.
  intros Hne. unfold ensureServerSuffix. destruct t as [|c t]; [congruence|].
  destruct (endsWith (lit "-server") (c :: t)) eqn:E; [exact E|].
  apply endsWith_app.
Qed.

Lemma suffixed_nonempty (t : str) : t <> [] -> ensureServerSuffix t <> [].
Proof.
  intros Hne. unfold ensureServerSuffix. destruct t as [|c t]; [congruence|].
  destruct (endsWith (lit "-server") (c :: t)); discriminate.
Qed.

Lemma sanitized_suffixed (value : str) :
  sanitizeName value <> [] ->
  let n := ensureServerSuffix (sanitizeName value) in
  n <> [] /\ endsWith (lit "-server") n = true /\ sanitizeName n = n.
Proof.
  intros Hne. destruct (sanitizeName_shape value) as (H1 & H2 & H3 & H4).
  repeat split.
  - apply suffixed_nonempty. exact Hne.
  - apply suffixed_ends. exact Hne.
  - apply suffixed_fixed; assumption.
Qed.

Lemma squash_all (p : ascii -> bool) (r s : str) :
  s <> [] -> forallb p s = true -> squash p r s = r.
Proof.
  induction s as [|c t IH]; intros Hne H; [congruence|].
  simpl in H. apply andb_true_iff in H. destruct H as [Hc Ht].
  simpl. rewrite Hc. destruct t as [|d t]; [reflexivity|].
  simpl in Ht. apply andb_true_iff in Ht. destruct Ht as [Hd Ht].
  rewrite Hd. apply IH; [discriminate|]. simpl. now rewrite Hd, Ht.
Qed.

Lemma space_lower (c : ascii) :
  is_space c = true -> not_slug (lower_char c) = true.
Proof.
  destruct c as [[] [] [] [] [] [] [] []]; vm_compute; congruence.
Qed.

(** A blank name has an empty slug. *)
Lemma blank_sanitize (value : str) : trim value = [] -> sanitizeName value = [].
Proof.
  intros H. apply trim_nil_iff in H. rewrite sanitizeName_eq.
  destruct value as [|c t]; [reflexivity|].
  rewrite (squash_all not_slug); [reflexivity|discriminate|].
  unfold toLowerCase. rewrite forallb_forall in *. intros x Hx.
  apply in_map_iff in Hx. destruct Hx as (y & <- & Hy).
  apply space_lower, H, Hy.
Qed.

End SlugMore.

(** X8. [slugify] never returns the empty string; what it returns ends
    with "-server", is left as it is by [sanitizeName], and is a fixed
    point of [slugify]. *)
Theorem X8_slugify_slug (value : str) :
  let n := CreateServerCommand.slugify value in
  n <> [] /\ endsWith (lit "-server") n = true /\
  CreateServerCommand.sanitizeName n = n /\
  CreateServerCommand.slugify n = n.
Proof.
  assert (H : let n := CreateServerCommand.slugify value in
              n <> [] /\ endsWith (lit "-server") n = true /\
              CreateServerCommand.sanitizeName n = n).
  { unfold CreateServerCommand.slugify.
    destruct (CreateServerCommand.sanitizeName value) as [|c t] eqn:E.
    - split; [discriminate|split; [reflexivity|]].
      apply sanitizeName_fixed; reflexivity.
    - rewrite <- E. apply (sanitized_suffixed value). rewrite E. discriminate. }
  destruct H as (H1 & H2 & H3). repeat split; auto.
  unfold CreateServerCommand.slugify at 1. cbv zeta. rewrite H3.
  destruct (CreateServerCommand.slugify value) as [|c t] eqn:E; [congruence|].
  unfold CreateServerCommand.ensureServerSuffix. rewrite H2. reflexivity.
Qed.

(** X9. The input box accepts a name exactly when its slug is not empty:
    the test for a blank name is covered by the test of the slug. *)
Theorem X9_validateInput_slug (value : str) :
  CreateServerCommand.validateInput value = None <->
  CreateServerCommand.sanitizeName value <> [].
Proof.
  unfold CreateServerCommand.validateInput.
  destruct (trim value) eqn:Et.
  - rewrite (blank_sanitize _ Et). split; [discriminate|congruence].
  - destruct (CreateServerCommand.sanitizeName value); split;
      congruence || discriminate.
Qed.

Lemma resolved_slug
    (showInputBox : str -> (str -> option str) -> option str)
    (description : str) (providedName : option str) (n : str) :
  CreateServerCommand.resolveServerName showInputBox description providedName
    = Some n ->
  n <> [] /\ endsWith (lit "-server") n = true /\
  CreateServerCommand.sanitizeName n = n.
Proof.
  unfold CreateServerCommand.resolveServerName.
  assert (Hs : forall v c t, CreateServerCommand.sanitizeName v = c :: t ->
            Some (CreateServerCommand.ensureServerSuffix (c :: t)) = Some n ->
            n <> [] /\ endsWith (lit "-server") n = true /\
            CreateServerCommand.sanitizeName n = n).
  { intros v c t E H.
    assert (Hn : n = CreateServerCommand.ensureServerSuffix
                       (CreateServerCommand.sanitizeName v))
      by (rewrite E; congruence).
    rewrite Hn. apply (sanitized_suffixed v). rewrite E. discriminate. }
  destruct providedName as [name|].
  - destruct (trim name) eqn:Et.
    + destruct (showInputBox _ _) as [[|c0 s0]|]; try discriminate.
      destruct (CreateServerCommand.sanitizeName (c0 :: s0)) eqn:E;
        [discriminate|]. eapply Hs. exact E.
    + destruct (CreateServerCommand.sanitizeName name) eqn:E.
      * destruct (showInputBox _ _) as [[|c0 s0]|]; try discriminate.
        destruct (CreateServerCommand.sanitizeName (c0 :: s0)) eqn:E2;
          [discriminate|]. eapply Hs. exact E2.
      * eapply Hs. exact E.
  - destruct (showInputBox _ _) as [[|c0 s0]|]; try discriminate.
    destruct (CreateServerCommand.sanitizeName (c0 :: s0)) eqn:E;
      [discriminate|]. eapply Hs. exact E.
Qed.

(** X10. Whatever the user enters, a resolved server name is a non-empty
    slug that ends with "-server"; a provided name with a non-empty slug
    is used without asking. *)
Theorem X10_resolved_name
    (showInputBox : str -> (str -> option str) -> option str)
    (description : str) (providedName : option str) :
  (forall n,
     CreateServerCommand.resolveServerName showInputBox description providedName
       = Some n ->
     n <> [] /\ endsWith (lit "-server") n = true /\
     CreateServerCommand.sanitizeName n = n) /\
  (forall name, providedName = Some name ->
     CreateServerCommand.sanitizeName name <> [] ->
     CreateServerCommand.resolveServerName showInputBox description providedName
       = Some (CreateServerCommand.ensureServerSuffix
                 (CreateServerCommand.sanitizeName name))).
Proof.
  split.
  - intros n. apply resolved_slug.
  - intros name -> Hne. unfold CreateServerCommand.resolveServerName.
    destruct (trim name) eqn:Et.
    + apply blank_sanitize in Et. congruence.
    + destruct (CreateServerCommand.sanitizeName name); [congruence|reflexivity].
Qed.

Lemma X10_resolved_name_witness :
  CreateServerCommand.resolveServerName (fun _ _ => None) (lit "weather")
    (Some (lit "Weather Tools!")) = Some (lit "weather-tools-server").
Proof.
  apply (proj2 (X10_resolved_name (fun _ _ => None) (lit "weather")
                  (Some (lit "Weather Tools!"))) (lit "Weather Tools!")).
  - reflexivity.
  - vm_compute. discriminate.
Defined.

Section Unique.

Variable fs : NodeFs.
Variables (basePath preferredName : str) (w : World fs).

Import CreateServerCommand.

Lemma loop_first_free (k : nat) : forall fuel j,
  k < fuel ->
  (forall i, i < k -> taken fs basePath preferredName w (j + i) = true) -> taken fs basePath preferredName w (j + k) = false ->
  ensureUniqueDirectory_loop fs fuel basePath preferredName
    (candidate preferredName j) (S j) w
  = Some (path_join fs basePath (candidate preferredName (j + k)),
          candidate preferredName (j + k)).
Proof.
  induction k as [|k IH]; intros fuel j Hf Hbefore Hfree;
    (destruct fuel as [|fuel]; [lia|]); cbn [ensureUniqueDirectory_loop].
  - rewrite Nat.add_0_r in Hfree. unfold taken in Hfree. rewrite Hfree.
    rewrite Nat.add_0_r. reflexivity.
  - pose proof (Hbefore 0 (Nat.lt_0_succ _)) as H0.
    rewrite Nat.add_0_r in H0. unfold taken in H0. rewrite H0.
    change (preferredName ++ lit "-" ++ decimal (S j))
      with (candidate preferredName (S j)).
    rewrite Nat.add_1_r.
    rewrite (IH fuel (S j)).
    + replace (S j + k) with (j + S k) by lia. reflexivity.
    + lia.
    + intros i Hi. replace (S j + i) with (j + S i) by lia. apply Hbefore. lia.
    + replace (S j + k) with (j + S k) by lia. exact Hfree.
Qed.

Lemma loop_sound (fuel : nat) : forall j p n,
  ensureUniqueDirectory_loop fs fuel basePath preferredName
    (candidate preferredName j) (S j) w = Some (p, n) ->
  exists k, n = candidate preferredName (j + k) /\
            p = path_join fs basePath n /\ taken fs basePath preferredName w (j + k) = false /\
            forall i, i < k -> taken fs basePath preferredName w (j + i) = true.
Proof.
  induction fuel as [|fuel IH]; intros j p n H; [discriminate|].
  cbn [ensureUniqueDirectory_loop] in H.
  destruct (existsSync fs (path_join fs basePath (candidate preferredName j)) w)
    eqn:E.
  - change (preferredName ++ lit "-" ++ decimal (S j))
      with (candidate preferredName (S j)) in H.
    rewrite Nat.add_1_r in H. apply IH in H.
    destruct H as (k & Hn & Hp & Hfree & Hbefore).
    exists (S k). replace (j + S k) with (S j + k) by lia.
    repeat split; auto.
    intros i Hi. destruct i as [|i].
    + rewrite Nat.add_0_r. exact E.
    + replace (j + S i) with (S j + i) by lia. apply Hbefore. lia.
  - injection H as <- <-. exists 0. rewrite Nat.add_0_r.
    repeat split; auto. intros i Hi. lia.
Qed.

End Unique.

(** X11. [ensureUniqueDirectory] returns the first of the names
    "name", "name-1", "name-2", ... whose path does not exist: when one of
    them is free the loop ends there, and whatever it returns is free
    while every earlier name is taken, so that [ensureDirectoryExists]
    then creates the directory. *)
Theorem X11_unique_directory (fs : NodeFs) (basePath preferredName : str)
    (w : World fs) :
  (forall k fuel, k < fuel ->
     (forall i, i < k ->
        existsSync fs (path_join fs basePath (candidate preferredName i)) w
          = true) ->
     existsSync fs (path_join fs basePath (candidate preferredName k)) w
       = false ->
     CreateServerCommand.ensureUniqueDirectory fs fuel basePath preferredName w
     = Some (path_join fs basePath (candidate preferredName k),
             candidate preferredName k)) /\
  (forall fuel fullPath serverName,
     CreateServerCommand.ensureUniqueDirectory fs fuel basePath preferredName w
       = Some (fullPath, serverName) ->
     existsSync fs fullPath w = false /\
     CreateServerCommand.ensureDirectoryExists fs fullPath w
       = mkdirSync fs fullPath w /\
     exists k, serverName = candidate preferredName k /\
               fullPath = path_join fs basePath serverName /\
               forall i, i < k ->
                 existsSync fs (path_join fs basePath (candidate preferredName i)) w
                   = true).
Proof.
  split.
  - intros k fuel Hf Hbefore Hfree.
    apply (loop_first_free fs basePath preferredName w k fuel 0 Hf); auto.
  - intros fuel fullPath serverName H.
    apply (loop_sound fs basePath preferredName w fuel 0) in H.
    destruct H as (k & Hn & Hp & Hfree & Hbefore). simpl in *.
    assert (He : existsSync fs fullPath w = false) by (rewrite Hp, Hn; exact Hfree).
    split; [exact He|]. split.
    + unfold CreateServerCommand.ensureDirectoryExists. rewrite He. reflexivity.
    + exists k. auto.
Qed.

Lemma X11_unique_directory_witness :
  CreateServerCommand.ensureUniqueDirectory (SimFs []) 5 (lit "/out")
    (lit "demo-server") sim_taken
  = Some (lit "/out/demo-server-2", lit "demo-server-2").
Proof.
  apply (proj1 (X11_unique_directory (SimFs []) (lit "/out") (lit "demo-server")
                  sim_taken) 2 5).
  - lia.
  - intros i Hi. destruct i as [|[|i]]; [reflexivity|reflexivity|lia].
  - reflexivity.
Defined.

(* ================================================================== *)
(** * JSON.parse after JSON.stringify *)

Lemma quote_step (c : ascii) (more acc : str) :
  parse_chars (quote_char c ++ more) acc = parse_chars more (c :: acc).
Proof. destruct c as [[] [] [] [] [] [] [] []]; reflexivity. Qed.

Lemma parse_chars_quoted (s : str) : forall more acc,
  parse_chars (flat_map quote_char s ++ dquote :: more) acc
  = Some (rev acc ++ s, more).
Proof.
  induction s as [|c s IH]; intros more acc.
  - simpl. rewrite app_nil_r. reflexivity.
  - simpl flat_map. rewrite <- app_assoc, quote_step, IH. simpl.
    rewrite <- app_assoc. reflexivity.
Qed.

Lemma parse_value_quoted (f : nat) (s more : str) :
  parse_value (S f) (QuoteJSONString s ++ more) = Some (JStr s, more).
Proof.
  unfold QuoteJSONString. simpl app. rewrite <- app_assoc. simpl app.
  cbn [parse_value skip_ws]. change (json_ws dquote) with false. cbv iota.
  change (is_char "{" dquote) with false.
  change (is_char "[" dquote) with false.
  change (is_char dquote dquote) with true. cbv iota.
  rewrite parse_chars_quoted. reflexivity.
Qed.

Lemma parse_members_written (ms : list (str * str)) : forall f more,
  ms <> [] -> length ms < f ->
  parse_members f (join (lit ",") (map member ms) ++ "}"%char :: more)
  = Some (map (fun kv => (fst kv, JStr (snd kv))) ms, more).
Proof.
  induction ms as [|[k v] ms IH]; intros f more Hne Hf; [congruence|].
  destruct f as [|f]; [lia|]. simpl in Hf.
  assert (Hhead : forall rest,
    parse_members (S f) (member (k, v) ++ rest)
    = match skip_ws rest with
      | c2 :: r3 =>
          if is_char "," c2 then
            match parse_members f r3 with
            | Some (fs, r4) => Some ((k, JStr v) :: fs, r4)
            | None => None
            end
          else if is_char "}" c2 then Some ([(k, JStr v)], r3)
          else None
      | [] => None
      end).
  { intros rest. unfold member. cbn [fst snd]. unfold QuoteJSONString at 1.
    simpl app. rewrite <- !app_assoc. simpl app.
    cbn [parse_members skip_ws]. change (json_ws dquote) with false. cbv iota.
    change (is_char dquote dquote) with true. cbv iota.
    rewrite parse_chars_quoted. cbn [app rev skip_ws].
    change (json_ws ":") with false. cbv iota.
    change (is_char ":" ":") with true. cbv iota.
    destruct f as [|f']; [lia|].
    change (dquote :: (flat_map quote_char v ++ [dquote]) ++ rest)
      with (QuoteJSONString v ++ rest).
    rewrite parse_value_quoted. reflexivity. }
  destruct ms as [|kv2 ms].
  - cbn [map join]. rewrite Hhead. reflexivity.
  - change (join (lit ",") (map member ((k, v) :: kv2 :: ms)))
      with (member (k, v) ++ lit "," ++ join (lit ",") (map member (kv2 :: ms))).
    rewrite <- !app_assoc. rewrite Hhead. simpl app.
    cbn [skip_ws]. change (json_ws ",") with false. cbv iota.
    change (is_char "," ",") with true. cbv iota.
    rewrite IH; [reflexivity|discriminate|simpl in *; lia].
Qed.

Lemma stringify_members (properties : list (str * option str)) :
  flat_map SerializeJSONProperty properties
  = map member (defined_properties properties).
Proof.
  induction properties as [|[k [v|]] l IH]; simpl; [reflexivity| |exact IH].
  rewrite IH. reflexivity.
Qed.

Lemma written_defined (properties : list (str * option str)) :
  written_properties properties
  = map (fun kv => (fst kv, JStr (snd kv))) (defined_properties properties).
Proof.
  induction properties as [|[k [v|]] l IH]; simpl; [reflexivity| |exact IH].
  rewrite IH. reflexivity.
Qed.

Lemma join_length (ms : list str) :
  length ms <= S (length (join (lit ",") ms)).
Proof.
  induction ms as [|a [|b ms] IH]; simpl; try lia.
  simpl in IH. rewrite length_app. simpl. lia.
Qed.

Lemma parse_value_object (f : nat) (ms : list (str * str)) (more : str) :
  length ms < f ->
  parse_value (S f) (lit "{" ++ join (lit ",") (map member ms) ++ "}"%char :: more)
  = Some (JObj (map (fun kv => (fst kv, JStr (snd kv))) ms), more).
Proof.
  intros Hf. destruct ms as [|[k v] ms].
  - reflexivity.
  - assert (Hq : exists x, join (lit ",") (map member ((k, v) :: ms))
                           ++ "}"%char :: more = dquote :: x).
    { destruct ms; simpl; eexists; reflexivity. }
    destruct Hq as [x Hq].
    remember (join (lit ",") (map member ((k, v) :: ms)) ++ "}"%char :: more)
      as body eqn:Hbody.
    change (lit "{" ++ body) with ("{"%char :: body).
    cbn [parse_value skip_ws]. change (json_ws "{") with false. cbv iota.
    change (is_char "{" "{") with true. cbv iota.
    rewrite Hq. cbn [skip_ws].
    change (json_ws dquote) with false. cbv iota.
    change (is_char "}" dquote) with false. cbv iota.
    rewrite <- Hq, Hbody.
    rewrite parse_members_written; [reflexivity|discriminate|exact Hf].
Qed.

(** What [JSON.stringify] writes for an object of strings,
    [JSON.parse] reads back as the same entries, in order and with the
    same texts; a property that holds [undefined] is not there. *)
Lemma stringify_parse (properties : list (str * option str)) :
  JSON_parse (JSON_stringify properties)
  = Some (JObj (written_properties properties)).
Proof.
  unfold JSON_parse, JSON_stringify.
  rewrite stringify_members, written_defined.
  rewrite (Nat.add_comm _ 2).
  match goal with
  | |- context [parse_value (2 + ?n)] => change (2 + n) with (S (S n))
  end.
  change (lit "}") with ("}"%char :: []).
  rewrite parse_value_object; [reflexivity|].
  pose proof (join_length (map member (defined_properties properties))) as H.
  rewrite length_map in H. rewrite !length_app. simpl in *. lia.
Qed.

(* ================================================================== *)
(** * JSON.parse on a text that goes on *)

Lemma parse_number_stages (s : str) :
  parse_number s =
  match s with
  | c :: t => if is_char "-" c then number_body [c] t else number_body [] s
  | [] => number_body [] s
  end.
Proof. destruct s as [|c t]; [reflexivity|]. unfold parse_number.
  destruct (is_char "-" c); reflexivity. Qed.

Lemma take_digits_app (s : str) : forall d r post,
  take_digits s = (d, r) -> r <> [] -> take_digits (s ++ post) = (d, r ++ post).
Proof.
  induction s as [|c t IH]; intros d r post H Hr.
  - simpl in H. injection H as <- <-. congruence.
  - simpl in H. simpl app. cbn [take_digits].
    destruct (is_digit c).
    + destruct (take_digits t) as [d' r'] eqn:E. injection H as <- <-.
      rewrite (IH d' r' post eq_refl Hr). reflexivity.
    + injection H as <- <-. reflexivity.
Qed.

Lemma number_exp_app (s e r post : str) :
  number_exp s = Some (e, r) -> r <> [] ->
  number_exp (s ++ post) = Some (e, r ++ post).
Proof.
  intros H Hr. destruct s as [|c t].
  - simpl in H. injection H as <- <-. congruence.
  - simpl app. unfold number_exp in *.
    destruct (is_char "e" c || is_char "E" c); [|injection H as <- <-; reflexivity].
    destruct t as [|x t'].
    + simpl in H. discriminate.
    + cbn [app]. destruct (is_char "+" x || is_char "-" x).
      * destruct (take_digits t') as [d r'] eqn:E.
        destruct d as [|d0 d]; [discriminate|]. injection H as <- <-.
        rewrite (take_digits_app _ _ _ post E Hr). reflexivity.
      * destruct (take_digits (x :: t')) as [d r'] eqn:E.
        destruct d as [|d0 d]; [discriminate|]. injection H as <- <-.
        change (x :: t' ++ post) with ((x :: t') ++ post).
        rewrite (take_digits_app _ _ _ post E Hr). reflexivity.
Qed.

Lemma number_frac_app (s f r post : str) :
  number_frac s = Some (f, r) -> r <> [] ->
  number_frac (s ++ post) = Some (f, r ++ post).
Proof.
  intros H Hr. destruct s as [|c t].
  - simpl in H. injection H as <- <-. congruence.
  - simpl app. unfold number_frac in *.
    destruct (is_char "." c); [|injection H as <- <-; reflexivity].
    destruct (take_digits t) as [d r'] eqn:E.
    destruct d as [|d0 d]; [discriminate|]. injection H as <- <-.
    rewrite (take_digits_app _ _ _ post E Hr). reflexivity.
Qed.

Lemma number_body_app (sign s l r post : str) :
  number_body sign s = Some (l, r) -> r <> [] ->
  number_body sign (s ++ post) = Some (l, r ++ post).
Proof.
  unfold number_body. intros H Hr.
  destruct (take_digits s) as [int s2] eqn:Ed.
  destruct int as [|d ds]; [discriminate|].
  destruct (is_char "0" d && negb match ds with [] => true | _ :: _ => false end)
    eqn:Ez; [discriminate|].
  destruct (number_frac s2) as [[f s3]|] eqn:Ef; [|discriminate].
  destruct (number_exp s3) as [[e s4]|] eqn:Ee; [|discriminate].
  injection H as <- <-.
  assert (H3 : s3 <> []).
  { intros ->. simpl in Ee. injection Ee as <- <-. congruence. }
  assert (H2 : s2 <> []).
  { intros ->. simpl in Ef. injection Ef as <- <-. congruence. }
  rewrite (take_digits_app _ _ _ post Ed H2).
  rewrite (number_frac_app _ _ _ post Ef H3).
  rewrite (number_exp_app _ _ _ post Ee Hr). rewrite Ez. reflexivity.
Qed.

Lemma parse_number_app (s l r post : str) :
  parse_number s = Some (l, r) -> r <> [] ->
  parse_number (s ++ post) = Some (l, r ++ post).
Proof.
  rewrite !parse_number_stages. intros H Hr. destruct s as [|c t].
  - unfold number_body in H. simpl in H. discriminate.
  - cbn [app]. destruct (is_char "-" c) eqn:E.
    + apply number_body_app; assumption.
    + apply (number_body_app [] (c :: t)); assumption.
Qed.

Lemma skip_ws_app (s post : str) (c : ascii) (t : str) :
  skip_ws s = c :: t -> skip_ws (s ++ post) = c :: t ++ post.
Proof.
  induction s as [|x s IH]; intros H; [discriminate|].
  simpl in H. simpl app. cbn [skip_ws]. destruct (json_ws x).
  - apply IH. exact H.
  - injection H as <- <-. reflexivity.
Qed.

Lemma skip_ws_split (s : str) :
  exists ws, s = ws ++ skip_ws s /\ forallb json_ws ws = true.
Proof.
  induction s as [|x s IH].
  - exists []. split; reflexivity.
  - simpl. destruct (json_ws x) eqn:E.
    + destruct IH as (ws & Hs & Hw). exists (x :: ws). simpl.
      rewrite E, Hw. split; [congruence|reflexivity].
    + exists []. split; reflexivity.
Qed.

Lemma skip_ws_head (s : str) (c : ascii) (t : str) :
  skip_ws s = c :: t -> json_ws c = false.
Proof.
  induction s as [|x s IH]; intros H; [discriminate|].
  simpl in H. destruct (json_ws x) eqn:E; [apply IH; exact H|].
  injection H as <- <-. exact E.
Qed.

Lemma skip_ws_stop (c : ascii) (t : str) :
  json_ws c = false -> skip_ws (c :: t) = c :: t.
Proof. intros H. simpl. now rewrite H. Qed.

Lemma parse_chars_app (n : nat) : forall s acc x r post,
  length s <= n ->
  parse_chars s acc = Some (x, r) ->
  parse_chars (s ++ post) acc = Some (x, r ++ post).
Proof.
  induction n as [|n IH]; intros s acc x r post Hn H.
  - destruct s; [discriminate|simpl in Hn; lia].
  - destruct s as [|c t]; [discriminate|].
    simpl in Hn. cbn [app]. cbn [parse_chars] in H |- *.
    destruct (is_char dquote c).
    + injection H as <- <-. reflexivity.
    + destruct (code c <? 32); [discriminate|].
      destruct (is_char "\" c).
      * destruct t as [|e t1]; [discriminate|]. cbn [app].
        destruct (is_char "u" e).
        -- destruct t1 as [|h1 [|h2 [|h3 [|h4 t2]]]]; try discriminate.
           cbn [app].
           destruct (hex_val h1) as [[|?]|]; try discriminate.
           destruct (hex_val h2) as [[|?]|]; try discriminate.
           destruct (hex_val h3) as [a|]; try discriminate.
           destruct (hex_val h4) as [b|]; try discriminate.
           apply IH; [simpl in Hn; lia|exact H].
        -- destruct (unescape e); [|discriminate].
           apply IH; [simpl in Hn; lia|exact H].
      * apply IH; [lia|exact H].
Qed.

Lemma strip_prefix_app (p s r post : str) :
  strip_prefix p s = Some r -> strip_prefix p (s ++ post) = Some (r ++ post).
Proof.
  unfold strip_prefix. destruct (startsWith p s) eqn:E; [|discriminate].
  intros H. injection H as <-.
  apply startsWith_iff in E. destruct E as [t ->].
  rewrite <- app_assoc, startsWith_app.
  rewrite !skipn_app, !skipn_all, Nat.sub_diag. reflexivity.
Qed.

(** A value that [JSON.parse] reads from a text is read in the same way
    when the text goes on, unless it is a number at the very end. *)
Lemma parse_app (f : nat) :
  (forall s v r post, parse_value f s = Some (v, r) ->
     is_number v = false \/ r <> [] ->
     parse_value f (s ++ post) = Some (v, r ++ post)) /\
  (forall s fs r post, parse_members f s = Some (fs, r) ->
     parse_members f (s ++ post) = Some (fs, r ++ post)) /\
  (forall s vs r post, parse_elements f s = Some (vs, r) ->
     parse_elements f (s ++ post) = Some (vs, r ++ post)).
Proof.
  induction f as [|f (IHv & IHm & IHe)]; [repeat split; discriminate|].
  assert (Hnext : forall r c t, skip_ws r = c :: t -> r <> []).
  { intros r c t H ->. discriminate. }
  split; [|split].
  - intros s v r post H Hv. cbn [parse_value] in H |- *.
    destruct (skip_ws s) as [|c t] eqn:Es; [discriminate|].
    rewrite (skip_ws_app _ post _ _ Es).
    destruct (is_char "{" c).
    { destruct (skip_ws t) as [|c1 t1] eqn:Et; [discriminate|].
      rewrite (skip_ws_app _ post _ _ Et).
      destruct (is_char "}" c1); [injection H as <- <-; reflexivity|].
      destruct (parse_members f (c1 :: t1)) as [[fs r']|] eqn:Em; [|discriminate].
      injection H as <- <-.
      change (c1 :: t1 ++ post) with ((c1 :: t1) ++ post).
      rewrite (IHm _ _ _ post Em). reflexivity. }
    destruct (is_char "[" c).
    { destruct (skip_ws t) as [|c1 t1] eqn:Et; [discriminate|].
      rewrite (skip_ws_app _ post _ _ Et).
      destruct (is_char "]" c1); [injection H as <- <-; reflexivity|].
      destruct (parse_elements f (c1 :: t1)) as [[vs r']|] eqn:Em; [|discriminate].
      injection H as <- <-.
      change (c1 :: t1 ++ post) with ((c1 :: t1) ++ post).
      rewrite (IHe _ _ _ post Em). reflexivity. }
    destruct (is_char dquote c).
    { destruct (parse_chars t []) as [[x r']|] eqn:Ec; [|discriminate].
      injection H as <- <-.
      rewrite (parse_chars_app (length t) t [] x r' post (le_n _) Ec).
      reflexivity. }
    destruct (is_char "t" c).
    { destruct (strip_prefix (lit "rue") t) as [r'|] eqn:Ep; [|discriminate].
      injection H as <- <-. rewrite (strip_prefix_app _ _ _ post Ep). reflexivity. }
    destruct (is_char "f" c).
    { destruct (strip_prefix (lit "alse") t) as [r'|] eqn:Ep; [|discriminate].
      injection H as <- <-. rewrite (strip_prefix_app _ _ _ post Ep). reflexivity. }
    destruct (is_char "n" c).
    { destruct (strip_prefix (lit "ull") t) as [r'|] eqn:Ep; [|discriminate].
      injection H as <- <-. rewrite (strip_prefix_app _ _ _ post Ep). reflexivity. }
    destruct (parse_number (c :: t)) as [[l r']|] eqn:En; [|discriminate].
    injection H as <- <-.
    destruct Hv as [Hv|Hv]; [discriminate|].
    change (c :: t ++ post) with ((c :: t) ++ post).
    rewrite (parse_number_app _ _ _ post En Hv). reflexivity.
  - intros s fs r post H. cbn [parse_members] in H |- *.
    destruct (skip_ws s) as [|c t] eqn:Es; [discriminate|].
    rewrite (skip_ws_app _ post _ _ Es).
    destruct (is_char dquote c); [|discriminate].
    destruct (parse_chars t []) as [[k r1]|] eqn:Ec; [|discriminate].
    rewrite (parse_chars_app (length t) t [] k r1 post (le_n _) Ec).
    destruct (skip_ws r1) as [|c1 r2] eqn:E1; [discriminate|].
    rewrite (skip_ws_app _ post _ _ E1).
    destruct (is_char ":" c1); [|discriminate].
    destruct (parse_value f r2) as [[v r3]|] eqn:Ev; [|discriminate].
    destruct (skip_ws r3) as [|c2 r4] eqn:E3; [discriminate|].
    rewrite (IHv _ _ _ post Ev (or_intror (Hnext _ _ _ E3))).
    rewrite (skip_ws_app _ post _ _ E3).
    destruct (is_char "," c2).
    { destruct (parse_members f r4) as [[fs' r5]|] eqn:Em; [|discriminate].
      injection H as <- <-. rewrite (IHm _ _ _ post Em). reflexivity. }
    destruct (is_char "}" c2); [|discriminate].
    injection H as <- <-. reflexivity.
  - intros s vs r post H. cbn [parse_elements] in H |- *.
    destruct (parse_value f s) as [[v r1]|] eqn:Ev; [|discriminate].
    destruct (skip_ws r1) as [|c r2] eqn:E1; [discriminate|].
    rewrite (IHv _ _ _ post Ev (or_intror (Hnext _ _ _ E1))).
    rewrite (skip_ws_app _ post _ _ E1).
    destruct (is_char "," c).
    { destruct (parse_elements f r2) as [[vs' r3]|] eqn:Em; [|discriminate].
      injection H as <- <-. rewrite (IHe _ _ _ post Em). reflexivity. }
    destruct (is_char "]" c); [|discriminate].
    injection H as <- <-. reflexivity.
Qed.

(** More fuel does not change what is read. *)
Lemma parse_more_fuel (f : nat) :
  (forall s x, parse_value f s = Some x -> parse_value (S f) s = Some x) /\
  (forall s x, parse_members f s = Some x -> parse_members (S f) s = Some x) /\
  (forall s x, parse_elements f s = Some x -> parse_elements (S f) s = Some x).
Proof.
  induction f as [|f (IHv & IHm & IHe)]; [repeat split; discriminate|].
  remember (S f) as g eqn:Hg. split; [|split].
  - intros s x H. rewrite Hg in H. cbn [parse_value] in H |- *.
    destruct (skip_ws s) as [|c t]; [discriminate|].
    destruct (is_char "{" c).
    { destruct (skip_ws t) as [|c1 t1]; [discriminate|].
      destruct (is_char "}" c1); [exact H|].
      destruct (parse_members f (c1 :: t1)) as [[fs r']|] eqn:Em; [|discriminate].
      apply IHm in Em. rewrite Em. exact H. }
    destruct (is_char "[" c).
    { destruct (skip_ws t) as [|c1 t1]; [discriminate|].
      destruct (is_char "]" c1); [exact H|].
      destruct (parse_elements f (c1 :: t1)) as [[vs r']|] eqn:Em; [|discriminate].
      apply IHe in Em. rewrite Em. exact H. }
    exact H.
  - intros s x H. rewrite Hg in H. cbn [parse_members] in H |- *.
    destruct (skip_ws s) as [|c t]; [discriminate|].
    destruct (is_char dquote c); [|discriminate].
    destruct (parse_chars t []) as [[k r1]|]; [|discriminate].
    destruct (skip_ws r1) as [|c1 r2]; [discriminate|].
    destruct (is_char ":" c1); [|discriminate].
    destruct (parse_value f r2) as [[v r3]|] eqn:Ev; [|discriminate].
    apply IHv in Ev. rewrite Ev.
    destruct (skip_ws r3) as [|c2 r4]; [discriminate|].
    destruct (is_char "," c2); [|exact H].
    destruct (parse_members f r4) as [[fs' r5]|] eqn:Em; [|discriminate].
    apply IHm in Em. rewrite Em. exact H.
  - intros s x H. rewrite Hg in H. cbn [parse_elements] in H |- *.
    destruct (parse_value f s) as [[v r1]|] eqn:Ev; [|discriminate].
    apply IHv in Ev. rewrite Ev.
    destruct (skip_ws r1) as [|c r2]; [discriminate|].
    destruct (is_char "," c); [|exact H].
    destruct (parse_elements f r2) as [[vs' r3]|] eqn:Em; [|discriminate].
    apply IHe in Em. rewrite Em. exact H.
Qed.

Lemma parse_value_fuel (f f' : nat) (s : str) (x : json * str) :
  parse_value f s = Some x -> f <= f' -> parse_value f' s = Some x.
Proof.
  intros H Hle. induction Hle as [|m Hle IH]; [exact H|].
  apply parse_more_fuel. exact IH.
Qed.


Lemma JSON_parse_prefix (t post : str) (v obj : json) :
  JSON_parse t = Some v -> is_number v = false ->
  JSON_parse (t ++ post) = Some obj -> v = obj.
Proof.
  unfold JSON_parse. intros H Hv H2.
  destruct (parse_value (2 * length t + 2) t) as [[v' r]|] eqn:E; [|discriminate].
  destruct (skip_ws r); [|discriminate]. injection H as ->.
  apply (proj1 (parse_app _)) with (post := post) in E; [|left; exact Hv].
  apply parse_value_fuel with (f' := 2 * length (t ++ post) + 2) in E;
    [|rewrite length_app; lia].
  rewrite E in H2. destruct (skip_ws (r ++ post)); [|discriminate].
  congruence.
Qed.

(** A value that passes the validity check is an object with a
    property. *)
Lemma valid_object (v : json) :
  BaseResponseParser.validateJsonStructure (Some v) = true ->
  exists kv fs, v = JObj (kv :: fs).
Proof.
  destruct v as [|b|l|s|items|[|kv fs]]; eauto;
    unfold BaseResponseParser.validateJsonStructure;
    cbn [truthy is_object typeof negb]; rewrite ?orb_true_r;
    try discriminate; cbn [orb]; intros H; vm_compute in H; discriminate.
Qed.

(** A text read as an object with a property begins, after white space,
    with an opening brace and, after white space, a double quote. *)
Lemma object_text (t : str) (kv : str * json) (fs : list (str * json)) :
  JSON_parse t = Some (JObj (kv :: fs)) ->
  exists ws1 ws2 t2, t = ws1 ++ "{"%char :: ws2 ++ dquote :: t2 /\
    forallb json_ws ws1 = true /\ forallb json_ws ws2 = true.
Proof.
  unfold JSON_parse.
  destruct (parse_value (2 * length t + 2) t) as [[v r]|] eqn:E; [|discriminate].
  destruct (skip_ws r); [|discriminate]. intros H. injection H as ->.
  rewrite Nat.add_comm in E.
  change (2 + 2 * length t) with (S (S (2 * length t))) in E.
  remember (2 * length t) as m eqn:Hm. remember (S m) as g eqn:Hgm.
  cbn [parse_value] in E.
  destruct (skip_ws_split t) as (ws1 & Ht & Hw1).
  destruct (skip_ws t) as [|c t'] eqn:Es; [discriminate|].
  destruct (is_char "{" c) eqn:Ec.
  - apply is_char_true in Ec. subst c.
    destruct (skip_ws_split t') as (ws2 & Ht' & Hw2).
    destruct (skip_ws t') as [|c1 t1] eqn:Es'; [discriminate|].
    destruct (is_char "}" c1); [discriminate|].
    pose proof (skip_ws_head _ _ _ Es') as Hc1.
    destruct (parse_members g (c1 :: t1)) as [[fs' r']|] eqn:Em; [|discriminate].
    rewrite Hgm in Em. cbn [parse_members] in Em.
    rewrite (skip_ws_stop _ _ Hc1) in Em.
    destruct (is_char dquote c1) eqn:Eq; [|discriminate].
    apply is_char_true in Eq. subst c1.
    exists ws1, ws2, t1. rewrite Ht, Ht'. auto.
  - exfalso. destruct (is_char "[" c).
    { destruct (skip_ws t') as [|c1 t1]; [discriminate|].
      destruct (is_char "]" c1); [discriminate|].
      destruct (parse_elements _ _) as [[? ?]|]; discriminate. }
    destruct (is_char dquote c).
    { destruct (parse_chars t' []) as [[? ?]|]; discriminate. }
    destruct (is_char "t" c).
    { destruct (strip_prefix _ t'); discriminate. }
    destruct (is_char "f" c).
    { destruct (strip_prefix _ t'); discriminate. }
    destruct (is_char "n" c).
    { destruct (strip_prefix _ t'); discriminate. }
    destruct (parse_number (c :: t')) as [[? ?]|]; discriminate.
Qed.

Lemma last_cons (l : str) : forall d y, last (y :: l) d = last l y.
Proof.
  induction l as [|z l IH]; intros d y; [reflexivity|].
  change (last (y :: z :: l) d) with (last (z :: l) d).
  rewrite !IH. reflexivity.
Qed.

Lemma guarded_app (a b : str) : forall p,
  guarded p (a ++ b) = guarded p a && guarded (last a p) b.
Proof.
  induction a as [|x a IH]; intros p; [reflexivity|].
  simpl app. cbn [guarded]. rewrite IH, andb_assoc, last_cons. reflexivity.
Qed.

Lemma last_app_cons (a : str) (x : ascii) (b : str) (d : ascii) :
  last (a ++ x :: b) d = last (x :: b) d.
Proof.
  induction a as [|y a IH]; [reflexivity|].
  simpl app. rewrite <- IH. destruct (a ++ x :: b) eqn:E; [|reflexivity].
  destruct a; discriminate.
Qed.

(** In a guarded text that begins with an opening brace and a double
    quote, that quote is the only one that can open a first key. *)
Lemma guard_first (R2 a more : str) :
  guarded dquote R2 = true ->
  "{"%char :: dquote :: R2 = a ++ dquote :: more ->
  a <> [] -> opens_key (last a "x"%char) = true -> a = ["{"%char].
Proof.
  intros Hg E Hne Hlast.
  destruct a as [|x a]; [congruence|]. injection E as Ex E. subst x.
  destruct a as [|y a]; [reflexivity|]. exfalso.
  injection E as Ey E. subst y. rewrite E, guarded_app in Hg.
  apply andb_true_iff in Hg. destruct Hg as [_ Hg].
  cbn [guarded] in Hg. apply andb_true_iff in Hg. destruct Hg as [Hg _].
  rewrite is_char_refl in Hg.
  assert (El : last ("{"%char :: dquote :: a) "x"%char = last a dquote).
  { rewrite !last_cons. reflexivity. }
  rewrite El in Hlast. rewrite Hlast in Hg. discriminate.
Qed.

Lemma last_ws (ws : str) (d : ascii) :
  ws <> [] -> forallb json_ws ws = true -> json_ws (last ws d) = true.
Proof.
  induction ws as [|x ws IH]; intros Hne H; [congruence|].
  simpl in H. apply andb_true_iff in H. destruct H as [Hx Hw].
  destruct ws as [|y ws]; [exact Hx|].
  change (last (x :: y :: ws) d) with (last (y :: ws) d).
  apply IH; [discriminate|exact Hw].
Qed.

(** In a guarded text that is read as [obj], every piece that is read as
    a valid value is read as [obj]. *)
Lemma no_other_object (R2 : str) (obj : json) :
  guarded dquote R2 = true ->
  JSON_parse ("{"%char :: dquote :: R2) = Some obj ->
  forall pre t post v,
    "{"%char :: dquote :: R2 = pre ++ t ++ post ->
    BaseResponseParser.parse_valid t = Some v -> v = obj.
Proof.
  intros Hg Hobj pre t post v HR Hv.
  unfold BaseResponseParser.parse_valid in Hv.
  destruct (JSON_parse t) as [v'|] eqn:Ep; [|discriminate].
  destruct (BaseResponseParser.validateJsonStructure (Some v')) eqn:Ev;
    [|discriminate].
  injection Hv as ->.
  destruct (valid_object _ Ev) as (kv & fs & ->).
  destruct (object_text _ _ _ Ep) as (ws1 & ws2 & t2 & Ht & Hw1 & Hw2).
  assert (Ha : pre ++ ws1 ++ "{"%char :: ws2 = ["{"%char]).
  { apply (guard_first R2 _ (t2 ++ post) Hg).
    - rewrite HR, Ht, <- !app_assoc. simpl. rewrite <- !app_assoc. reflexivity.
    - destruct pre; destruct ws1; discriminate.
    - rewrite app_assoc, last_app_cons.
      destruct ws2 as [|w ws2]; [reflexivity|].
      change (last ("{"%char :: w :: ws2) "x"%char) with (last (w :: ws2) "x"%char).
      unfold opens_key. rewrite last_ws by (discriminate || exact Hw2).
      apply orb_true_r. }
  destruct pre as [|x pre].
  2:{ exfalso. injection Ha as _ Ha. destruct pre; destruct ws1; discriminate. }
  destruct ws1 as [|x ws1].
  2:{ exfalso. injection Ha as _ Ha. destruct ws1; discriminate. }
  simpl in HR. rewrite HR in Hobj.
  eapply JSON_parse_prefix; [exact Ep|reflexivity|exact Hobj].
Qed.

(* ================================================================== *)
(** * Pieces of a text *)

Lemma trimStart_split (s : str) : exists a, s = a ++ trimStart s.
Proof.
  induction s as [|c s IH]; [exists []; reflexivity|].
  simpl. destruct (is_space c); [|exists []; reflexivity].
  destruct IH as [a Ha]. exists (c :: a). simpl. congruence.
Qed.

Lemma trim_piece (s : str) : exists a b, s = a ++ trim s ++ b.
Proof.
  destruct (trimStart_split s) as [a Ha].
  destruct (trimStart_split (rev (trimStart s))) as [b Hb].
  exists a, (rev b). unfold trim, trimEnd.
  rewrite Ha at 1. f_equal.
  transitivity (rev (rev (trimStart s))); [symmetry; apply rev_involutive|].
  rewrite Hb at 1. rewrite rev_app_distr. reflexivity.
Qed.

Lemma substring_piece (i j : nat) (s : str) :
  exists a b, s = a ++ substring i j s ++ b.
Proof.
  exists (firstn i s), (skipn (j - i) (skipn i s)). unfold substring.
  rewrite firstn_skipn, firstn_skipn. reflexivity.
Qed.

Lemma piece_trans (s t u : str) :
  (exists a b, s = a ++ t ++ b) -> (exists a b, t = a ++ u ++ b) ->
  exists a b, s = a ++ u ++ b.
Proof.
  intros (a & b & ->) (a' & b' & ->). exists (a ++ a'), (b' ++ b).
  rewrite <- !app_assoc. reflexivity.
Qed.

Lemma cleanFence_piece (interior : str) :
  exists a b, interior = a ++ BaseResponseParser.cleanFence interior ++ b.
Proof.
  unfold BaseResponseParser.cleanFence.
  destruct (indexOf (lit "{") (trim interior)) as [i|];
    [|apply trim_piece].
  destruct (lastIndexOf (lit "}") (trim interior)) as [j|];
    [|apply trim_piece].
  destruct (i <? j); [|apply trim_piece].
  apply (piece_trans interior (trim interior)); [apply trim_piece|].
  apply substring_piece.
Qed.

(** What the pattern of the json fence captures is a piece of the
    text. *)
Lemma fence_group (R : str) (m : mres) (w : str) :
  rmatch BaseResponseParser.jsonFence R = Some m -> group 1 m = Some w ->
  exists a b, R = a ++ w ++ b.
Proof.
  unfold rmatch, exec_at, start_state. simpl prev. simpl pos. simpl rest.
  intros H Hg. unfold group in Hg. rewrite (exec_from_caps _ _ _ _ _ H) in Hg.
  apply exec_from_some in H. destruct H as (pre & s1 & -> & H).
  unfold BaseResponseParser.jsonFence in H. cbn [seqs] in H.
  rewrite mt_Seq in H. unfold Lit in H at 1. apply mt_Str_some in H.
  destruct H as (t1 & Hr & H). simpl rest in Hr. subst s1.
  cbn [prev pos caps] in H.
  rewrite mt_Seq in H. unfold star in H at 1. rewrite mt_Rep in H.
  apply rep_some in H. destruct H as (w0 & t2 & -> & _ & _ & _ & H).
  rewrite mt_Seq, mt_Cap in H. unfold lazy_star in H. rewrite mt_Rep in H.
  apply rep_some in H. destruct H as (w1 & t3 & -> & _ & _ & _ & H).
  cbv beta in H. rewrite mt_Seq in H. unfold star in H. 
  unfold set_cap in H. cbn [prev pos rest caps] in H. rewrite mt_Rep in H.
  apply rep_some in H. destruct H as (w2 & t4 & -> & _ & _ & _ & H).
  unfold Lit in H. apply mt_Str_some in H. destruct H as (t5 & _ & H).
  cbn [caps] in H. injection H as H. rewrite <- H in Hg. cbn [caps get_cap] in Hg.
  simpl in Hg. injection Hg as <-.
  match goal with
  | |- context [firstn ?n (w1 ++ w2 ++ t4)] =>
      replace n with (length w1 + 0) by lia
  end.
  rewrite firstn_app_2. simpl firstn. rewrite app_nil_r.
  exists (pre ++ lit "```json" ++ w0), (w2 ++ t4).
  rewrite <- !app_assoc. reflexivity.
Qed.

Lemma firstValid_some (l : list str) (v : json) :
  BaseResponseParser.firstValid l = Some v ->
  exists c, In c l /\ BaseResponseParser.parse_valid c = Some v.
Proof.
  induction l as [|c l IH]; [discriminate|]. simpl.
  destruct (BaseResponseParser.parse_valid c) eqn:E.
  - intros H. injection H as <-. exists c. split; [left; reflexivity|exact E].
  - intros H. destruct (IH H) as (c' & Hin & Hc'). exists c'.
    split; [right; exact Hin|exact Hc'].
Qed.

(** Whichever way [extractJson] finds a value, it is a valid reading of
    a piece of the response. *)
Lemma extractJson_piece (response : str) (v : json) :
  BaseResponseParser.extractJson response = Some v ->
  exists pre t post, response = pre ++ t ++ post /\
                     BaseResponseParser.parse_valid t = Some v.
Proof.
  unfold BaseResponseParser.extractJson.
  destruct (trim response) eqn:Et; [discriminate|]. rewrite <- Et. clear Et.
  destruct (BaseResponseParser.fromFence response) as [p|] eqn:Ef.
  - intros H. injection H as <-. unfold BaseResponseParser.fromFence in Ef.
    destruct (rmatch BaseResponseParser.jsonFence response) as [m|] eqn:Em;
      [|discriminate].
    destruct (group 1 m) as [interior|] eqn:Eg; [|discriminate].
    destruct (piece_trans response interior (BaseResponseParser.cleanFence interior)
                (fence_group _ _ _ Em Eg) (cleanFence_piece interior))
      as (x1 & x2 & Hab).
    exists x1, (BaseResponseParser.cleanFence interior), x2. auto.
  - destruct (BaseResponseParser.firstValid
                (BaseResponseParser.findJsonObjects response)) as [p|] eqn:Ev.
    + intros H. injection H as <-. apply firstValid_some in Ev.
      destruct Ev as (c & Hin & Hc). apply findJsonObjects_pieces in Hin.
      destruct Hin as (_ & pre & post & Hp). exists pre, c, post. auto.
    + intros H. destruct (trim_piece response) as (x1 & x2 & Hab).
      exists x1, (trim response), x2. auto.
Qed.

(* ================================================================== *)
(** * The response built without the service *)

Lemma quote_guard (c : ascii) (more : str) (p : ascii) :
  guarded p (quote_char c ++ more)
  = guarded (last (quote_char c) p) more.
Proof. destruct c as [[] [] [] [] [] [] [] []]; reflexivity. Qed.

Lemma last_app (a b : str) (d : ascii) : last (a ++ b) d = last b (last a d).
Proof.
  revert d. induction a as [|x a IH]; intros d; [reflexivity|].
  simpl app. rewrite !last_cons. apply IH.
Qed.

Lemma guarded_quoted (s : str) : forall p more,
  guarded p (flat_map quote_char s ++ more)
  = guarded (last (flat_map quote_char s) p) more.
Proof.
  induction s as [|c s IH]; intros p more; [reflexivity|].
  simpl flat_map. rewrite <- app_assoc, quote_guard, IH, last_app. reflexivity.
Qed.

Lemma last_quoted_default (s : str) (p : ascii) :
  opens_key p = false -> safe_end s = true ->
  opens_key (last (flat_map quote_char s) p) = false.
Proof.
  unfold safe_end. intros Hp H. apply negb_true_iff in H.
  destruct (flat_map quote_char s) as [|x l]; [exact Hp|].
  rewrite last_cons. rewrite last_cons in H. exact H.
Qed.

Lemma guarded_Quote (s more : str) (p : ascii) :
  opens_key p = false -> safe_end s = true ->
  guarded p (QuoteJSONString s ++ more) = guarded dquote more.
Proof.
  intros Hp Hs. unfold QuoteJSONString. simpl app. cbn [guarded].
  rewrite Hp, andb_false_r. cbn [negb andb].
  rewrite <- app_assoc, guarded_quoted. simpl app. cbn [guarded].
  rewrite (last_quoted_default s dquote eq_refl Hs), andb_false_r. reflexivity.
Qed.

Lemma guarded_member (k v more : str) (p : ascii) :
  opens_key p = false -> safe_end k = true -> safe_end v = true ->
  guarded p (member (k, v) ++ more) = guarded dquote more.
Proof.
  intros Hp Hk Hv. unfold member. cbn [fst snd]. rewrite <- !app_assoc.
  rewrite guarded_Quote by assumption.
  change (lit ":" ++ QuoteJSONString v ++ more)
    with (":"%char :: QuoteJSONString v ++ more).
  cbn [guarded]. change (is_char dquote ":") with false. cbn [andb negb].
  apply guarded_Quote; [reflexivity|exact Hv].
Qed.

Lemma guarded_members (ms : list (str * str)) : forall p,
  opens_key p = false ->
  forallb (fun kv => safe_end (fst kv) && safe_end (snd kv)) ms = true ->
  guarded p (join (lit ",") (map member ms) ++ lit "}") = true.
Proof.
  induction ms as [|[k v] ms IH]; intros p Hp H; [reflexivity|].
  simpl in H. apply andb_true_iff in H. destruct H as [Hkv H].
  apply andb_true_iff in Hkv. destruct Hkv as [Hk Hv].
  destruct ms as [|kv2 ms].
  - cbn [map join]. rewrite guarded_member by assumption. reflexivity.
  - change (join (lit ",") (map member ((k, v) :: kv2 :: ms)))
      with (member (k, v) ++ lit "," ++ join (lit ",") (map member (kv2 :: ms))).
    rewrite <- !app_assoc. rewrite guarded_member by assumption.
    change (lit "," ++ join (lit ",") (map member (kv2 :: ms)) ++ lit "}")
      with (","%char :: join (lit ",") (map member (kv2 :: ms)) ++ lit "}").
    cbn [guarded]. change (is_char dquote ",") with false. cbn [andb negb].
    apply IH; [reflexivity|exact H].
Qed.

Lemma safe_defined (properties : list (str * option str)) :
  forallb safe_property properties = true ->
  forallb (fun kv => safe_end (fst kv) && safe_end (snd kv))
          (defined_properties properties) = true.
Proof.
  induction properties as [|[k [v|]] l IH]; intros H; [reflexivity| |].
  - simpl in H. apply andb_true_iff in H. destruct H as [Hkv H].
    simpl. rewrite IH by exact H. unfold safe_property in Hkv. simpl in Hkv.
    rewrite Hkv. reflexivity.
  - simpl in H. apply andb_true_iff in H. destruct H as [_ H].
    simpl. apply IH. exact H.
Qed.

(** In what [JSON.stringify] writes for an object of strings that end
    safely, the only piece that [extractJson] can take for a valid value
    is the whole: the response is read as the object that was written. *)
Lemma extractJson_stringify (properties : list (str * option str)) :
  forallb safe_property properties = true ->
  BaseResponseParser.validateJsonStructure
    (Some (JObj (written_properties properties))) = true ->
  BaseResponseParser.extractJson (JSON_stringify properties)
  = Some (JObj (written_properties properties)).
Proof.
  intros Hsafe Hvalid.
  pose proof (stringify_parse properties) as Hparse.
  assert (Hne : defined_properties properties <> []).
  { intros E. rewrite written_defined, E in Hvalid. vm_compute in Hvalid.
    discriminate. }
  assert (Hform : exists R2, JSON_stringify properties
                             = "{"%char :: dquote :: R2 /\
                             guarded dquote R2 = true).
  { unfold JSON_stringify. rewrite stringify_members.
    pose proof (guarded_members (defined_properties properties) "x"%char
                  eq_refl (safe_defined _ Hsafe)) as Hg.
    destruct (defined_properties properties) as [|[k v] ms]; [congruence|].
    assert (Hq : exists x, join (lit ",") (map member ((k, v) :: ms)) ++ lit "}"
                           = dquote :: x).
    { destruct ms; simpl; eexists; reflexivity. }
    destruct Hq as [x Hq]. rewrite Hq in Hg |- *.
    exists x. split; [reflexivity|].
    cbn [guarded] in Hg. exact Hg. }
  destruct Hform as (R2 & HR & Hg). rewrite HR in Hparse.
  assert (Hwhole : BaseResponseParser.parse_valid (JSON_stringify properties)
                   = Some (JObj (written_properties properties))).
  { unfold BaseResponseParser.parse_valid. rewrite HR, Hparse, Hvalid.
    reflexivity. }
  assert (Htrim : trim (JSON_stringify properties) = JSON_stringify properties).
  { unfold JSON_stringify.
    assert (Hm : exists m, lit "{" ++ join (lit ",")
                   (flat_map SerializeJSONProperty properties) ++ lit "}"
                 = "{"%char :: m ++ ["}"%char]) by (eexists; reflexivity).
    destruct Hm as [m Hm]. rewrite Hm.
    pose proof (trim_core [] [] "{"%char "}"%char m eq_refl eq_refl eq_refl eq_refl)
      as H. simpl app in H. rewrite app_nil_r in H. exact H. }
  destruct (BaseResponseParser.extractJson (JSON_stringify properties))
    as [v|] eqn:E.
  - apply extractJson_piece in E. destruct E as (pre & t & post & Hp & Hv).
    rewrite HR in Hp.
    rewrite (no_other_object R2 _ Hg Hparse pre t post v Hp Hv). reflexivity.
  - exfalso. unfold BaseResponseParser.extractJson in E.
    rewrite Htrim in E.
    destruct (JSON_stringify properties) as [|c r] eqn:Es; [discriminate|].
    destruct (BaseResponseParser.fromFence (c :: r)); [discriminate|].
    destruct (BaseResponseParser.firstValid _); [discriminate|].
    congruence.
Qed.

Section Fallback.

Import CreateServerCommand.

Lemma quoted_nonempty (s : str) : s <> [] -> flat_map quote_char s <> [].
Proof.
  destruct s as [|c s]; [congruence|]. intros _. simpl.
  destruct c as [[] [] [] [] [] [] [] []]; discriminate.
Qed.

Lemma safe_end_app (a b : str) : b <> [] -> safe_end (a ++ b) = safe_end b.
Proof.
  intros Hb. unfold safe_end. rewrite flat_map_app, last_app.
  pose proof (quoted_nonempty b Hb) as Hq.
  destruct (flat_map quote_char b) as [|x l]; [congruence|].
  rewrite !last_cons. reflexivity.
Qed.

Lemma fallbackReadme_safe (options : GenerationOptions) :
  safe_end (fallbackReadme options) = true.
Proof.
  unfold fallbackReadme. rewrite !app_assoc.
  rewrite safe_end_app by discriminate. vm_compute. reflexivity.
Qed.

Lemma getUsageExample_safe (language serverName : str) :
  safe_end (getUsageExample language serverName) = true.
Proof.
  unfold getUsageExample.
  destruct (str_eqb language (lit "python")); rewrite !app_assoc;
    rewrite safe_end_app by discriminate; vm_compute; reflexivity.
Qed.

Lemma getInstallSection_safe (language v : str) :
  getInstallSection language = Some v -> safe_end v = true.
Proof.
  unfold getInstallSection.
  destruct (_ || _); [intros H; injection H as <-; vm_compute; reflexivity|].
  destruct (str_eqb _ _); [|discriminate].
  intros H; injection H as <-; vm_compute; reflexivity.
Qed.

Lemma fallback_safe (options : GenerationOptions) :
  forallb safe_property (fallbackProperties options) = true.
Proof.
  unfold fallbackProperties. cbn [forallb]. unfold safe_property. cbn [fst snd].
  rewrite fallbackReadme_safe, getUsageExample_safe.
  destruct (getInstallSection (language options)) as [v|] eqn:E;
    [rewrite (getInstallSection_safe _ _ E)|]; vm_compute; reflexivity.
Qed.

Lemma fallback_valid (options : GenerationOptions) :
  BaseResponseParser.validateJsonStructure
    (Some (JObj (written_properties (fallbackProperties options)))) = true.
Proof.
  unfold fallbackProperties, written_properties. cbn [flat_map fst snd app].
  assert (Hr : exists c r, fallbackReadme options = c :: r)
    by (eexists; eexists; reflexivity).
  destruct Hr as (c & r & Hr). rewrite Hr.
  destruct (getInstallSection (language options)); vm_compute; reflexivity.
Qed.

Lemma fallback_selected (options : GenerationOptions) :
  ResponseParserFactory.autoDetectParser (buildFallbackResponse options)
  = JsonResponseParser.
Proof.
  unfold ResponseParserFactory.autoDetectParser.
  assert (H : ResponseParserFactory.matches ResponseParserFactory.wholeObject
                (buildFallbackResponse options) = true).
  { apply wholeObject_iff. unfold buildFallbackResponse, JSON_stringify.
    exists [], [], (join (lit ",") (flat_map SerializeJSONProperty
                                    (fallbackProperties options))), [], [].
    repeat split. }
  rewrite H, orb_true_r. reflexivity.
Qed.

End Fallback.

(** The response that [buildFallbackResponse] builds is read back as
    the record of the fallback. *)
Lemma fallback_read (options : GenerationOptions) :
  ResponseParserFactory.parse
    (CreateServerCommand.buildFallbackResponse options)
  = Return (fallbackRecord options).
Proof.
  unfold ResponseParserFactory.parse. rewrite fallback_selected.
  unfold ResponseParserFactory.run, JsonResponseParser.parse.
  change (CreateServerCommand.buildFallbackResponse options)
    with (JSON_stringify (fallbackProperties options)).
  rewrite (extractJson_stringify _ (fallback_safe options) (fallback_valid options)).
  unfold fallbackProperties, written_properties. cbn [flat_map fst snd app].
  unfold fallbackRecord.
  destruct (CreateServerCommand.getInstallSection (language options));
    reflexivity.
Qed.

(** X12. The response that [buildFallbackResponse] builds is given to the
    structured strategy and read back as it was written: empty server
    code, the readme, the install section of the language (none for a
    language other than the three) and the usage example, whatever the
    description and the server name hold. *)
Theorem X12_fallback_parsed (options : GenerationOptions) :
  ResponseParserFactory.parse
    (CreateServerCommand.buildFallbackResponse options)
  = Return {| serverCode := jstr [];
              packageJson := undefined;
              readme := jstr (CreateServerCommand.fallbackReadme options);
              installInstructions :=
                option_map JStr
                  (CreateServerCommand.getInstallSection (language options));
              usageExample :=
                jstr (CreateServerCommand.getUsageExample
                        (language options) (serverName options));
              dependencies := undefined;
              devDependencies := undefined;
              scripts := undefined;
              additionalFiles := undefined |}.
Proof. exact (fallback_read options). Qed.

(* ================================================================== *)
(** * Rendering with values *)

Lemma X6_render_substitutes_witness :
  TemplateRegistry.renderTemplate [TemplateRegistry.getTypeScriptBasicTemplate]
    (lit "typescript-basic") demoVariables
  = Return (fst basicParts ++ withValues demoVariables (snd basicParts)) /\
  includes (lit "{{")
    (fst basicParts ++ withValues demoVariables (snd basicParts)) = false.
Proof.
  apply (X6_render_substitutes [TemplateRegistry.getTypeScriptBasicTemplate]
           (lit "typescript-basic") TemplateRegistry.getTypeScriptBasicTemplate
           demoVariables (fst basicParts) (snd basicParts)).
  - reflexivity.
  - vm_compute. reflexivity.
  - vm_compute. reflexivity.
  - vm_compute. reflexivity.
  - vm_compute. reflexivity.
Defined.

(** ** A value read as a replacement pattern *)

Lemma word_name_char (c : ascii) : is_word c = true -> name_char c = true.
Proof. destruct c as [[] [] [] [] [] [] [] []]; vm_compute; congruence. Qed.

Lemma identifier_good_name (key : str) :
  is_identifier key = true -> good_name key = true.
Proof.
  unfold is_identifier, good_name. destruct key as [|c t]; [congruence|].
  intros H. rewrite forallb_forall in *. intros x Hx.
  apply word_name_char, H, Hx.
Qed.

Lemma replace_single (key v a b : str) :
  is_identifier key = true -> inert a = true -> inert b = true ->
  TemplateRegistry.substituteAll (a ++ marker key ++ b) [(key, Some v)]
  = a ++ GetSubstitution (marker key) a b v ++ b.
Proof.
  intros Hk Ha Hb. unfold TemplateRegistry.substituteAll. cbn [fold_left fst snd].
  unfold replaceAll, start_state. cbn [TemplateRegistry.valueString].
  replace (a ++ marker key ++ b) with (a ++ withMarkers [(key, b)])
    by (cbn [withMarkers]; now rewrite app_nil_r).
  rewrite (replace_variable key v Hk [(key, b)]).
  - cbn [substituted rev app]. rewrite str_eqb_refl. cbn [withMarkers].
    rewrite !app_nil_r. reflexivity.
  - cbn [length]. rewrite length_app. cbn [withMarkers]. rewrite !length_app.
    simpl. lia.
  - exact Ha.
  - cbn [forallb]. unfold good_part. cbn [fst snd].
    rewrite (identifier_good_name key Hk), Hb. reflexivity.
Qed.

(** X7. The value of a variable is not inserted as it stands: it is read
    as a replacement pattern of [String.prototype.replace], with the
    marker as the matched text.  On a template with one marker, between
    texts that begin no marker, rendering gives the text with the marker
    replaced by the expansion of the value, when the expansion begins no
    marker. *)
Theorem X7_value_pattern (templates : TemplateRegistry.registry)
    (templateName : str) (t : TemplateRegistry.Template) (key v a b : str) :
  TemplateRegistry.getTemplate templates templateName = Some t ->
  TemplateRegistry.template t = a ++ marker key ++ b ->
  is_identifier key = true -> inert a = true -> inert b = true ->
  inert (GetSubstitution (marker key) a b v) = true ->
  TemplateRegistry.renderTemplate templates templateName [(key, Some v)]
  = Return (a ++ GetSubstitution (marker key) a b v ++ b).
Proof.
  intros Ht Hb Hk Hia Hib Hv. unfold TemplateRegistry.renderTemplate.
  rewrite Ht, Hb, replace_single by assumption. f_equal.
  pose proof (cleanLeftovers_wellformed
                (a ++ GetSubstitution (marker key) a b v ++ b) []) as H.
  cbn [withMarkers withResolutions] in H. rewrite !app_nil_r in H.
  apply H; [|reflexivity]. repeat apply inert_app; assumption.
Qed.

Lemma X7_value_pattern_witness :
  TemplateRegistry.renderTemplate [priceTemplate] (lit "price")
    [(lit "LABEL", Some (lit "US$$ 5 ($'$`)"))]
  = Return (lit "const label = 'US$ 5 (';const label = ')';").
Proof.
  apply (X7_value_pattern [priceTemplate] (lit "price") priceTemplate
           (lit "LABEL") (lit "US$$ 5 ($'$`)")
           (lit "const label = '") (lit "';")); reflexivity.
Defined.

(* ================================================================== *)
(** * The fallback response and the response check *)

Lemma lower_letter_plain (c : ascii) :
  is_lower (lower_char c) = true -> quote_char c = [c].
Proof. destruct c as [[] [] [] [] [] [] [] []]; vm_compute; congruence. Qed.

Lemma quoted_letters (d : str) :
  forallb is_lower (toLowerCase d) = true -> flat_map quote_char d = d.
Proof.
  induction d as [|c d IH]; [reflexivity|]. cbn [toLowerCase map forallb flat_map].
  intros H. apply andb_true_iff in H. destruct H as [Hc Hd].
  rewrite (lower_letter_plain c Hc). fold (toLowerCase d) in Hd.
  rewrite (IH Hd). reflexivity.
Qed.

Lemma includes_app_l (p a b : str) :
  includes p a = true -> includes p (a ++ b) = true.
Proof.
  intros H. apply includes_iff in H. destruct H as (x & y & ->).
  apply includes_iff. exists x, (y ++ b). now rewrite <- !app_assoc.
Qed.

Lemma includes_app_r (p a b : str) :
  includes p b = true -> includes p (a ++ b) = true.
Proof.
  intros H. apply includes_iff in H. destruct H as (x & y & ->).
  apply includes_iff. exists (a ++ x), y. now rewrite <- !app_assoc.
Qed.

Lemma quoted_keeps_word (p d : str) :
  forallb is_lower p = true ->
  includes p (toLowerCase d) = true ->
  includes p (toLowerCase (flat_map quote_char d)) = true.
Proof.
  intros Hp H. apply includes_iff in H. destruct H as (x & y & H).
  unfold toLowerCase in H. apply map_eq_app in H.
  destruct H as (d1 & d23 & -> & H1 & H). apply map_eq_app in H.
  destruct H as (d2 & d3 & -> & H2 & H3).
  rewrite !flat_map_app. unfold toLowerCase. rewrite !map_app.
  apply includes_app_r, includes_app_l.
  rewrite (quoted_letters d2) by (unfold toLowerCase; rewrite H2; exact Hp).
  rewrite H2. apply includes_iff. exists [], []. now rewrite app_nil_r.
Qed.

Section Holds.

Variable E : str.

Lemma holds_here (b : str) : holds E (E ++ b).
Proof. exists [], b. reflexivity. Qed.

Lemma holds_app_l (x y : str) : holds E x -> holds E (x ++ y).
Proof. intros (a & b & ->). exists a, (b ++ y). now rewrite <- !app_assoc. Qed.

Lemma holds_app_r (x y : str) : holds E y -> holds E (x ++ y).
Proof. intros (a & b & ->). exists (x ++ a), b. now rewrite <- !app_assoc. Qed.

Lemma holds_cons (c : ascii) (y : str) : holds E y -> holds E (c :: y).
Proof. intros (a & b & ->). exists (c :: a), b. reflexivity. Qed.

End Holds.

Lemma fallback_holds_description (options : GenerationOptions) :
  exists a b,
    CreateServerCommand.buildFallbackResponse options
    = a ++ flat_map quote_char (description options) ++ b.
Proof.
  unfold CreateServerCommand.buildFallbackResponse, JSON_stringify.
  cbn [flat_map SerializeJSONProperty fst snd app].
  unfold QuoteJSONString at 4. unfold CreateServerCommand.fallbackReadme.
  rewrite !flat_map_app.
  generalize (flat_map quote_char (description options)). intros E.
  destruct (CreateServerCommand.getInstallSection (language options));
    cbn [flat_map SerializeJSONProperty fst snd app join].
  - apply holds_app_r, holds_app_l, holds_app_r, holds_app_r, holds_app_l,
      holds_app_r, holds_app_r, holds_cons, holds_app_l, holds_app_r,
      holds_app_r, holds_app_r, holds_here.
  - apply holds_app_r, holds_app_l, holds_app_r, holds_app_r, holds_app_l,
      holds_app_r, holds_app_r, holds_cons, holds_app_l, holds_app_r,
      holds_app_r, holds_app_r, holds_here.
Qed.

Lemma fallback_keeps_word (options : GenerationOptions) (p : str) :
  forallb is_lower p = true ->
  includes p (toLowerCase (description options)) = true ->
  includes p (toLowerCase (CreateServerCommand.buildFallbackResponse options))
  = true.
Proof.
  intros Hp H. destruct (fallback_holds_description options) as (a & b & ->).
  unfold toLowerCase. rewrite !map_app.
  apply includes_app_r, includes_app_l. apply quoted_keeps_word; assumption.
Qed.

Lemma fallback_long (options : GenerationOptions) :
  exists rest,
    CreateServerCommand.buildFallbackResponse options
    = lit "{" ++ QuoteJSONString (lit "serverCode") ++ rest.
Proof.
  unfold CreateServerCommand.buildFallbackResponse, JSON_stringify.
  cbn [flat_map SerializeJSONProperty fst snd app].
  destruct (CreateServerCommand.getInstallSection (language options));
    cbn [flat_map SerializeJSONProperty fst snd app join];
    rewrite <- !app_assoc; eexists; reflexivity.
Qed.

Lemma fallback_response_refused (options : GenerationOptions) :
  includes (lit "error") (toLowerCase (description options)) = true ->
  includes (lit "failed") (toLowerCase (description options)) = true ->
  CodeGenerator.validateOpenAIResponse
    (CreateServerCommand.buildFallbackResponse options)
  = Throw (lit "OpenAI response indicates an error occurred during generation.").
Proof.
  intros He Hf. unfold CodeGenerator.validateOpenAIResponse.
  rewrite (fallback_keeps_word options (lit "error") eq_refl He).
  rewrite (fallback_keeps_word options (lit "failed") eq_refl Hf).
  destruct (fallback_long options) as (rest & ->).
  unfold CodeGenerator.is_blank.
  destruct (trim _) eqn:Et.
  - apply trim_nil_iff in Et. discriminate Et.
  - reflexivity.
Qed.

(** X13. When the description holds both the words error and failed, in
    any case of letters, the generator refuses the fallback response
    that [buildFallbackResponse] makes for the options: with options
    that pass their own check, [generateProject] raises the error of
    the response check and leaves the file system as it was. *)
Theorem X13_fallback_rejected (fs : NodeFs)
    (fileGenerators :
       str -> option (GenerationOptions -> ParsedResponse
                      -> Result ProjectStructure))
    (options : GenerationOptions) (w : World fs) :
  fst (CodeGenerator.validateGenerationOptions fs options w) = Return tt ->
  includes (lit "error") (toLowerCase (description options)) = true ->
  includes (lit "failed") (toLowerCase (description options)) = true ->
  CodeGenerator.generateProject fs fileGenerators options
    (CreateServerCommand.buildFallbackResponse options) w
  = (Throw (lit "Failed to generate project: OpenAI response indicates an error occurred during generation."),
     w).
Proof.
  intros Hv He Hf.
  unfold CodeGenerator.generateProject, try_catch, bind.
  pose proof (validateGenerationOptions_pure fs options w) as Hw.
  destruct (CodeGenerator.validateGenerationOptions fs options w) as [r w0].
  simpl in Hv, Hw. subst r w0. unfold CodeGenerator.lift at 1.
  rewrite (fallback_response_refused options He Hf). reflexivity.
Qed.

Lemma X13_fallback_rejected_witness :
  CodeGenerator.generateProject (SimFs []) (sim_generators readmeOnly)
    logOptions (CreateServerCommand.buildFallbackResponse logOptions) sim_start
  = (Throw (lit "Failed to generate project: OpenAI response indicates an error occurred during generation."),
     sim_start).
Proof.
  apply (X13_fallback_rejected (SimFs []) (sim_generators readmeOnly)
           logOptions sim_start); vm_compute; reflexivity.
Defined.

(* ================================================================== *)
(** * What a return of generateProject means *)

(** X14. When [generateProject] returns, the response was parsed, the
    generator of the language made a structure that passed the check,
    and the file system is what the calls of the platform left: every
    declared directory was ensured in turn, every content of the
    structure is a string, and for every entry, in the order of the
    entries, the directory of its path was ensured and [writeFileSync]
    was called with its path and its content, and returned. *)
Theorem X14_success_complete (fs : NodeFs)
    (fileGenerators :
       str -> option (GenerationOptions -> ParsedResponse
                      -> Result ProjectStructure))
    (options : GenerationOptions) (response : str) (w w' : World fs) :
  CodeGenerator.generateProject fs fileGenerators options response w
    = (Return tt, w') ->
  exists parsed structure w1,
    CodeGenerator.parseResponse response = Return parsed /\
    CodeGenerator.generateProjectStructure fileGenerators options parsed
      = Return structure /\
    CodeGenerator.validateProjectStructure structure = Return tt /\
    ensuredAll fs (outputPath options) (directories structure) w = Some w1 /\
    forallb (fun entry => is_text (snd entry)) (files structure) = true /\
    storedAll fs (outputPath options) (files structure) w1 = Some w'.
Proof.
  intros H. unfold CodeGenerator.generateProject, try_catch, bind in H.
  pose proof (validateGenerationOptions_pure fs options w) as Hw.
  destruct (CodeGenerator.validateGenerationOptions fs options w) as [[[]|m] w0];
    [|unfold throw in H; discriminate].
  simpl in Hw. subst w0. unfold CodeGenerator.lift in H.
  destruct (CodeGenerator.validateOpenAIResponse response) as [[]|m];
    [|unfold throw in H; discriminate].
  destruct (CodeGenerator.parseResponse response) as [parsed|m] eqn:Ep;
    [|unfold throw in H; discriminate].
  destruct (CodeGenerator.generateProjectStructure fileGenerators options parsed)
    as [structure|m] eqn:Eg; [|unfold throw in H; discriminate].
  destruct (CodeGenerator.validateProjectStructure structure) as [[]|m] eqn:Ev;
    [|unfold throw in H; discriminate].
  destruct (CodeGenerator.createDirectories fs (outputPath options)
              (directories structure) w) as [[[]|m] w1] eqn:Ed;
    [|unfold throw in H; discriminate].
  apply createDirectories_ensuredAll in Ed.
  rewrite createFiles_attempts in H.
  pose proof (@attemptAll_clean fs (outputPath options) (files structure) w1)
    as Hc.
  destruct (attemptAll fs (outputPath options) (files structure) w1)
    as [l w2] eqn:Ea.
  cbn [fst snd] in *.
  destruct (failures l) as [|x y]; [|unfold throw in H; discriminate].
  destruct (Hc eq_refl) as (H1 & H2 & H3).
  unfold CodeGenerator.postProcessFiles, ret in H. injection H as <-.
  exists parsed, structure, w1. repeat split; auto.
Qed.

Lemma X14_success_complete_witness :
  exists w1,
    ensuredAll (SimFs []) (outputPath sim_options)
      (directories twoDirectories) sim_start = Some w1 /\
    storedAll (SimFs []) (outputPath sim_options) (files twoDirectories) w1
    = Some {| sim_dirs := [lit "/out"; lit "/out/demo/src";
                           lit "/out/demo/dist"; lit "/out/demo"];
              sim_files := [(lit "/out/demo/server.ts", lit "code")] |}.
Proof.
  destruct (X14_success_complete (SimFs []) (sim_generators twoDirectories)
              sim_options (lit "Plain words, no code.") sim_start
              {| sim_dirs := [lit "/out"; lit "/out/demo/src";
                              lit "/out/demo/dist"; lit "/out/demo"];
                 sim_files := [(lit "/out/demo/server.ts", lit "code")] |})
    as (parsed & structure & w1 & _ & Hg & _ & Hd & _ & Hs).
  - vm_compute. reflexivity.
  - injection Hg as <-. exists w1. split; assumption.
Defined.

(* ================================================================== *)
(** * The structures of the file generators *)

Lemma define_keeps (k : str) (v : jsval) (o : object) (k' : str) :
  In k' (map fst o) -> In k' (map fst (define k v o)).
Proof.
  induction o as [|[k0 v0] o IH]; [contradiction|]. simpl.
  destruct (str_eqb k k0) eqn:E.
  - apply str_eqb_eq in E. subst k0. simpl. tauto.
  - simpl. intros [H|H]; auto.
Qed.

Lemma assign_keeps (k : str) (v : jsval) (o : object) (k' : str) :
  In k' (map fst o) -> In k' (map fst (assign_property k v o)).
Proof.
  unfold assign_property. destruct (str_eqb k _); [auto|apply define_keeps].
Qed.

Lemma Object_assign_keeps (source : json) (o : object) (k : str) :
  In k (map fst o) -> In k (map fst (Object_assign o source)).
Proof.
  unfold Object_assign. generalize (enumerable_entries source). intros l.
  revert o. induction l as [|[k0 v0] l IH]; intros o H; [exact H|].
  simpl. apply IH, assign_keeps, H.
Qed.

Lemma withAdditionalFiles_keeps (p : ParsedResponse) (o : object) (k : str) :
  In k (map fst o) -> In k (map fst (withAdditionalFiles o p)).
Proof.
  unfold withAdditionalFiles. destruct (additionalFiles p) as [source|]; [|auto].
  destruct (truthy (Some source)); [apply Object_assign_keeps|auto].
Qed.

Lemma insert_index_in (n : N) (e x : str * jsval) (m : N)
    (l : list (N * (str * jsval))) :
  In (m, x) (insert_index n e l) <-> (m, x) = (n, e) \/ In (m, x) l.
Proof.
  induction l as [|[m0 e0] l IH]; simpl.
  - split; intros [H|H]; auto.
  - destruct (n <? m0)%N; simpl; [split; intros [H|H]; auto|].
    rewrite IH. split; intros [H|[H|H]]; auto.
Qed.

Lemma indexed_entries_in (o : object) (e : str * jsval) (n : N) :
  In e o -> array_index (fst e) = Some n -> In (n, e) (indexed_entries o).
Proof.
  induction o as [|e0 o IH]; [contradiction|]. intros [H|H] Hn; simpl.
  - subst e0. rewrite Hn. apply insert_index_in. auto.
  - destruct (array_index (fst e0)); [apply insert_index_in; right|]; auto.
Qed.

(** [Object.entries] loses no property. *)
Lemma Object_entries_in (o : object) (e : str * jsval) :
  In e o -> In e (Object_entries o).
Proof.
  intros H. unfold Object_entries. apply in_or_app.
  destruct (array_index (fst e)) as [n|] eqn:E.
  - left. apply in_map_iff. exists (n, e). split; [reflexivity|].
    apply indexed_entries_in; assumption.
  - right. unfold named_entries. apply filter_In. split; [exact H|].
    rewrite E. reflexivity.
Qed.

Lemma Object_entries_keys (o : object) (k : str) :
  In k (map fst o) -> In k (map fst (Object_entries o)).
Proof.
  intros H. apply in_map_iff in H. destruct H as (e & <- & H).
  apply in_map, Object_entries_in, H.
Qed.

Lemma rbind_return {A B : Type} (r : Result A) (k : A -> Result B) (b : B) :
  rbind r k = Return b -> exists a, r = Return a /\ k a = Return b.
Proof. destruct r as [a|m]; [eauto|discriminate]. Qed.

Lemma server_file_valid (s : ProjectStructure) (k : str) :
  In k (map fst (files s)) -> CodeGenerator.isServerFile k = true ->
  CodeGenerator.validateProjectStructure s = Return tt.
Proof.
  intros H Hk. apply validateProjectStructure_iff. split.
  - intros E. rewrite E in H. contradiction.
  - apply existsb_exists. eauto.
Qed.

Lemma define_in (k : str) (v : jsval) (o : object) :
  In k (map fst (define k v o)).
Proof.
  induction o as [|[k0 v0] o IH]; simpl; [auto|].
  destruct (str_eqb k k0); simpl; auto.
Qed.

Lemma assign_in (k : str) (v : jsval) (o : object) :
  str_eqb k (lit "__proto__") = false ->
  In k (map fst (assign_property k v o)).
Proof. unfold assign_property. intros ->. apply define_in. Qed.

Ltac kept :=
  apply Object_entries_keys, withAdditionalFiles_keeps;
  repeat first [ apply assign_in; reflexivity | apply assign_keeps ].

(** X15. Every structure that a generator of [initializeFileGenerators]
    returns passes [validateProjectStructure] and holds the readme and
    the entry file that the command opens afterwards, whatever the parsed
    response and the registry of the templates are. *)
Theorem X15_structures_valid (engine : Engine)
    (templateRegistry : TemplateRegistry.registry)
    (options : GenerationOptions) (parsedResponse : ParsedResponse)
    (structure : ProjectStructure) :
  CodeGenerator.generateProjectStructure
    (initializeFileGenerators engine templateRegistry) options parsedResponse
    = Return structure ->
  CodeGenerator.validateProjectStructure structure = Return tt /\
  In (CreateServerCommand.getEntryFileName (language options))
     (map fst (files structure)) /\
  In (lit "README.md") (map fst (files structure)).
Proof.
  unfold CodeGenerator.generateProjectStructure, initializeFileGenerators.
  unfold CreateServerCommand.getEntryFileName.
  destruct (str_eqb (language options) (lit "typescript")) eqn:Ets;
    [|destruct (str_eqb (language options) (lit "javascript")) eqn:Ejs;
      [|destruct (str_eqb (language options) (lit "python")) eqn:Epy;
        [|discriminate]]].
  - apply str_eqb_eq in Ets. rewrite Ets.
    change (str_eqb (lit "typescript") (lit "javascript")) with false.
    change (str_eqb (lit "typescript") (lit "python")) with false. cbv iota.
    unfold TypeScriptFileGenerator.generateStructure. intros H.
    apply rbind_return in H. destruct H as (templateName & _ & H).
    cbv zeta in H.
    apply rbind_return in H. destruct H as (server & _ & H).
    apply rbind_return in H. destruct H as (readme & _ & H).
    injection H as <-. cbn [files].
    match goal with
    | |- _ /\ In ?k ?l /\ _ => assert (Hs : In k l) by kept
    end.
    split; [|split].
    + eapply server_file_valid; [exact Hs|reflexivity].
    + exact Hs.
    + kept.
  - unfold JavaScriptFileGenerator.generateStructure. intros H.
    apply rbind_return in H. destruct H as (templateName & _ & H).
    cbv zeta in H.
    apply rbind_return in H. destruct H as (server & _ & H).
    apply rbind_return in H. destruct H as (readme & _ & H).
    injection H as <-. cbn [files].
    match goal with
    | |- _ /\ In ?k ?l /\ _ => assert (Hs : In k l) by kept
    end.
    split; [|split].
    + eapply server_file_valid; [exact Hs|reflexivity].
    + exact Hs.
    + kept.
  - unfold PythonFileGenerator.generateStructure. intros H.
    apply rbind_return in H. destruct H as (templateName & _ & H).
    cbv zeta in H.
    apply rbind_return in H. destruct H as (server & _ & H).
    apply rbind_return in H. destruct H as (readme & _ & H).
    injection H as <-. cbn [files].
    match goal with
    | |- _ /\ In ?k ?l /\ _ => assert (Hs : In k l) by kept
    end.
    split; [|split].
    + eapply server_file_valid; [exact Hs|reflexivity].
    + exact Hs.
    + kept.
Qed.

(** X16. The generators read the server code, the usage example and the
    additional files of a parsed response, and nothing else: the
    structure is the same for a response without readme, install
    instructions, package text, dependencies and scripts. *)
Theorem X16_generators_ignore (engine : Engine)
    (templateRegistry : TemplateRegistry.registry)
    (options : GenerationOptions) (parsedResponse : ParsedResponse) :
  CodeGenerator.generateProjectStructure
    (initializeFileGenerators engine templateRegistry) options parsedResponse
  = CodeGenerator.generateProjectStructure
      (initializeFileGenerators engine templateRegistry) options
      {| serverCode := serverCode parsedResponse;
         packageJson := undefined;
         readme := undefined;
         installInstructions := undefined;
         usageExample := usageExample parsedResponse;
         dependencies := undefined;
         devDependencies := undefined;
         scripts := undefined;
         additionalFiles := additionalFiles parsedResponse |}.
Proof.
  unfold CodeGenerator.generateProjectStructure, initializeFileGenerators.
  destruct parsedResponse.
  destruct (str_eqb (language options) (lit "typescript")); [reflexivity|].
  destruct (str_eqb (language options) (lit "javascript")); [reflexivity|].
  destruct (str_eqb (language options) (lit "python")); reflexivity.
Qed.

Lemma X15_structures_valid_witness :
  exists structure,
    CodeGenerator.generateProjectStructure
      (initializeFileGenerators sim_engine []) sim_options oddRecord
    = Return structure /\
    map fst (files structure)
    = [lit "7"; lit "server.ts"; lit "package.json"; lit "tsconfig.json";
       lit "README.md"; lit "notes.txt"] /\
    CodeGenerator.validateProjectStructure structure = Return tt.
Proof.
  assert (H : exists structure,
            CodeGenerator.generateProjectStructure
              (initializeFileGenerators sim_engine []) sim_options oddRecord
            = Return structure /\
            map fst (files structure)
            = [lit "7"; lit "server.ts"; lit "package.json"; lit "tsconfig.json";
               lit "README.md"; lit "notes.txt"])
    by (eexists; split; vm_compute; reflexivity).
  destruct H as (structure & Hg & Hn). exists structure.
  split; [exact Hg|]. split; [exact Hn|].
  apply (X15_structures_valid sim_engine [] sim_options oddRecord structure Hg).
Defined.

(* ================================================================== *)
(** * The project of the fallback response *)

Lemma textOf_string (engine : Engine) (s : str) :
  textOf engine (jor (jstr s) (jstr [])) = Return s.
Proof. destruct s; reflexivity. Qed.

(** What [ResponseParserFactory.parse] returns holds a string as server
    code and a string or nothing as usage example. *)
Lemma parse_shape (response : str) (p : ParsedResponse) :
  ResponseParserFactory.parse response = Return p ->
  is_string (serverCode p) = true /\ string_or_absent (usageExample p) = true.
Proof.
  unfold ResponseParserFactory.parse, ResponseParserFactory.run.
  destruct (ResponseParserFactory.autoDetectParser response) eqn:E.
  - intros H. apply structured_shape in H. tauto.
  - unfold ResponseParserFactory.autoDetectParser in E.
    destruct (_ || _); [discriminate|]. destruct (_ || _); discriminate.
  - intros H. injection H as <-. split; reflexivity.
  - intros H. destruct (mixed_shape response) as (q & Hq & H1 & _ & _ & _ & H2 & _).
    rewrite Hq in H. injection H as <-. split; [exact H1|].
    unfold text_filled in H2. apply andb_true_iff in H2.
    unfold string_or_absent. rewrite (proj1 H2). apply orb_true_r.
Qed.

Lemma texts_of_text (engine : Engine) (options : GenerationOptions)
    (code : str) (packageText readmeText installText usage : jsval)
    (deps devDeps scriptTable : jsval) :
  valueTexts engine
    (templateVariables options
       {| serverCode := jstr code; packageJson := packageText;
          readme := readmeText; installInstructions := installText;
          usageExample := usage; dependencies := deps;
          devDependencies := devDeps; scripts := scriptTable;
          additionalFiles := undefined |})
  = Return [(lit "SERVER_NAME", Some (serverName options));
            (lit "DESCRIPTION", Some (description options));
            (lit "TRANSPORT", Some (transport options));
            (lit "SERVER_CODE", Some code);
            (lit "TOOLS", Some []);
            (lit "RESOURCES", Some []);
            (lit "PROMPTS", Some []);
            (lit "CUSTOM_CODE", Some [])].
Proof.
  unfold templateVariables. cbn [valueTexts serverCode additionalFiles].
  rewrite !textOf_string. destruct code; reflexivity.
Qed.

Lemma usage_returns (engine : Engine) (p : ParsedResponse) :
  string_or_absent (usageExample p) = true ->
  exists usage, usageSection engine p = Return usage.
Proof.
  unfold usageSection, string_or_absent.
  destruct (usageExample p) as [[|b|l|s|items|fields]|]; try discriminate;
    intros _.
  - destruct (truthy (Some (JStr s))); eexists; reflexivity.
  - eexists. reflexivity.
Qed.

Lemma createDirectories_reliable (fs : NodeFs) (basePath : str)
    (dirs : list str) : reliable fs ->
  forall w, fst (CodeGenerator.createDirectories fs basePath dirs w) = Return tt.
Proof.
  intros [Hm _]. induction dirs as [|d dirs IH]; intros w; [reflexivity|].
  simpl. unfold bind, CodeGenerator.createDirectory, try_catch.
  destruct (negb _).
  - specialize (Hm (path_join fs basePath d) w).
    destruct (mkdirSync fs _ w) as [[[]|m] w1]; simpl in Hm; [|discriminate].
    apply IH.
  - apply IH.
Qed.

Lemma materialize_reliable (fs : NodeFs) (options : GenerationOptions)
    (structure : ProjectStructure) (w : World fs) :
  reliable fs ->
  CodeGenerator.validateProjectStructure structure = Return tt ->
  forallb (fun e => is_text (snd e)) (files structure) = true ->
  fst (materialize fs options structure w) = Return tt.
Proof.
  intros Hr Hv Ht. unfold materialize, try_catch, bind, CodeGenerator.lift.
  rewrite Hv.
  pose proof (createDirectories_reliable fs (outputPath options)
                (directories structure) Hr w) as Hd.
  destruct (CodeGenerator.createDirectories fs (outputPath options)
              (directories structure) w) as [r w1].
  simpl in Hd. subst r. rewrite createFiles_attempts.
  rewrite (@attemptAll_texts fs (outputPath options) (files structure) Hr Ht w1).
  rewrite failures_all. reflexivity.
Qed.

(** On a platform that does not fail, what [materialize] leaves is what
    the calls of the platform leave: the declared directories ensured in
    turn, then the entries stored in turn. *)
Lemma materialize_written (fs : NodeFs) (options : GenerationOptions)
    (structure : ProjectStructure) (w : World fs) :
  reliable fs ->
  CodeGenerator.validateProjectStructure structure = Return tt ->
  forallb (fun e => is_text (snd e)) (files structure) = true ->
  exists w1 w',
    ensuredAll fs (outputPath options) (directories structure) w = Some w1 /\
    storedAll fs (outputPath options) (files structure) w1 = Some w' /\
    materialize fs options structure w = (Return tt, w').
Proof.
  intros Hr Hv Ht.
  pose proof (createDirectories_reliable fs (outputPath options)
                (directories structure) Hr w) as Hd.
  destruct (CodeGenerator.createDirectories fs (outputPath options)
              (directories structure) w) as [r w1] eqn:Ed.
  simpl in Hd. subst r.
  exists w1, (snd (attemptAll fs (outputPath options) (files structure) w1)).
  split; [apply createDirectories_ensuredAll; exact Ed|].
  split; [apply storedAll_texts; assumption|].
  unfold materialize, try_catch, bind, CodeGenerator.lift.
  rewrite Hv, Ed, createFiles_attempts.
  rewrite (@attemptAll_texts fs (outputPath options) (files structure) Hr Ht w1).
  rewrite failures_all. reflexivity.
Qed.


Lemma builtin_found (language suffix : str) :
  In language CodeGenerator.validLanguages ->
  In suffix [lit "-basic"; lit "-tools"; lit "-resources"; lit "-prompts";
             lit "-advanced"] ->
  exists t,
    TemplateRegistry.getTemplate TemplateRegistry.initializeTemplates
      (language ++ suffix) = Some t.
Proof.
  unfold CodeGenerator.validLanguages. cbn [In].
  intros [<-|[<-|[<-|[]]]] [<-|[<-|[<-|[<-|[<-|[]]]]]]; eexists; reflexivity.
Qed.

Lemma selected_found (language : str) (bt br bp : bool) :
  In language CodeGenerator.validLanguages ->
  exists t,
    TemplateRegistry.getTemplate TemplateRegistry.initializeTemplates
      (if bt && br && bp then language ++ lit "-advanced"
       else if bt then language ++ lit "-tools"
       else if br then language ++ lit "-resources"
       else if bp then language ++ lit "-prompts"
       else language ++ lit "-basic") = Some t.
Proof.
  intros Hl. destruct bt, br, bp; cbn [andb]; apply builtin_found; auto;
    cbn [In]; auto 10.
Qed.

Ltac structure_made :=
  eexists; split; [reflexivity|]; split; [reflexivity|]; split; reflexivity.

(** The structure for a response with text as server code, a text or
    nothing as usage example and no additional files. *)
Lemma generated_structure (engine : Engine) (options : GenerationOptions)
    (p : ParsedResponse) :
  existsb (str_eqb (language options)) CodeGenerator.validLanguages = true ->
  is_string (serverCode p) = true ->
  string_or_absent (usageExample p) = true ->
  additionalFiles p = undefined ->
  exists structure,
    CodeGenerator.generateProjectStructure
      (initializeFileGenerators engine TemplateRegistry.initializeTemplates)
      options p = Return structure /\
    map fst (files structure) = generatedFiles (language options) /\
    forallb (fun entry => is_text (snd entry)) (files structure) = true /\
    CodeGenerator.validateProjectStructure structure = Return tt.
Proof.
  intros Hl Hcode Husage Hfiles.
  destruct (usage_returns engine p Husage) as (usage & Hu).
  destruct p as [code packageText readmeText installText usageText
                   deps devDeps scriptTable extra].
  cbn [serverCode usageExample additionalFiles] in *. subst extra.
  destruct code as [[|b|l|code|items|fields]|]; try discriminate. clear Hcode.
  unfold CodeGenerator.generateProjectStructure, initializeFileGenerators,
    generatedFiles.
  unfold CodeGenerator.validLanguages in Hl. cbn [existsb] in Hl.
  pose proof (texts_of_text engine options code packageText readmeText
                installText usageText deps devDeps scriptTable) as Hv.
  change (jstr code) with (Some (JStr code)) in Hv.
  unfold undefined in *.
  destruct (str_eqb (language options) (lit "typescript"));
    [|destruct (str_eqb (language options) (lit "javascript"));
      [|destruct (str_eqb (language options) (lit "python")); [|discriminate]]].
  - destruct (selected_found (lit "typescript")
                (includes (lit "tools") code) (includes (lit "resources") code)
                (includes (lit "prompts") code)) as (t & Ht);
      [cbn; auto|].
    unfold TypeScriptFileGenerator.generateStructure,
      TypeScriptFileGenerator.selectTemplate,
      TypeScriptFileGenerator.generateReadme,
      selectTemplateOf, hasKind, renderTemplateValues,
      TemplateRegistry.renderTemplate, prop.
    cbn [serverCode additionalFiles optional_includes rbind jor truthy].
    rewrite Hu. cbv zeta.
    destruct (includes (lit "tools") code),
      (includes (lit "resources") code), (includes (lit "prompts") code);
      cbn [truthy andb rbind jor] in *; rewrite Ht, Hv; cbn [rbind];
      structure_made.
  - destruct (selected_found (lit "javascript")
                (includes (lit "tools") code) (includes (lit "resources") code)
                (includes (lit "prompts") code)) as (t & Ht);
      [cbn; auto|].
    unfold JavaScriptFileGenerator.generateStructure,
      JavaScriptFileGenerator.selectTemplate,
      JavaScriptFileGenerator.generateReadme,
      selectTemplateOf, hasKind, renderTemplateValues,
      TemplateRegistry.renderTemplate, prop.
    cbn [serverCode additionalFiles optional_includes rbind jor truthy].
    rewrite Hu. cbv zeta.
    destruct (includes (lit "tools") code),
      (includes (lit "resources") code), (includes (lit "prompts") code);
      cbn [truthy andb rbind jor] in *; rewrite Ht, Hv; cbn [rbind];
      structure_made.
  - destruct (selected_found (lit "python")
                (includes (lit "tools") code) (includes (lit "resources") code)
                (includes (lit "prompts") code)) as (t & Ht);
      [cbn; auto|].
    unfold PythonFileGenerator.generateStructure,
      PythonFileGenerator.selectTemplate,
      PythonFileGenerator.generateReadme,
      selectTemplateOf, hasKind, renderTemplateValues,
      TemplateRegistry.renderTemplate, prop.
    cbn [serverCode additionalFiles optional_includes rbind jor truthy].
    rewrite Hu. cbv zeta.
    destruct (includes (lit "tools") code),
      (includes (lit "resources") code), (includes (lit "prompts") code);
      cbn [truthy andb rbind jor] in *; rewrite Ht, Hv; cbn [rbind];
      structure_made.
Qed.

Lemma valid_language (fs : NodeFs) (options : GenerationOptions) (w : World fs) :
  fst (CodeGenerator.validateGenerationOptions fs options w) = Return tt ->
  existsb (str_eqb (language options)) CodeGenerator.validLanguages = true.
Proof.
  unfold CodeGenerator.validateGenerationOptions, throw.
  destruct (CodeGenerator.is_blank (description options)); [discriminate|].
  destruct (CodeGenerator.is_blank (outputPath options)); [discriminate|].
  destruct (CodeGenerator.is_blank (serverName options)); [discriminate|].
  destruct (existsb (str_eqb (language options)) CodeGenerator.validLanguages);
    [reflexivity|discriminate].
Qed.

(** X17. On a platform whose calls succeed, with options that pass their
    check and a response that passes its check and is parsed into a
    record without additional files, [generateProject] returns: the
    generator of the language finds its template in the registry and
    makes a structure of texts under the file names of the language.
    The file system is then what the calls of the platform leave: the
    declared directories ensured in turn and, for each file in turn, the
    directory of its path ensured and [writeFileSync] called with its
    path and its text. *)
Theorem X17_project_generated (engine : Engine) (fs : NodeFs)
    (options : GenerationOptions) (response : str) (p : ParsedResponse)
    (w : World fs) :
  reliable fs ->
  fst (CodeGenerator.validateGenerationOptions fs options w) = Return tt ->
  CodeGenerator.validateOpenAIResponse response = Return tt ->
  CodeGenerator.parseResponse response = Return p ->
  additionalFiles p = undefined ->
  exists structure w1 w',
    CodeGenerator.generateProjectStructure
      (initializeFileGenerators engine TemplateRegistry.initializeTemplates)
      options p = Return structure /\
    map fst (files structure) = generatedFiles (language options) /\
    forallb (fun entry => is_text (snd entry)) (files structure) = true /\
    ensuredAll fs (outputPath options) (directories structure) w = Some w1 /\
    storedAll fs (outputPath options) (files structure) w1 = Some w' /\
    CodeGenerator.generateProject fs
      (initializeFileGenerators engine TemplateRegistry.initializeTemplates)
      options response w
    = (Return tt, w').
Proof.
  intros Hr Ho Hv Hp Hfiles.
  destruct (parse_shape response p Hp) as [Hcode Husage].
  destruct (generated_structure engine options p
              (valid_language fs options w Ho) Hcode Husage Hfiles)
    as (structure & Hg & Hn & Ht & Hvalid).
  assert (Hm : CodeGenerator.generateProject fs
                 (initializeFileGenerators engine
                    TemplateRegistry.initializeTemplates) options response w
               = materialize fs options structure w)
    by (apply (@generateProject_assembled fs _ options response p structure w
                 Ho Hv Hp Hg)).
  destruct (materialize_written fs options structure w Hr Hvalid Ht)
    as (w1 & w' & Hd & Hs & Hw).
  exists structure, w1, w'. repeat split; auto.
  rewrite Hm. exact Hw.
Qed.

Lemma X17_project_generated_witness :
  exists w',
    CodeGenerator.generateProject (SimFs [])
      (initializeFileGenerators sim_engine TemplateRegistry.initializeTemplates)
      sim_options textResponse sim_start
    = (Return tt, w') /\
    sim_dirs w' = [lit "/out"; lit "/out/demo/src"; lit "/out/demo/dist";
                   lit "/out/demo"] /\
    map fst (sim_files w')
    = [lit "/out/demo/server.ts"; lit "/out/demo/package.json";
       lit "/out/demo/tsconfig.json"; lit "/out/demo/README.md"].
Proof.
  destruct (X17_project_generated sim_engine (SimFs []) sim_options textResponse
              textRecord sim_start)
    as (structure & w1 & w' & _ & _ & _ & _ & _ & Hw).
  - exact SimFs_reliable.
  - vm_compute. reflexivity.
  - vm_compute. reflexivity.
  - vm_compute. reflexivity.
  - reflexivity.
  - exists w'. split; [exact Hw|].
    assert (E : snd (CodeGenerator.generateProject (SimFs [])
                       (initializeFileGenerators sim_engine
                          TemplateRegistry.initializeTemplates)
                       sim_options textResponse sim_start) = w')
      by (rewrite Hw; reflexivity).
    rewrite <- E. vm_compute. split; reflexivity.
Defined.




(* ================================================================== *)
(** * The templates of the registry *)

Lemma builtin_wellformed :
  forallb (wellformed_template TemplateRegistry.initializeTemplates)
    TemplateRegistry.initializeTemplates = true.
Proof. vm_compute. reflexivity. Qed.

(** X19. Each of the fifteen templates of the registry is text without
    the start of a marker around markers that name variables declared by
    the template.  With identifiers as keys and values that hold no dollar
    sign and begin no marker, [renderTemplate] gives the text with every
    marker replaced by the value bound to its name (by nothing or the
    placeholder comment when the name is unbound), and no double opening
    brace is left. *)
Theorem X19_builtin_templates (t : TemplateRegistry.Template)
    (vars : list (str * option str)) :
  In t TemplateRegistry.initializeTemplates ->
  forallb good_binding vars = true ->
  TemplateRegistry.template t
    = fst (markersOf t) ++ withMarkers (snd (markersOf t)) /\
  forallb (fun part => existsb (str_eqb (fst part)) (TemplateRegistry.variables t))
    (snd (markersOf t)) = true /\
  TemplateRegistry.renderTemplate TemplateRegistry.initializeTemplates
    (TemplateRegistry.name t) vars
  = Return (fst (markersOf t) ++ withValues vars (snd (markersOf t))) /\
  includes (lit "{{") (fst (markersOf t) ++ withValues vars (snd (markersOf t)))
  = false.
Proof.
  intros Hin Hvars.
  pose proof builtin_wellformed as H. rewrite forallb_forall in H.
  specialize (H t Hin). unfold wellformed_template in H.
  repeat rewrite andb_true_iff in H.
  destruct H as ((((Hfound & Hbody) & Hc0) & Hparts) & Hdeclared).
  apply str_eqb_eq in Hbody.
  destruct (TemplateRegistry.getTemplate TemplateRegistry.initializeTemplates
              (TemplateRegistry.name t)) as [found|] eqn:Eg; [|discriminate].
  apply str_eqb_eq in Hfound.
  split; [exact Hbody|]. split; [exact Hdeclared|]. split.
  - unfold TemplateRegistry.renderTemplate. rewrite Eg, Hfound.
    rewrite Hbody at 1. rewrite render_all by assumption. reflexivity.
  - apply inert_includes, inert_app; [exact Hc0|].
    apply withValues_inert; assumption.
Qed.

Lemma X19_builtin_templates_witness :
  TemplateRegistry.renderTemplate TemplateRegistry.initializeTemplates
    (lit "python-tools") toolVariables
  = Return (fst (markersOf TemplateRegistry.getPythonToolsTemplate)
              ++ withValues toolVariables
                   (snd (markersOf TemplateRegistry.getPythonToolsTemplate))).
Proof.
  apply (X19_builtin_templates TemplateRegistry.getPythonToolsTemplate
           toolVariables).
  - unfold TemplateRegistry.initializeTemplates, TemplateRegistry.addTemplate.
    cbn [fold_left In]. do 3 right. left. reflexivity.
  - vm_compute. reflexivity.
Defined.

(* ================================================================== *)
(** * JSON.parse after JSON.stringify with a gap *)

Lemma skip_ws_spaces (ws s : str) :
  forallb json_ws ws = true -> skip_ws (ws ++ s) = skip_ws s.
Proof.
  induction ws as [|c ws IH]; [reflexivity|]. simpl. intros H.
  apply andb_true_iff in H. destruct H as [Hc Hw]. rewrite Hc. apply IH, Hw.
Qed.

Lemma parse_value_spaces (f : nat) (ws s : str) :
  forallb json_ws ws = true -> parse_value f (ws ++ s) = parse_value f s.
Proof.
  intros H. destruct f as [|f]; [reflexivity|].
  cbn [parse_value]. rewrite (skip_ws_spaces ws s H). reflexivity.
Qed.

Lemma parse_members_spaces (f : nat) (ws s : str) :
  forallb json_ws ws = true -> parse_members f (ws ++ s) = parse_members f s.
Proof.
  intros H. destruct f as [|f]; [reflexivity|].
  cbn [parse_members]. rewrite (skip_ws_spaces ws s H). reflexivity.
Qed.

Lemma parse_elements_spaces (f : nat) (ws s : str) :
  forallb json_ws ws = true -> parse_elements f (ws ++ s) = parse_elements f s.
Proof.
  intros H. destruct f as [|f]; [reflexivity|].
  cbn [parse_elements]. rewrite (parse_value_spaces f ws s H). reflexivity.
Qed.

(** A value is written with a first code unit that opens a string, an
    array or an object. *)
Lemma Serialize_head (indent : str) (v : literal) :
  exists c t, SerializeJSONValue indent v = c :: t /\
              (c = dquote \/ c = "["%char \/ c = "{"%char).
Proof.
  destruct v as [s|[|x items]|[|p props]]; simpl; unfold QuoteJSONString;
    eexists; eexists; (split; [reflexivity|]); auto.
Qed.

Lemma gap_spaces (indent : str) :
  forallb json_ws indent = true -> forallb json_ws (indent ++ gap) = true.
Proof. intros H. rewrite forallb_app, H. reflexivity. Qed.

Lemma join_more (sep a b : str) (l : list str) :
  join sep (a :: b :: l) = a ++ sep ++ join sep (b :: l).
Proof. reflexivity. Qed.

Lemma elements_read (indent outer : str) (items : list literal) :
  Forall inverts items -> items <> [] ->
  forallb json_ws indent = true -> forallb json_ws outer = true ->
  forall rest f,
    length (join (lit "," ++ [nl] ++ indent)
              (map (SerializeJSONValue indent) items)) < f ->
    parse_elements f
      (join (lit "," ++ [nl] ++ indent) (map (SerializeJSONValue indent) items)
         ++ [nl] ++ outer ++ lit "]" ++ rest)
    = Some (map json_of items, rest).
Proof.
  intros Hall. induction Hall as [|x items Hx Hall IH]; [congruence|].
  intros _ Hi Ho rest f Hf. destruct f as [|g]; [simpl in Hf; lia|].
  cbn [parse_elements]. destruct items as [|y items].
  - cbn [map join] in *.
    rewrite (Hx indent _ g Hi) by lia.
    rewrite (skip_ws_spaces [nl]) by reflexivity.
    rewrite (skip_ws_spaces outer) by exact Ho.
    reflexivity.
  - cbn [map] in *. rewrite join_more in *. rewrite !length_app in Hf.
    rewrite <- !app_assoc.
    rewrite (Hx indent _ g Hi) by lia.
    cbn [lit list_ascii_of_string app skip_ws].
    change (json_ws ",") with false. cbv iota.
    change (is_char "," ",") with true. cbv iota.
    change (nl :: indent ++ ?s) with ([nl] ++ indent ++ s).
    rewrite (parse_elements_spaces g [nl]) by reflexivity.
    rewrite (parse_elements_spaces g indent) by exact Hi.
    specialize (IH ltac:(discriminate) Hi Ho rest g).
    cbn [map lit list_ascii_of_string app] in IH.
    rewrite IH; [reflexivity|].
    cbn [lit list_ascii_of_string app length] in *. lia.
Qed.

Lemma members_read (indent outer : str) (properties : list (str * literal)) :
  Forall (fun kv => inverts (snd kv)) properties -> properties <> [] ->
  forallb json_ws indent = true -> forallb json_ws outer = true ->
  forall rest f,
    length (join (lit "," ++ [nl] ++ indent)
              (map (pretty_member indent) properties)) < f ->
    parse_members f
      (join (lit "," ++ [nl] ++ indent) (map (pretty_member indent) properties)
         ++ [nl] ++ outer ++ lit "}" ++ rest)
    = Some (map (fun kv => match kv with (k, v) => (k, json_of v) end) properties,
            rest).
Proof.
  intros Hall. induction Hall as [|[k x] properties Hx Hall IH]; [congruence|].
  intros _ Hi Ho rest f Hf. destruct f as [|g]; [simpl in Hf; lia|].
  cbn [snd] in Hx.
  assert (Hkey : forall more,
            parse_members (S g) (pretty_member indent (k, x) ++ more)
            = match parse_value g (SerializeJSONValue indent x ++ more) with
              | Some (v, r2) =>
                  match skip_ws r2 with
                  | c2 :: r3 =>
                      if is_char "," c2 then
                        match parse_members g r3 with
                        | Some (fs, r4) => Some ((k, v) :: fs, r4)
                        | None => None
                        end
                      else if is_char "}" c2 then Some ([(k, v)], r3)
                      else None
                  | [] => None
                  end
              | None => None
              end).
  { intros more. unfold pretty_member, QuoteJSONString.
    cbn [parse_members app skip_ws]. change (json_ws dquote) with false.
    cbv iota. change (is_char dquote dquote) with true. cbv iota.
    rewrite <- !app_assoc. cbn [app]. rewrite parse_chars_quoted.
    cbn [rev app lit list_ascii_of_string skip_ws].
    change (json_ws ":") with false. cbv iota.
    change (is_char ":" ":") with true. cbv iota.
    change (" "%char :: ?s) with ([" "%char] ++ s).
    rewrite (parse_value_spaces g [" "%char]) by reflexivity. reflexivity. }
  destruct properties as [|q properties].
  - cbn [map join] in *. rewrite Hkey.
    assert (Hlen : length (SerializeJSONValue indent x) <= g).
    { unfold pretty_member in Hf. rewrite !length_app in Hf. lia. }
    rewrite (Hx indent _ g Hi Hlen).
    rewrite (skip_ws_spaces [nl]) by reflexivity.
    rewrite (skip_ws_spaces outer) by exact Ho.
    reflexivity.
  - cbn [map] in *. rewrite join_more in *. rewrite !length_app in Hf.
    rewrite <- !app_assoc. rewrite Hkey.
    assert (Hlen : length (SerializeJSONValue indent x) <= g).
    { unfold pretty_member in Hf. rewrite !length_app in Hf. lia. }
    rewrite (Hx indent _ g Hi Hlen).
    cbn [lit list_ascii_of_string app skip_ws].
    change (json_ws ",") with false. cbv iota.
    change (is_char "," ",") with true. cbv iota.
    change (nl :: indent ++ ?s) with ([nl] ++ indent ++ s).
    rewrite (parse_members_spaces g [nl]) by reflexivity.
    rewrite (parse_members_spaces g indent) by exact Hi.
    specialize (IH ltac:(discriminate) Hi Ho rest g).
    cbn [map lit list_ascii_of_string app] in IH.
    rewrite IH; [reflexivity|].
    cbn [lit list_ascii_of_string app length] in *. lia.
Qed.

Lemma sum_bound (A : Type) (size : A -> nat) (l : list A) (x : A) :
  In x l -> size x <= list_sum (map size l).
Proof.
  induction l as [|y l IH]; [contradiction|]. simpl.
  intros [->|H]; [lia|]. specialize (IH H). lia.
Qed.

Lemma Serialize_members (indent : str) (properties : list (str * literal)) :
  map (fun kv => match kv with
                 | (k, v) =>
                     QuoteJSONString k ++ lit ": " ++ SerializeJSONValue indent v
                 end) properties
  = map (pretty_member indent) properties.
Proof. reflexivity. Qed.

Lemma literal_inverts (n : nat) : forall v, literal_size v <= n -> inverts v.
Proof.
  induction n as [|n IH]; intros v Hn; [destruct v; simpl in Hn; lia|].
  destruct v as [s|items|properties]; intros indent rest f Hi Hf.
  - destruct f as [|f]; [simpl in Hf; lia|]. apply parse_value_quoted.
  - destruct items as [|x items].
    + destruct f as [|f]; [simpl in Hf; lia|]. reflexivity.
    + assert (Hall : Forall inverts (x :: items)).
      { apply Forall_forall. intros y Hy. apply IH.
        pose proof (sum_bound literal literal_size (x :: items) y Hy).
        simpl in Hn. simpl in H. lia. }
      remember (x :: items) as l eqn:El.
      assert (Hne : l <> []) by (subst l; discriminate).
      assert (Hs : SerializeJSONValue indent (LArr l)
                   = lit "[" ++ [nl] ++ (indent ++ gap)
                       ++ join (lit "," ++ [nl] ++ (indent ++ gap))
                            (map (SerializeJSONValue (indent ++ gap)) l)
                       ++ [nl] ++ indent ++ lit "]")
        by (subst l; reflexivity).
      rewrite Hs in *. clear Hs.
      destruct (Serialize_head (indent ++ gap) x) as (c & t & Hc & Hkind).
      destruct f as [|f]; [simpl in Hf; lia|].
      rewrite <- !app_assoc. cbn [parse_value lit list_ascii_of_string app skip_ws].
      change (json_ws "[") with false. cbv iota.
      change (is_char "{" "[") with false. change (is_char "[" "[") with true.
      cbv iota.
      match goal with
      | |- context [skip_ws (nl :: ?s)] =>
          change (skip_ws (nl :: s)) with (skip_ws s)
      end.
      rewrite (skip_ws_spaces indent) by exact Hi.
      rewrite (skip_ws_spaces gap) by reflexivity.
      pose proof (elements_read (indent ++ gap) indent l Hall Hne
                    (gap_spaces indent Hi) Hi rest f) as He.
      assert (Hj : exists t', join (lit "," ++ [nl] ++ (indent ++ gap))
                                (map (SerializeJSONValue (indent ++ gap)) l)
                              = c :: t').
      { subst l. cbn [map]. rewrite Hc. destruct items; cbn [map join]; eauto.
        cbn [app]. eauto. }
      destruct Hj as (t' & Hj).
      cbn [lit list_ascii_of_string app] in He, Hj. rewrite Hj in *.
      cbn [app]. rewrite skip_ws_stop
        by (destruct Hkind as [->|[->| ->]]; reflexivity).
      replace (is_char "]" c) with false
        by (destruct Hkind as [->|[->| ->]]; reflexivity).
      cbn [app] in He. rewrite He; [reflexivity|].
      rewrite !length_app in Hf.
      cbn [lit list_ascii_of_string app length] in *.
      rewrite Hj in Hf. cbn [length] in Hf. lia.
  - destruct properties as [|p properties].
    + destruct f as [|f]; [simpl in Hf; lia|]. reflexivity.
    + assert (Hall : Forall (fun kv => inverts (snd kv)) (p :: properties)).
      { apply Forall_forall. intros [k y] Hy. apply IH.
        pose proof (sum_bound (str * literal)
                      (fun kv => match kv with (k, v) => literal_size v end)
                      (p :: properties) (k, y) Hy).
        simpl in Hn. simpl in H. simpl. lia. }
      remember (p :: properties) as l eqn:El.
      assert (Hne : l <> []) by (subst l; discriminate).
      assert (Hs : SerializeJSONValue indent (LObj l)
                   = lit "{" ++ [nl] ++ (indent ++ gap)
                       ++ join (lit "," ++ [nl] ++ (indent ++ gap))
                            (map (pretty_member (indent ++ gap)) l)
                       ++ [nl] ++ indent ++ lit "}")
        by (subst l; reflexivity).
      rewrite Hs in *. clear Hs.
      destruct f as [|f]; [simpl in Hf; lia|].
      rewrite <- !app_assoc. cbn [parse_value lit list_ascii_of_string app skip_ws].
      change (json_ws "{") with false. cbv iota.
      change (is_char "{" "{") with true. cbv iota.
      match goal with
      | |- context [skip_ws (nl :: ?s)] =>
          change (skip_ws (nl :: s)) with (skip_ws s)
      end.
      rewrite (skip_ws_spaces indent) by exact Hi.
      rewrite (skip_ws_spaces gap) by reflexivity.
      pose proof (members_read (indent ++ gap) indent l Hall Hne
                    (gap_spaces indent Hi) Hi rest f) as He.
      assert (Hj : exists t', join (lit "," ++ [nl] ++ (indent ++ gap))
                                (map (pretty_member (indent ++ gap)) l)
                              = dquote :: t').
      { subst l. destruct p as [k y]. cbn [map]. unfold pretty_member at 1.
        unfold QuoteJSONString. destruct properties; cbn [map join app]; eauto. }
      destruct Hj as (t' & Hj).
      cbn [lit list_ascii_of_string app] in He, Hj. rewrite Hj in *.
      cbn [app]. rewrite skip_ws_stop by reflexivity.
      change (is_char "}" dquote) with false. cbv iota.
      cbn [app] in He. rewrite He; [reflexivity|].
      rewrite !length_app in Hf.
      cbn [lit list_ascii_of_string app length] in *.
      rewrite Hj in Hf. cbn [length] in Hf. lia.
Qed.

(** What [JSON.stringify] writes with a gap for an object literal of
    strings, arrays and objects, [JSON.parse] reads back as the same
    value. *)
Lemma pretty_parse (v : literal) :
  JSON_parse (JSON_stringify_pretty v) = Some (json_of v).
Proof.
  unfold JSON_parse, JSON_stringify_pretty.
  pose proof (literal_inverts (literal_size v) v (le_n _) [] []
                (2 * length (SerializeJSONValue [] v) + 2) eq_refl) as H.
  rewrite app_nil_r in H. rewrite H by lia. reflexivity.
Qed.

(** X20. The package file that the TypeScript and the JavaScript
    generator write is a JSON text for every server name and
    description: [JSON.parse] reads it back as the object of the
    generator, with the name and the description as they were given. *)
Theorem X20_package_json (options : GenerationOptions) :
  JSON_parse (TypeScriptFileGenerator.generatePackageJson options)
  = Some (JObj
      [(lit "name", JStr (serverName options));
       (lit "version", JStr (lit "1.0.0"));
       (lit "description", JStr (description options));
       (lit "main", JStr (lit "dist/server.js"));
       (lit "type", JStr (lit "module"));
       (lit "scripts",
        JObj [(lit "build", JStr (lit "tsc"));
              (lit "start", JStr (lit "node dist/server.js"));
              (lit "dev", JStr (lit "tsc --watch"))]);
       (lit "dependencies",
        JObj [(lit "@modelcontextprotocol/sdk", JStr (lit "^0.5.0"))]);
       (lit "devDependencies",
        JObj [(lit "@types/node", JStr (lit "^20.0.0"));
              (lit "typescript", JStr (lit "^5.0.0"))]);
       (lit "keywords",
        JArr [JStr (lit "mcp"); JStr (lit "server");
              JStr (lit "model-context-protocol")]);
       (lit "author", JStr []);
       (lit "license", JStr (lit "MIT"))]) /\
  JSON_parse (JavaScriptFileGenerator.generatePackageJson options)
  = Some (JObj
      [(lit "name", JStr (serverName options));
       (lit "version", JStr (lit "1.0.0"));
       (lit "description", JStr (description options));
       (lit "main", JStr (lit "server.js"));
       (lit "type", JStr (lit "module"));
       (lit "scripts", JObj [(lit "start", JStr (lit "node server.js"))]);
       (lit "dependencies",
        JObj [(lit "@modelcontextprotocol/sdk", JStr (lit "^0.5.0"))]);
       (lit "keywords",
        JArr [JStr (lit "mcp"); JStr (lit "server");
              JStr (lit "model-context-protocol")]);
       (lit "author", JStr []);
       (lit "license", JStr (lit "MIT"))]).
Proof.
  unfold TypeScriptFileGenerator.generatePackageJson,
    JavaScriptFileGenerator.generatePackageJson.
  rewrite !pretty_parse. split; reflexivity.
Qed.

(* ================================================================== *)
(** * Additional files *)

Lemma own_value_in (k : str) (v : jsval) (o : object) :
  own_value k o = Some v -> In (k, v) o.
Proof.
  induction o as [|[k0 v0] o IH]; [discriminate|]. simpl.
  destruct (str_eqb k k0) eqn:E.
  - apply str_eqb_eq in E. subst k0. intros H. injection H as <-. auto.
  - auto.
Qed.

Lemma own_value_none (k : str) (o : object) :
  own_value k o = None <-> ~ In k (map fst o).
Proof.
  induction o as [|[k0 v0] o IH]; simpl; [tauto|].
  destruct (str_eqb k k0) eqn:E.
  - apply str_eqb_eq in E. subst k0. split; [discriminate|tauto].
  - rewrite IH. assert (k0 <> k).
    { intros ->. rewrite str_eqb_refl in E. discriminate. }
    tauto.
Qed.

Lemma in_own_value (k : str) (v : jsval) (o : object) :
  NoDup (map fst o) -> In (k, v) o -> own_value k o = Some v.
Proof.
  induction o as [|[k0 v0] o IH]; [contradiction|]. simpl.
  intros Hn [H|H]; inversion Hn as [|? ? Hk Hn']; subst.
  - injection H as -> ->. now rewrite str_eqb_refl.
  - destruct (str_eqb k k0) eqn:E; [|auto].
    apply str_eqb_eq in E. subst k0. exfalso. apply Hk.
    apply in_map_iff. exists (k, v). auto.
Qed.

Lemma define_value (k : str) (v : jsval) (o : object) (k' : str) :
  own_value k' (define k v o)
  = if str_eqb k' k then Some v else own_value k' o.
Proof.
  induction o as [|[k0 v0] o IH]; simpl.
  - destruct (str_eqb k' k); reflexivity.
  - destruct (str_eqb k k0) eqn:E; simpl.
    + apply str_eqb_eq in E. subst k0. destruct (str_eqb k' k); reflexivity.
    + rewrite IH. destruct (str_eqb k' k) eqn:E1; [|reflexivity].
      apply str_eqb_eq in E1. subst k'. rewrite E. reflexivity.
Qed.

Lemma define_keys (k : str) (v : jsval) (o : object) (k' : str) :
  In k' (map fst (define k v o)) <-> k' = k \/ In k' (map fst o).
Proof.
  induction o as [|[k0 v0] o IH]; simpl; [intuition|].
  destruct (str_eqb k k0) eqn:E; simpl.
  - apply str_eqb_eq in E. subst k0. intuition.
  - rewrite IH. intuition.
Qed.

Lemma define_NoDup (k : str) (v : jsval) (o : object) :
  NoDup (map fst o) -> NoDup (map fst (define k v o)).
Proof.
  induction o as [|[k0 v0] o IH]; simpl; intros Hn.
  - constructor; [intros []|constructor].
  - inversion Hn as [|? ? Hk Hn']; subst.
    destruct (str_eqb k k0) eqn:E; simpl.
    + apply str_eqb_eq in E. subst k0. constructor; assumption.
    + constructor; [|auto]. rewrite define_keys. intros [->|H]; [|auto].
      rewrite str_eqb_refl in E. discriminate.
Qed.

(** The object that [JSON.parse] makes holds every key once, with the
    value of its last occurrence in the text. *)
Lemma parsed_object_from (fields : list (str * json)) : forall o,
  NoDup (map fst o) ->
  NoDup (map fst (fold_left (fun o kv => define (fst kv) (Some (snd kv)) o)
                    fields o)) /\
  forall k,
    own_value k (fold_left (fun o kv => define (fst kv) (Some (snd kv)) o)
                   fields o)
    = match lookup_last k fields with
      | Some v => Some (Some v)
      | None => own_value k o
      end.
Proof.
  induction fields as [|[k0 v0] fields IH]; intros o Hn; [auto|].
  cbn [fold_left fst snd lookup_last].
  destruct (IH (define k0 (Some v0) o) (define_NoDup _ _ _ Hn)) as [H1 H2].
  split; [exact H1|]. intros k. rewrite H2.
  destruct (lookup_last k fields); [reflexivity|].
  rewrite define_value. destruct (str_eqb k k0); reflexivity.
Qed.

Lemma insert_index_perm (n : N) (e : str * jsval)
    (l : list (N * (str * jsval))) :
  Permutation (insert_index n e l) ((n, e) :: l).
Proof.
  induction l as [|[m e'] l IH]; simpl; [reflexivity|].
  destruct (n <? m)%N; [reflexivity|].
  rewrite IH. apply perm_swap.
Qed.

(** [Object.entries] gives the properties, each once. *)
Lemma Object_entries_perm (o : object) : Permutation (Object_entries o) o.
Proof.
  unfold Object_entries. induction o as [|e o IH]; [reflexivity|].
  cbn [indexed_entries fold_right named_entries filter].
  fold (indexed_entries o). fold (named_entries o).
  destruct (array_index (fst e)) as [n|].
  - rewrite insert_index_perm. simpl. constructor. exact IH.
  - rewrite <- Permutation_middle. constructor. exact IH.
Qed.

Lemma assign_value (k : str) (v : jsval) (o : object) (k' : str) :
  own_value k' (assign_property k v o)
  = if str_eqb k' k && negb (str_eqb k (lit "__proto__")) then Some v
    else own_value k' o.
Proof.
  unfold assign_property. destruct (str_eqb k (lit "__proto__")).
  - rewrite andb_false_r. reflexivity.
  - rewrite andb_true_r. apply define_value.
Qed.

Lemma assign_NoDup (k : str) (v : jsval) (o : object) :
  NoDup (map fst o) -> NoDup (map fst (assign_property k v o)).
Proof.
  unfold assign_property. destruct (str_eqb k _); [auto|apply define_NoDup].
Qed.

Lemma assign_plain (k : str) (v : jsval) (o : object) :
  ~ In (lit "__proto__") (map fst o) ->
  ~ In (lit "__proto__") (map fst (assign_property k v o)).
Proof.
  unfold assign_property. destruct (str_eqb k (lit "__proto__")) eqn:E; [auto|].
  intros Ho H. apply define_keys in H. destruct H as [H|H]; [|auto].
  rewrite <- H, str_eqb_refl in E. discriminate.
Qed.

(** Assigning the entries of a source with distinct keys: a key of the
    source other than [__proto__] ends with the value of the source,
    every other key keeps its value. *)
Lemma assign_all (l : list (str * jsval)) : forall o,
  NoDup (map fst l) -> NoDup (map fst o) ->
  ~ In (lit "__proto__") (map fst o) ->
  let o' := fold_left (fun o kv => assign_property (fst kv) (snd kv) o) l o in
  NoDup (map fst o') /\ ~ In (lit "__proto__") (map fst o') /\
  forall k,
    own_value k o'
    = match own_value k l with
      | Some v => if str_eqb k (lit "__proto__") then own_value k o else Some v
      | None => own_value k o
      end.
Proof.
  induction l as [|[k0 v0] l IH]; intros o Hl Ho Hp; cbv zeta.
  - simpl. auto.
  - inversion Hl as [|? ? Hk Hl']; subst.
    cbn [fold_left fst snd].
    destruct (IH (assign_property k0 v0 o) Hl' (assign_NoDup _ _ _ Ho)
                (assign_plain _ _ _ Hp)) as (H1 & H2 & H3).
    split; [exact H1|]. split; [exact H2|]. intros k. rewrite H3.
    cbn [own_value]. rewrite assign_value.
    destruct (str_eqb k k0) eqn:E.
    + apply str_eqb_eq in E. subst k0.
      apply own_value_none in Hk. rewrite Hk. cbn [andb].
      destruct (str_eqb k (lit "__proto__")); reflexivity.
    + cbn [andb]. reflexivity.
Qed.

Lemma own_value_perm (k : str) (l l' : list (str * jsval)) :
  Permutation l l' -> NoDup (map fst l) -> own_value k l' = own_value k l.
Proof.
  intros Hp Hn.
  assert (Hn' : NoDup (map fst l'))
    by (eapply Permutation_NoDup; [apply Permutation_map; exact Hp|exact Hn]).
  destruct (own_value k l) as [v|] eqn:E.
  - apply in_own_value; [exact Hn'|].
    eapply Permutation_in; [exact Hp|]. apply own_value_in. exact E.
  - apply own_value_none. apply own_value_none in E. intros H. apply E.
    eapply Permutation_in; [apply Permutation_map, Permutation_sym; exact Hp|].
    exact H.
Qed.

(** What [Object.assign] makes of the files when the additional files
    are an object. *)
Lemma assigned_object (base : object) (fields : list (str * json)) :
  NoDup (map fst base) -> ~ In (lit "__proto__") (map fst base) ->
  forall k v, lookup_last k fields = Some v ->
              str_eqb k (lit "__proto__") = false ->
              In (k, Some v) (Object_entries (Object_assign base (JObj fields))).
Proof.
  intros Hn Hp k v Hl Hk.
  destruct (parsed_object_from fields [] (NoDup_nil _)) as [Hpn Hpv].
  fold (parsed_object fields) in Hpn, Hpv.
  assert (Hen : NoDup (map fst (Object_entries (parsed_object fields)))).
  { eapply Permutation_NoDup; [|exact Hpn].
    apply Permutation_map, Permutation_sym, Object_entries_perm. }
  destruct (assign_all (Object_entries (parsed_object fields)) base Hen Hn Hp)
    as (_ & _ & Hv).
  eapply Permutation_in; [apply Permutation_sym, Object_entries_perm|].
  apply own_value_in. unfold Object_assign, enumerable_entries. rewrite Hv.
  rewrite (own_value_perm k (parsed_object fields)
             (Object_entries (parsed_object fields)))
    by (auto using Permutation_sym, Object_entries_perm).
  rewrite Hpv, Hl, Hk. reflexivity.
Qed.

Lemma Object_assign_NoDup (base : object) (source : json) :
  NoDup (map fst base) -> NoDup (map fst (Object_assign base source)).
Proof.
  unfold Object_assign. generalize (enumerable_entries source). intros l.
  revert base. induction l as [|[k v] l IH]; intros base H; [exact H|].
  simpl. apply IH, assign_NoDup, H.
Qed.

Lemma Object_assign_plain (base : object) (source : json) :
  ~ In (lit "__proto__") (map fst base) ->
  ~ In (lit "__proto__") (map fst (Object_assign base source)).
Proof.
  unfold Object_assign. generalize (enumerable_entries source). intros l.
  revert base. induction l as [|[k v] l IH]; intros base H; [exact H|].
  simpl. apply IH, assign_plain, H.
Qed.

(** The files of a structure: the generated files, then the additional
    files assigned to them. *)
Lemma structure_base (engine : Engine)
    (templateRegistry : TemplateRegistry.registry)
    (options : GenerationOptions) (p : ParsedResponse)
    (structure : ProjectStructure) :
  CodeGenerator.generateProjectStructure
    (initializeFileGenerators engine templateRegistry) options p
    = Return structure ->
  exists base,
    files structure = Object_entries (withAdditionalFiles base p) /\
    NoDup (map fst base) /\ ~ In (lit "__proto__") (map fst base).
Proof.
  unfold CodeGenerator.generateProjectStructure, initializeFileGenerators.
  destruct (str_eqb (language options) (lit "typescript"));
    [|destruct (str_eqb (language options) (lit "javascript"));
      [|destruct (str_eqb (language options) (lit "python")); [|discriminate]]].
  - unfold TypeScriptFileGenerator.generateStructure. intros H.
    apply rbind_return in H. destruct H as (templateName & _ & H).
    cbv zeta in H.
    apply rbind_return in H. destruct H as (server & _ & H).
    apply rbind_return in H. destruct H as (readme & _ & H).
    injection H as <-. cbn [files]. eexists. split; [reflexivity|].
    split.
    + repeat (constructor; [cbn; intuition discriminate|]). constructor.
    + cbn. intuition discriminate.
  - unfold JavaScriptFileGenerator.generateStructure. intros H.
    apply rbind_return in H. destruct H as (templateName & _ & H).
    cbv zeta in H.
    apply rbind_return in H. destruct H as (server & _ & H).
    apply rbind_return in H. destruct H as (readme & _ & H).
    injection H as <-. cbn [files]. eexists. split; [reflexivity|].
    split.
    + repeat (constructor; [cbn; intuition discriminate|]). constructor.
    + cbn. intuition discriminate.
  - unfold PythonFileGenerator.generateStructure. intros H.
    apply rbind_return in H. destruct H as (templateName & _ & H).
    cbv zeta in H.
    apply rbind_return in H. destruct H as (server & _ & H).
    apply rbind_return in H. destruct H as (readme & _ & H).
    injection H as <-. cbn [files]. eexists. split; [reflexivity|].
    split.
    + repeat (constructor; [cbn; intuition discriminate|]). constructor.
    + cbn. intuition discriminate.
Qed.

(** X21. The files of a structure have distinct names, none of which is
    [__proto__].  When the additional files of the response are an
    object, each of its properties other than [__proto__] is a file of
    the structure with the value of the property as content: it
    replaces a generated file of the same name. *)
Theorem X21_additional_files (engine : Engine)
    (templateRegistry : TemplateRegistry.registry)
    (options : GenerationOptions) (p : ParsedResponse)
    (structure : ProjectStructure) :
  CodeGenerator.generateProjectStructure
    (initializeFileGenerators engine templateRegistry) options p
    = Return structure ->
  NoDup (map fst (files structure)) /\
  ~ In (lit "__proto__") (map fst (files structure)) /\
  forall fields k v,
    additionalFiles p = Some (JObj fields) ->
    lookup_last k fields = Some v -> k <> lit "__proto__" ->
    In (k, Some v) (files structure).
Proof.
  intros H. destruct (structure_base engine templateRegistry options p structure H)
    as (base & -> & Hn & Hp).
  assert (Hw : NoDup (map fst (withAdditionalFiles base p)) /\
               ~ In (lit "__proto__") (map fst (withAdditionalFiles base p))).
  { unfold withAdditionalFiles. destruct (additionalFiles p) as [source|]; [|auto].
    destruct (truthy (Some source)); [|auto].
    split; [apply Object_assign_NoDup|apply Object_assign_plain]; assumption. }
  destruct Hw as [Hwn Hwp]. split; [|split].
  - eapply Permutation_NoDup; [|exact Hwn].
    apply Permutation_map, Permutation_sym, Object_entries_perm.
  - intros Hin. apply Hwp.
    eapply Permutation_in; [apply Permutation_map, Object_entries_perm|exact Hin].
  - intros fields k v Ha Hl Hk. unfold withAdditionalFiles. rewrite Ha.
    cbn [truthy]. apply assigned_object; auto.
    destruct (str_eqb k (lit "__proto__")) eqn:E; [|reflexivity].
    apply str_eqb_eq in E. contradiction.
Qed.

Lemma X21_additional_files_witness :
  exists structure,
    CodeGenerator.generateProjectStructure
      (initializeFileGenerators sim_engine []) sim_options oddRecord
    = Return structure /\
    In (lit "server.ts", Some (JNum (lit "1"))) (files structure).
Proof.
  assert (H : exists structure,
            CodeGenerator.generateProjectStructure
              (initializeFileGenerators sim_engine []) sim_options oddRecord
            = Return structure)
    by (eexists; vm_compute; reflexivity).
  destruct H as (structure & Hg). exists structure. split; [exact Hg|].
  apply (X21_additional_files sim_engine [] sim_options oddRecord structure Hg)
    with (fields := [(lit "notes.txt", JStr (lit "n"));
                     (lit "server.ts", JNum (lit "1"));
                     (lit "7", JStr (lit "seven"))]).
  - reflexivity.
  - reflexivity.
  - discriminate.
Defined.

(* ================================================================== *)
(** * The key store, the service and the start of the command *)

Section TrimTwice.

Lemma trimStart_idem (s : str) : trimStart (trimStart s) = trimStart s.
Proof.
  induction s as [|c s IH]; [reflexivity|]. simpl.
  destruct (is_space c) eqn:E; [exact IH|]. simpl. rewrite E. reflexivity.
Qed.

Lemma trimStart_prefix (u p a : str) :
  trimStart u = u -> u = p ++ a -> trimStart p = p.
Proof.
  intros Hu Hp. destruct p as [|x r]; [reflexivity|].
  apply trimStart_stop. apply (@trimStart_head u x (r ++ a)).
  rewrite Hu, Hp. reflexivity.
Qed.

Lemma trim_idem (s : str) : trim (trim s) = trim s.
Proof.
  unfold trim, trimEnd.
  destruct (trimStart_split (rev (trimStart s))) as [a Ha].
  assert (H1 : trimStart (rev (trimStart (rev (trimStart s))))
               = rev (trimStart (rev (trimStart s)))).
  { apply (trimStart_prefix (trimStart s) _ (rev a)).
    - apply trimStart_idem.
    - rewrite <- rev_app_distr, <- Ha, rev_involutive. reflexivity. }
  rewrite H1, rev_involutive, trimStart_idem. reflexivity.
Qed.

Lemma trimmed_not_blank (s : str) :
  trim s <> [] -> CodeGenerator.is_blank (trim s) = false.
Proof.
  intros H. unfold CodeGenerator.is_blank. rewrite trim_idem.
  destruct (trim s) eqn:E; [congruence|reflexivity].
Qed.

Lemma not_blank_trim (s : str) :
  CodeGenerator.is_blank s = false <-> trim s <> [].
Proof.
  unfold CodeGenerator.is_blank. destruct (trim s); split; congruence.
Qed.

End TrimTwice.

Section KeyStore.

Import ConfigurationManager.

Variable editor : Editor.

Lemma constructor_accepts (key : str) :
  trim key <> [] -> OpenAIService.constructor key = Return (trim key).
Proof.
  intros H. unfold OpenAIService.constructor.
  destruct (trim key) eqn:E; [congruence|reflexivity].
Qed.

Lemma getOpenAIApiKey_uninitialized (s : State editor) :
  context s = false -> getOpenAIApiKey s = (Throw notInitialized, s).
Proof. intros H. unfold getOpenAIApiKey. rewrite H. reflexivity. Qed.

(** What [getOpenAIApiKey] does on an initialized manager. *)
Lemma getOpenAIApiKey_cases (s : State editor) :
  context s = true ->
  (exists secret, secrets_get editor (store s) = Some secret /\
     trim secret <> [] /\
     getOpenAIApiKey s = (Return secret, s)) \/
  (no_secret editor (store s) /\ legacyValue editor (store s) = [] /\
     getOpenAIApiKey s = (Return [], s)) \/
  (no_secret editor (store s) /\ legacyValue editor (store s) <> [] /\
     getOpenAIApiKey s
     = (Return (legacyValue editor (store s)),
        {| context := true;
           store := config_update editor []
                      (secrets_store editor (legacyValue editor (store s))
                         (store s)) |})).
Proof.
  intros Hc. unfold getOpenAIApiKey, no_secret, legacyValue. rewrite Hc.
  cbn [negb].
  destruct (secrets_get editor (store s)) as [secret|] eqn:Es;
    [destruct (trim secret) eqn:Et;
       [|left; exists secret; repeat split; auto; rewrite Et; discriminate]|];
    right;
    (destruct (config_get editor (store s)) as [[|c v]|];
       [left; auto| |left; auto]);
    (destruct (trim (c :: v)) eqn:El;
       [left; auto|right; repeat split; auto; discriminate]).
Qed.

Lemma setOpenAIApiKey_cases (apiKey : str) (s : State editor) :
  context s = true ->
  setOpenAIApiKey apiKey s
  = (Return tt,
     {| context := true;
        store := match trim apiKey with
                 | [] => secrets_delete editor (store s)
                 | c :: value => secrets_store editor (c :: value) (store s)
                 end |}).
Proof.
  intros Hc. unfold setOpenAIApiKey. rewrite Hc.
  destruct (trim apiKey); reflexivity.
Qed.

End KeyStore.

(** X22. On an initialized manager with a lawful editor, [setOpenAIApiKey]
    returns, and [getOpenAIApiKey] afterwards returns the trimmed key and
    changes nothing; for a blank key the secret is deleted and
    [getOpenAIApiKey] afterwards gives the trimmed setting
    [openaiApiKey]. *)
Theorem X22_key_round_trip (editor : Editor)
    (s : ConfigurationManager.State editor) (apiKey : str) :
  lawful editor -> ConfigurationManager.context s = true ->
  exists s1,
    ConfigurationManager.setOpenAIApiKey apiKey s = (Return tt, s1) /\
    ConfigurationManager.context s1 = true /\
    (trim apiKey <> [] ->
       ConfigurationManager.getOpenAIApiKey s1 = (Return (trim apiKey), s1)) /\
    (trim apiKey = [] ->
       no_secret editor (ConfigurationManager.store s1) /\
       fst (ConfigurationManager.getOpenAIApiKey s1)
       = Return (legacyValue editor (ConfigurationManager.store s))).
Proof.
  intros (Hgs & Hgd & Hgu & Hcu & Hcs & Hcd) Hc.
  rewrite (setOpenAIApiKey_cases editor apiKey s Hc).
  eexists. split; [reflexivity|]. split; [reflexivity|]. split.
  - intros Hne.
    destruct (getOpenAIApiKey_cases editor
                {| ConfigurationManager.context := true;
                   ConfigurationManager.store :=
                     match trim apiKey with
                     | [] => secrets_delete editor (ConfigurationManager.store s)
                     | c :: value =>
                         secrets_store editor (c :: value)
                           (ConfigurationManager.store s)
                     end |} eq_refl)
      as [(secret & Hsec & _ & Hget)|[(Hno & _)|(Hno & _)]];
      cbn [ConfigurationManager.store] in *;
      destruct (trim apiKey) as [|c v] eqn:Et; try congruence.
    + unfold no_secret in Hno. rewrite Hgs in Hno.
      rewrite <- Et, trim_idem in Hno. congruence.
    + unfold no_secret in Hno. rewrite Hgs in Hno.
      rewrite <- Et, trim_idem in Hno. congruence.
  - intros He. rewrite He.
    assert (Hno : no_secret editor
                    (secrets_delete editor (ConfigurationManager.store s)))
      by (unfold no_secret; rewrite Hgd; exact I).
    split; [exact Hno|].
    destruct (getOpenAIApiKey_cases editor
                {| ConfigurationManager.context := true;
                   ConfigurationManager.store :=
                     secrets_delete editor (ConfigurationManager.store s) |}
                eq_refl)
      as [(secret & Hsec & _)|[(_ & Hl & Hget)|(_ & _ & Hget)]];
      cbn [ConfigurationManager.store] in *.
    + rewrite Hgd in Hsec. discriminate.
    + rewrite Hget. cbn [fst]. rewrite <- Hl. unfold legacyValue.
      rewrite Hcd. reflexivity.
    + rewrite Hget. cbn [fst]. unfold legacyValue. rewrite Hcd. reflexivity.
Qed.

Lemma sim_editor_lawful : lawful sim_editor.
Proof. repeat split. Qed.

Lemma X22_key_round_trip_witness :
  exists s1,
    ConfigurationManager.setOpenAIApiKey (lit "  sk-new ") sim_legacy
      = (Return tt, s1) /\
    ConfigurationManager.context s1 = true /\
    (trim (lit "  sk-new ") <> [] ->
       ConfigurationManager.getOpenAIApiKey s1
       = (Return (trim (lit "  sk-new ")), s1)) /\
    (trim (lit "  sk-new ") = [] ->
       no_secret sim_editor (ConfigurationManager.store s1) /\
       fst (ConfigurationManager.getOpenAIApiKey s1)
       = Return (legacyValue sim_editor (ConfigurationManager.store sim_legacy))).
Proof.
  apply (X22_key_round_trip sim_editor sim_legacy (lit "  sk-new ")).
  - exact sim_editor_lawful.
  - reflexivity.
Defined.

(** X23. On an initialized manager with a lawful editor and no secret (or
    a blank one), [getOpenAIApiKey] returns the trimmed setting
    [openaiApiKey]: when that is empty nothing changes; otherwise it is
    stored as the secret, the setting is cleared, and a second call
    returns the same key and changes nothing. *)
Theorem X23_legacy_migration (editor : Editor)
    (s : ConfigurationManager.State editor) :
  lawful editor -> ConfigurationManager.context s = true ->
  no_secret editor (ConfigurationManager.store s) ->
  let key := legacyValue editor (ConfigurationManager.store s) in
  (key = [] -> ConfigurationManager.getOpenAIApiKey s = (Return [], s)) /\
  (key <> [] ->
     exists s1,
       ConfigurationManager.getOpenAIApiKey s = (Return key, s1) /\
       secrets_get editor (ConfigurationManager.store s1) = Some key /\
       config_get editor (ConfigurationManager.store s1) = Some [] /\
       ConfigurationManager.getOpenAIApiKey s1 = (Return key, s1)).
Proof.
  intros (Hgs & Hgd & Hgu & Hcu & Hcs & Hcd) Hc Hno key.
  destruct (getOpenAIApiKey_cases editor s Hc)
    as [(secret & Hsec & Hne & _)|[(_ & Hl & Hget)|(_ & Hl & Hget)]].
  - unfold no_secret in Hno. rewrite Hsec in Hno. congruence.
  - split; [intros _; exact Hget|]. intros Hk. unfold key in Hk. congruence.
  - split; [intros Hk; unfold key in Hk; congruence|]. intros _.
    eexists. split; [exact Hget|]. cbn [ConfigurationManager.store].
    rewrite Hgu, Hgs, Hcu. repeat split.
    match goal with
    | |- ConfigurationManager.getOpenAIApiKey ?t = _ =>
        destruct (getOpenAIApiKey_cases editor t eq_refl)
          as [(secret & Hsec & _ & Hget2)|[(Hno2 & _)|(Hno2 & _)]];
          cbn [ConfigurationManager.store] in *
    end.
    + rewrite Hgu, Hgs in Hsec. injection Hsec as <-. exact Hget2.
    + unfold no_secret in Hno2. rewrite Hgu, Hgs in Hno2.
      unfold legacyValue in Hno2, Hl. rewrite trim_idem in Hno2. congruence.
    + unfold no_secret in Hno2. rewrite Hgu, Hgs in Hno2.
      unfold legacyValue in Hno2, Hl. rewrite trim_idem in Hno2. congruence.
Qed.

Lemma X23_legacy_migration_witness :
  exists s1,
    ConfigurationManager.getOpenAIApiKey sim_legacy
      = (Return (lit "sk-old"), s1) /\
    secrets_get sim_editor (ConfigurationManager.store s1)
      = Some (lit "sk-old") /\
    config_get sim_editor (ConfigurationManager.store s1) = Some [] /\
    ConfigurationManager.getOpenAIApiKey s1 = (Return (lit "sk-old"), s1).
Proof.
  apply (proj2 (X23_legacy_migration sim_editor sim_legacy sim_editor_lawful
                  eq_refl I)).
  vm_compute. discriminate.
Defined.

Section EnsuredKey.

Import ConfigurationManager.

Variable editor : Editor.

Lemma key_accepted (key : str) :
  trim key <> [] ->
  OpenAIService.constructor key = Return (trim key) /\
  CodeGenerator.is_blank key = false.
Proof.
  intros H. split; [apply constructor_accepts; exact H|].
  apply not_blank_trim. exact H.
Qed.

Lemma ensureApiKey_cases (answer input : option str) (s : State editor) :
  context s = true ->
  (exists key s1, ensureApiKey answer input s = (Return (Some key), s1) /\
     trim key <> []) \/
  (exists s1, ensureApiKey answer input s = (Return None, s1) /\
     no_secret editor (store s) /\ legacyValue editor (store s) = []).
Proof.
  intros Hc. unfold ensureApiKey, bind.
  destruct (getOpenAIApiKey_cases editor s Hc)
    as [(secret & Hsec & Hne & Hget)|[(Hno & Hl & Hget)|(Hno & Hl & Hget)]];
    rewrite Hget.
  - left. destruct secret as [|c k]; [exfalso; apply Hne; reflexivity|].
    exists (c :: k), s. split; [reflexivity|exact Hne].
  - assert (R : exists s1 : State editor,
              (@Return (option str) None, s) = (Return None, s1) /\
              no_secret editor (store s) /\ legacyValue editor (store s) = [])
      by (exists s; auto).
    destruct answer as [result|]; [|right; exact R].
    destruct (str_eqb result (lit "Set API Key")); [|right; exact R].
    destruct input as [[|c k]|]; [right; exact R| |right; exact R].
    unfold promptForApiKey, bind.
    rewrite (setOpenAIApiKey_cases editor (c :: k) s Hc).
    destruct (trim (c :: k)) as [|c' k'] eqn:Et.
    + right. eexists. split; [reflexivity|auto].
    + left. eexists. eexists. split; [reflexivity|].
      rewrite <- Et, trim_idem, Et. discriminate.
  - left. destruct (legacyValue editor (store s)) as [|c k] eqn:El;
      [congruence|].
    eexists. eexists. split; [reflexivity|].
    unfold legacyValue in El. rewrite <- El, trim_idem, El. discriminate.
Qed.

End EnsuredKey.

(** X24. [ensureApiKey] throws on a manager that is not initialized and
    returns after [initialize].  It gives a key or nothing: a key that it
    gives is never blank, so that the constructor of the service accepts
    it; it gives nothing only if the store holds no usable secret and no
    setting to migrate. *)
Theorem X24_ensured_key (editor : Editor)
    (s : ConfigurationManager.State editor) (answer input : option str) :
  (ConfigurationManager.context s = false ->
     ConfigurationManager.ensureApiKey answer input s
     = (Throw ConfigurationManager.notInitialized, s)) /\
  (exists key s1,
     ConfigurationManager.ensureApiKey answer input
       (ConfigurationManager.initialize s) = (Return key, s1)) /\
  (forall key s1,
     ConfigurationManager.ensureApiKey answer input s
       = (Return (Some key), s1) ->
     OpenAIService.constructor key = Return (trim key) /\
     CodeGenerator.is_blank key = false) /\
  (forall s1,
     ConfigurationManager.ensureApiKey answer input s = (Return None, s1) ->
     no_secret editor (ConfigurationManager.store s) /\
     legacyValue editor (ConfigurationManager.store s) = []).
Proof.
  assert (Hu : ConfigurationManager.context s = false ->
               ConfigurationManager.ensureApiKey answer input s
               = (Throw ConfigurationManager.notInitialized, s)).
  { intros Hc. unfold ConfigurationManager.ensureApiKey, bind.
    rewrite (getOpenAIApiKey_uninitialized editor s Hc). reflexivity. }
  split; [exact Hu|]. split.
  - destruct (ensureApiKey_cases editor answer input
                (ConfigurationManager.initialize s) eq_refl)
      as [(key & s1 & He & _)|(s1 & He & _)]; rewrite He; eauto.
  - destruct (ConfigurationManager.context s) eqn:Hc.
    + destruct (ensureApiKey_cases editor answer input s Hc)
        as [(key & s1 & He & Hk)|(s1 & He & Hno & Hl)]; rewrite He; split.
      * intros key' s1' H. injection H as <- <-. apply key_accepted, Hk.
      * intros s1' H. discriminate.
      * intros key s1' H. discriminate.
      * intros s1' _. auto.
    + rewrite (Hu eq_refl). split; intros; discriminate.
Qed.

Lemma X24_ensured_key_witness :
  OpenAIService.constructor (lit "sk-old") = Return (trim (lit "sk-old")) /\
  CodeGenerator.is_blank (lit "sk-old") = false.
Proof.
  apply (proj1 (proj2 (proj2 (X24_ensured_key sim_editor sim_legacy None None)))
           (lit "sk-old")
           (@ConfigurationManager.Build_State sim_editor true
              (Some (lit "sk-old"), Some []))).
  reflexivity.
Defined.

Section CommandStart.

Import CreateServerCommand.

Lemma request_resolved (initialArgs : option CreateServerArguments)
    (describe pickLanguage pickTransport : option str)
    (request : GenerationRequest) :
  resolveGenerationRequest initialArgs describe pickLanguage pickTransport
    = Some request ->
  CodeGenerator.is_blank (request_description request) = false /\
  trim (request_description request) = request_description request /\
  request_language request <> [] /\ request_transport request <> [].
Proof.
  unfold resolveGenerationRequest.
  destruct (match match initialArgs with
                  | Some args => arg_description args
                  | None => None
                  end with
            | Some d => Some d
            | None => describe
            end) as [[|c d]|]; try discriminate.
  destruct (trim (c :: d)) as [|c' d'] eqn:Et; [discriminate|].
  destruct (match match initialArgs with
                  | Some args => arg_language args
                  | None => None
                  end with
            | Some l => Some l
            | None => pickLanguage
            end) as [[|l ls]|]; try discriminate.
  destruct (match match initialArgs with
                  | Some args => arg_transport args
                  | None => None
                  end with
            | Some t => Some t
            | None => pickTransport
            end) as [[|t ts]|]; try discriminate.
  intros H. injection H as <-. cbn [request_description request_language
                                     request_transport].
  rewrite <- Et. repeat split; try discriminate.
  - apply trimmed_not_blank. rewrite Et. discriminate.
  - apply trim_idem.
Qed.

Lemma slug_not_blank (n : str) (k : nat) :
  endsWith (lit "-server") n = true ->
  CodeGenerator.is_blank (candidate n k) = false.
Proof.
  intros H. unfold endsWith in H. apply startsWith_iff in H.
  destruct H as [t Ht].
  assert (Hn : n = rev t ++ lit "-server").
  { rewrite <- (rev_involutive n), Ht, rev_app_distr, rev_involutive.
    reflexivity. }
  apply not_blank_trim. apply (@trim_not_blank _ "-"%char); [|reflexivity].
  rewrite Hn. destruct k; cbn [candidate];
    repeat (rewrite in_app_iff); [right|left; right]; cbn; auto.
Qed.

End CommandStart.

Lemma validation_messages (fs : NodeFs) (options : GenerationOptions)
    (w : World fs) (message : str) :
  CodeGenerator.is_blank (description options) = false ->
  CodeGenerator.is_blank (serverName options) = false ->
  fst (CodeGenerator.validateGenerationOptions fs options w) = Throw message ->
  message <> lit "Server description cannot be empty." /\
  message <> lit "Server name cannot be empty.".
Proof.
  intros Hd Hn. unfold CodeGenerator.validateGenerationOptions.
  rewrite Hd, Hn.
  destruct (CodeGenerator.is_blank (outputPath options)).
  { cbn. intros H. injection H as <-. split; discriminate. }
  destruct (negb (existsb (str_eqb (language options))
                    CodeGenerator.validLanguages)).
  { cbn. intros H. injection H as <-. split; discriminate. }
  destruct (negb (existsb (str_eqb (transport options))
                    CodeGenerator.validTransports)).
  { cbn. intros H. injection H as <-. split; discriminate. }
  destruct (accessSync fs (path_dirname fs (outputPath options)) w);
    cbn; intros H; [discriminate|].
  injection H as <-. split; discriminate.
Qed.

Section LoopEnds.

Variable fs : NodeFs.
Variables (basePath preferredName : str) (w : World fs).

Lemma loop_some (fuel : nat) : forall j,
  (exists k, k < fuel /\ taken fs basePath preferredName w (j + k) = false) ->
  exists r,
    CreateServerCommand.ensureUniqueDirectory_loop fs fuel basePath
      preferredName (candidate preferredName j) (S j) w = Some r.
Proof.
  induction fuel as [|fuel IH]; intros j (k & Hk & Hfree); [lia|].
  cbn [CreateServerCommand.ensureUniqueDirectory_loop].
  destruct (existsSync fs (path_join fs basePath (candidate preferredName j)) w)
    eqn:E; [|eexists; reflexivity].
  change (preferredName ++ lit "-" ++ decimal (S j))
    with (candidate preferredName (S j)).
  rewrite Nat.add_1_r. apply IH.
  destruct k as [|k].
  - rewrite Nat.add_0_r in Hfree. unfold taken in Hfree. congruence.
  - exists k. split; [lia|].
    replace (S j + k) with (j + S k) by lia. exact Hfree.
Qed.

End LoopEnds.

(** X25. The start of [execute] gives no options when a dialog is
    dismissed, and then leaves the file system as it is.  Options that
    it gives have a trimmed description that is not blank, a language
    and a transport that are not empty, and as server name the first of
    "name", "name-1", "name-2", ... that does not exist under the chosen
    folder, for a slug "name" that ends with "-server"; the output path
    did not exist and was created by one call of [mkdirSync].  For such
    options [validateGenerationOptions] never reports an empty
    description or an empty server name.  An error is the one of
    [mkdirSync].  The search for a name ends whenever one of the first
    names is free. *)
Theorem X25_generation_options (fs : NodeFs) (fuel : nat)
    (initialArgs : option CreateServerCommand.CreateServerArguments)
    (describe pickLanguage pickTransport : option str)
    (showInputBox : str -> (str -> option str) -> option str)
    (workspaceFolders : option (list str))
    (showQuickPick : option bool) (showOpenDialog : option (list str))
    (w : World fs) :
  (forall result w',
     CreateServerCommand.generationOptions fs fuel initialArgs describe
       pickLanguage pickTransport showInputBox workspaceFolders showQuickPick
       showOpenDialog w = Some (result, w') ->
     match result with
     | Return (Some options) =>
         CodeGenerator.is_blank (description options) = false /\
         trim (description options) = description options /\
         language options <> [] /\ transport options <> [] /\
         CodeGenerator.is_blank (serverName options) = false /\
         (exists name k basePath,
            endsWith (lit "-server") name = true /\
            CreateServerCommand.sanitizeName name = name /\
            serverName options = candidate name k /\
            outputPath options = path_join fs basePath (serverName options) /\
            forall i, i < k ->
              existsSync fs (path_join fs basePath (candidate name i)) w
              = true) /\
         existsSync fs (outputPath options) w = false /\
         mkdirSync fs (outputPath options) w = (Return tt, w') /\
         (forall w2 message,
            fst (CodeGenerator.validateGenerationOptions fs options w2)
              = Throw message ->
            message <> lit "Server description cannot be empty." /\
            message <> lit "Server name cannot be empty.")
     | Return None => w' = w
     | Throw message =>
         exists fullPath, existsSync fs fullPath w = false /\
                          mkdirSync fs fullPath w = (Throw message, w')
     end) /\
  ((forall basePath name, exists k,
      k < fuel /\
      existsSync fs (path_join fs basePath (candidate name k)) w = false) ->
   exists result w',
     CreateServerCommand.generationOptions fs fuel initialArgs describe
       pickLanguage pickTransport showInputBox workspaceFolders showQuickPick
       showOpenDialog w = Some (result, w')).
Proof.
  split.
  - intros result w'.
    unfold CreateServerCommand.generationOptions.
    destruct (CreateServerCommand.resolveGenerationRequest initialArgs
                describe pickLanguage pickTransport) as [request|] eqn:Er;
      [|intros H; injection H as <- <-; reflexivity].
    apply request_resolved in Er. destruct Er as (Hd & Ht & Hl & Hp).
    destruct (CreateServerCommand.resolveServerName showInputBox
                (request_description request)
                match initialArgs with
                | Some args => CreateServerCommand.arg_serverName args
                | None => None
                end) as [[|c n]|] eqn:En;
      [intros H; injection H as <- <-; reflexivity| |
       intros H; injection H as <- <-; reflexivity].
    apply resolved_slug in En. destruct En as (_ & Hend & Hslug).
    unfold CreateServerCommand.resolveTargetDirectory.
    destruct (match workspaceFolders with
              | Some (primaryFolder :: _) =>
                  match showQuickPick with
                  | Some selection =>
                      if str_eqb (if selection then primaryFolder
                                  else lit "browse") (lit "browse")
                      then match showOpenDialog with
                           | Some (picked :: _) => Some picked
                           | _ => None
                           end
                      else Some (if selection then primaryFolder
                                 else lit "browse")
                  | None => None
                  end
              | _ => match showOpenDialog with
                     | Some (picked :: _) => Some picked
                     | _ => None
                     end
              end) as [basePath|];
      [|intros H; injection H as <- <-; reflexivity].
    destruct (CreateServerCommand.ensureUniqueDirectory fs fuel basePath
                (c :: n) w) as [[fullPath name]|] eqn:Eu; [|discriminate].
    apply (loop_sound fs basePath (c :: n) w fuel 0) in Eu.
    destruct Eu as (k & Hname & Hpath & Hfree & Hbefore). cbn [Nat.add] in *.
    assert (He : existsSync fs fullPath w = false)
      by (rewrite Hpath, Hname; exact Hfree).
    cbn [fst]. unfold CreateServerCommand.ensureDirectoryExists.
    rewrite He. cbn [negb].
    destruct (mkdirSync fs fullPath w) as [[[]|message] w1] eqn:Em;
      intros H; injection H as <- <-.
    + cbn [description language transport outputPath serverName fst snd].
      assert (Hb : CodeGenerator.is_blank name = false)
        by (rewrite Hname; apply slug_not_blank; exact Hend).
      repeat split; auto.
      * exists (c :: n), k, basePath. repeat split; auto.
      * eapply validation_messages; [| |exact H]; [exact Hd|exact Hb].
      * eapply validation_messages; [| |exact H]; [exact Hd|exact Hb].
    + exists fullPath. auto.
  - intros Hfree. unfold CreateServerCommand.generationOptions.
    destruct (CreateServerCommand.resolveGenerationRequest initialArgs
                describe pickLanguage pickTransport) as [request|];
      [|eexists; eexists; reflexivity].
    destruct (CreateServerCommand.resolveServerName showInputBox
                (request_description request)
                match initialArgs with
                | Some args => CreateServerCommand.arg_serverName args
                | None => None
                end) as [[|c n]|];
      [eexists; eexists; reflexivity| |eexists; eexists; reflexivity].
    unfold CreateServerCommand.resolveTargetDirectory.
    destruct (match workspaceFolders with
              | Some (primaryFolder :: _) =>
                  match showQuickPick with
                  | Some selection =>
                      if str_eqb (if selection then primaryFolder
                                  else lit "browse") (lit "browse")
                      then match showOpenDialog with
                           | Some (picked :: _) => Some picked
                           | _ => None
                           end
                      else Some (if selection then primaryFolder
                                 else lit "browse")
                  | None => None
                  end
              | _ => match showOpenDialog with
                     | Some (picked :: _) => Some picked
                     | _ => None
                     end
              end) as [basePath|];
      [|eexists; eexists; reflexivity].
    destruct (loop_some fs basePath (c :: n) w fuel 0 (Hfree basePath (c :: n)))
      as [r Hr].
    unfold CreateServerCommand.ensureUniqueDirectory.
    change (c :: n) with (candidate (c :: n) 0) at 2. rewrite Hr.
    destruct (CreateServerCommand.ensureDirectoryExists fs (fst r) w)
      as [[[]|message] w1]; eexists; eexists; reflexivity.
Qed.

Lemma X25_generation_options_witness :
  (CodeGenerator.is_blank (serverName sim_weather) = false /\
   existsSync (SimFs []) (outputPath sim_weather) sim_named = false) /\
  exists result w',
    CreateServerCommand.generationOptions (SimFs []) 5
      (Some sim_arguments) None None (Some (lit "stdio"))
      (fun _ _ => Some (lit "Weather Tools"))
      (Some [lit "/out"]) (Some true) None
      {| sim_dirs := []; sim_files := [] |} = Some (result, w').
Proof.
  split.
  - assert (E : CreateServerCommand.generationOptions (SimFs []) 5
                  (Some sim_arguments) None None (Some (lit "stdio"))
                  (fun _ _ => Some (lit "Weather Tools"))
                  (Some [lit "/out"]) (Some true) None sim_named
                = Some (Return (Some sim_weather),
                        {| sim_dirs := [lit "/out";
                                        lit "/out/weather-tools-server";
                                        lit "/out/weather-tools-server-1"];
                           sim_files := [] |}))
      by (vm_compute; reflexivity).
    destruct (proj1 (X25_generation_options (SimFs []) 5 (Some sim_arguments)
                       None None (Some (lit "stdio"))
                       (fun _ _ => Some (lit "Weather Tools"))
                       (Some [lit "/out"]) (Some true) None sim_named) _ _ E)
      as (_ & _ & _ & _ & Hb & _ & He & _).
    split; assumption.
  - apply (proj2 (X25_generation_options (SimFs []) 5 (Some sim_arguments)
                    None None (Some (lit "stdio"))
                    (fun _ _ => Some (lit "Weather Tools"))
                    (Some [lit "/out"]) (Some true) None
                    {| sim_dirs := []; sim_files := [] |})).
    intros basePath name. exists 0. split; [lia|reflexivity].
Defined.

Lemma fallback_not_blank (options : GenerationOptions) :
  CreateServerCommand.buildFallbackResponse options <> [] /\
  CodeGenerator.is_blank (CreateServerCommand.buildFallbackResponse options)
  = false.
Proof.
  destruct (fallback_long options) as (rest & ->). split; [discriminate|].
  apply not_blank_trim. apply (@trim_not_blank _ "{"%char); [|reflexivity].
  left. reflexivity.
Qed.

(** X26. The response that [execute] hands to [generateProject] is never
    blank.  Without a key there is one only if the user chooses the
    local template, and it is the fallback response.  With a key it is
    the trimmed content of the completion whenever that is not empty,
    whatever it holds; the fallback response replaces it only when the
    service throws, the content is missing, or the content is blank. *)
Theorem X26_response_chosen (apiKey selection : option str)
    (response : OpenAIService.completion) (options : GenerationOptions) :
  let fallback := CreateServerCommand.buildFallbackResponse options in
  let keyed := match apiKey with Some (_ :: _) => true | _ => false end in
  (forall text usedFallback,
     CreateServerCommand.openAIResponse apiKey selection response options
       = Some (text, usedFallback) ->
     CodeGenerator.is_blank text = false /\
     (usedFallback = true -> text = fallback) /\
     (usedFallback = false ->
        keyed = true /\
        exists content, response = OpenAIService.Content (Some content) /\
                        text = trim content)) /\
  (CreateServerCommand.openAIResponse apiKey selection response options = None
   <-> keyed = false /\ selection <> Some (lit "Use Local Template")) /\
  (forall key content,
     apiKey = Some key -> trim key <> [] ->
     response = OpenAIService.Content (Some content) ->
     CreateServerCommand.openAIResponse apiKey selection response options
     = Some (if CodeGenerator.is_blank content then (fallback, true)
             else (trim content, false))).
Proof.
  intros fallback keyed.
  destruct (fallback_not_blank options) as (Hne & Hnb).
  assert (Hfb : match fallback with
                | [] => (fallback, true)
                | _ :: _ => (fallback, true)
                end = (fallback, true)) by (destruct fallback; reflexivity).
  assert (Hsel : forall s : str,
            str_eqb s (lit "Use Local Template") = false ->
            Some s <> Some (lit "Use Local Template")).
  { intros s Hs H. injection H as ->. rewrite str_eqb_refl in Hs.
    discriminate. }
  split; [|split].
  - intros text usedFallback. unfold CreateServerCommand.openAIResponse.
    fold fallback.
    assert (Hf : Some (fallback, true) = Some (text, usedFallback) ->
                 CodeGenerator.is_blank text = false /\
                 (usedFallback = true -> text = fallback) /\
                 (usedFallback = false ->
                    keyed = true /\
                    exists content,
                      response = OpenAIService.Content (Some content) /\
                      text = trim content)).
    { intros H. injection H as <- <-. repeat split; auto; discriminate. }
    destruct apiKey as [[|c key]|]; cbn [negb fst].
    + destruct selection as [s|]; [|discriminate].
      destruct (str_eqb s (lit "Use Local Template")); [|discriminate].
      cbn [negb fst]. rewrite Hfb. exact Hf.
    + destruct (OpenAIService.constructor (c :: key));
        [|cbn [fst]; rewrite Hfb; exact Hf].
      unfold OpenAIService.generateServerSpecification.
      destruct response as [[[|x content]|]|[message|]];
        try (cbn [fst]; rewrite Hfb; exact Hf).
      cbn [fst]. destruct (trim (x :: content)) as [|y t] eqn:Et;
        [exact Hf|].
      intros H. injection H as <- <-. split; [|split].
      * rewrite <- Et. apply trimmed_not_blank. rewrite Et. discriminate.
      * discriminate.
      * intros _. split; [reflexivity|].
        exists (x :: content). split; [reflexivity|]. symmetry. exact Et.
    + destruct selection as [s|]; [|discriminate].
      destruct (str_eqb s (lit "Use Local Template")); [|discriminate].
      cbn [negb fst]. rewrite Hfb. exact Hf.
  - unfold CreateServerCommand.openAIResponse, keyed.
    destruct apiKey as [[|c key]|].
    + destruct selection as [s|];
        [destruct (str_eqb s (lit "Use Local Template")) eqn:Es|].
      * apply str_eqb_eq in Es. subst s.
        split; [discriminate|]. intros (_ & H). congruence.
      * split; [intros _; split; [reflexivity|apply Hsel, Es]|reflexivity].
      * split; [intros _; split; [reflexivity|discriminate]|reflexivity].
    + split; [discriminate|]. intros (H & _). discriminate.
    + destruct selection as [s|];
        [destruct (str_eqb s (lit "Use Local Template")) eqn:Es|].
      * apply str_eqb_eq in Es. subst s.
        split; [discriminate|]. intros (_ & H). congruence.
      * split; [intros _; split; [reflexivity|apply Hsel, Es]|reflexivity].
      * split; [intros _; split; [reflexivity|discriminate]|reflexivity].
  - intros key content -> Hk ->. unfold CreateServerCommand.openAIResponse.
    fold fallback.
    destruct key as [|c key]; [exfalso; apply Hk; reflexivity|].
    cbn [negb]. rewrite (constructor_accepts (c :: key) Hk).
    unfold OpenAIService.generateServerSpecification, CodeGenerator.is_blank.
    destruct content as [|x content]; [cbn [fst]; rewrite Hfb; reflexivity|].
    cbn [fst]. destruct (trim (x :: content)); reflexivity.
Qed.

Lemma X26_response_chosen_witness :
  CreateServerCommand.openAIResponse (Some (lit "sk-old")) None
    (OpenAIService.Content (Some (lit " ok "))) sim_weather
  = Some (lit "ok", false).
Proof.
  apply (proj2 (proj2 (X26_response_chosen (Some (lit "sk-old")) None
                         (OpenAIService.Content (Some (lit " ok ")))
                         sim_weather))
           (lit "sk-old") (lit " ok ") eq_refl).
  - vm_compute. discriminate.
  - reflexivity.
Defined.

(* ================================================================== *)
(** * An object in a json fence *)

Section LazyWithin.

Variables (p : ascii -> bool) (k : mstate -> option mstate).
Variable cs : list (nat * str).

(** A lazy run stops at the first place where what follows matches,
    which is not behind a place where it is known to match. *)
Lemma rep_lazy_within (w s' : str) : forall pv ps e0,
  forallb p w = true ->
  k (MS (prev_after pv w) (ps + length w) s' cs) = Some e0 ->
  exists w1 w2 e,
    w = w1 ++ w2 /\
    k (MS (prev_after pv w1) (ps + length w1) (w2 ++ s') cs) = Some e /\
    rep false p 0 None k pv ps cs (w ++ s') = Some e.
Proof.
  induction w as [|c w IH]; intros pv ps e0 Hw Hk.
  - exists [], [], e0. simpl in *. rewrite Nat.add_0_r in *.
    split; [reflexivity|]. split; [exact Hk|].
    destruct s' as [|c t]; simpl; rewrite Hk; reflexivity.
  - simpl in Hw. apply andb_true_iff in Hw. destruct Hw as [Hc Hw].
    destruct (k (MS pv ps ((c :: w) ++ s') cs)) as [e|] eqn:Ek.
    + exists [], (c :: w), e. simpl prev_after. simpl length.
      rewrite Nat.add_0_r. split; [reflexivity|]. split; [exact Ek|].
      simpl. simpl in Ek. rewrite Ek. reflexivity.
    + destruct (IH (Some c) (S ps) e0 Hw) as (w1 & w2 & e & Ew & Ee & Er).
      { simpl in Hk. replace (S ps + length w) with (ps + S (length w)) by lia.
        exact Hk. }
      exists (c :: w1), w2, e. split; [simpl; congruence|]. split.
      * simpl. replace (ps + S (length w1)) with (S ps + length w1) by lia.
        exact Ee.
      * simpl. simpl in Ek. rewrite Ek, Hc. simpl. exact Er.
Qed.

End LazyWithin.

Section KeepsCaptures.

Variables (p : ascii -> bool) (k : mstate -> option mstate).
Variable cs : list (nat * str).
Hypothesis k_keeps : forall st e, caps st = cs -> k st = Some e -> caps e = cs.

(** A quantified class records nothing. *)
Lemma rep_caps (s : str) : forall g lo hi pv ps e,
  rep g p lo hi k pv ps cs s = Some e -> caps e = cs.
Proof.
  induction s as [|c t IH]; intros g lo hi pv ps e H.
  - simpl in H. destruct g.
    + destruct (lo =? 0); [|discriminate].
      apply (k_keeps (MS pv ps [] cs)); [reflexivity|exact H].
    + destruct (lo =? 0); [|discriminate].
      destruct (k (MS pv ps [] cs)) eqn:E; [|discriminate].
      injection H as <-. apply (k_keeps (MS pv ps [] cs)); [reflexivity|exact E].
  - simpl in H. destruct g.
    + destruct (p c && room hi).
      * destruct (rep true p (pred lo) (less hi) k (Some c) (S ps) cs t) eqn:E.
        -- injection H as <-. apply (IH _ _ _ _ _ _ E).
        -- destruct (lo =? 0); [|discriminate].
           apply (k_keeps (MS pv ps (c :: t) cs)); [reflexivity|exact H].
      * destruct (lo =? 0); [|discriminate].
        apply (k_keeps (MS pv ps (c :: t) cs)); [reflexivity|exact H].
    + destruct (if lo =? 0 then k (MS pv ps (c :: t) cs) else None) eqn:E.
      * injection H as <-. destruct (lo =? 0); [|discriminate].
        apply (k_keeps (MS pv ps (c :: t) cs)); [reflexivity|exact E].
      * destruct (p c && room hi); [|discriminate].
        apply (IH _ _ _ _ _ _ H).
Qed.

End KeepsCaptures.

(** White space and a literal at the end of a pattern record nothing. *)
Lemma tail_caps (p : ascii -> bool) (l : str) (st e : mstate) :
  mt (Seq (star p) (Str l)) Some st = Some e -> caps e = caps st.
Proof.
  destruct st as [pv ps s cs]. rewrite mt_Seq. unfold star. rewrite mt_Rep.
  apply rep_caps. intros st e' Hc H. rewrite mt_Str in H.
  destruct (startsWith l (rest st)); [|discriminate].
  injection H as <-. exact Hc.
Qed.

Section FenceWithin.

Import BaseResponseParser.

Variables (ws1 inside ws2 post : str).
Hypothesis blank1 : forallb is_space ws1 = true.
Hypothesis blank2 : forallb is_space ws2 = true.

Local Abbreviation open := ("{"%char :: inside).

(** At the opening fence, with a closing fence somewhere behind a text
    that begins with a brace, the pattern matches, and what it captures
    is that text or a start of it. *)
Lemma jsonFence_within pv ps :
  exists e w1 w2,
    open = w1 ++ w2 /\
    mt jsonFence Some
       (MS pv ps (lit "```json" ++ ws1 ++ open ++ ws2 ++ lit "```" ++ post) [])
    = Some e /\ caps e = [(1, w1)].
Proof.
  unfold jsonFence. cbn [seqs]. unfold Lit.
  set (pv1 := prev_after pv (lit "```json")).
  set (ps1 := ps + length (lit "```json")).
  set (pv2 := prev_after pv1 ws1). set (ps2 := ps1 + length ws1).
  set (k2 := fun e : mstate =>
               mt (Seq (star is_space) (Str (lit "```"))) Some
                  (set_cap 1 (firstn (pos e - ps2)
                                (open ++ ws2 ++ lit "```" ++ post)) e)).
  destruct (@rep_lazy_within is_any k2 [] open (ws2 ++ lit "```" ++ post)
              pv2 ps2
              (MS (prev_after (prev_after (prev_after pv2 open) ws2)
                     (lit "```"))
                  (ps2 + length open + length ws2 + length (lit "```"))
                  post
                  [(1, firstn (ps2 + length open - ps2)
                         (open ++ ws2 ++ lit "```" ++ post))]))
    as (w1 & w2 & e & Ew & Ee & Er).
  - apply forallb_any.
  - unfold k2, set_cap. cbn [prev pos rest caps].
    rewrite mt_Seq. unfold star. rewrite mt_Rep.
    apply rep_greedy_run; [exact blank2|reflexivity|apply Nat.le_0_l|].
    rewrite mt_Str_app. reflexivity.
  - exists e, w1, w2. split; [exact Ew|]. split.
    + rewrite mt_Seq, mt_Str_app, mt_Seq. unfold star at 1. rewrite mt_Rep.
      fold pv1 ps1.
      apply rep_greedy_run; [exact blank1|reflexivity|apply Nat.le_0_l|].
      fold pv2 ps2. rewrite mt_Seq, mt_Cap. unfold lazy_star.
      rewrite mt_Rep. cbn [prev pos rest caps]. exact Er.
    + unfold k2 in Ee. apply tail_caps in Ee.
      rewrite Ee. unfold set_cap. cbn [caps pos].
      rewrite Ew, <- app_assoc, firstn_after. reflexivity.
Qed.

End FenceWithin.

(** The text that is handed to [JSON.parse] for the start of an object is
    again a start of the object. *)
Lemma cleanFence_prefix (w : str) :
  w = [] \/ (exists t, w = "{"%char :: t) ->
  exists r, w = BaseResponseParser.cleanFence w ++ r.
Proof.
  intros [->|(t & ->)]; [exists []; reflexivity|].
  unfold BaseResponseParser.cleanFence.
  assert (Hj : exists t' b, trim ("{"%char :: t) = "{"%char :: t' /\
                            "{"%char :: t = ("{"%char :: t') ++ b).
  { unfold trim. cbn [trimStart]. change (is_space "{") with false. cbv iota.
    unfold trimEnd.
    destruct (trimStart_split (rev ("{"%char :: t))) as [a Ha].
    assert (E : "{"%char :: t
                = rev (trimStart (rev ("{"%char :: t))) ++ rev a).
    { rewrite <- rev_app_distr, <- Ha, rev_involutive. reflexivity. }
    destruct (rev (trimStart (rev ("{"%char :: t)))) as [|x t'] eqn:Er.
    - exfalso.
      assert (Hn : trim ("{"%char :: t) = []).
      { unfold trim, trimEnd. cbn [trimStart]. change (is_space "{") with false.
        cbv iota. exact Er. }
      revert Hn. apply (@trim_not_blank _ "{"%char); [left|]; reflexivity.
    - simpl in E. injection E as <- E. exists t', (rev a). split; [reflexivity|].
      simpl. congruence. }
  destruct Hj as (t' & b & -> & Eb).
  change (indexOf (lit "{") ("{"%char :: t')) with (Some 0).
  destruct (lastIndexOf (lit "}") ("{"%char :: t')) as [lastBrace|];
    [|exists b; exact Eb].
  destruct (0 <? lastBrace); [|exists b; exact Eb].
  unfold substring. rewrite Nat.sub_0_r. cbn [skipn].
  exists (skipn (lastBrace + 1) ("{"%char :: t') ++ b).
  rewrite app_assoc, firstn_skipn. exact Eb.
Qed.

(** A start of a text that is read as a valid object is not read as
    another one. *)
Lemma parse_valid_prefix (t r : str) (v' v : json) :
  BaseResponseParser.parse_valid t = Some v' ->
  BaseResponseParser.parse_valid (t ++ r) = Some v -> v' = v.
Proof.
  unfold BaseResponseParser.parse_valid. intros H1 H2.
  destruct (JSON_parse t) as [x|] eqn:E1; [|discriminate].
  destruct (BaseResponseParser.validateJsonStructure (Some x)) eqn:V1;
    [|discriminate].
  injection H1 as ->.
  destruct (JSON_parse (t ++ r)) as [y|] eqn:E2; [|discriminate].
  destruct (BaseResponseParser.validateJsonStructure (Some y)); [|discriminate].
  injection H2 as ->.
  destruct (valid_object v' V1) as (kv & fs & ->).
  apply (JSON_parse_prefix t r _ _ E1 eq_refl E2).
Qed.

Lemma skip_ws_blank_app (rest r : str) :
  skip_ws rest = [] -> skip_ws (rest ++ r) = skip_ws r.
Proof.
  induction rest as [|c rest IH]; intros H; [reflexivity|].
  simpl in *. destruct (json_ws c); [apply IH; exact H|discriminate].
Qed.

Lemma skip_ws_ends (a : str) (c : ascii) :
  json_ws c = false -> skip_ws (a ++ [c]) <> [].
Proof.
  intros Hc. induction a as [|x a IH]; simpl.
  - rewrite Hc. discriminate.
  - destruct (json_ws x); [exact IH|discriminate].
Qed.

(** A text that goes on behind a value that is read, up to something
    that is no white space, is not read. *)
Lemma JSON_parse_proper (t a : str) (c : ascii) (v : json) :
  JSON_parse t = Some v -> is_number v = false -> json_ws c = false ->
  JSON_parse (t ++ a ++ [c]) = None.
Proof.
  unfold JSON_parse. intros H Hv Hc.
  destruct (parse_value (2 * length t + 2) t) as [[v' r]|] eqn:E; [|discriminate].
  destruct (skip_ws r) eqn:Er; [|discriminate]. injection H as ->.
  apply (proj1 (parse_app _)) with (post := a ++ [c]) in E; [|left; exact Hv].
  apply parse_value_fuel with (f' := 2 * length (t ++ a ++ [c]) + 2) in E;
    [|rewrite length_app; lia].
  rewrite E, (skip_ws_blank_app r (a ++ [c]) Er).
  destruct (skip_ws (a ++ [c])) eqn:Es; [|reflexivity].
  exfalso. revert Es. apply skip_ws_ends. exact Hc.
Qed.

Lemma parse_valid_proper (t a : str) (c : ascii) (v : json) :
  BaseResponseParser.parse_valid (t ++ a ++ [c]) = Some v ->
  json_ws c = false ->
  BaseResponseParser.parse_valid t = None.
Proof.
  unfold BaseResponseParser.parse_valid. intros H Hc.
  destruct (JSON_parse t) as [x|] eqn:E1; [|reflexivity].
  destruct (BaseResponseParser.validateJsonStructure (Some x)) eqn:V1;
    [|reflexivity].
  destruct (valid_object x V1) as (kv & fs & ->).
  rewrite (JSON_parse_proper t a c _ E1 eq_refl Hc) in H. discriminate.
Qed.

Section FencedScan.

Import BaseResponseParser.

Variables (pre ws1 body ws2 post : str) (v : json).
Hypothesis no_tick : forallb (fun c => negb (is_char "`" c)) pre = true.
Hypothesis no_brace : forallb no_open pre = true.
Hypothesis blank1 : forallb is_space ws1 = true.
Hypothesis blank2 : forallb is_space ws2 = true.
Hypothesis balanced : balancedObject (lit "{" ++ body ++ lit "}") = true.
Hypothesis valid : parse_valid (lit "{" ++ body ++ lit "}") = Some v.

Local Abbreviation object := (lit "{" ++ body ++ lit "}").

(** What the fence gives is the object or nothing. *)
Lemma fromFence_object :
  fromFence (pre ++ lit "```json" ++ ws1 ++ object ++ ws2 ++ lit "```" ++ post)
    = Some v \/
  fromFence (pre ++ lit "```json" ++ ws1 ++ object ++ ws2 ++ lit "```" ++ post)
    = None.
Proof.
  unfold fromFence, rmatch, exec_at, start_state. cbn [prev pos rest].
  rewrite (@exec_from_skip_prefix jsonFence (is_char "`") pre _
             (Starts_Seq _ (@Starts_Str "`"%char _ (is_char "`") eq_refl))
             no_tick).
  destruct (jsonFence_within ws1 (body ++ lit "}") ws2 post blank1 blank2
              (prev_after None pre) (0 + length pre))
    as (e & w1 & w2 & Ew & Hm & Hc).
  change (lit "{" ++ body ++ lit "}") with ("{"%char :: body ++ lit "}").
  rewrite (@exec_from_here _ _ _ _ e Hm).
  unfold group. cbn [m_caps]. rewrite Hc. cbn [get_cap Nat.eqb].
  destruct (cleanFence_prefix w1) as [r Er].
  { destruct w1 as [|c t]; [left; reflexivity|right].
    simpl in Ew. injection Ew as <- _. exists t. reflexivity. }
  destruct (parse_valid (cleanFence w1)) as [v'|] eqn:E; [left|right; reflexivity].
  f_equal. apply (parse_valid_prefix (cleanFence w1) (r ++ w2) v' v E).
  rewrite app_assoc, <- Er, <- Ew. exact valid.
Qed.

(** The brace scan finds the object first. *)
Lemma scan_object_first :
  firstValid
    (findJsonObjects
       (pre ++ lit "```json" ++ ws1 ++ object ++ ws2 ++ lit "```" ++ post))
  = Some v.
Proof.
  assert (Hpre : forallb no_open (pre ++ lit "```json" ++ ws1) = true).
  { rewrite !forallb_app, no_brace. cbn [andb].
    change (forallb no_open (lit "```json")) with true. cbn [andb].
    rewrite forallb_forall in *. intros c Hc. specialize (blank1 c Hc).
    unfold no_open. destruct (is_char "{" c) eqn:E; [|reflexivity].
    apply is_char_true in E. subst c. discriminate. }
  destruct (@findJsonObjects_first (pre ++ lit "```json" ++ ws1) object
              (ws2 ++ lit "```" ++ post) Hpre balanced) as [more Hmore].
  rewrite <- !app_assoc in Hmore. rewrite <- !app_assoc. rewrite Hmore.
  cbn [firstValid]. rewrite valid. reflexivity.
Qed.

Lemma extractJson_scanned :
  extractJson
    (pre ++ lit "```json" ++ ws1 ++ object ++ ws2 ++ lit "```" ++ post)
  = Some v.
Proof.
  unfold extractJson.
  destruct (trim _) eqn:Et.
  - exfalso. revert Et. apply (@trim_not_blank _ "`"%char); [|reflexivity].
    apply in_or_app. right. left. reflexivity.
  - destruct fromFence_object as [-> | ->]; [reflexivity|].
    rewrite scan_object_first. reflexivity.
Qed.

End FencedScan.

Section FenceCut.

Import BaseResponseParser.

Variables (pre ws1 body ws2 post : str) (v : json).
Hypothesis no_tick : forallb (fun c => negb (is_char "`" c)) pre = true.
Hypothesis blank1 : forallb is_space ws1 = true.
Hypothesis valid : parse_valid (lit "{" ++ body ++ lit "}") = Some v.
Hypothesis holds_fence :
  includes (lit "```") (lit "{" ++ body ++ lit "}") = true.

(** The fence gives nothing for an object that holds a fence: what it
    captures ends before the end of the object. *)
Lemma fromFence_cut :
  fromFence
    (pre ++ lit "```json" ++ ws1 ++ (lit "{" ++ body ++ lit "}") ++ ws2
         ++ lit "```" ++ post) = None.
Proof.
  destruct (proj1 (includes_iff _ _) holds_fence) as (x & y & E).
  destruct x as [|c a]; [discriminate E|].
  assert (Ec : c = "{"%char) by (simpl in E; congruence). subst c.
  assert (Hy : exists y', y = y' ++ ["}"%char]).
  { destruct (exists_last (l := y)) as (y' & z & ->).
    - intros ->. change (lit "{" ++ body ++ lit "}")
        with (("{"%char :: body) ++ ["}"%char]) in E.
      rewrite app_nil_r in E.
      replace (("{"%char :: a) ++ lit "```")
        with (("{"%char :: a ++ lit "``") ++ ["`"%char]) in E
        by (cbn [app]; rewrite <- app_assoc; reflexivity).
      apply app_inj_tail in E. destruct E as [_ E]. discriminate E.
    - exists y'. f_equal.
      change (lit "{" ++ body ++ lit "}")
        with (("{"%char :: body) ++ ["}"%char]) in E.
      replace (("{"%char :: a) ++ lit "```" ++ y' ++ [z])
        with ((("{"%char :: a) ++ lit "```" ++ y') ++ [z]) in E
        by (rewrite <- !app_assoc; reflexivity).
      apply app_inj_tail in E. destruct E as [_ E]. congruence. }
  destruct Hy as (y' & ->).
  unfold fromFence, rmatch, exec_at, start_state. cbn [prev pos rest].
  rewrite (@exec_from_skip_prefix jsonFence (is_char "`") pre _
             (Starts_Seq _ (@Starts_Str "`"%char _ (is_char "`") eq_refl))
             no_tick).
  destruct (jsonFence_within ws1 a []
              ((y' ++ ["}"%char]) ++ ws2 ++ lit "```" ++ post) blank1 eq_refl
              (prev_after None pre) (0 + length pre))
    as (e & w1 & w2 & Ew & Hm & Hc).
  rewrite E.
  replace ((("{"%char :: a) ++ lit "```" ++ y' ++ ["}"%char]) ++ ws2
             ++ lit "```" ++ post)
    with (("{"%char :: a) ++ [] ++ lit "```"
            ++ (y' ++ ["}"%char]) ++ ws2 ++ lit "```" ++ post)
    by (cbn [app]; rewrite <- !app_assoc; reflexivity).
  rewrite (@exec_from_here _ _ _ _ e Hm).
  unfold group. cbn [m_caps]. rewrite Hc. cbn [get_cap Nat.eqb].
  destruct (cleanFence_prefix w1) as [r Er].
  { destruct w1 as [|c t]; [left; reflexivity|right].
    simpl in Ew. injection Ew as <- _. exists t. reflexivity. }
  rewrite (parse_valid_proper (cleanFence w1) (r ++ w2 ++ lit "```" ++ y')
             "}"%char v); [reflexivity| |reflexivity].
  rewrite <- valid. f_equal. rewrite E, Ew. rewrite Er at 2.
  rewrite <- !app_assoc. reflexivity.
Qed.

End FenceCut.

(** C7 (amended). An object that parses and passes the validity check
    and stands between white space in a json fence (no backtick before
    the fence) is returned by the structured strategy when it holds no
    fence inside it, and also when it holds fences but is found by the
    brace scan: no opening brace stands before the fence and the braces
    of the object, those inside its strings too, are balanced.  Each
    optional field of the record is the field of the object, and the
    server code is the one of the object, or the empty string when the
    object has none.  For an object that holds a fence the json fence
    gives nothing: what is extracted is what the brace scan finds, or
    the whole text read as an object.  The example of the specification
    gives server code "x" and readme "R". *)
Theorem C7_fenced_json (pre ws1 body ws2 post : str) (v : json) :
  forallb (fun c => negb (is_char "`" c)) pre = true ->
  forallb is_space ws1 = true ->
  forallb is_space ws2 = true ->
  BaseResponseParser.parse_valid (lit "{" ++ body ++ lit "}") = Some v ->
  (includes (lit "```") (lit "{" ++ body ++ lit "}") = false \/
   (forallb no_open pre = true /\
    balancedObject (lit "{" ++ body ++ lit "}") = true) ->
   exists r,
     JsonResponseParser.parse
       (pre ++ lit "```json" ++ ws1 ++ (lit "{" ++ body ++ lit "}") ++ ws2
            ++ lit "```" ++ post) = Return r /\
     serverCode r = (if truthy (prop "serverCode" (Some v))
                     then prop "serverCode" (Some v) else jstr []) /\
     packageJson r = prop "packageJson" (Some v) /\
     readme r = prop "readme" (Some v) /\
     installInstructions r = prop "installInstructions" (Some v) /\
     usageExample r = prop "usageExample" (Some v) /\
     dependencies r = prop "dependencies" (Some v) /\
     devDependencies r = prop "devDependencies" (Some v) /\
     scripts r = prop "scripts" (Some v) /\
     additionalFiles r = prop "additionalFiles" (Some v)) /\
  (includes (lit "```") (lit "{" ++ body ++ lit "}") = true ->
   BaseResponseParser.extractJson
     (pre ++ lit "```json" ++ ws1 ++ (lit "{" ++ body ++ lit "}") ++ ws2
          ++ lit "```" ++ post)
   = match BaseResponseParser.firstValid
             (BaseResponseParser.findJsonObjects
                (pre ++ lit "```json" ++ ws1 ++ (lit "{" ++ body ++ lit "}")
                     ++ ws2 ++ lit "```" ++ post)) with
     | Some parsed => Some parsed
     | None =>
         BaseResponseParser.parse_valid
           (trim (pre ++ lit "```json" ++ ws1
                      ++ (lit "{" ++ body ++ lit "}") ++ ws2
                      ++ lit "```" ++ post))
     end) /\
  JsonResponseParser.parse
    (lit "```json
" ++ jsq "{'serverCode':'x','readme':'R'}" ++ lit "
```")
  = Return {| serverCode := jstr (lit "x"); packageJson := undefined;
              readme := jstr (lit "R"); installInstructions := undefined;
              usageExample := undefined; dependencies := undefined;
              devDependencies := undefined; scripts := undefined;
              additionalFiles := undefined |}.
Proof.
  intros Hpre H1 H2 Hv. split; [|split; [|vm_compute; reflexivity]].
  - intros Hcase. exists (JsonResponseParser.fromJson (Some v)).
    split; [|repeat split].
    unfold JsonResponseParser.parse.
    assert (He : BaseResponseParser.extractJson
                   (pre ++ lit "```json" ++ ws1
                        ++ (lit "{" ++ body ++ lit "}")
                        ++ ws2 ++ lit "```" ++ post) = Some v).
    { destruct Hcase as [Hno|[Hopen Hbal]].
      - apply extractJson_fenced; assumption.
      - apply extractJson_scanned; assumption. }
    rewrite He. reflexivity.
  - intros Hfence. unfold BaseResponseParser.extractJson.
    rewrite (fromFence_cut pre ws1 body ws2 post v Hpre H1 Hv Hfence).
    destruct (trim _) eqn:Et; [|reflexivity].
    exfalso. revert Et. apply (@trim_not_blank _ "`"%char); [|reflexivity].
    apply in_or_app. right. left. reflexivity.
Qed.

Lemma C7_fenced_json_witness :
  (exists r,
     JsonResponseParser.parse
       (lit "Here it is: " ++ lit "```json" ++ lit " "
          ++ (lit "{" ++ jsq "'serverCode':'run()','scripts':{}" ++ lit "}")
          ++ [nl] ++ lit "```" ++ lit " done") = Return r /\
     serverCode r = jstr (lit "run()")) /\
  (exists r,
     JsonResponseParser.parse
       (lit "Here it is: " ++ lit "```json" ++ [nl]
          ++ (lit "{" ++ readmeWithFence ++ lit "}")
          ++ [nl] ++ lit "```" ++ lit " done") = Return r /\
     serverCode r = jstr (lit "run()") /\
     readme r = jstr (lit "Use:" ++ [nl] ++ lit "```bash" ++ [nl]
                        ++ lit "npm start" ++ [nl] ++ lit "```")).
Proof.
  split.
  - destruct (C7_fenced_json (lit "Here it is: ") (lit " ")
                (jsq "'serverCode':'run()','scripts':{}") [nl] (lit " done")
                (JObj [(lit "serverCode", JStr (lit "run()"));
                       (lit "scripts", JObj [])]))
      as [H _]; try (vm_compute; reflexivity).
    destruct H as (r & Hr & Hs & _); [left; vm_compute; reflexivity|].
    exists r. split; [exact Hr|exact Hs].
  - destruct (C7_fenced_json (lit "Here it is: ") [nl] readmeWithFence [nl]
                (lit " done")
                (JObj [(lit "serverCode", JStr (lit "run()"));
                       (lit "readme",
                        JStr (lit "Use:" ++ [nl] ++ lit "```bash" ++ [nl]
                                ++ lit "npm start" ++ [nl] ++ lit "```"))]))
      as [H _]; try (vm_compute; reflexivity).
    destruct H as (r & Hr & Hs & _ & Hreadme & _);
      [right; split; vm_compute; reflexivity|].
    exists r. split; [exact Hr|]. split; [exact Hs|exact Hreadme].
Defined.
